(* ===== verification/_CoqProject ===== *)
-Q . S2P
Prelude.v
Vsprintf.v
Scrub.v
Sense.v
SgIo.v
Verify.v
ScrubCore.v
Workers.v
ScrubMain.v
Elevator.v
Noop.v
Deadline.v
BlkQueue.v
BarrierInv.v
Barrier.v
ScsiPrep.v
SgScrubber.v
RequestPool.v
HeapLogic.v
RbTree.v
RbLogic.v
RbInsert.v
RbErase.v
RbWalk.v
RbRequests.v
ListHead.v
HashList.v
Segments.v
Submit.v
RequestData.v
MergeData.v
MergeSched.v
MergeQueue.v
SubmitInv.v
EndIo.v
SubmitWorld.v
