(* ===== verification/Prelude.v ===== *)
(** * The block-layer disk scrubber: a verification development

    The repository adds a disk scrubber to the block layer of Linux 2.6.35
    (paths below are relative to src/linux-2.6.35 unless they say otherwise).
    A kernel thread per disk reads settings from sysfs, walks over the disk in
    one of three orders, and has worker threads send SCSI VERIFY(10) commands,
    which pass through the SG_IO code, the I/O scheduler and the SCSI mid-layer
    to the device.  An older scrubber, a program of sg3_utils, sends the same commands
    from user space.

    ** Parts and files

    - [Prelude] (this file): machine integers at their width, C strings, lists
      of names, tactics.
    - [Vsprintf]: lib/vsprintf.c, the number parser and printer behind sysfs.
    - [Scrub]: block/scrub.c and the hooks in block/genhd.c.  [disk_scrubber]
      is the sysfs object; one definition per show and store handler;
      registration, removal and release as functions on [registration].
    - [Sense]: decoding of SCSI sense data (block/scrub_verify.c); buffers
      are byte lists and a read outside the valid bytes is the value [Fault].
    - [SgIo]: the kernel-side SG_IO path (block/scsi_ioctl.c with the pieces of
      blk-exec.c, blk-core.c, blk-map.c and fs/bio.c it uses).  The device is a
      parameter: a function from a request to its [completion]; the class
      [Device] says that a completion has a full sense buffer of bytes.
    - [Verify]: the VERIFY(10) layer of block/scrub_verify.c on top of both.
    - [ScrubCore]: the strategies and the execution of jobs
      (block/scrub_core.c: seqscrub, stgscrub, fixedscrub, scrubdev,
      and the body of kthread_segread).
    - [Workers]: main thread and workers as interleaved atomic steps
      (segread and the loop of kthread_segread) over x86 ticket locks.
    - [ScrubMain]: one round and the polling loop of the thread (scrubber).
    - [Elevator]: block/elevator.c, and the interface of the I/O schedulers as
      the classes [Sched] (operations) and [SchedOk] (what the elevator relies
      on).
    - [Noop], [Deadline]: block/noop-iosched.c and block/deadline-iosched.c,
      as instances of both classes.
    - [BlkQueue]: the driver's side of the request queue (block/blk-core.c,
      block/blk-barrier.c, block/blk.h and the completion and requeueing of
      block/elevator.c): one definition per function, on the same queue as
      [Elevator]; [SchedFrame] says which parts of it a scheduler leaves alone.
    - [BarrierInv]: the invariant of the count of requests in flight and of
      the flush sequence of a barrier, and the lemmas that move one request.
    - [Barrier]: submitters, queue and driver as one [system], run by lists of
      [event]s, and the theorems on all its runs.
    - [ScsiPrep]: drivers/scsi/scsi_lib.c, what the mid-layer makes of a packet
      command, and the way of a request from [SgIo] through all of these.
    - [SgScrubber]: the user-space scrubber
      (src/sg3_utils-1.28/src/sg_scrubber.c).
    - [RequestPool]: the allocation of requests (block/blk-core.c and the limit
      of block/blk-sysfs.c): the sections of get_request under the queue lock,
      interleaved as a list of [event]s over the processes that ask.
    - [HeapLogic]: the other models name objects by numbers and hold lists and
      trees as sequences; here memory is a map from addresses to words, a
      [prog] reads and writes it, and a separation logic on the proof mode of
      Iris describes parts of it.  [hoare] is its triple with the frame.
    - [RbTree]: lib/rbtree.c and include/linux/rbtree.h, word for word on that
      memory; [RbLogic], [RbInsert], [RbErase], [RbWalk]: trees in memory, and
      the proofs of insertion, removal, traversal and augmentation.
    - [RbRequests]: the trees of requests of block/elevator.c, and that they
      implement the sequences of [Deadline].
    - [ListHead]: include/linux/list.h on memory, and that its lists implement
      sequences; [HashList]: its hash chains and the merge hash of
      block/elevator.c, and that they implement the buckets of [Elevator].
    - [Segments]: bios with their page fragments (include/linux/bio.h), the
      counting of segments and the scatter list of a request (block/blk-merge.c,
      with scsi_init_sgtable of drivers/scsi/scsi_lib.c).
    - [Submit]: how a bio becomes a request or part of one: the limits and the
      coalescing of block/blk-merge.c and [__make_request] of block/blk-core.c,
      split where the queue lock is dropped.  [subq] is the queue of [Elevator]
      with the bios and the data members of its requests.
    - [RequestData], [MergeData]: what a request says about the chain of its
      bios ([request_ok]), and that every merge keeps it true; [MergeSched]:
      what merging relies on in a scheduler, as the class [SchedMerge] with the
      instances for both; [MergeQueue]: the queue under merging; [SubmitInv]:
      the invariant of queue and bios together, for each half of a submission.
    - [EndIo]: the end of I/O on a part of a request (block/blk-core.c:
      blk_update_request, req_bio_endio, blk_rq_err_bytes; fs/bio.c: bio_endio).
    - [SubmitWorld]: submitters, queue and driver as one [world] under any order
      of [action]s, built from [Submit], [BlkQueue] and [EndIo].

    ** What the theorems show

    - [Vsprintf]: the division-free decimal printer equals division by ten;
      what is printed is parsed back.
    - [Scrub]: any sequence of sysfs writes keeps the object well-formed;
      statistics round-trip; removal of a disk leaves its thread running.
    - [Sense]: categories, descriptor search and the failed address are exact
      and read only valid bytes when descriptors are complete.
    - [SgIo]: requests and bios are freed exactly once on every path; the
      device gets the command and the caller its status and sense data.
    - [Verify]: success is only reported for a good answer to the right
      command; medium errors come with their address; the layer is total; the
      32-bit address limit.
    - [ScrubCore], [ScrubMain]: sequential and staggered rounds cover the
      configured part exactly once and end at the end of the disk; jobs are
      split exactly; statistics count the commands; abort and request bound.
    - [Workers]: in every interleaving jobs are neither lost nor duplicated
      while the workers run, and nothing deadlocks once they have started;
      three races at start and stop are exhibited.
    - [Elevator]: for every scheduler that meets the interface, insertion
      conserves requests, barriers are barriers, merges only go to adjacent
      mergeable requests, and the VERIFY insertion point of the scrubber
      keeps its requests out of the merge structures.
    - [Deadline]: its trees and lists stay consistent in every reachable
      state; the dispatch code takes the documented decision; writes are not
      starved; batches sweep upwards; settings stay in range.
    - [Barrier]: in every interleaving of submissions, fetches, requeues and
      completions the counters of requests in flight, which the scrubber
      extended to packet commands, are exact; no request overtakes a barrier;
      a barrier does not wedge the queue, for schedulers that dispatch in
      order; and no BUG of the driver's side is reached.
    - [ScsiPrep]: a VERIFY of the scrubber is always prepared without a BUG
      and served; the exception does not extend to other commands.
    - [SgScrubber]: whole segments are covered exactly; the defects of the
      rest (a tail that overruns the device, a loop that never ends, long
      segments that are read at one address).
    - [RequestPool]: in every interleaving the counters of a queue are exact
      and a process that sleeps for a request can be served; the limit; a value
      of the limit that overflows.
    - [RbInsert], [RbErase], [RbWalk]: insertion and removal keep a red-black
      tree, its order and the rest of memory; walks visit it in order.
    - [RbRequests], [ListHead], [HashList]: refinement of sequences and buckets
      by the structures in memory, and the logarithmic bound on lookups.
    - [Segments]: the scatter list of a request is the cut of its fragments into
      the fewest segments, so it fits in the table that its count gives.
    - [SubmitWorld]: for every scheduler that meets [SchedMerge] and any order of
      submissions, grants of requests, dispatches and completions: no BUG and no
      stray pointer; every bio is in one request, waits, or has been ended once;
      a request is the contiguous run of its bios and can be mapped for the
      device; a failure always makes progress and stops before a bio that is to
      be retried further.  A write can become part of a discard.
    - [EndIo]: however a driver splits the completion of a request, the bytes
      that remain are exactly those not reported yet, and every bio is ended
      once, when its last byte is reported, with an error if any part failed.

    ** Bounds and fuel

    Loops that are not structural take fuel.  Theorems that claim a result
    state how much is enough ([seq_fuel] for a sequential scrub, one more than
    the requests held for draining, [rounds] for the driver's fetch) or the
    definition supplies it itself
    ([rb_fuel], the search for sense descriptors, printing of 64-bit numbers).
    A chain of bios gets one more than there are bios, the loop over the
    fragments of a request one round for each bio and each fragment.
    A loop over a structure in memory gets [mem_fuel], more than there are words;
    the triples are total, so it suffices.
    Integers are those of amd64; HZ is 1000 and NR_CPUS is below 256, so
    that ticket locks have 8-bit tickets.  The theorems on merging take the
    limits of a queue as [limits_ok] says: segments below 2^31 bytes, fewer than
    2^16 - 1 of them (one is left for the drain) and requests of less than 2^32
    bytes; the bios are those [acceptable] describes.

    ** Not modelled

    The CFQ scheduler, which is as large as all of the block code here and would
    be a development of its own; plugging, tags and timeouts; bounce buffers,
    integrity data, the statistics of disks, and what happens to a bio above
    [__make_request] (partitions, stacking, throttling); in [SubmitWorld] the
    flush sequence of a barrier, which is in [Barrier], and partial completions,
    which are in [EndIo]; the pools of requests and bios as memory; chained
    scatter lists; the transfer of data by the SCSI mid-layer and the disk (the
    parameter [device]); user-space entry points of SG_IO and
    mapping of user data; vsnprintf's format interpreter; thread creation
    failures, priorities, locks of sysfs, and messages other than those of
    [scsi_verify]; memory ordering weaker than interleaving; the sg library below
    the user-space scrubber and the evaluation programs. *)
From Stdlib Require Export ZArith Lia Ascii String.
From stdpp Require Export prelude strings list gmap.

#[global] Open Scope string_scope.
#[global] Open Scope list_scope.
#[global] Open Scope Z_scope.
#[global] Set Default Goal Selector "!".

(** ** Machine integers

    The scrubber is built for amd64: [int] has 32 bits, [long],
    [unsigned long long] and [sector_t] have 64.  A machine integer is a [Z]
    and every operation that can leave its range is wrapped explicitly. *)

Definition u8 (z : Z) : Z := z mod 2 ^ 8.
Definition u16 (z : Z) : Z := z mod 2 ^ 16.
Definition u32 (z : Z) : Z := z mod 2 ^ 32.
Definition u64 (z : Z) : Z := z mod 2 ^ 64.

(** Two's complement reading of the low 32 (64) bits. *)
Definition s32 (z : Z) : Z :=
  let r := u32 z in if r <? 2 ^ 31 then r else r - 2 ^ 32.
Definition s64 (z : Z) : Z :=
  let r := u64 z in if r <? 2 ^ 63 then r else r - 2 ^ 64.

Definition in_u8 (z : Z) : Prop := 0 ≤ z < 2 ^ 8.
Definition in_u32 (z : Z) : Prop := 0 ≤ z < 2 ^ 32.
Definition in_u64 (z : Z) : Prop := 0 ≤ z < 2 ^ 64.
Definition in_s32 (z : Z) : Prop := - 2 ^ 31 ≤ z < 2 ^ 31.

(** C truth value of an integer expression. *)
Definition truthy (z : Z) : bool := negb (z =? 0).

(** ** Errno values that are returned negated *)

Definition EPERM : Z := 1.
Definition EIO : Z := 5.
Definition ENXIO : Z := 6.
Definition ENOMEM : Z := 12.
Definition EFAULT : Z := 14.
Definition EINVAL : Z := 22.
Definition ENOTTY : Z := 25.

(** ** Automation *)

(** Turn every boolean comparison of the context and of the goal into the
    arithmetic fact it decides. *)
Ltac zbool :=
  repeat match goal with
  | H : (_ && _)%bool = true |- _ => apply andb_true_iff in H; destruct H
  | H : (_ && _)%bool = false |- _ => apply andb_false_iff in H; destruct H
  | H : (_ || _)%bool = true |- _ => apply orb_true_iff in H; destruct H
  | H : (_ || _)%bool = false |- _ => apply orb_false_iff in H; destruct H
  | H : negb _ = true |- _ => apply negb_true_iff in H
  | H : negb _ = false |- _ => apply negb_false_iff in H
  | H : truthy _ = true |- _ => unfold truthy in H
  | H : truthy _ = false |- _ => unfold truthy in H
  | H : (_ =? _) = true |- _ => apply Z.eqb_eq in H
  | H : (_ =? _) = false |- _ => apply Z.eqb_neq in H
  | H : (_ <? _) = true |- _ => apply Z.ltb_lt in H
  | H : (_ <? _) = false |- _ => apply Z.ltb_ge in H
  | H : (_ <=? _) = true |- _ => apply Z.leb_le in H
  | H : (_ <=? _) = false |- _ => apply Z.leb_gt in H
  | H : (_ >? _) = true |- _ => rewrite Z.gtb_ltb in H
  | H : (_ >? _) = false |- _ => rewrite Z.gtb_ltb in H
  | H : (_ >=? _) = true |- _ => rewrite Z.geb_leb in H
  | H : (_ >=? _) = false |- _ => rewrite Z.geb_leb in H
  end.

(** Case split on the first boolean test of the goal, keeping its meaning. *)
Ltac zcase :=
  match goal with
  | |- context [if ?b then _ else _] => destruct b eqn:?; zbool
  end.

(** The same for a hypothesis. *)
Ltac zcase_in H :=
  match type of H with
  | context [if ?b then _ else _] => destruct b eqn:?; zbool
  end.

(** [lia] with the quotients and remainders spelled out. *)
Ltac dlia := Z.div_mod_to_equations; lia.

Create HintDb scrub discriminated.

(** ** Lemmas on machine integers *)

Lemma u8_small z : in_u8 z → u8 z = z.
Proof. apply Z.mod_small. Qed.
Lemma u16_small z : 0 ≤ z < 2 ^ 16 → u16 z = z.
Proof. apply Z.mod_small. Qed.
Lemma u32_small z : in_u32 z → u32 z = z.
Proof. apply Z.mod_small. Qed.
Lemma u64_small z : in_u64 z → u64 z = z.
Proof. apply Z.mod_small. Qed.

Lemma u8_range z : in_u8 (u8 z).
Proof. apply Z.mod_pos_bound. reflexivity. Qed.
Lemma u32_range z : in_u32 (u32 z).
Proof. apply Z.mod_pos_bound. reflexivity. Qed.
Lemma u64_range z : in_u64 (u64 z).
Proof. apply Z.mod_pos_bound. reflexivity. Qed.

Lemma s32_range z : in_s32 (s32 z).
Proof.
  unfold s32, in_s32. pose proof (u32_range z) as [? ?].
  cbv zeta. zcase; lia.
Qed.

Lemma s32_small z : in_s32 z → s32 z = z.
Proof.
  unfold in_s32, s32, u32. intros ?. cbv zeta.
  destruct (decide (0 ≤ z)).
  - rewrite Z.mod_small by lia. zcase; lia.
  - replace (z mod 2 ^ 32) with (z + 2 ^ 32).
    + zcase; lia.
    + apply Z.mod_unique with (q := -1); lia.
Qed.

Lemma s64_small z : - 2 ^ 63 ≤ z < 2 ^ 63 → s64 z = z.
Proof.
  unfold s64, u64. intros ?. cbv zeta.
  destruct (decide (0 ≤ z)).
  - rewrite Z.mod_small by lia. zcase; lia.
  - replace (z mod 2 ^ 64) with (z + 2 ^ 64).
    + zcase; lia.
    + apply Z.mod_unique with (q := -1); lia.
Qed.

#[export] Hint Resolve u8_range u32_range u64_range s32_range : scrub.

(** [z & 0xff] and [z >> 8k & 0xff] as arithmetic. *)
Lemma land_ff z : Z.land z 255 = z mod 256.
Proof. apply (Z.land_ones z 8). lia. Qed.

Lemma shiftr_div z k : 0 ≤ k → Z.shiftr z k = z / 2 ^ k.
Proof. apply Z.shiftr_div_pow2. Qed.

(** Or-ing disjoint bit fields adds them. *)
Lemma lor_shift_add a b k :
  0 ≤ k → 0 ≤ b < 2 ^ k → Z.lor (a * 2 ^ k) b = a * 2 ^ k + b.
Proof.
  intros Hk Hb. rewrite <- Z.add_lor_land.
  enough (Z.land (a * 2 ^ k) b = 0) as -> by lia.
  apply Z.bits_inj'. intros i Hi. rewrite Z.land_spec, Z.bits_0.
  destruct (decide (i < k)).
  - rewrite Z.mul_pow2_bits_low by lia. done.
  - rewrite <- (Z.mod_small b (2 ^ k)) by lia.
    rewrite Z.mod_pow2_bits_high by lia. apply andb_false_r.
Qed.

(** ** C strings

    A C string is the [string] of the bytes before its NUL terminator.
    [char_at s i] is the byte [s[i]]; the terminator reads as 0. *)

Definition code (c : ascii) : Z := Z.of_N (N_of_ascii c).
Definition chr (z : Z) : ascii := ascii_of_N (Z.to_N z).

Definition char_at (s : string) (i : nat) : Z :=
  match String.get i s with Some c => code c | None => 0 end.

Definition NL : ascii := "010"%char.

(** [strcmp(a, b) == 0]. *)
Definition streq (a b : string) : bool := bool_decide (a = b).

Lemma streq_eq a b : streq a b = true ↔ a = b.
Proof. apply bool_decide_eq_true. Qed.

Lemma streq_neq a b : streq a b = false ↔ a ≠ b.
Proof. apply bool_decide_eq_false. Qed.

Lemma streq_refl a : streq a a = true.
Proof. by apply streq_eq. Qed.

Lemma code_chr z : in_u8 z → code (chr z) = z.
Proof.
  unfold in_u8, code, chr. intros ?.
  rewrite N_ascii_embedding by lia. lia.
Qed.

Lemma code_range c : in_u8 (code c).
Proof.
  unfold in_u8, code. pose proof (N_ascii_bounded c). lia.
Qed.

(** The string of a list of character codes. *)
Fixpoint of_codes (l : list Z) : string :=
  match l with
  | [] => ""
  | z :: l => String (chr z) (of_codes l)
  end.

Lemma of_codes_app l1 l2 : of_codes (l1 ++ l2) = (of_codes l1 +:+ of_codes l2)%string.
Proof. induction l1 as [|z l1 IH]; simpl; [done|]. by rewrite IH. Qed.

(** ** Lists of names

    The element behind [i]. *)
Fixpoint next_in (i : nat) (l : list nat) : option nat :=
  match l with
  | [] => None
  | p :: l' => if Nat.eqb p i then head l' else next_in i l'
  end.

Lemma next_in_split i j l :
  NoDup l → next_in i l = Some j ↔ ∃ l1 l2, l = l1 ++ i :: j :: l2.
Proof.
  induction l as [|p l IH]; intros Hnd; cbn [next_in].
  { split; [done|]. by intros ([|] & l2 & ?). }
  apply NoDup_cons in Hnd as [Hp Hnd]. destruct (Nat.eqb_spec p i) as [->|Hne].
  - split.
    + destruct l as [|x l]; [done|]. intros [= ->]. by exists [], l.
    + intros ([|y l1] & l2 & E); [by simplify_eq/=|]. exfalso. apply Hp.
      simplify_eq/=. apply elem_of_app. right. left.
  - rewrite IH by done. split; intros (l1 & l2 & E).
    + exists (p :: l1), l2. by rewrite E.
    + destruct l1 as [|y l1]; simplify_eq/=. by exists l1, l2.
Qed.

Lemma next_in_elem i j l : next_in i l = Some j → j ∈ l.
Proof.
  induction l as [|p l IH]; cbn [next_in]; [done|]. destruct (Nat.eqb p i).
  - destruct l as [|x l]; [done|]. intros [= ->]. right. left.
  - intros ?. right. by apply IH.
Qed.

Definition without (i : nat) (l : list nat) : list nat := filter (λ j, j ≠ i) l.

Lemma elem_of_without i j l : j ∈ without i l ↔ j ≠ i ∧ j ∈ l.
Proof. unfold without. by rewrite list_elem_of_filter. Qed.

Lemma without_notin i l : i ∉ l → without i l = l.
Proof.
  unfold without. induction l as [|p l IH]; [done|]. rewrite elem_of_cons. intros Hi.
  rewrite filter_cons_True by naive_solver. by rewrite IH by tauto.
Qed.

Lemma without_perm i l : NoDup l → i ∈ l → l ≡ₚ i :: without i l.
Proof.
  unfold without. induction l as [|p l IH]; [by intros _ ?%elem_of_nil|].
  rewrite NoDup_cons, elem_of_cons. intros [Hp Hnd] [->|Hi].
  - rewrite filter_cons_False by (intros E; by apply E). f_equiv.
    by rewrite <- (without_notin p l Hp) at 1.
  - rewrite filter_cons_True by (intros ->; done). rewrite IH at 1 by done. constructor.
Qed.

Lemma NoDup_without i l : NoDup l → NoDup (without i l).
Proof. apply NoDup_filter. Qed.

Lemma without_length i l : NoDup l → i ∈ l → length l = S (length (without i l)).
Proof. intros. by rewrite (without_perm i l) at 1. Qed.

Lemma without_cons i p l :
  without i (p :: l) = if decide (p = i) then without i l else p :: without i l.
Proof.
  unfold without. case_decide; [by rewrite filter_cons_False by tauto|].
  by rewrite filter_cons_True by done.
Qed.

Lemma Forall_without (P : nat → Prop) i l : Forall P l → Forall P (without i l).
Proof.
  rewrite !Forall_forall. intros HP j [_ Hj]%elem_of_without. by apply HP.
Qed.

#[export] Instance without_proper i : Proper ((≡ₚ) ==> (≡ₚ)) (without i).
Proof. intros l l' Hl. unfold without. by rewrite Hl. Qed.

Lemma without_app i l1 l2 : without i (l1 ++ l2) = without i l1 ++ without i l2.
Proof. apply filter_app. Qed.

Lemma without_split k1 i k2 : NoDup (k1 ++ i :: k2) → without i (k1 ++ i :: k2) = k1 ++ k2.
Proof.
  rewrite NoDup_app. intros (_ & Hn & [Hi _]%NoDup_cons).
  rewrite without_app, without_cons, decide_True, !without_notin by set_solver. done.
Qed.
