(* ===== verification/Vsprintf.v ===== *)
(** * Number parsing and printing of the kernel library (lib/vsprintf.c)

    [simple_strtoull] and its variants read the numbers written to the
    scrubber's sysfs attributes; [number] with [put_dec] prints the numbers
    they show.  The file ends with the equivalence of the division-free
    [put_dec] and a plain division-by-ten printer, and with the
    print/parse round trip the sysfs attributes rely on. *)
From S2P Require Import Prelude.

(** ** Character classes (include/linux/ctype.h) *)

Definition isdigit (c : Z) : bool := (48 <=? c) && (c <=? 57).
Definition isxdigit (c : Z) : bool :=
  isdigit c || ((65 <=? c) && (c <=? 70)) || ((97 <=? c) && (c <=? 102)).

(** [TOLOWER(x)] is [x | 0x20]. *)
Definition TOLOWER (x : Z) : Z := Z.lor x 32.

(** ** Parsing *)

Definition simple_guess_base (cp : string) : Z :=
  if char_at cp 0 =? 48 then
    if (TOLOWER (char_at cp 1) =? 120) && isxdigit (char_at cp 2) then 16 else 8
  else 10.

(** Value of one digit: its distance to '0', or to 'a' plus ten. *)
Definition digit_value (c : Z) : Z :=
  if isdigit c then c - 48 else TOLOWER c - 97 + 10.

(** The loop of [simple_strtoull]: the value read so far and the rest of the
    text, where [endp] is left. *)
Fixpoint strtoull_loop (base result : Z) (cp : string) : Z * string :=
  match cp with
  | EmptyString => (result, cp)
  | String c cp' =>
      if isxdigit (code c) then
        let value := digit_value (code c) in
        if base <=? value then (result, cp)
        else strtoull_loop base (u64 (result * base + value)) cp'
      else (result, cp)
  end.

(** [cp += 2] on a text whose first two bytes are not its terminator. *)
Definition skip2 (cp : string) : string :=
  match cp with
  | String _ (String _ r) => r
  | _ => ""
  end.

Definition simple_strtoull (cp : string) (base : Z) : Z * string :=
  let base := if base =? 0 then simple_guess_base cp else base in
  let cp :=
    if (base =? 16) && (char_at cp 0 =? 48) && (TOLOWER (char_at cp 1) =? 120)
    then skip2 cp else cp in
  strtoull_loop base 0 cp.

(** [unsigned long] is as wide as [unsigned long long]. *)
Definition simple_strtoul (cp : string) (base : Z) : Z * string :=
  simple_strtoull cp base.

Definition str_tail (cp : string) : string :=
  match cp with String _ r => r | EmptyString => "" end.

(** The negation is taken on [unsigned long]; the return converts to [long]. *)
Definition simple_strtol (cp : string) (base : Z) : Z * string :=
  if char_at cp 0 =? 45 then
    let '(v, e) := simple_strtoul (str_tail cp) base in (s64 (u64 (- v)), e)
  else
    let '(v, e) := simple_strtoul cp base in (s64 v, e).

(** ** Printing

    A printing routine returns the characters it stores, in store order. *)

Definition put_dec_trunc (q : Z) : list Z :=
  let d1 := Z.land (Z.shiftr q 4) 15 in
  let d2 := Z.land (Z.shiftr q 8) 15 in
  let d3 := Z.shiftr q 12 in
  let d0 := u32 (6 * (d3 + d2 + d1) + Z.land q 15) in
  let q := Z.shiftr (u32 (d0 * 205)) 11 in
  let d0 := u32 (d0 - 10 * q) in
  let d1 := u32 (q + 9 * d3 + 5 * d2 + d1) in
  d0 + 48 ::
  (if d1 =? 0 then [] else
    let q := Z.shiftr (u32 (d1 * 205)) 11 in
    let d1 := u32 (d1 - 10 * q) in
    d1 + 48 ::
    (let d2 := u32 (q + 2 * d2) in
     if (d2 =? 0) && (d3 =? 0) then [] else
       let q := Z.shiftr (u32 (d2 * 13)) 7 in
       let d2 := u32 (d2 - 10 * q) in
       d2 + 48 ::
       (let d3 := u32 (q + 4 * d3) in
        if d3 =? 0 then [] else
          let q := Z.shiftr (u32 (d3 * 205)) 11 in
          let d3 := u32 (d3 - 10 * q) in
          d3 + 48 :: (if q =? 0 then [] else [q + 48])))).

Definition put_dec_full (q : Z) : list Z :=
  let d1 := Z.land (Z.shiftr q 4) 15 in
  let d2 := Z.land (Z.shiftr q 8) 15 in
  let d3 := Z.shiftr q 12 in
  let d0 := u32 (6 * (d3 + d2 + d1) + Z.land q 15) in
  let q := Z.shiftr (u32 (d0 * 205)) 11 in
  let d0 := u32 (d0 - 10 * q) in
  let d1 := u32 (q + 9 * d3 + 5 * d2 + d1) in
  let q := Z.shiftr (u32 (d1 * 205)) 11 in
  let d1 := u32 (d1 - 10 * q) in
  let d2 := u32 (q + 2 * d2) in
  let q := Z.shiftr (u32 (d2 * 13)) 7 in
  let d2 := u32 (d2 - 10 * q) in
  let d3 := u32 (q + 4 * d3) in
  let q := Z.shiftr (u32 (d3 * 205)) 11 in
  let d3 := u32 (d3 - 10 * q) in
  [d0 + 48; d1 + 48; d2 + 48; d3 + 48; q + 48].

(** The [while (1)] of [put_dec]; [None] when the fuel runs out. *)
Fixpoint put_dec_loop (fuel : nat) (num : Z) : option (list Z) :=
  match fuel with
  | O => None
  | S fuel =>
      if num <? 100000 then Some (put_dec_trunc num)
      else
        let rem := num mod 100000 in
        let num := num / 100000 in
        rest ← put_dec_loop fuel num;
        Some (put_dec_full rem ++ rest)
  end.

(** Four divisions by 100000 bring any 64-bit number below 100000. *)
Definition put_dec (num : Z) : option (list Z) := put_dec_loop 4 num.

(** Flags of [struct printf_spec]. *)
Definition ZEROPAD : Z := 1.
Definition SIGN : Z := 2.
Definition PLUS : Z := 4.
Definition SPACE : Z := 8.
Definition LEFT : Z := 16.
Definition SMALL : Z := 32.
Definition SPECIAL : Z := 64.

Record printf_spec := {
  flags : Z;
  base : Z;
  field_width : Z;
  precision : Z;
}.

Definition has (fl bit : Z) : bool := truthy (Z.land fl bit).

(** [digits[k]], of the table "0123456789ABCDEF". *)
Definition hexdigit (k : Z) : Z := if k <? 10 then 48 + k else 55 + k.

(** The digit loop of bases 8 and 16, least significant digit first. *)
Fixpoint number_loop (fuel : nat) (mask shift locase num : Z) : list Z :=
  match fuel with
  | O => []
  | S fuel =>
      let c := Z.lor (hexdigit (Z.land (u8 num) mask)) locase in
      let num := Z.shiftr num shift in
      c :: (if num =? 0 then [] else number_loop fuel mask shift locase num)
  end.

(** The sign character (0 for none), the magnitude and the field width left
    after the [SIGN] step of [number]. *)
Definition number_sign (fl num fw : Z) : Z * Z * Z :=
  if has fl SIGN then
    if s64 num <? 0 then (45, u64 (- s64 num), fw - 1)
    else if has fl PLUS then (43, num, fw - 1)
    else if has fl SPACE then (32, num, fw - 1)
    else (0, num, fw)
  else (0, num, fw).

Definition repl (c n : Z) : list Z := replicate (Z.to_nat n) c.

(** The field width after [while (--fw >= 0)]. *)
Definition drained (fw : Z) : Z := Z.min fw 0 - 1.

(** [number] for a buffer that is long enough ([sprintf]): every [buf < end]
    test succeeds.  22 octal digits hold 64 bits. *)
Definition number (num : Z) (spec : printf_spec) : option (list Z) :=
  let need_pfx := has (flags spec) SPECIAL && negb (base spec =? 10) in
  let locase := Z.land (flags spec) SMALL in
  let fl := if has (flags spec) LEFT then Z.land (flags spec) (Z.lnot ZEROPAD)
            else flags spec in
  let '(sign, num, fw) := number_sign fl num (field_width spec) in
  let fw := if need_pfx then if base spec =? 16 then fw - 2 else fw - 1 else fw in
  tmp ← (if num =? 0 then Some [48]
         else if negb (base spec =? 10) then
           let shift := if base spec =? 16 then 4 else 3 in
           Some (number_loop 22 (base spec - 1) shift locase num)
         else put_dec num);
  let i := Z.of_nat (length tmp) in
  let prec := if precision spec <? i then i else precision spec in
  let fw := fw - prec in
  let pad := negb (has fl (ZEROPAD + LEFT)) in
  let out1 := if pad then repl 32 fw else [] in
  let fw := if pad then drained fw else fw in
  let out2 := if sign =? 0 then [] else [sign] in
  let out3 := if need_pfx then
                48 :: (if base spec =? 16 then [Z.lor 88 locase] else [])
              else [] in
  let nleft := negb (has fl LEFT) in
  let out4 := if nleft then repl (if has fl ZEROPAD then 48 else 32) fw else [] in
  let fw := if nleft then drained fw else fw in
  let out5 := repl 48 (prec - i) in
  let out6 := rev tmp in
  let out7 := repl 32 fw in
  Some (out1 ++ out2 ++ out3 ++ out4 ++ out5 ++ out6 ++ out7).

(** What the conversions "%llu" and "%d" hand to [number]; [format_decode]
    leaves width and precision at -1, [vsnprintf] widens the [int]. *)
Definition spec_llu : printf_spec :=
  {| flags := 0; base := 10; field_width := -1; precision := -1 |}.
Definition spec_d : printf_spec :=
  {| flags := SIGN; base := 10; field_width := -1; precision := -1 |}.

Definition fmt_llu (n : Z) : string :=
  of_codes (default [] (number n spec_llu)).
Definition fmt_d (n : Z) : string :=
  of_codes (default [] (number (u64 n) spec_d)).

(** ** Reference printer: repeated division by ten *)

Fixpoint dec_digits (fuel : nat) (n : Z) : list Z :=
  match fuel with
  | O => []
  | S fuel => 48 + n mod 10 :: (if n <? 10 then [] else dec_digits fuel (n / 10))
  end.

Fixpoint dec_fixed (k : nat) (n : Z) : list Z :=
  match k with
  | O => []
  | S k => 48 + n mod 10 :: dec_fixed k (n / 10)
  end.

(** The number a least-significant-first digit list denotes. *)
Fixpoint dec_val (l : list Z) : Z :=
  match l with
  | [] => 0
  | c :: l => (c - 48) + 10 * dec_val l
  end.

(** ** The division-free routines agree with the reference on [0,99999] *)

(** The multiply-and-shift quotients are divisions by ten on the ranges the
    routines use them on. *)
Lemma mul205_div10 x : 0 ≤ x < 340 → Z.shiftr (u32 (x * 205)) 11 = x / 10.
Proof.
  intros. rewrite u32_small by (unfold in_u32; lia).
  rewrite shiftr_div by lia. dlia.
Qed.

Lemma mul13_div10 x : 0 ≤ x < 69 → Z.shiftr (u32 (x * 13)) 7 = x / 10.
Proof.
  intros. rewrite u32_small by (unfold in_u32; lia).
  rewrite shiftr_div by lia. dlia.
Qed.

Lemma nibbles q :
  0 ≤ q →
  let d1 := Z.land (Z.shiftr q 4) 15 in
  let d2 := Z.land (Z.shiftr q 8) 15 in
  let d3 := Z.shiftr q 12 in
  q = 4096 * d3 + 256 * d2 + 16 * d1 + Z.land q 15 ∧
  0 ≤ d1 < 16 ∧ 0 ≤ d2 < 16 ∧ 0 ≤ d3 ∧ 0 ≤ Z.land q 15 < 16.
Proof.
  intros Hq d1 d2 d3. unfold d1, d2, d3. rewrite !shiftr_div by lia.
  change 15 with (Z.ones 4). rewrite !Z.land_ones by lia.
  change (2 ^ 4) with 16. change (2 ^ 8) with 256. change (2 ^ 12) with 4096. dlia.
Qed.

(** One digit of the reference printers on a number given as [x + 10 * k]. *)
Lemma dec_fixed_step f n x k :
  n = x + 10 * k →
  dec_fixed (S f) n = x - 10 * (x / 10) + 48 :: dec_fixed f (x / 10 + k).
Proof. intros ->. cbn [dec_fixed]. f_equal; [|f_equal]; dlia. Qed.

Lemma dec_digits_step f n x k :
  n = x + 10 * k →
  dec_digits (S f) n =
  x - 10 * (x / 10) + 48 :: (if n <? 10 then [] else dec_digits f (x / 10 + k)).
Proof.
  intros ->. cbn [dec_digits]. f_equal; [dlia|]. zcase; f_equal; dlia.
Qed.

(** Split [q] in nibbles and replace the approximate quotients one by one:
    [x0] .. [x3] are the partial sums whose last digits are printed. *)
Ltac put_dec_steps q :=
  let Hn := fresh "Hn" in
  pose proof (nibbles q ltac:(lia)) as Hn; cbv zeta in Hn;
  generalize dependent (Z.land q 15); generalize dependent (Z.shiftr q 12);
  generalize dependent (Z.land (Z.shiftr q 8) 15);
  generalize dependent (Z.land (Z.shiftr q 4) 15);
  intros d1 d2 d3 d0 [Hq ?]; cbv zeta;
  rewrite (u32_small (6 * _ + _)) by (unfold in_u32; lia);
  remember (6 * (d3 + d2 + d1) + d0) as x0 eqn:E0;
  rewrite (mul205_div10 x0) by lia;
  rewrite (u32_small (_ + 9 * _ + _ + _)) by (unfold in_u32; dlia);
  remember (x0 / 10 + 9 * d3 + 5 * d2 + d1) as x1 eqn:E1;
  assert (0 ≤ x1 < 340) by dlia;
  rewrite (mul205_div10 x1) by lia;
  rewrite (u32_small (_ + 2 * _)) by (unfold in_u32; dlia);
  remember (x1 / 10 + 2 * d2) as x2 eqn:E2;
  assert (0 ≤ x2 < 69) by dlia;
  rewrite (mul13_div10 x2) by lia;
  rewrite (u32_small (_ + 4 * _)) by (unfold in_u32; dlia);
  remember (x2 / 10 + 4 * d3) as x3 eqn:E3;
  assert (0 ≤ x3 < 340) by dlia;
  rewrite (mul205_div10 x3) by lia;
  rewrite !(u32_small (_ - _)) by (unfold in_u32; dlia).

Lemma put_dec_full_ref q : 0 ≤ q < 100000 → put_dec_full q = dec_fixed 5 q.
Proof.
  intros Hr. unfold put_dec_full. put_dec_steps q.
  rewrite (dec_fixed_step _ _ x0 (409 * d3 + 25 * d2 + d1)) by lia.
  rewrite (dec_fixed_step _ _ x1 (40 * d3 + 2 * d2)) by lia.
  rewrite (dec_fixed_step _ _ x2 (4 * d3)) by lia.
  rewrite (dec_fixed_step _ _ x3 0) by lia.
  cbn [dec_fixed]. do 5 f_equal. dlia.
Qed.

Lemma put_dec_trunc_ref q : 0 ≤ q < 100000 → put_dec_trunc q = dec_digits 5 q.
Proof.
  intros Hr. unfold put_dec_trunc. put_dec_steps q.
  rewrite (dec_digits_step _ _ x0 (409 * d3 + 25 * d2 + d1)) by lia. f_equal.
  replace (x1 =? 0) with (q <? 10)
    by (apply eq_true_iff_eq; rewrite Z.eqb_eq, Z.ltb_lt; dlia).
  destruct (q <? 10) eqn:?; [done|]; zbool.
  rewrite (dec_digits_step _ _ x1 (40 * d3 + 2 * d2)) by lia. f_equal.
  replace ((x2 =? 0) && (d3 =? 0))
    with (x0 / 10 + (409 * d3 + 25 * d2 + d1) <? 10)
    by (apply eq_true_iff_eq; rewrite andb_true_iff, !Z.eqb_eq, Z.ltb_lt; dlia).
  zcase; [done|].
  rewrite (dec_digits_step _ _ x2 (4 * d3)) by lia. f_equal.
  replace (x3 =? 0) with (x1 / 10 + (40 * d3 + 2 * d2) <? 10)
    by (apply eq_true_iff_eq; rewrite Z.eqb_eq, Z.ltb_lt; dlia).
  zcase; [done|].
  rewrite (dec_digits_step _ _ x3 0) by lia. f_equal.
  replace (x3 / 10 =? 0) with (x2 / 10 + 4 * d3 <? 10)
    by (apply eq_true_iff_eq; rewrite Z.eqb_eq, Z.ltb_lt; dlia).
  zcase; [done|]. cbn [dec_digits]. zcase; [f_equal|]; dlia.
Qed.

(** Printing the low digits and then the quotient prints the number. *)
Lemma dec_digits_split k fuel n :
  10 ^ Z.of_nat k ≤ n →
  dec_digits (k + fuel) n =
  dec_fixed k (n mod 10 ^ Z.of_nat k) ++ dec_digits fuel (n / 10 ^ Z.of_nat k).
Proof.
  revert n. induction k as [|k IH]; intros n Hn.
  - simpl. by rewrite Z.div_1_r.
  - rewrite Nat2Z.inj_succ, Z.pow_succ_r in * by lia.
    assert (0 < 10 ^ Z.of_nat k) by (apply Z.pow_pos_nonneg; lia).
    cbn [dec_digits dec_fixed plus app].
    destruct (n <? 10) eqn:E; zbool; [nia|].
    rewrite IH by (apply Z.div_le_lower_bound; lia).
    rewrite Z.rem_mul_r by lia. generalize (n / 10 mod 10 ^ Z.of_nat k) as r.
    intros r. replace ((n mod 10 + 10 * r) mod 10) with (n mod 10) by dlia.
    replace ((n mod 10 + 10 * r) / 10) with r by dlia.
    rewrite Zdiv_Zdiv by lia. done.
Qed.

(** Enough fuel never matters. *)
Lemma dec_digits_fuel n f1 f2 :
  0 ≤ n → n < 10 ^ Z.of_nat f1 → n < 10 ^ Z.of_nat f2 →
  (0 < f1)%nat → (0 < f2)%nat → dec_digits f1 n = dec_digits f2 n.
Proof.
  revert n f2. induction f1 as [|f1 IH]; intros n [|f2] H0 H1 H2 ? ?; try lia.
  cbn [dec_digits]. f_equal. zcase; [done|].
  rewrite Nat2Z.inj_succ, Z.pow_succ_r in H1, H2 by lia.
  apply IH; [dlia|dlia|dlia| |].
  - destruct f1; [simpl in *; lia | lia].
  - destruct f2; [simpl in *; lia | lia].
Qed.

Lemma put_dec_loop_ref fuel num :
  (0 < fuel)%nat → 0 ≤ num < 100000 ^ Z.of_nat fuel →
  put_dec_loop fuel num = Some (dec_digits (5 * fuel) num).
Proof.
  revert num. induction fuel as [|fuel IH]; intros num ? Hn; [lia|].
  cbn [put_dec_loop]. zcase.
  - rewrite put_dec_trunc_ref by lia. f_equal.
    apply dec_digits_fuel; try lia.
    apply Z.lt_le_trans with (10 ^ 5); [lia|]. apply Z.pow_le_mono_r; lia.
  - rewrite Nat2Z.inj_succ, Z.pow_succ_r in Hn by lia.
    destruct fuel as [|fuel]; [simpl in Hn; lia|].
    rewrite IH by (try lia; split; dlia).
    unfold mbind, option_bind. rewrite put_dec_full_ref by dlia. f_equal.
    replace (5 * S (S fuel))%nat with (5 + 5 * S fuel)%nat by lia.
    rewrite (dec_digits_split 5 (5 * S fuel)) by (simpl; lia). done.
Qed.

Lemma put_dec_ref num : in_u64 num → put_dec num = Some (dec_digits 20 num).
Proof. intros [? ?]. apply put_dec_loop_ref; simpl; lia. Qed.

Definition is_dec (c : Z) : Prop := 48 ≤ c ≤ 57.

Lemma dec_digits_dec f n : 0 ≤ n → Forall is_dec (dec_digits f n).
Proof.
  revert n. induction f as [|f IH]; intros n ?; [constructor|].
  cbn [dec_digits]. constructor; [unfold is_dec; dlia|].
  zcase; [constructor|]. apply IH. dlia.
Qed.

Lemma dec_digits_val f n :
  0 ≤ n < 10 ^ Z.of_nat f → (0 < f)%nat → dec_val (dec_digits f n) = n.
Proof.
  revert n. induction f as [|f IH]; intros n Hn ?; [lia|].
  cbn [dec_digits]. rewrite Nat2Z.inj_succ, Z.pow_succ_r in Hn by lia.
  zcase; cbn [dec_val]; [dlia|].
  destruct f as [|f]; [simpl in Hn; lia|].
  rewrite IH; [dlia| |lia]. dlia.
Qed.

Lemma dec_digits_nonempty f n : (0 < f)%nat → (0 < length (dec_digits f n))%nat.
Proof. destruct f; simpl; lia. Qed.

(** ** What the printf conversions produce *)

Lemma repl_neg c n : n ≤ 0 → repl c n = [].
Proof. intros. unfold repl. by replace (Z.to_nat n) with O by lia. Qed.

Lemma number_plain fl num sign mag :
  fl = 0 ∨ fl = SIGN →
  number_sign fl num (-1) = (sign, mag, -1 - (if sign =? 0 then 0 else 1)) →
  in_u64 mag →
  number num {| flags := fl; base := 10; field_width := -1; precision := -1 |} =
  Some ((if sign =? 0 then [] else [sign]) ++ rev (dec_digits 20 mag)).
Proof.
  intros Hfl Hs Hm. unfold number. cbn [flags base field_width precision].
  assert (has fl SPECIAL = false ∧ has fl LEFT = false ∧
          has fl (ZEROPAD + LEFT) = false ∧ has fl ZEROPAD = false)
    as (E1 & E2 & E3 & E4) by (by destruct Hfl as [-> | ->]).
  rewrite E1, !E2, E3, E4, Hs.
  cbn [negb andb Z.eqb Pos.eqb].
  assert ((if mag =? 0 then Some [48] else put_dec mag) =
          Some (dec_digits 20 mag)) as ->.
  { zcase; [by subst|]. by apply put_dec_ref. }
  unfold mbind, option_bind.
  pose proof (dec_digits_nonempty 20 mag ltac:(lia)).
  replace (-1 <? Z.of_nat (length (dec_digits 20 mag))) with true
    by (symmetry; apply Z.ltb_lt; lia).
  unfold drained. destruct (sign =? 0);
    rewrite !repl_neg by lia; rewrite ?app_nil_l, ?app_nil_r; done.
Qed.

Lemma fmt_llu_digits n : in_u64 n → fmt_llu n = of_codes (rev (dec_digits 20 n)).
Proof.
  intros. unfold fmt_llu, spec_llu.
  rewrite (number_plain 0 n 0 n); [done | by left | done | done].
Qed.

Lemma fmt_d_digits n :
  in_s32 n →
  fmt_d n = of_codes ((if n <? 0 then [45] else []) ++
                      rev (dec_digits 20 (Z.abs n))).
Proof.
  unfold in_s32. intros. unfold fmt_d, spec_d.
  assert (s64 (u64 n) = n) as Hs.
  { rewrite <- (s64_small n) at 2 by lia. unfold s64, u64. by rewrite Zmod_mod. }
  rewrite (number_plain SIGN (u64 n) (if n <? 0 then 45 else 0) (Z.abs n)).
  - by destruct (n <? 0).
  - by right.
  - unfold number_sign. change (has SIGN SIGN) with true.
    change (has SIGN PLUS) with false. change (has SIGN SPACE) with false.
    cbn iota. rewrite Hs. zcase; repeat f_equal.
    + rewrite u64_small; unfold in_u64; lia.
    + unfold u64. rewrite Z.mod_small; lia.
  - unfold in_u64. lia.
Qed.

(** ** Parsing decimal digits *)

Definition horner (a c : Z) : Z := a * 10 + (c - 48).

Lemma foldl_horner_rev l : foldl horner 0 (rev l) = dec_val l.
Proof.
  induction l as [|c l IH]; [done|]. simpl.
  rewrite foldl_app. simpl. rewrite IH. unfold horner. lia.
Qed.

(** The parser stops in front of [rest]. *)
Definition stops (rest : string) : Prop := isdigit (char_at rest 0) = false.

Lemma isdigit_dec c : is_dec c → isdigit c = true.
Proof. unfold is_dec, isdigit. intros. apply andb_true_iff. lia. Qed.

Lemma digit_value_hex c : isxdigit c = true → isdigit c = false → 10 ≤ digit_value c.
Proof.
  unfold isxdigit, digit_value. intros H E. rewrite E in *. simpl in H. zbool.
  - assert (c = 65 ∨ c = 66 ∨ c = 67 ∨ c = 68 ∨ c = 69 ∨ c = 70) by lia.
    by destruct_or!; subst.
  - assert (c = 97 ∨ c = 98 ∨ c = 99 ∨ c = 100 ∨ c = 101 ∨ c = 102) by lia.
    by destruct_or!; subst.
Qed.

Lemma strtoull_loop_stop acc rest :
  stops rest → strtoull_loop 10 acc rest = (acc, rest).
Proof.
  destruct rest as [|c rest]; [done|]. unfold stops, char_at. simpl. intros E.
  zcase; [|done].
  assert ((10 <=? digit_value (code c)) = true) as ->; [|done].
  apply Z.leb_le. by apply digit_value_hex.
Qed.

(** The value read is the decimal value modulo 2^64. *)
Lemma strtoull_loop_dec l acc rest :
  Forall is_dec l → stops rest →
  strtoull_loop 10 (u64 acc) (of_codes l +:+ rest) = (u64 (foldl horner acc l), rest).
Proof.
  intros Hl Hrest. revert acc. induction Hl as [|c l Hc Hl IH]; intros acc; simpl.
  - by apply strtoull_loop_stop.
  - rewrite code_chr by (unfold is_dec, in_u8 in *; lia).
    unfold isxdigit, digit_value. rewrite isdigit_dec by done. simpl.
    replace (10 <=? c - 48) with false
      by (symmetry; apply Z.leb_gt; unfold is_dec in *; lia).
    rewrite <- (IH (horner acc c)). f_equal. unfold horner, u64.
    by rewrite Zplus_mod, Zmult_mod_idemp_l, <- Zplus_mod.
Qed.

Lemma simple_strtoull_10 cp : simple_strtoull cp 10 = strtoull_loop 10 0 cp.
Proof. done. Qed.

Lemma simple_strtoull_digits l rest :
  Forall is_dec l → stops rest →
  simple_strtoull (of_codes l +:+ rest) 10 = (u64 (foldl horner 0 l), rest).
Proof. intros. rewrite simple_strtoull_10. by apply (strtoull_loop_dec l 0). Qed.

Lemma Forall_rev' {A} (P : A → Prop) l : Forall P l → Forall P (rev l).
Proof. intros. by apply Forall_rev. Qed.

Lemma strtoull_rev_digits n rest :
  in_u64 n → stops rest →
  simple_strtoull (of_codes (rev (dec_digits 20 n)) +:+ rest) 10 = (n, rest).
Proof.
  intros [? ?] ?. rewrite simple_strtoull_digits; [|by apply Forall_rev', dec_digits_dec|done].
  rewrite foldl_horner_rev, dec_digits_val by lia.
  rewrite u64_small by done. done.
Qed.

Lemma strtoull_fmt_llu n rest :
  in_u64 n → stops rest → simple_strtoull (fmt_llu n +:+ rest) 10 = (n, rest).
Proof. intros. rewrite fmt_llu_digits by done. by apply strtoull_rev_digits. Qed.

(** The first digit is never a minus sign. *)
Lemma char_at_dec_head l rest :
  Forall is_dec l → l ≠ [] → is_dec (char_at (of_codes l +:+ rest) 0).
Proof.
  intros [|c l' Hc _] ?; [done|]. unfold char_at. simpl.
  by rewrite code_chr by (unfold is_dec, in_u8 in *; lia).
Qed.

Lemma strtol_fmt_d n rest :
  in_s32 n → stops rest → simple_strtol (fmt_d n +:+ rest) 10 = (n, rest).
Proof.
  intros Hn ?. rewrite fmt_d_digits by done. unfold in_s32 in Hn.
  assert (Forall is_dec (rev (dec_digits 20 (Z.abs n)))) as Hdec
    by (apply Forall_rev', dec_digits_dec; lia).
  assert (rev (dec_digits 20 (Z.abs n)) ≠ []) as Hne.
  { intros E%(f_equal length). rewrite length_rev in E.
    pose proof (dec_digits_nonempty 20 (Z.abs n) ltac:(lia)) as Hl.
    rewrite E in Hl. by apply Nat.lt_irrefl in Hl. }
  assert (in_u64 (Z.abs n)) by (unfold in_u64; lia).
  unfold simple_strtol, simple_strtoul. destruct (n <? 0) eqn:?; zbool.
  - change (char_at _ 0 =? 45) with true. cbn iota.
    change (str_tail _) with (of_codes (rev (dec_digits 20 (Z.abs n))) +:+ rest).
    rewrite strtoull_rev_digits by done. f_equal.
    transitivity (s64 n); [|apply s64_small; lia].
    unfold s64, u64. rewrite Zmod_mod. by replace (- Z.abs n) with n by lia.
  - rewrite app_nil_l.
    pose proof (char_at_dec_head _ rest Hdec Hne) as Hc. unfold is_dec in Hc.
    destruct (char_at _ 0 =? 45) eqn:E; zbool; [lia|].
    rewrite strtoull_rev_digits by done. rewrite s64_small by lia. f_equal. lia.
Qed.

(** ** Properties *)

(** C36: [put_dec] is total on 64-bit numbers and the characters it stores,
    computed without division by ten, are those of the reference printer that
    divides by ten. *)
Theorem put_dec_correct num :
  in_u64 num → put_dec num = Some (dec_digits 20 num).
Proof. apply put_dec_ref. Qed.

Lemma put_dec_correct_witness :
  in_u64 18446744073709551615 ∧
  put_dec 18446744073709551615 = Some (dec_digits 20 18446744073709551615).
Proof.
  split; [unfold in_u64; lia|]. apply put_dec_correct. unfold in_u64; lia.
Defined.

(** C37: What "%llu" prints, [simple_strtoull] reads back unchanged, whatever
    non-digit text follows. *)
Theorem print_parse_roundtrip n rest :
  in_u64 n → stops rest → simple_strtoull (fmt_llu n +:+ rest) 10 = (n, rest).
Proof. apply strtoull_fmt_llu. Qed.

Lemma print_parse_roundtrip_witness :
  simple_strtoull (fmt_llu 131072 +:+ String NL "") 10 = (131072, String NL "").
Proof. apply print_parse_roundtrip; [unfold in_u64; lia | done]. Defined.

(** A decimal number of any length is read modulo 2^64: the parser has no
    overflow check. *)
Theorem strtoull_wraps l rest :
  Forall is_dec l → stops rest →
  simple_strtoull (of_codes l +:+ rest) 10 = (dec_val (rev l) mod 2 ^ 64, rest).
Proof.
  intros. rewrite simple_strtoull_digits by done.
  by rewrite <- foldl_horner_rev, rev_involutive.
Qed.

Lemma strtoull_wraps_witness :
  simple_strtoull "18446744073709551617" 10 = (1, "").
Proof.
  apply (strtoull_wraps [49;56;52;52;54;55;52;52;48;55;51;55;48;57;53;53;49;54;49;55] "").
  - repeat (constructor; [unfold is_dec; lia|]). constructor.
  - done.
Defined.
