(* ===== verification/Scrub.v ===== *)
(** * The scrubber object and its sysfs interface (block/scrub.c)

    [disk_scrubber] is the per-disk scrubber object of include/linux/scrub.h.
    Every sysfs attribute is a [scrub_sysfs_entry] with its show and store
    handlers; [scrub_attr_show] and [scrub_attr_store] dispatch to them under
    [sysfs_lock], so one call is one atomic step.  The end of the file models
    the life cycle: registration with the disk, and unregistration. *)
From S2P Require Import Prelude Vsprintf.

(** ** The disk (include/linux/genhd.h), as far as the scrubber reads it *)

Record gendisk := mk_gendisk {
  gd_name : string;
  gd_major : Z;
  gd_queue : bool;      (** whether a request queue is attached *)
  nr_sects : Z;         (** [part0.nr_sects], in 512-byte sectors *)
}.

Definition get_capacity (d : gendisk) : Z := nr_sects d.

(** ** The scrubber object (struct disk_scrubber, include/linux/scrub.h)

    The pointers to the task, the disk, the kobject and the mutex are not
    data; [idle] is written by no code. *)
Record disk_scrubber := mk_disk_scrubber {
  disk_name : string;
  reqbound : Z;
  strategy : string;
  priority : string;
  segsize : Z;
  regsize : Z;
  state : Z;
  threads : Z;
  dpo : Z;
  vrprotect : Z;
  verbose : Z;
  timed : Z;
  ttime_ms : Z;
  resptime_us : Z;
  reqcount : Z;
  spoint : Z;
  scount : Z;
  delayms : Z;
}.

(** Assignments to one field, [s->f = v]. *)
Definition set_reqbound (v : Z) (s : disk_scrubber) : disk_scrubber :=
  mk_disk_scrubber (disk_name s) v (strategy s) (priority s) (segsize s) (regsize s)
    (state s) (threads s) (dpo s) (vrprotect s) (verbose s) (timed s) (ttime_ms s)
    (resptime_us s) (reqcount s) (spoint s) (scount s) (delayms s).
Definition set_strategy (v : string) (s : disk_scrubber) : disk_scrubber :=
  mk_disk_scrubber (disk_name s) (reqbound s) v (priority s) (segsize s) (regsize s)
    (state s) (threads s) (dpo s) (vrprotect s) (verbose s) (timed s) (ttime_ms s)
    (resptime_us s) (reqcount s) (spoint s) (scount s) (delayms s).
Definition set_priority (v : string) (s : disk_scrubber) : disk_scrubber :=
  mk_disk_scrubber (disk_name s) (reqbound s) (strategy s) v (segsize s) (regsize s)
    (state s) (threads s) (dpo s) (vrprotect s) (verbose s) (timed s) (ttime_ms s)
    (resptime_us s) (reqcount s) (spoint s) (scount s) (delayms s).
Definition set_segsize (v : Z) (s : disk_scrubber) : disk_scrubber :=
  mk_disk_scrubber (disk_name s) (reqbound s) (strategy s) (priority s) v (regsize s)
    (state s) (threads s) (dpo s) (vrprotect s) (verbose s) (timed s) (ttime_ms s)
    (resptime_us s) (reqcount s) (spoint s) (scount s) (delayms s).
Definition set_regsize (v : Z) (s : disk_scrubber) : disk_scrubber :=
  mk_disk_scrubber (disk_name s) (reqbound s) (strategy s) (priority s) (segsize s) v
    (state s) (threads s) (dpo s) (vrprotect s) (verbose s) (timed s) (ttime_ms s)
    (resptime_us s) (reqcount s) (spoint s) (scount s) (delayms s).
Definition set_state (v : Z) (s : disk_scrubber) : disk_scrubber :=
  mk_disk_scrubber (disk_name s) (reqbound s) (strategy s) (priority s) (segsize s)
    (regsize s) v (threads s) (dpo s) (vrprotect s) (verbose s) (timed s) (ttime_ms s)
    (resptime_us s) (reqcount s) (spoint s) (scount s) (delayms s).
Definition set_threads (v : Z) (s : disk_scrubber) : disk_scrubber :=
  mk_disk_scrubber (disk_name s) (reqbound s) (strategy s) (priority s) (segsize s)
    (regsize s) (state s) v (dpo s) (vrprotect s) (verbose s) (timed s) (ttime_ms s)
    (resptime_us s) (reqcount s) (spoint s) (scount s) (delayms s).
Definition set_dpo (v : Z) (s : disk_scrubber) : disk_scrubber :=
  mk_disk_scrubber (disk_name s) (reqbound s) (strategy s) (priority s) (segsize s)
    (regsize s) (state s) (threads s) v (vrprotect s) (verbose s) (timed s)
    (ttime_ms s) (resptime_us s) (reqcount s) (spoint s) (scount s) (delayms s).
Definition set_vrprotect (v : Z) (s : disk_scrubber) : disk_scrubber :=
  mk_disk_scrubber (disk_name s) (reqbound s) (strategy s) (priority s) (segsize s)
    (regsize s) (state s) (threads s) (dpo s) v (verbose s) (timed s) (ttime_ms s)
    (resptime_us s) (reqcount s) (spoint s) (scount s) (delayms s).
Definition set_verbose (v : Z) (s : disk_scrubber) : disk_scrubber :=
  mk_disk_scrubber (disk_name s) (reqbound s) (strategy s) (priority s) (segsize s)
    (regsize s) (state s) (threads s) (dpo s) (vrprotect s) v (timed s) (ttime_ms s)
    (resptime_us s) (reqcount s) (spoint s) (scount s) (delayms s).
Definition set_timed (v : Z) (s : disk_scrubber) : disk_scrubber :=
  mk_disk_scrubber (disk_name s) (reqbound s) (strategy s) (priority s) (segsize s)
    (regsize s) (state s) (threads s) (dpo s) (vrprotect s) (verbose s) v (ttime_ms s)
    (resptime_us s) (reqcount s) (spoint s) (scount s) (delayms s).
Definition set_ttime_ms (v : Z) (s : disk_scrubber) : disk_scrubber :=
  mk_disk_scrubber (disk_name s) (reqbound s) (strategy s) (priority s) (segsize s)
    (regsize s) (state s) (threads s) (dpo s) (vrprotect s) (verbose s) (timed s) v
    (resptime_us s) (reqcount s) (spoint s) (scount s) (delayms s).
Definition set_resptime_us (v : Z) (s : disk_scrubber) : disk_scrubber :=
  mk_disk_scrubber (disk_name s) (reqbound s) (strategy s) (priority s) (segsize s)
    (regsize s) (state s) (threads s) (dpo s) (vrprotect s) (verbose s) (timed s)
    (ttime_ms s) v (reqcount s) (spoint s) (scount s) (delayms s).
Definition set_reqcount (v : Z) (s : disk_scrubber) : disk_scrubber :=
  mk_disk_scrubber (disk_name s) (reqbound s) (strategy s) (priority s) (segsize s)
    (regsize s) (state s) (threads s) (dpo s) (vrprotect s) (verbose s) (timed s)
    (ttime_ms s) (resptime_us s) v (spoint s) (scount s) (delayms s).
Definition set_spoint (v : Z) (s : disk_scrubber) : disk_scrubber :=
  mk_disk_scrubber (disk_name s) (reqbound s) (strategy s) (priority s) (segsize s)
    (regsize s) (state s) (threads s) (dpo s) (vrprotect s) (verbose s) (timed s)
    (ttime_ms s) (resptime_us s) (reqcount s) v (scount s) (delayms s).
Definition set_scount (v : Z) (s : disk_scrubber) : disk_scrubber :=
  mk_disk_scrubber (disk_name s) (reqbound s) (strategy s) (priority s) (segsize s)
    (regsize s) (state s) (threads s) (dpo s) (vrprotect s) (verbose s) (timed s)
    (ttime_ms s) (resptime_us s) (reqcount s) (spoint s) v (delayms s).
Definition set_delayms (v : Z) (s : disk_scrubber) : disk_scrubber :=
  mk_disk_scrubber (disk_name s) (reqbound s) (strategy s) (priority s) (segsize s)
    (regsize s) (state s) (threads s) (dpo s) (vrprotect s) (verbose s) (timed s)
    (ttime_ms s) (resptime_us s) (reqcount s) (spoint s) (scount s) v.

(** What a handler does besides updating the object and returning. *)
Inductive effect :=
  | Printk (msg : string)
  | Wake_up_process          (** of the main scrubber thread *)
  | Kthread_run
  | Kthread_stop
  | Get_disk
  | Put_disk
  | Uevent_add
  | Uevent_remove
  | Warn.

(** A store handler returns its [ssize_t], the new object and its effects. *)
Definition stored : Type := Z * disk_scrubber * list effect.

Definition line (s : string) : string := s +:+ String NL "".

(** Drop one trailing newline:
    [len = strlen(p); if (len && p[len-1] == '\n') p[len-1] = '\0';] *)
Fixpoint chomp (p : string) : string :=
  match p with
  | EmptyString => ""
  | String c EmptyString => if bool_decide (c = NL) then "" else p
  | String c p => String c (chomp p)
  end.

(** ** Names of strategies and priorities *)

Definition SCRUB_STRAT_NAME_MAX : Z := 10.
Definition SCRUB_PRIO_NAME_MAX : Z := 10.
Definition strategies : list string := ["seql"; "stag"; "fixed"].
Definition priorities : list string := ["realtime"; "idlechk"].

(** ** Default object

    The first argument says whether the allocation of the object succeeds,
    the other two the allocations of the name buffers: their result is not
    tested, and [sprintf] into a null buffer is an oops. *)
Inductive init_result :=
  | Init_nomem
  | Init_oops
  | Init_ok (s : disk_scrubber) (e : list effect).

Definition blk_init_scrub (alloc_s alloc_strategy alloc_priority : bool)
    (disk : gendisk) : init_result :=
  if negb alloc_s then Init_nomem
  else if negb alloc_strategy then Init_oops
  else if negb alloc_priority then Init_oops
  else
    Init_ok
      {| disk_name := gd_name disk; reqbound := 0;
         strategy := "seql"; priority := "idlechk";
         segsize := 2048; regsize := 131072; state := 1; threads := 1;
         dpo := 1; vrprotect := 0; verbose := 1; timed := 0;
         ttime_ms := 0; resptime_us := 0; reqcount := 0;
         spoint := 0; scount := 0; delayms := 0 |}
      [Kthread_run].

(** ** Show and store handlers, in source order *)

Definition scrub_reqbound_show (s : disk_scrubber) : string :=
  line ("Scrubbing requests to limit next round to: " +:+ fmt_llu (reqbound s)).

Definition scrub_reqbound_store (d : gendisk) (s : disk_scrubber) (page : string)
    (count : Z) : stored :=
  let v := fst (simple_strtoul page 10) in
  if v <? 0 then
    (count, s, [Printk "cannot set request bound to a negative number."])
  else (count, set_reqbound v s, []).

Definition scrub_segsize_show (s : disk_scrubber) : string :=
  line ("Segment size: " +:+ fmt_llu (segsize s) +:+ " KB").

Definition scrub_segsize_store (d : gendisk) (s : disk_scrubber) (page : string)
    (count : Z) : stored :=
  let v := fst (simple_strtoull page 10) in
  if v =? 0 then (count, s, [Printk "cannot set segsize to 0 KB."])
  else if get_capacity d <? segsize s then
    (count, set_segsize (get_capacity d) s, [])
  else (count, set_segsize v s, []).

Definition scrub_regsize_show (s : disk_scrubber) : string :=
  line ("Region size: " +:+ fmt_llu (regsize s) +:+ " KB").

Definition scrub_regsize_store (d : gendisk) (s : disk_scrubber) (page : string)
    (count : Z) : stored :=
  let v := fst (simple_strtoull page 10) in
  if v =? 0 then (count, s, [Printk "cannot set regsize to 0 KB."])
  else if get_capacity d <? regsize s then
    (count, set_regsize (get_capacity d) s, [])
  else (count, set_regsize v s, []).

Definition scrub_spoint_show (s : disk_scrubber) : string :=
  line ("Scrubbing starts at sector: " +:+ fmt_llu (spoint s)).

Definition scrub_spoint_store (d : gendisk) (s : disk_scrubber) (page : string)
    (count : Z) : stored :=
  let v := fst (simple_strtoull page 10) in
  if get_capacity d <? spoint s then
    (count, set_spoint 0 s,
     [Printk "scrubbing starting point exceeds disk capacity."])
  else (count, set_spoint v s, []).

Definition scrub_scount_show (s : disk_scrubber) : string :=
  line ("# of sectors to be scrubbed: " +:+ fmt_llu (scount s)).

Definition scrub_scount_store (d : gendisk) (s : disk_scrubber) (page : string)
    (count : Z) : stored :=
  let v := fst (simple_strtoull page 10) in
  if get_capacity d <? scount s then
    (count, set_scount (get_capacity d) s,
     [Printk "requested scrubbing area larger than disk."])
  else (count, set_scount v s, []).

(** The loop shared by the two name lists: the current name in brackets. *)
Fixpoint show_names (current : string) (names : list string) : string :=
  match names with
  | [] => ""
  | n :: names =>
      (if streq current n then "[" +:+ n +:+ "] " else n +:+ " ") +:+
      show_names current names
  end.

Definition scrub_strategy_show (s : disk_scrubber) : string :=
  line (show_names (strategy s) strategies).

(** One iteration of the loop of [scrub_strategy_store]. *)
Definition strategy_store_iter (p : string) (acc : Z * disk_scrubber)
    (name : string) : Z * disk_scrubber :=
  let '(flag, s) := acc in
  if streq p name then
    if negb (streq p (strategy s)) then (2, set_strategy p s) else (1, s)
  else (flag, s).

Definition scrub_strategy_store (d : gendisk) (s : disk_scrubber) (page : string)
    (count : Z) : stored :=
  let p := chomp page in
  let '(flag, s) := foldl (strategy_store_iter p) (0, s) strategies in
  (count, s,
   if flag =? 0 then [Printk "strategy not found."]
   else if flag =? 1 then [Printk "strategy already set."]
   else []).

Definition scrub_priority_show (s : disk_scrubber) : string :=
  line (show_names (priority s) priorities).

Definition priority_store_iter (p : string) (acc : Z * disk_scrubber)
    (name : string) : Z * disk_scrubber :=
  let '(flag, s) := acc in
  if streq p name then
    if negb (streq p (priority s)) then (2, set_priority p s) else (1, s)
  else (flag, s).

Definition scrub_priority_store (d : gendisk) (s : disk_scrubber) (page : string)
    (count : Z) : stored :=
  let p := chomp page in
  let '(flag, s) := foldl (priority_store_iter p) (0, s) priorities in
  (count, s,
   if flag =? 0 then [Printk "priority not found."]
   else if flag =? 1 then [Printk "priority already set."]
   else []).

Definition scrub_state_show (s : disk_scrubber) : string :=
  if state s =? 0 then line "Scrubber state: [on] off abort"
  else if state s =? 1 then line "Scrubber state: on [off] abort"
  else if state s =? 2 then line "Scrubber state: on off [abort]"
  else "".

Definition scrub_state_store (d : gendisk) (s : disk_scrubber) (page : string)
    (count : Z) : stored :=
  let p := chomp page in
  let s :=
    if negb (state s =? 0) && negb (state s =? 1) && negb (state s =? 2)
    then set_state 1 s else s in
  if streq p "on" && negb (state s =? 0) then
    (count, set_state 0 s, [Wake_up_process])
  else if streq p "off" && negb (state s =? 1) then (count, set_state 1 s, [])
  else if streq p "abort" && negb (state s =? 2) then (count, set_state 2 s, [])
  else (count, s, [Printk "state not found, or coincides with the current one."]).

Definition scrub_threads_show (s : disk_scrubber) : string :=
  line ("Number of scrubbing threads: " +:+ fmt_d (threads s)).

Definition scrub_threads_store (d : gendisk) (s : disk_scrubber) (page : string)
    (count : Z) : stored :=
  let v := s32 (fst (simple_strtol page 10)) in
  if v <=? 0 then (count, s, [Printk "Check that threads > 0."])
  else (count, set_threads v s, []).

Definition scrub_dpo_show (s : disk_scrubber) : string :=
  if truthy (dpo s) then line "Disable page out: [on] off"
  else line "Disable page out:  on [off]".

Definition scrub_dpo_store (d : gendisk) (s : disk_scrubber) (page : string)
    (count : Z) : stored :=
  let p := chomp page in
  let s := if negb (dpo s =? 0) && negb (dpo s =? 1) then set_dpo 0 s else s in
  if streq p "on" && negb (truthy (dpo s)) then (count, set_dpo 1 s, [])
  else if streq p "off" && truthy (dpo s) then (count, set_dpo 0 s, [])
  else (count, s, [Printk "state not found, or coincides with the current one."]).

Definition scrub_vrprotect_show (s : disk_scrubber) : string :=
  line ("VRP set to: " +:+ fmt_d (vrprotect s)).

Definition scrub_vrprotect_store (d : gendisk) (s : disk_scrubber) (page : string)
    (count : Z) : stored :=
  let v := s32 (fst (simple_strtol page 10)) in
  if (v <? 0) || (7 <? v) then (count, s, [Printk "Check that 0 <= vrprotect <= 7."])
  else (count, set_vrprotect v s, []).

Definition scrub_verbose_show (s : disk_scrubber) : string :=
  line ("Verbosity of scrubber: " +:+ fmt_d (verbose s)).

Definition scrub_verbose_store (d : gendisk) (s : disk_scrubber) (page : string)
    (count : Z) : stored :=
  let v := s32 (fst (simple_strtol page 10)) in
  if (v <? 0) || (3 <? v) then (count, s, [Printk "Check that 0 <= verbose <= 3."])
  else (count, set_verbose v s, []).

Definition scrub_timed_show (s : disk_scrubber) : string :=
  if truthy (timed s) then line "Scrubber statistics: [on] off"
  else line "Scrubber statistics:  on [off]".

Definition scrub_timed_store (d : gendisk) (s : disk_scrubber) (page : string)
    (count : Z) : stored :=
  let p := chomp page in
  let s :=
    if negb (timed s =? 0) && negb (timed s =? 1) then set_timed 0 s else s in
  if streq p "on" && negb (truthy (timed s)) then (count, set_timed 1 s, [])
  else if streq p "off" && truthy (timed s) then (count, set_timed 0 s, [])
  else (count, s, [Printk "state not found, or coincides with the current one."]).

Definition scrub_ttime_ms_show (s : disk_scrubber) : string :=
  line (fmt_llu (ttime_ms s)).

Definition scrub_ttime_ms_store (d : gendisk) (s : disk_scrubber) (page : string)
    (count : Z) : stored :=
  (count, set_ttime_ms (fst (simple_strtoull page 10)) s, []).

Definition scrub_resptime_us_show (s : disk_scrubber) : string :=
  line (fmt_llu (resptime_us s)).

Definition scrub_reqcount_show (s : disk_scrubber) : string :=
  line (fmt_llu (reqcount s)).

Definition scrub_reqcount_store (d : gendisk) (s : disk_scrubber) (page : string)
    (count : Z) : stored :=
  (count, set_reqcount (fst (simple_strtoull page 10)) s, []).

Definition scrub_delayms_show (s : disk_scrubber) : string :=
  line (fmt_llu (delayms s)).

Definition scrub_delayms_store (d : gendisk) (s : disk_scrubber) (page : string)
    (count : Z) : stored :=
  (count, set_delayms (fst (simple_strtoull page 10)) s, []).

(** ** The attribute table *)

Record scrub_sysfs_entry := {
  name : string;
  show : option (disk_scrubber → string);
  store : option (gendisk → disk_scrubber → string → Z → stored);
}.

Definition rw_entry n sh st : scrub_sysfs_entry :=
  {| name := n; show := Some sh; store := Some st |}.

Definition scrub_reqbound_entry := rw_entry "reqbound" scrub_reqbound_show scrub_reqbound_store.
Definition scrub_segsize_entry := rw_entry "segsize" scrub_segsize_show scrub_segsize_store.
Definition scrub_regsize_entry := rw_entry "regsize" scrub_regsize_show scrub_regsize_store.
Definition scrub_spoint_entry := rw_entry "spoint" scrub_spoint_show scrub_spoint_store.
Definition scrub_scount_entry := rw_entry "scount" scrub_scount_show scrub_scount_store.
Definition scrub_strategy_entry := rw_entry "strategy" scrub_strategy_show scrub_strategy_store.
Definition scrub_priority_entry := rw_entry "priority" scrub_priority_show scrub_priority_store.
Definition scrub_state_entry := rw_entry "state" scrub_state_show scrub_state_store.
Definition scrub_threads_entry := rw_entry "threads" scrub_threads_show scrub_threads_store.
Definition scrub_dpo_entry := rw_entry "dpo" scrub_dpo_show scrub_dpo_store.
Definition scrub_vrprotect_entry := rw_entry "vrprotect" scrub_vrprotect_show scrub_vrprotect_store.
Definition scrub_verbose_entry := rw_entry "verbose" scrub_verbose_show scrub_verbose_store.
Definition scrub_timed_entry := rw_entry "timed" scrub_timed_show scrub_timed_store.
Definition scrub_ttime_ms_entry := rw_entry "ttime_ms" scrub_ttime_ms_show scrub_ttime_ms_store.
Definition scrub_resptime_us_entry : scrub_sysfs_entry :=
  {| name := "resptime_us"; show := Some scrub_resptime_us_show; store := None |}.
Definition scrub_reqcount_entry := rw_entry "reqcount" scrub_reqcount_show scrub_reqcount_store.
Definition scrub_delayms_entry := rw_entry "delayms" scrub_delayms_show scrub_delayms_store.

Definition default_attrs : list scrub_sysfs_entry :=
  [scrub_reqbound_entry; scrub_segsize_entry; scrub_regsize_entry;
   scrub_spoint_entry; scrub_scount_entry; scrub_strategy_entry;
   scrub_priority_entry; scrub_state_entry; scrub_threads_entry;
   scrub_dpo_entry; scrub_vrprotect_entry; scrub_verbose_entry;
   scrub_timed_entry; scrub_ttime_ms_entry; scrub_resptime_us_entry;
   scrub_reqcount_entry; scrub_delayms_entry].

(** The return value and, when a handler ran, the text it wrote: the handler
    returns the length of that text. *)
Definition scrub_attr_show (entry : scrub_sysfs_entry) (s : disk_scrubber)
    : Z * option string :=
  match show entry with
  | None => (- EIO, None)
  | Some f => let page := f s in (Z.of_nat (String.length page), Some page)
  end.

Definition scrub_attr_store (d : gendisk) (entry : scrub_sysfs_entry)
    (s : disk_scrubber) (page : string) (length : Z) : stored :=
  match store entry with
  | None => (- EIO, s, [])
  | Some f => f d s page length
  end.

(** ** Life cycle of the object

    [kref] counts the references of the embedded kobject, [disk_refs] those
    this code takes on the disk. *)
Record registration := {
  scrubber : option disk_scrubber;
  thread : bool;          (** the main scrubber thread runs *)
  kref : Z;
  in_sysfs : bool;
  disk_refs : Z;
}.

Definition unregistered : registration :=
  {| scrubber := None; thread := false; kref := 0; in_sysfs := false; disk_refs := 0 |}.

Inductive reg_result :=
  | Reg_oops
  | Reg (ret : Z) (r : registration).

(** [add_ret] is what [kobject_add] returns. *)
Definition blk_register_scrub (alloc_s alloc_strategy alloc_priority : bool)
    (add_ret : Z) (disk : gendisk) (r : registration) : reg_result :=
  match blk_init_scrub alloc_s alloc_strategy alloc_priority disk with
  | Init_oops => Reg_oops
  | Init_nomem =>
      Reg (- ENXIO) {| scrubber := None; thread := thread r; kref := kref r;
                       in_sysfs := in_sysfs r; disk_refs := disk_refs r |}
  | Init_ok s _ =>
      let r := {| scrubber := Some s; thread := true; kref := 1;
                  in_sysfs := 0 <=? add_ret; disk_refs := disk_refs r + 1 |} in
      if add_ret <? 0 then Reg add_ret r else Reg 0 r
  end.

Definition blk_unregister_scrub (r : registration) : registration * list effect :=
  match scrubber r with
  | None => (r, [Warn])
  | Some _ =>
      ({| scrubber := scrubber r; thread := thread r; kref := kref r;
          in_sysfs := false; disk_refs := disk_refs r - 1 |},
       [Uevent_remove; Put_disk])
  end.

(** The release method of the kobject: stops the thread and frees the object. *)
Definition blk_release_scrub (r : registration) : registration * list effect :=
  match scrubber r with
  | None => (r, [])
  | Some _ =>
      ({| scrubber := None; thread := false; kref := kref r;
          in_sysfs := in_sysfs r; disk_refs := disk_refs r |}, [Kthread_stop])
  end.

(** Dropping a kobject reference runs the release method at zero. *)
Definition kobject_put (r : registration) : registration * list effect :=
  let r := {| scrubber := scrubber r; thread := thread r; kref := kref r - 1;
              in_sysfs := in_sysfs r; disk_refs := disk_refs r |} in
  if kref r =? 0 then blk_release_scrub r else (r, []).

(** The body of the main scrubber thread, with [scrubber_ret] the return value
    of [scrubber()]. *)
Definition kscrubd_init (data : option gendisk) (scrubber_ret : Z)
    : Z * list effect :=
  match data with
  | None => (1, [Printk "Scrubber thread data corrupted!"])
  | Some disk =>
      if negb (gd_queue disk) then (1, [Printk "No disk queue defined"])
      else if truthy scrubber_ret then (0, [Printk "Scrubber invocation failed"])
      else (0, [])
  end.

(** ** Hooks in the disk code (block/genhd.c) *)

(** The majors of [add_disk]'s switch: IDE, SCSI, RAID and UML disks. *)
Definition scrub_majors : list Z :=
  [3; 13; 22; 33; 34; 56; 57; 88; 89; 90; 91;
   8; 65; 66; 67; 68; 69; 70; 71; 128; 129; 130; 131; 132; 133; 134; 135;
   9; 98].

Definition add_disk_scrub (alloc_s alloc_strategy alloc_priority : bool)
    (add_ret : Z) (disk : gendisk) (r : registration) : reg_result :=
  if existsb (Z.eqb (gd_major disk)) scrub_majors
  then blk_register_scrub alloc_s alloc_strategy alloc_priority add_ret disk r
  else Reg 0 r.

Definition unlink_gendisk_scrub (r : registration) : registration * list effect :=
  blk_unregister_scrub r.

(** ** Well-formedness of the object *)

Record wf_scrubber (s : disk_scrubber) : Prop := {
  wf_reqbound : in_u64 (reqbound s);
  wf_strategy : strategy s ∈ strategies;
  wf_priority : priority s ∈ priorities;
  wf_segsize : 0 < segsize s < 2 ^ 64;
  wf_regsize : 0 < regsize s < 2 ^ 64;
  wf_state : state s = 0 ∨ state s = 1 ∨ state s = 2;
  wf_threads : 0 < threads s < 2 ^ 31;
  wf_dpo : dpo s = 0 ∨ dpo s = 1;
  wf_vrprotect : 0 ≤ vrprotect s ≤ 7;
  wf_verbose : 0 ≤ verbose s ≤ 3;
  wf_timed : timed s = 0 ∨ timed s = 1;
  wf_ttime_ms : in_u64 (ttime_ms s);
  wf_resptime_us : in_u64 (resptime_us s);
  wf_reqcount : in_u64 (reqcount s);
  wf_spoint : in_u64 (spoint s);
  wf_scount : in_u64 (scount s);
  wf_delayms : in_u64 (delayms s);
}.

Lemma strtoull_loop_range base acc cp :
  in_u64 acc → in_u64 (fst (strtoull_loop base acc cp)).
Proof.
  revert acc. induction cp as [|c cp IH]; intros acc Hacc; [done|].
  simpl. repeat zcase; try done. apply IH, u64_range.
Qed.

Lemma simple_strtoull_range cp base : in_u64 (fst (simple_strtoull cp base)).
Proof. unfold simple_strtoull. apply strtoull_loop_range. unfold in_u64; lia. Qed.

#[export] Hint Resolve simple_strtoull_range : scrub.

(** Every setter keeps the object well-formed when the new value is. *)
Ltac wf_set :=
  match goal with
  | Hwf : wf_scrubber ?s |- wf_scrubber _ =>
      destruct Hwf; constructor; simpl; 
        first [done | tauto | lia | solve [auto with scrub] | unfold in_u64 in *; lia]
  end.

Section stores.
Context (d : gendisk) (Hcap : 0 < get_capacity d < 2 ^ 64).
Context (s : disk_scrubber) (Hwf : wf_scrubber s).

Lemma strategy_store_value p :
  foldl (strategy_store_iter p) (0, s) strategies =
  if existsb (streq p) strategies then
    if streq p (strategy s) then (1, s) else (2, set_strategy p s)
  else (0, s).
Proof.
  unfold strategies. cbn [foldl existsb strategy_store_iter].
  destruct (streq p "seql") eqn:E1, (streq p "stag") eqn:E2,
    (streq p "fixed") eqn:E3;
    repeat match goal with H : streq p _ = true |- _ => apply streq_eq in H end;
    subst; try discriminate; simpl.
  all: destruct (streq _ (strategy s)); simpl; unfold strategy_store_iter;
    by rewrite ?E1, ?E2, ?E3.
Qed.

Lemma priority_store_value p :
  foldl (priority_store_iter p) (0, s) priorities =
  if existsb (streq p) priorities then
    if streq p (priority s) then (1, s) else (2, set_priority p s)
  else (0, s).
Proof.
  unfold priorities. cbn [foldl existsb priority_store_iter].
  destruct (streq p "realtime") eqn:E1, (streq p "idlechk") eqn:E2;
    repeat match goal with H : streq p _ = true |- _ => apply streq_eq in H end;
    subst; try discriminate; simpl.
  all: destruct (streq _ (priority s)); simpl; unfold priority_store_iter;
    by rewrite ?E1, ?E2.
Qed.

Lemma existsb_streq p l : existsb (streq p) l = true ↔ p ∈ l.
Proof.
  rewrite existsb_exists, list_elem_of_In. split.
  - intros (x & ? & ->%streq_eq). done.
  - intros. exists p. by rewrite streq_refl.
Qed.

Lemma store_wf entry page count :
  entry ∈ default_attrs →
  wf_scrubber (scrub_attr_store d entry s page count).1.2.
Proof.
  unfold default_attrs. intros Hin. pose proof (simple_strtoull_range page 10) as [? ?].
  repeat (apply elem_of_cons in Hin as [-> | Hin]); [..|by apply elem_of_nil in Hin].
  all: unfold scrub_attr_store; simpl.
  - unfold scrub_reqbound_store, simple_strtoul. zcase; simpl; [done|]. wf_set.
  - unfold scrub_segsize_store. repeat zcase; simpl; [done|wf_set|wf_set].
  - unfold scrub_regsize_store. repeat zcase; simpl; [done|wf_set|wf_set].
  - unfold scrub_spoint_store. repeat zcase; simpl; wf_set.
  - unfold scrub_scount_store. repeat zcase; simpl; wf_set.
  - unfold scrub_strategy_store. rewrite strategy_store_value.
    destruct (existsb _ _) eqn:E; [|done]. apply existsb_streq in E.
    destruct (streq _ _); simpl; [done|wf_set].
  - unfold scrub_priority_store. rewrite priority_store_value.
    destruct (existsb _ _) eqn:E; [|done]. apply existsb_streq in E.
    destruct (streq _ _); simpl; [done|wf_set].
  - unfold scrub_state_store. repeat (zcase; simpl); try done; wf_set.
  - unfold scrub_threads_store.
    pose proof (s32_range (fst (simple_strtol page 10))) as [? ?].
    zcase; simpl; [done|wf_set].
  - unfold scrub_dpo_store. repeat (zcase; simpl); try done; wf_set.
  - unfold scrub_vrprotect_store. repeat zcase; simpl; try done; wf_set.
  - unfold scrub_verbose_store. repeat zcase; simpl; try done; wf_set.
  - unfold scrub_timed_store. repeat (zcase; simpl); try done; wf_set.
  - wf_set.
  - done.
  - wf_set.
  - wf_set.
Qed.
End stores.

(** The objects sysfs writes can lead to, starting from the default one. *)
Inductive sysfs_reach (d : gendisk) : disk_scrubber → Prop :=
  | Reach_init s e :
      blk_init_scrub true true true d = Init_ok s e → sysfs_reach d s
  | Reach_store s entry page count :
      sysfs_reach d s → entry ∈ default_attrs →
      sysfs_reach d (scrub_attr_store d entry s page count).1.2.

Lemma init_wf d s e : blk_init_scrub true true true d = Init_ok s e → wf_scrubber s.
Proof.
  intros [= <- <-]. constructor; simpl; unfold in_u64; try lia; set_solver.
Qed.


(** A 1 TB SCSI disk. *)
Definition demo_disk : gendisk :=
  {| gd_name := "sda"; gd_major := 8; gd_queue := true; nr_sects := 1953525168 |}.

Definition demo_scrubber : disk_scrubber :=
  {| disk_name := "sda"; reqbound := 0; strategy := "seql"; priority := "idlechk";
     segsize := 2048; regsize := 131072; state := 1; threads := 1;
     dpo := 1; vrprotect := 0; verbose := 1; timed := 0;
     ttime_ms := 0; resptime_us := 0; reqcount := 0;
     spoint := 0; scount := 0; delayms := 0 |}.


(** The strategy name in the object always fits its 10-byte buffer, with its
    terminator: [sprintf] in [scrub_strategy_store] cannot overflow it. *)
Theorem strategy_fits_buffer d s :
  0 < get_capacity d < 2 ^ 64 → sysfs_reach d s →
  Z.of_nat (String.length (strategy s)) < SCRUB_STRAT_NAME_MAX ∧
  Z.of_nat (String.length (priority s)) < SCRUB_PRIO_NAME_MAX.
Proof.
  intros Hcap Hs.
  assert (wf_scrubber s) as [? Hst Hpr].
  { induction Hs; [by eapply init_wf | by apply store_wf]. }
  unfold strategies, priorities in *. split.
  - repeat (apply elem_of_cons in Hst as [-> | Hst]); [done..|by apply elem_of_nil in Hst].
  - repeat (apply elem_of_cons in Hpr as [-> | Hpr]); [done..|by apply elem_of_nil in Hpr].
Qed.

Lemma strategy_fits_buffer_witness :
  Z.of_nat (String.length (strategy demo_scrubber)) < SCRUB_STRAT_NAME_MAX ∧
  Z.of_nat (String.length (priority demo_scrubber)) < SCRUB_PRIO_NAME_MAX.
Proof.
  apply (strategy_fits_buffer demo_disk); [simpl; lia | by eapply Reach_init].
Defined.

(** C35: Reading a statistics attribute and writing the text back restores the
    value, on any object: [ttime_ms], [reqcount] and [delayms] round-trip. *)
Theorem stats_show_store_roundtrip d s s' count :
  wf_scrubber s →
  scrub_ttime_ms_store d s' (scrub_ttime_ms_show s) count
    = (count, set_ttime_ms (ttime_ms s) s', []) ∧
  scrub_reqcount_store d s' (scrub_reqcount_show s) count
    = (count, set_reqcount (reqcount s) s', []) ∧
  scrub_delayms_store d s' (scrub_delayms_show s) count
    = (count, set_delayms (delayms s) s', []).
Proof.
  intros []. unfold scrub_ttime_ms_store, scrub_reqcount_store, scrub_delayms_store,
    scrub_ttime_ms_show, scrub_reqcount_show, scrub_delayms_show, line.
  by rewrite !strtoull_fmt_llu.
Qed.

Lemma stats_show_store_roundtrip_witness :
  scrub_delayms_store demo_disk demo_scrubber
    (scrub_delayms_show (set_delayms 16 demo_scrubber)) 3
  = (3, set_delayms 16 demo_scrubber, []).
Proof.
  apply (stats_show_store_roundtrip demo_disk (set_delayms 16 demo_scrubber)
           demo_scrubber 3).
  constructor; simpl; unfold in_u64; try lia; set_solver.
Defined.

(** What a write to [segsize] does, on each branch. The bound is tested on the
    old value: while the old size is within the capacity any nonzero size is
    stored, however large; once it is not, the written size is ignored and the
    capacity is stored instead. *)
Theorem segsize_store_spec d s page count :
  let v := fst (simple_strtoull page 10) in
  scrub_segsize_store d s page count =
  (count,
   (if bool_decide (v = 0) then s
    else if bool_decide (segsize s ≤ get_capacity d) then set_segsize v s
    else set_segsize (get_capacity d) s),
   if bool_decide (v = 0) then [Printk "cannot set segsize to 0 KB."] else []).
Proof.
  intros v. unfold scrub_segsize_store. fold v.
  repeat zcase; repeat case_bool_decide; try done; lia.
Qed.

(** On a fresh object, a segment size beyond the capacity of the disk is
    accepted, and a following write of a valid size is replaced by the
    capacity. *)
Theorem segsize_bound_not_enforced :
  let '(_, s1, _) := scrub_segsize_store demo_disk demo_scrubber "9999999999" 10 in
  let '(_, s2, _) := scrub_segsize_store demo_disk s1 "2048" 4 in
  get_capacity demo_disk < segsize s1 ∧ segsize s2 = get_capacity demo_disk.
Proof. vm_compute. done. Qed.

(** A write to [strategy] installs exactly the names of the table, with or
    without a newline, and changes nothing but the strategy. *)
Theorem strategy_store_spec d s page count :
  (scrub_strategy_store d s page count).1 =
  (count, if bool_decide (chomp page ∈ strategies)
          then set_strategy (chomp page) s else s).
Proof.
  unfold scrub_strategy_store. rewrite strategy_store_value.
  case_bool_decide as E.
  - apply existsb_streq in E. rewrite E.
    destruct (streq (chomp page) (strategy s)) eqn:E'; [|done].
    apply streq_eq in E'. rewrite E'. by destruct s.
  - destruct (existsb _ _) eqn:E'; [|done]. by apply existsb_streq in E'.
Qed.

(** The state attribute is a three-state machine. Writing the name of another
    state enters it, anything else leaves it, and the main thread is woken
    exactly when the state becomes "on". *)
Theorem state_store_spec d s page count :
  wf_scrubber s →
  let '(ret, s', e) := scrub_state_store d s page count in
  let target := if streq (chomp page) "on" then 0
                else if streq (chomp page) "off" then 1
                else if streq (chomp page) "abort" then 2 else state s in
  ret = count ∧ s' = set_state target s ∧
  (Wake_up_process ∈ e ↔ state s ≠ 0 ∧ state s' = 0).
Proof.
  intros Hwf. pose proof (wf_state s Hwf) as Hs. clear Hwf.
  assert (set_state (state s) s = s) as Hid by (by destruct s).
  assert (∀ a b : string, a ≠ b → streq (chomp page) a = true →
          streq (chomp page) b = false) as Hex.
  { intros a b ? ->%streq_eq. by apply streq_neq. }
  pose proof (Hex "on" "off" ltac:(done)) as H1.
  pose proof (Hex "on" "abort" ltac:(done)) as H2.
  pose proof (Hex "off" "abort" ltac:(done)) as H3. clear Hex.
  unfold scrub_state_store.
  destruct (streq (chomp page) "on"), (streq (chomp page) "off"),
    (streq (chomp page) "abort");
    try specialize (H1 eq_refl); try specialize (H2 eq_refl);
    try specialize (H3 eq_refl); try discriminate; clear H1 H2 H3.
  all: destruct Hs as [Hs | [Hs | Hs]]; rewrite Hs in *; cbn [Z.eqb Pos.eqb negb andb];
    rewrite Hs; cbn [Z.eqb Pos.eqb negb andb]; rewrite ?Hid, ?Hs;
    (split; [done|]); (split; [done|]); simpl; rewrite ?Hs; set_solver.
Qed.

Lemma state_store_spec_witness :
  let '(ret, s', e) := scrub_state_store demo_disk demo_scrubber "on" 2 in
  ret = 2 ∧ s' = set_state 0 demo_scrubber ∧
  (Wake_up_process ∈ e ↔ state demo_scrubber ≠ 0 ∧ state s' = 0).
Proof.
  apply (state_store_spec demo_disk demo_scrubber "on" 2). by eapply (init_wf demo_disk).
Defined.

(** A successful registration followed by the removal of the disk gives back
    the reference on the disk, but not the one on the kobject: the release
    method does not run and the scrubber thread is left running on a disk that
    is gone. Dropping that reference would have stopped it. *)
Theorem unregister_leaves_thread disk add_ret r :
  gd_major disk ∈ scrub_majors → 0 ≤ add_ret →
  match add_disk_scrub true true true add_ret disk r with
  | Reg_oops => False
  | Reg ret r1 =>
      let '(r2, e2) := unlink_gendisk_scrub r1 in
      let '(r3, e3) := kobject_put r2 in
      ret = 0 ∧ disk_refs r2 = disk_refs r ∧ in_sysfs r2 = false ∧
      thread r2 = true ∧ Kthread_stop ∉ e2 ∧
      thread r3 = false ∧ Kthread_stop ∈ e3
  end.
Proof.
  intros Hm Hadd. unfold add_disk_scrub.
  assert (existsb (Z.eqb (gd_major disk)) scrub_majors = true) as ->.
  { apply existsb_exists. exists (gd_major disk).
    split; [by apply list_elem_of_In | apply Z.eqb_refl]. }
  unfold blk_register_scrub. simpl.
  replace (add_ret <? 0) with false by (symmetry; apply Z.ltb_ge; lia). simpl.
  split_and!; try done; [lia | set_solver | set_solver].
Qed.

Lemma unregister_leaves_thread_witness :
  gd_major demo_disk ∈ scrub_majors ∧
  match add_disk_scrub true true true 0 demo_disk unregistered with
  | Reg_oops => False
  | Reg _ r1 => thread (unlink_gendisk_scrub r1).1 = true
  end.
Proof.
  split; [by do 11 right; left|].
  pose proof (unregister_leaves_thread demo_disk 0 unregistered
                ltac:(do 11 right; left) ltac:(done)) as H.
  exact (proj1 (proj2 (proj2 (proj2 H)))).
Defined.
