(* ===== verification/Sense.v ===== *)
(** * SCSI sense data decoding (block/scrub_verify.c)

    The routines that turn the sense bytes of a failed VERIFY into an error
    category and into the address of the bad sector.  Sense data is a list of
    bytes and every read is checked: [Fault i] is a read at index [i] outside
    the buffer, which in C is undefined behaviour. *)
From S2P Require Import Prelude.

(** ** Checked memory accesses *)

Inductive access (A : Type) : Type :=
  | Ret (a : A)
  | Fault (i : Z)
  | Fuel.
Arguments Ret {A} _.
Arguments Fault {A} _.
Arguments Fuel {A}.

#[export] Instance access_ret : MRet access := λ A a, Ret a.
#[export] Instance access_bind : MBind access := λ A B f m,
  match m with Ret a => f a | Fault i => Fault i | Fuel => Fuel end.

Definition rd (b : list Z) (i : Z) : access Z :=
  if i <? 0 then Fault i
  else match b !! Z.to_nat i with Some x => Ret x | None => Fault i end.

(** The byte at [i], 0 outside: what the specifications below talk about. *)
Definition byte_at (b : list Z) (i : Z) : Z := default 0 (b !! Z.to_nat i).

Lemma rd_in b i : 0 ≤ i < Z.of_nat (length b) → rd b i = Ret (byte_at b i).
Proof.
  intros. unfold rd, byte_at.
  destruct (i <? 0) eqn:?; zbool; [lia|].
  destruct (lookup_lt_is_Some_2 b (Z.to_nat i)) as [x ->]; [lia|done].
Qed.

Definition bytes (b : list Z) : Prop := Forall in_u8 b.

Lemma byte_at_range b i : bytes b → in_u8 (byte_at b i).
Proof.
  intros Hb. unfold byte_at. destruct (b !! Z.to_nat i) eqn:E; simpl.
  - by eapply Forall_lookup_1.
  - unfold in_u8; lia.
Qed.

(** ** Constants *)

Abbreviation SPC_SK_NO_SENSE := 0x0%Z (only parsing).
Abbreviation SPC_SK_RECOVERED_ERROR := 0x1%Z (only parsing).
Abbreviation SPC_SK_NOT_READY := 0x2%Z (only parsing).
Abbreviation SPC_SK_MEDIUM_ERROR := 0x3%Z (only parsing).
Abbreviation SPC_SK_HARDWARE_ERROR := 0x4%Z (only parsing).
Abbreviation SPC_SK_ILLEGAL_REQUEST := 0x5%Z (only parsing).
Abbreviation SPC_SK_UNIT_ATTENTION := 0x6%Z (only parsing).
Abbreviation SPC_SK_BLANK_CHECK := 0x8%Z (only parsing).
Abbreviation SPC_SK_ABORTED_COMMAND := 0xb%Z (only parsing).

Abbreviation SG_LIB_CAT_NOT_READY := 2%Z (only parsing).
Abbreviation SG_LIB_CAT_MEDIUM_HARD := 3%Z (only parsing).
Abbreviation SG_LIB_CAT_MEDIUM_HARD_WITH_INFO := 18%Z (only parsing).
Abbreviation SG_LIB_CAT_ILLEGAL_REQ := 5%Z (only parsing).
Abbreviation SG_LIB_CAT_UNIT_ATTENTION := 6%Z (only parsing).
Abbreviation SG_LIB_CAT_INVALID_OP := 9%Z (only parsing).
Abbreviation SG_LIB_CAT_ABORTED_COMMAND := 11%Z (only parsing).
Abbreviation SG_LIB_CAT_NO_SENSE := 20%Z (only parsing).
Abbreviation SG_LIB_CAT_RECOVERED := 21%Z (only parsing).
Abbreviation SG_LIB_CAT_SENSE := 98%Z (only parsing).
Abbreviation SG_LIB_CAT_OTHER := 99%Z (only parsing).

(** ** Header extraction *)

Record sg_scsi_sense_hdr := {
  response_code : Z;
  sense_key : Z;
  asc : Z;
  ascq : Z;
  additional_length : Z;
}.

Definition sense_hdr0 : sg_scsi_sense_hdr :=
  {| response_code := 0; sense_key := 0; asc := 0; ascq := 0; additional_length := 0 |}.

(** [if (c) x = sensep[i];] for a header field that was zeroed. *)
Definition rd_if (c : bool) (b : list Z) (i : Z) : access Z :=
  if c then rd b i else Ret 0.

(** [sensep = None] is the null pointer.  Returns the C result and the header
    (the [memset] makes it zero when 0 is returned). *)
Definition sg_scsi_normalize_sense (sensep : option (list Z)) (sb_len : Z)
    : access (Z * sg_scsi_sense_hdr) :=
  match sensep with
  | None => Ret (0, sense_hdr0)
  | Some b =>
      if sb_len =? 0 then Ret (0, sense_hdr0)
      else
        b0 ← rd b 0;
        if negb (Z.land 0x70 b0 =? 0x70) then Ret (0, sense_hdr0)
        else
          let rc := Z.land 0x7f b0 in
          if 0x72 <=? rc then
            k ← rd_if (1 <? sb_len) b 1;
            a ← rd_if (2 <? sb_len) b 2;
            q ← rd_if (3 <? sb_len) b 3;
            l ← rd_if (7 <? sb_len) b 7;
            Ret (1, {| response_code := rc; sense_key := Z.land 0xf k;
                       asc := a; ascq := q; additional_length := l |})
          else
            k ← rd_if (2 <? sb_len) b 2;
            if 7 <? sb_len then
              b7 ← rd b 7;
              let sb_len := if sb_len <? b7 + 8 then sb_len else b7 + 8 in
              a ← rd_if (12 <? sb_len) b 12;
              q ← rd_if (13 <? sb_len) b 13;
              Ret (1, {| response_code := rc; sense_key := Z.land 0xf k;
                         asc := a; ascq := q; additional_length := 0 |})
            else
              Ret (1, {| response_code := rc; sense_key := Z.land 0xf k;
                         asc := 0; ascq := 0; additional_length := 0 |})
  end.

(** The switch of [sg_err_category_sense] on the sense key. *)
Definition category_of_key (h : sg_scsi_sense_hdr) : Z :=
  let k := sense_key h in
  if k =? SPC_SK_NO_SENSE then SG_LIB_CAT_NO_SENSE
  else if k =? SPC_SK_RECOVERED_ERROR then SG_LIB_CAT_RECOVERED
  else if k =? SPC_SK_NOT_READY then SG_LIB_CAT_NOT_READY
  else if (k =? SPC_SK_MEDIUM_ERROR) || (k =? SPC_SK_HARDWARE_ERROR) ||
          (k =? SPC_SK_BLANK_CHECK) then SG_LIB_CAT_MEDIUM_HARD
  else if k =? SPC_SK_UNIT_ATTENTION then SG_LIB_CAT_UNIT_ATTENTION
  else if k =? SPC_SK_ILLEGAL_REQUEST then
    if (asc h =? 0x20) && (ascq h =? 0x0) then SG_LIB_CAT_INVALID_OP
    else SG_LIB_CAT_ILLEGAL_REQ
  else if k =? SPC_SK_ABORTED_COMMAND then SG_LIB_CAT_ABORTED_COMMAND
  else SG_LIB_CAT_SENSE.

Definition sg_err_category_sense (sense_buffer : option (list Z)) (sb_len : Z)
    : access Z :=
  match sense_buffer with
  | None => Ret SG_LIB_CAT_SENSE
  | Some _ =>
      if 2 <? sb_len then
        '(ok, ssh) ← sg_scsi_normalize_sense sense_buffer sb_len;
        if truthy ok then Ret (category_of_key ssh) else Ret SG_LIB_CAT_SENSE
      else Ret SG_LIB_CAT_SENSE
  end.

(** ** Descriptor search

    A returned pointer into the sense buffer is the offset of its target. *)
Fixpoint desc_find_loop (fuel : nat) (b : list Z) (add_sen_len desc_type : Z)
    (k descp desc_len : Z) : access (option Z) :=
  match fuel with
  | O => Fuel
  | S fuel =>
      if k <? add_sen_len then
        let descp := descp + desc_len in
        add_len ← (if k <? add_sen_len - 1 then rd b (descp + 1) else Ret (-1));
        let desc_len := add_len + 2 in
        t ← rd b descp;
        if t =? desc_type then Ret (Some descp)
        else if add_len <? 0 then Ret None
        else desc_find_loop fuel b add_sen_len desc_type (k + desc_len) descp desc_len
      else Ret None
  end.

(** Each round moves [k] by two bytes or more and [add_sen_len] is a byte, so
    129 rounds are enough. *)
Definition sg_scsi_sense_desc_find (b : list Z) (sense_len desc_type : Z)
    : access (option Z) :=
  if sense_len <? 8 then Ret None
  else
    add_sen_len ← rd b 7;
    if add_sen_len =? 0 then Ret None
    else
      b0 ← rd b 0;
      if (b0 <? 0x72) || (0x73 <? b0) then Ret None
      else
        let add_sen_len :=
          if add_sen_len <? sense_len - 8 then add_sen_len else sense_len - 8 in
        desc_find_loop 129 b add_sen_len desc_type 0 8 0.

(** ** Information field: the address of the failed sector *)

(** [for (j = 0; j < 8; ++j) { if (j > 0) ull <<= 8; ull |= ucp[4 + j]; }] *)
Fixpoint info_loop (n : nat) (j : Z) (b : list Z) (ucp ull : Z) : access Z :=
  match n with
  | O => Ret ull
  | S n =>
      let ull := if 0 <? j then u64 (Z.shiftl ull 8) else ull in
      x ← rd b (ucp + 4 + j);
      info_loop n (j + 1) b ucp (Z.lor ull x)
  end.

(** The C result and the value left at [info_outp]. *)
Definition sg_get_sense_info_fld (b : list Z) (sb_len : Z) : access (Z * Z) :=
  if sb_len <? 7 then Ret (0, 0)
  else
    b0 ← rd b 0;
    let rc := Z.land b0 0x7f in
    if (rc =? 0x70) || (rc =? 0x71) then
      b3 ← rd b 3;
      b4 ← rd b 4;
      b5 ← rd b 5;
      b6 ← rd b 6;
      Ret (if truthy (Z.land b0 0x80) then 1 else 0,
           u32 (u32 (Z.shiftl b3 24) + Z.shiftl b4 16 + Z.shiftl b5 8 + b6))
    else if (rc =? 0x72) || (rc =? 0x73) then
      r ← sg_scsi_sense_desc_find b sb_len 0;
      match r with
      | None => Ret (0, 0)
      | Some ucp =>
          l ← rd b (ucp + 1);
          if l =? 0xa then
            ull ← info_loop 8 0 b ucp 0;
            f ← rd b (ucp + 2);
            Ret (if truthy (Z.land f 0x80) then 1 else 0, ull)
          else Ret (0, 0)
      end
    else Ret (0, 0).

(** ** Lemmas *)

Lemma rd_if_in c b i :
  (c = true → 0 ≤ i < Z.of_nat (length b)) →
  rd_if c b i = Ret (if c then byte_at b i else 0).
Proof. destruct c; simpl; intros; [by apply rd_in; auto | done]. Qed.

Ltac access_steps :=
  repeat first
    [ progress cbn [mbind access_bind mret access_ret]
    | match goal with
      | |- context [rd ?b ?i] => rewrite (rd_in b i) by lia
      | |- context [rd_if ?c ?b ?i] =>
          rewrite (rd_if_in c b i) by (intros; zbool; lia)
      end ].

(** The header a sense buffer denotes. *)
Definition sense_header (b : list Z) (n : Z) : sg_scsi_sense_hdr :=
  let rc := Z.land 0x7f (byte_at b 0) in
  let get (c : bool) (i : Z) := if c then byte_at b i else 0 in
  if 0x72 <=? rc then
    {| response_code := rc; sense_key := Z.land 0xf (get (1 <? n) 1);
       asc := get (2 <? n) 2; ascq := get (3 <? n) 3;
       additional_length := get (7 <? n) 7 |}
  else
    let m := Z.min n (byte_at b 7 + 8) in
    {| response_code := rc; sense_key := Z.land 0xf (get (2 <? n) 2);
       asc := get ((7 <? n) && (12 <? m)) 12;
       ascq := get ((7 <? n) && (13 <? m)) 13;
       additional_length := 0 |}.

Lemma normalize_sense_spec b n :
  0 < n ≤ Z.of_nat (length b) →
  sg_scsi_normalize_sense (Some b) n =
  Ret (if Z.land 0x70 (byte_at b 0) =? 0x70 then (1, sense_header b n)
       else (0, sense_hdr0)).
Proof.
  intros Hn. unfold sg_scsi_normalize_sense, sense_header.
  replace (n =? 0) with false by (symmetry; apply Z.eqb_neq; lia).
  access_steps. destruct (Z.land 112 (byte_at b 0) =? 112); [|done]. cbn [negb].
  destruct (114 <=? Z.land 127 (byte_at b 0)); access_steps; [done|].
  destruct (7 <? n) eqn:E7; access_steps; [|done]. zbool.
  replace (if n <? byte_at b 7 + 8 then n else byte_at b 7 + 8)
    with (Z.min n (byte_at b 7 + 8)) by (zcase; lia).
  access_steps. done.
Qed.

Definition sense_categories : list Z :=
  [SG_LIB_CAT_NOT_READY; SG_LIB_CAT_MEDIUM_HARD; SG_LIB_CAT_ILLEGAL_REQ;
   SG_LIB_CAT_UNIT_ATTENTION; SG_LIB_CAT_INVALID_OP; SG_LIB_CAT_ABORTED_COMMAND;
   SG_LIB_CAT_NO_SENSE; SG_LIB_CAT_RECOVERED; SG_LIB_CAT_SENSE].

Lemma category_of_key_in h : category_of_key h ∈ sense_categories.
Proof.
  unfold category_of_key. repeat zcase;
    unfold sense_categories; rewrite !elem_of_cons; tauto.
Qed.

(** The category of a buffer of which [n] bytes are valid. *)
Definition sense_category (b : list Z) (n : Z) : Z :=
  if (2 <? n) && (Z.land 0x70 (byte_at b 0) =? 0x70)
  then category_of_key (sense_header b n) else SG_LIB_CAT_SENSE.

Lemma err_category_value b n :
  n ≤ Z.of_nat (length b) →
  sg_err_category_sense (Some b) n = Ret (sense_category b n).
Proof.
  intros Hn. unfold sg_err_category_sense, sense_category.
  destruct (2 <? n) eqn:?; zbool; [|done].
  rewrite normalize_sense_spec by lia. cbn [mbind access_bind andb].
  by destruct (_ =? _).
Qed.

Lemma sense_category_in b n : sense_category b n ∈ sense_categories.
Proof.
  unfold sense_category. zcase; try apply category_of_key_in.
  all: unfold sense_categories; rewrite !elem_of_cons; tauto.
Qed.

(** The descriptors of a sense buffer: the one at [o] is followed by one at
    [o + length + 2], as long as that is below [lim]. *)
Inductive desc_chain (b : list Z) (lim : Z) : Z → Z → Prop :=
  | chain_here o : o < lim → desc_chain b lim o o
  | chain_next o o' :
      o + 1 < lim → desc_chain b lim (o + byte_at b (o + 1) + 2) o' →
      desc_chain b lim o o'.

Lemma desc_chain_lower b lim o o' :
  bytes b → desc_chain b lim o o' → o ≤ o'.
Proof.
  intros Hb. induction 1; [lia|]. pose proof (byte_at_range b (o + 1) Hb) as [? ?]. lia.
Qed.

Lemma desc_find_loop_spec b asl ty fuel k descp dl :
  bytes b → 8 + asl ≤ Z.of_nat (length b) →
  0 ≤ k → descp + dl = 8 + k → Z.max 0 (asl - k) < 2 * Z.of_nat fuel →
  ∃ r, desc_find_loop fuel b asl ty k descp dl = Ret r ∧
    match r with
    | Some o =>
        desc_chain b (8 + asl) (8 + k) o ∧ byte_at b o = ty ∧ o < 8 + asl ∧
        (∀ o', desc_chain b (8 + asl) (8 + k) o' → o' < o → byte_at b o' ≠ ty)
    | None => ∀ o, desc_chain b (8 + asl) (8 + k) o → byte_at b o ≠ ty
    end.
Proof.
  intros Hb Hlen. revert k descp dl.
  induction fuel as [|fuel IH]; intros k descp dl Hk Hd Hf.
  { lia. }
  cbn [desc_find_loop].
  destruct (k <? asl) eqn:E; zbool.
  2:{ eexists. split; [done|]. intros o Ho. inversion Ho; lia. }
  rewrite Hd.
  destruct (k <? asl - 1) eqn:E1; zbool; access_steps.
  - destruct (byte_at b (8 + k) =? ty) eqn:Et; zbool.
    { eexists. split; [done|]. split_and!; [constructor; lia|done|lia|].
      intros o' Ho'%desc_chain_lower ?; [lia|done]. }
    pose proof (byte_at_range b (8 + k + 1) Hb) as [? ?].
    destruct (byte_at b (8 + k + 1) <? 0) eqn:?; zbool; [lia|].
    destruct (IH (k + (byte_at b (8 + k + 1) + 2)) (8 + k) (byte_at b (8 + k + 1) + 2))
      as (r & -> & Hr); [lia..|].
    replace (8 + (k + (byte_at b (8 + k + 1) + 2)))
      with (8 + k + byte_at b (8 + k + 1) + 2) in Hr by lia.
    eexists. split; [done|]. destruct r as [o|].
    + destruct Hr as (? & ? & ? & Hfst). split_and!; [apply chain_next; [lia|done]|done|done|].
      intros o' Ho'. inversion Ho'; subst; auto.
    + intros o Ho. inversion Ho; subst; auto.
  - destruct (byte_at b (8 + k) =? ty) eqn:Et; zbool.
    { eexists. split; [done|]. split_and!; [constructor; lia|done|lia|].
      intros o' Ho'%desc_chain_lower ?; [lia|done]. }
    eexists. split; [done|]. intros o Ho. inversion Ho; subst; [done|lia].
Qed.

(** The number of descriptor bytes: announced by byte 7, cut at the buffer. *)
Definition desc_bytes (b : list Z) (n : Z) : Z := Z.min (byte_at b 7) (n - 8).

Lemma desc_find_spec b n ty :
  bytes b → n ≤ Z.of_nat (length b) →
  ∃ r, sg_scsi_sense_desc_find b n ty = Ret r ∧
    match r with
    | Some o =>
        desc_chain b (8 + desc_bytes b n) 8 o ∧ byte_at b o = ty ∧
        8 ≤ n ∧ o < 8 + desc_bytes b n ∧
        (∀ o', desc_chain b (8 + desc_bytes b n) 8 o' → o' < o → byte_at b o' ≠ ty)
    | None => 8 ≤ n → (byte_at b 0 = 0x72 ∨ byte_at b 0 = 0x73) →
              ∀ o, desc_chain b (8 + desc_bytes b n) 8 o → byte_at b o ≠ ty
    end.
Proof.
  intros Hb Hn. unfold sg_scsi_sense_desc_find.
  destruct (n <? 8) eqn:?; zbool.
  { exists None. split; [done|]. intros; lia. }
  access_steps. pose proof (byte_at_range b 7 Hb) as [? ?].
  destruct (byte_at b 7 =? 0) eqn:?; zbool.
  { exists None. split; [done|]. intros _ _ o Ho. unfold desc_bytes in Ho.
    inversion Ho; lia. }
  access_steps. destruct ((byte_at b 0 <? 114) || (115 <? byte_at b 0)) eqn:?; zbool.
  { exists None. split; [done|]. intros; lia. }
  { exists None. split; [done|]. intros; lia. }
  replace (if byte_at b 7 <? n - 8 then byte_at b 7 else n - 8)
    with (desc_bytes b n) by (unfold desc_bytes; zcase; lia).
  destruct (desc_find_loop_spec b (desc_bytes b n) ty 129 0 8 0) as (r & Hr & Hs);
    try done; try (unfold desc_bytes; lia).
  exists r. split; [done|]. destruct r; [|by intros _ _].
  destruct Hs as (? & ? & ? & ?). split_and!; [done|done|lia|done|done].
Qed.

Lemma info_loop_spec n j b ucp ull :
  bytes b → 0 ≤ ucp → 0 ≤ j → 0 ≤ ull < 2 ^ (8 * j) →
  j + Z.of_nat n ≤ 8 →
  ucp + 4 + j + Z.of_nat n ≤ Z.of_nat (length b) →
  info_loop n j b ucp ull =
  Ret (foldl (λ a x, a * 256 + x) ull
         (take n (drop (Z.to_nat (ucp + 4 + j)) b))).
Proof.
  intros Hb Hu. revert j ull. induction n as [|n IH]; intros j ull Hj Hull Hjn Hlen.
  { done. }
  cbn [info_loop]. access_steps.
  assert (drop (Z.to_nat (ucp + 4 + j)) b =
          byte_at b (ucp + 4 + j) :: drop (Z.to_nat (ucp + 4 + (j + 1))) b) as ->.
  { replace (Z.to_nat (ucp + 4 + (j + 1))) with (S (Z.to_nat (ucp + 4 + j))) by lia.
    apply drop_S. unfold byte_at.
    destruct (lookup_lt_is_Some_2 b (Z.to_nat (ucp + 4 + j))) as [x ->]; [lia|done]. }
  cbn [take foldl]. pose proof (byte_at_range b (ucp + 4 + j) Hb) as [? ?].
  assert (8 * j ≤ 56) by lia.
  assert (2 ^ (8 * j) ≤ 2 ^ 56) by (apply Z.pow_le_mono_r; lia).
  assert (2 ^ (8 * (j + 1)) = 2 ^ (8 * j) * 256) as Hpow.
  { replace (8 * (j + 1)) with (8 * j + 8) by lia. by rewrite Z.pow_add_r by lia. }
  assert ((if 0 <? j then u64 (Z.shiftl ull 8) else ull) = ull * 256) as ->.
  { zcase.
    - rewrite Z.shiftl_mul_pow2, u64_small by (try unfold in_u64; lia). lia.
    - assert (j = 0) by lia. subst. simpl in Hull. lia. }
  assert (Z.lor (ull * 256) (byte_at b (ucp + 4 + j)) =
          ull * 256 + byte_at b (ucp + 4 + j)) as ->.
  { change 256 with (2 ^ 8). apply lor_shift_add; lia. }
  rewrite IH; [done | lia.. ].
Qed.

(** Big-endian value of a byte string. *)
Definition be_val (l : list Z) : Z := foldl (λ a x, a * 256 + x) 0 l.

Lemma drop_byte b i :
  0 ≤ i < Z.of_nat (length b) →
  drop (Z.to_nat i) b = byte_at b i :: drop (Z.to_nat (i + 1)) b.
Proof.
  intros. replace (Z.to_nat (i + 1)) with (S (Z.to_nat i)) by lia.
  apply drop_S. unfold byte_at.
  destruct (lookup_lt_is_Some_2 b (Z.to_nat i)) as [x ->]; [lia|done].
Qed.

Lemma info_fixed_value b :
  bytes b → 7 ≤ Z.of_nat (length b) →
  u32 (u32 (Z.shiftl (byte_at b 3) 24) + Z.shiftl (byte_at b 4) 16 +
       Z.shiftl (byte_at b 5) 8 + byte_at b 6) = be_val (take 4 (drop 3 b)).
Proof.
  intros Hb Hl. change (drop 3 b) with (drop (Z.to_nat 3) b).
  rewrite (drop_byte b 3) by lia. change (3 + 1) with 4.
  rewrite (drop_byte b 4) by lia. change (4 + 1) with 5.
  rewrite (drop_byte b 5) by lia. change (5 + 1) with 6.
  rewrite (drop_byte b 6) by lia.
  unfold be_val. cbn [take foldl]. rewrite take_0. cbn [foldl].
  pose proof (byte_at_range b 3 Hb) as [? ?].
  pose proof (byte_at_range b 4 Hb) as [? ?].
  pose proof (byte_at_range b 5 Hb) as [? ?].
  pose proof (byte_at_range b 6 Hb) as [? ?].
  rewrite !Z.shiftl_mul_pow2 by lia. change (2 ^ 24) with 16777216.
  change (2 ^ 16) with 65536. change (2 ^ 8) with 256 in *.
  rewrite (u32_small (byte_at b 3 * _)) by (unfold in_u32; lia).
  rewrite u32_small by (unfold in_u32; lia). lia.
Qed.

Definition fixed_format (b : list Z) : Prop :=
  Z.land (byte_at b 0) 0x7f = 0x70 ∨ Z.land (byte_at b 0) 0x7f = 0x71.

(** Every information descriptor of the buffer lies inside it. *)
Definition info_complete (b : list Z) (n : Z) : Prop :=
  ∀ o, desc_chain b (8 + desc_bytes b n) 8 o →
    byte_at b o = 0 →
    o + 1 < Z.of_nat (length b) ∧
    (byte_at b (o + 1) = 0xa → o + 12 ≤ Z.of_nat (length b)).

Lemma desc_chain_upper b lim o o' : desc_chain b lim o o' → o' < lim.
Proof. by induction 1. Qed.

Lemma sense_info_spec b n :
  bytes b → 7 ≤ n ≤ Z.of_nat (length b) →
  (¬ fixed_format b → info_complete b n) →
  ∃ v info, sg_get_sense_info_fld b n = Ret (v, info) ∧
    (fixed_format b →
       v = (if truthy (Z.land (byte_at b 0) 0x80) then 1 else 0) ∧
       info = be_val (take 4 (drop 3 b))) ∧
    (¬ fixed_format b → v = 1 →
       ∃ o, desc_chain b (8 + desc_bytes b n) 8 o ∧ byte_at b o = 0 ∧
            info = be_val (take 8 (drop (Z.to_nat (o + 4)) b))).
Proof.
  intros Hb Hn Hc. unfold sg_get_sense_info_fld, fixed_format in *.
  destruct (n <? 7) eqn:?; zbool; [lia|]. access_steps.
  destruct (_ || _) eqn:Ef.
  { access_steps. rewrite info_fixed_value by (done || lia). do 2 eexists.
    split; [done|]. split; [done|]. intros Hnf. apply orb_true_iff in Ef.
    rewrite !Z.eqb_eq in Ef. tauto. }
  apply orb_false_iff in Ef. rewrite !Z.eqb_neq in Ef.
  destruct (_ || _) eqn:Ed.
  2:{ do 2 eexists. split; [done|]. split; [tauto|]. intros _ ?. lia. }
  clear Ed. destruct (desc_find_spec b n 0) as (r & -> & Hr); [done|lia|].
  cbn [mbind access_bind]. destruct r as [o|].
  2:{ do 2 eexists. split; [done|]. split; [tauto|]. intros _ ?. lia. }
  destruct Hr as (Hch & Ho & ? & ? & _).
  pose proof (desc_chain_lower _ _ _ _ Hb Hch).
  destruct (Hc ltac:(tauto) o Hch Ho) as [? Hfull]. access_steps.
  destruct (byte_at b (o + 1) =? 10) eqn:El; zbool.
  - specialize (Hfull El). rewrite info_loop_spec by (done || lia).
    access_steps. do 2 eexists. split; [done|]. split; [tauto|].
    intros _ _. exists o. by rewrite Z.add_0_r.
  - do 2 eexists. split; [done|]. split; [tauto|]. intros _ ?. lia.
Qed.

(** ** Properties *)


(** Fixed-format sense data of an unrecovered read error at sector 0x1234. *)
Definition demo_sense : list Z :=
  [0xf0; 0; 0x3; 0; 0; 0x12; 0x34; 10; 0; 0; 0; 0; 0x11; 0; 0; 0; 0; 0].

Lemma demo_sense_bytes : bytes demo_sense.
Proof. repeat (constructor; [unfold in_u8; lia|]). constructor. Qed.


(** The descriptor search terminates, reads only valid bytes, and returns the
    first descriptor of the chain that has the wanted type; when it returns
    none and the buffer is in descriptor format, the chain has none. *)
Theorem desc_find_correct b n ty :
  bytes b → n ≤ Z.of_nat (length b) →
  ∃ r, sg_scsi_sense_desc_find b n ty = Ret r ∧
    match r with
    | Some o =>
        desc_chain b (8 + desc_bytes b n) 8 o ∧ byte_at b o = ty ∧
        8 ≤ n ∧ o < 8 + desc_bytes b n ∧
        (∀ o', desc_chain b (8 + desc_bytes b n) 8 o' → o' < o → byte_at b o' ≠ ty)
    | None => 8 ≤ n → (byte_at b 0 = 0x72 ∨ byte_at b 0 = 0x73) →
              ∀ o, desc_chain b (8 + desc_bytes b n) 8 o → byte_at b o ≠ ty
    end.
Proof. apply desc_find_spec. Qed.

(** Descriptor-format data: a command-specific descriptor, then an information
    descriptor with address 0x1234. *)
Definition demo_desc_sense : list Z :=
  [0x72; 0x3; 0x11; 0; 0; 0; 0; 24;
   0x1; 0xa; 0; 0; 0; 0; 0; 0; 0; 0; 0; 0;
   0x0; 0xa; 0x80; 0; 0; 0; 0; 0; 0; 0; 0x12; 0x34].

Lemma demo_desc_sense_bytes : bytes demo_desc_sense.
Proof. repeat (constructor; [unfold in_u8; lia|]). constructor. Qed.

Lemma desc_find_correct_witness :
  ∃ r, sg_scsi_sense_desc_find demo_desc_sense 32 0 = Ret r ∧ r = Some 20.
Proof.
  destruct (desc_find_correct demo_desc_sense 32 0) as (r & Hr & _).
  - apply demo_desc_sense_bytes.
  - simpl; lia.
  - exists r. split; [done|]. vm_compute in Hr. by injection Hr.
Defined.

(** When its information descriptors are complete, decoding the address of a
    failed sector reads only valid bytes. In fixed format the address is the
    big-endian value of bytes 3 to 6 and the valid bit is bit 7 of byte 0; in
    descriptor format a valid address is the big-endian value of bytes 4 to 11
    of an information descriptor. *)
Theorem sense_info_correct b n :
  bytes b → 7 ≤ n ≤ Z.of_nat (length b) →
  (¬ fixed_format b → info_complete b n) →
  ∃ v info, sg_get_sense_info_fld b n = Ret (v, info) ∧
    (fixed_format b →
       v = (if truthy (Z.land (byte_at b 0) 0x80) then 1 else 0) ∧
       info = be_val (take 4 (drop 3 b))) ∧
    (¬ fixed_format b → v = 1 →
       ∃ o, desc_chain b (8 + desc_bytes b n) 8 o ∧ byte_at b o = 0 ∧
            info = be_val (take 8 (drop (Z.to_nat (o + 4)) b))).
Proof. apply sense_info_spec. Qed.

Lemma sense_info_correct_witness :
  ∃ v info, sg_get_sense_info_fld demo_sense 18 = Ret (v, info) ∧
    v = 1 ∧ info = 0x1234.
Proof.
  destruct (sense_info_correct demo_sense 18) as (v & info & Hr & Hf & _).
  - apply demo_sense_bytes.
  - simpl; lia.
  - intros Hn. destruct Hn. by left.
  - exists v, info. split; [done|]. apply Hf. by left.
Defined.

(** A medium error whose information descriptor is cut by the end of the
    32-byte buffer. *)
Definition cut_desc_sense : list Z :=
  [0x72; 0x3; 0x11; 0; 0; 0; 0; 24;
   0x1; 20; 0; 0; 0; 0; 0; 0; 0; 0; 0; 0; 0; 0; 0; 0; 0; 0; 0; 0; 0; 0;
   0x0; 0xa].

(** Without that hypothesis the decoder leaves the buffer: on valid sense data
    whose last descriptor is cut at byte 32, it reads byte 34. *)
Theorem sense_info_overread :
  length cut_desc_sense = 32%nat ∧
  sense_category cut_desc_sense 32 = SG_LIB_CAT_MEDIUM_HARD ∧
  sg_get_sense_info_fld cut_desc_sense 32 = Fault 34.
Proof. vm_compute. done. Qed.
