(* ===== verification/SgIo.v ===== *)
(** * The in-kernel SG_IO path (block/scsi_ioctl.c, block/blk-exec.c)

    [scsi_kern_ioctl] is how the scrubber hands a SCSI command to the block
    layer.  This file models the command filter, the construction of the
    request, its execution and completion, and the life times of the request
    and of the data-less bio that accompanies it.  [None] as the result of an
    operation is a kernel oops (a NULL pointer was followed).

    The lower layers (driver and device) are the parameter [device] of the
    operations: what they leave in a request when they finish it. *)
From S2P Require Import Prelude.

(** ** Kernel configuration (x86_64_defconfig) and constants *)

Definition HZ : Z := 1000.
Definition MSEC_PER_SEC : Z := 1000.
Definition MAX_JIFFY_OFFSET : Z := Z.shiftr (2 ^ 63 - 1) 1 - 1.
Definition BLK_DEFAULT_SG_TIMEOUT : Z := 60 * HZ.
Definition BLK_MIN_SG_TIMEOUT : Z := 7 * HZ.
Definition BLK_MAX_CDB : Z := 16.
Definition SCSI_SENSE_BUFFERSIZE : nat := 96.
Definition SG_DXFER_NONE : Z := -1.
Definition SG_DXFER_TO_DEV : Z := -2.
Definition SG_DXFER_FROM_DEV : Z := -3.
Definition SG_DXFER_TO_FROM_DEV : Z := -4.
Definition SG_INFO_CHECK : Z := 0x1.
Definition SG_IO : Z := 0x2285.

Definition status_byte (r : Z) : Z := Z.land (Z.shiftr r 1) 0x7f.
Definition msg_byte (r : Z) : Z := Z.land (Z.shiftr r 8) 0xff.
Definition host_byte (r : Z) : Z := Z.land (Z.shiftr r 16) 0xff.
Definition driver_byte (r : Z) : Z := Z.land (Z.shiftr r 24) 0xff.

(** [HZ] divides [MSEC_PER_SEC], so the first branch of the [#if] is
    compiled. *)
Definition msecs_to_jiffies (m : Z) : Z :=
  if s32 m <? 0 then MAX_JIFFY_OFFSET
  else (m + MSEC_PER_SEC / HZ - 1) / (MSEC_PER_SEC / HZ).

(** ** The command filter *)

(** The operation codes, macros of include/scsi/scsi.h and
    include/linux/cdrom.h. *)

Abbreviation TEST_UNIT_READY := 0x00%Z (only parsing).
Abbreviation REQUEST_SENSE := 0x03%Z (only parsing).
Abbreviation READ_6 := 0x08%Z (only parsing).
Abbreviation READ_10 := 0x28%Z (only parsing).
Abbreviation READ_12 := 0xa8%Z (only parsing).
Abbreviation READ_16 := 0x88%Z (only parsing).
Abbreviation READ_BUFFER := 0x3c%Z (only parsing).
Abbreviation READ_DEFECT_DATA := 0x37%Z (only parsing).
Abbreviation READ_CAPACITY := 0x25%Z (only parsing).
Abbreviation READ_LONG := 0x3e%Z (only parsing).
Abbreviation INQUIRY := 0x12%Z (only parsing).
Abbreviation MODE_SENSE := 0x1a%Z (only parsing).
Abbreviation MODE_SENSE_10 := 0x5a%Z (only parsing).
Abbreviation LOG_SENSE := 0x4d%Z (only parsing).
Abbreviation START_STOP := 0x1b%Z (only parsing).
Abbreviation GPCMD_VERIFY_10 := 0x2f%Z (only parsing).
Abbreviation VERIFY_16 := 0x8f%Z (only parsing).
Abbreviation REPORT_LUNS := 0xa0%Z (only parsing).
Abbreviation SERVICE_ACTION_IN := 0x9e%Z (only parsing).
Abbreviation RECEIVE_DIAGNOSTIC := 0x1c%Z (only parsing).
Abbreviation MAINTENANCE_IN := 0xa3%Z (only parsing).
Abbreviation GPCMD_READ_BUFFER_CAPACITY := 0x5c%Z (only parsing).
Abbreviation GPCMD_PLAY_CD := 0xbc%Z (only parsing).
Abbreviation GPCMD_PLAY_AUDIO_10 := 0x45%Z (only parsing).
Abbreviation GPCMD_PLAY_AUDIO_MSF := 0x47%Z (only parsing).
Abbreviation GPCMD_PLAY_AUDIO_TI := 0x48%Z (only parsing).
Abbreviation GPCMD_PAUSE_RESUME := 0x4b%Z (only parsing).
Abbreviation GPCMD_READ_CD := 0xbe%Z (only parsing).
Abbreviation GPCMD_READ_CD_MSF := 0xb9%Z (only parsing).
Abbreviation GPCMD_READ_DISC_INFO := 0x51%Z (only parsing).
Abbreviation GPCMD_READ_CDVD_CAPACITY := 0x25%Z (only parsing).
Abbreviation GPCMD_READ_DVD_STRUCTURE := 0xad%Z (only parsing).
Abbreviation GPCMD_READ_HEADER := 0x44%Z (only parsing).
Abbreviation GPCMD_READ_TRACK_RZONE_INFO := 0x52%Z (only parsing).
Abbreviation GPCMD_READ_SUBCHANNEL := 0x42%Z (only parsing).
Abbreviation GPCMD_READ_TOC_PMA_ATIP := 0x43%Z (only parsing).
Abbreviation GPCMD_REPORT_KEY := 0xa4%Z (only parsing).
Abbreviation GPCMD_SCAN := 0xba%Z (only parsing).
Abbreviation GPCMD_GET_CONFIGURATION := 0x46%Z (only parsing).
Abbreviation GPCMD_READ_FORMAT_CAPACITIES := 0x23%Z (only parsing).
Abbreviation GPCMD_GET_EVENT_STATUS_NOTIFICATION := 0x4a%Z (only parsing).
Abbreviation GPCMD_GET_PERFORMANCE := 0xac%Z (only parsing).
Abbreviation GPCMD_SEEK := 0x2b%Z (only parsing).
Abbreviation GPCMD_STOP_PLAY_SCAN := 0x4e%Z (only parsing).
Abbreviation WRITE_6 := 0x0a%Z (only parsing).
Abbreviation WRITE_10 := 0x2a%Z (only parsing).
Abbreviation WRITE_VERIFY := 0x2e%Z (only parsing).
Abbreviation WRITE_12 := 0xaa%Z (only parsing).
Abbreviation WRITE_VERIFY_12 := 0xae%Z (only parsing).
Abbreviation WRITE_16 := 0x8a%Z (only parsing).
Abbreviation WRITE_LONG := 0x3f%Z (only parsing).
Abbreviation WRITE_LONG_2 := 0xea%Z (only parsing).
Abbreviation ERASE := 0x19%Z (only parsing).
Abbreviation GPCMD_MODE_SELECT_10 := 0x55%Z (only parsing).
Abbreviation MODE_SELECT := 0x15%Z (only parsing).
Abbreviation LOG_SELECT := 0x4c%Z (only parsing).
Abbreviation GPCMD_BLANK := 0xa1%Z (only parsing).
Abbreviation GPCMD_CLOSE_TRACK := 0x5b%Z (only parsing).
Abbreviation GPCMD_FLUSH_CACHE := 0x35%Z (only parsing).
Abbreviation GPCMD_FORMAT_UNIT := 0x04%Z (only parsing).
Abbreviation GPCMD_REPAIR_RZONE_TRACK := 0x58%Z (only parsing).
Abbreviation GPCMD_RESERVE_RZONE_TRACK := 0x53%Z (only parsing).
Abbreviation GPCMD_SEND_DVD_STRUCTURE := 0xbf%Z (only parsing).
Abbreviation GPCMD_SEND_EVENT := 0xa2%Z (only parsing).
Abbreviation GPCMD_SEND_KEY := 0xa3%Z (only parsing).
Abbreviation GPCMD_SEND_OPC := 0x54%Z (only parsing).
Abbreviation GPCMD_SEND_CUE_SHEET := 0x5d%Z (only parsing).
Abbreviation GPCMD_SET_SPEED := 0xbb%Z (only parsing).
Abbreviation GPCMD_PREVENT_ALLOW_MEDIUM_REMOVAL := 0x1e%Z (only parsing).
Abbreviation GPCMD_LOAD_UNLOAD := 0xa6%Z (only parsing).
Abbreviation GPCMD_SET_STREAMING := 0xb6%Z (only parsing).
Abbreviation GPCMD_SET_READ_AHEAD := 0xa7%Z (only parsing).

Definition filter_read_ok : list Z :=
  [ TEST_UNIT_READY; REQUEST_SENSE; READ_6; READ_10; READ_12; READ_16;
    READ_BUFFER; READ_DEFECT_DATA; READ_CAPACITY; READ_LONG; INQUIRY;
    MODE_SENSE; MODE_SENSE_10; LOG_SENSE; START_STOP; GPCMD_VERIFY_10;
    VERIFY_16; REPORT_LUNS; SERVICE_ACTION_IN; RECEIVE_DIAGNOSTIC;
    MAINTENANCE_IN; GPCMD_READ_BUFFER_CAPACITY; GPCMD_PLAY_CD;
    GPCMD_PLAY_AUDIO_10; GPCMD_PLAY_AUDIO_MSF; GPCMD_PLAY_AUDIO_TI;
    GPCMD_PAUSE_RESUME; GPCMD_READ_CD; GPCMD_READ_CD_MSF;
    GPCMD_READ_DISC_INFO; GPCMD_READ_CDVD_CAPACITY; GPCMD_READ_DVD_STRUCTURE;
    GPCMD_READ_HEADER; GPCMD_READ_TRACK_RZONE_INFO; GPCMD_READ_SUBCHANNEL;
    GPCMD_READ_TOC_PMA_ATIP; GPCMD_REPORT_KEY; GPCMD_SCAN;
    GPCMD_GET_CONFIGURATION; GPCMD_READ_FORMAT_CAPACITIES;
    GPCMD_GET_EVENT_STATUS_NOTIFICATION; GPCMD_GET_PERFORMANCE; GPCMD_SEEK;
    GPCMD_STOP_PLAY_SCAN ].

Definition filter_write_ok : list Z :=
  [ WRITE_6; WRITE_10; WRITE_VERIFY; WRITE_12; WRITE_VERIFY_12; WRITE_16;
    WRITE_LONG; WRITE_LONG_2; ERASE; GPCMD_MODE_SELECT_10; MODE_SELECT;
    LOG_SELECT; GPCMD_BLANK; GPCMD_CLOSE_TRACK; GPCMD_FLUSH_CACHE;
    GPCMD_FORMAT_UNIT; GPCMD_REPAIR_RZONE_TRACK; GPCMD_RESERVE_RZONE_TRACK;
    GPCMD_SEND_DVD_STRUCTURE; GPCMD_SEND_EVENT; GPCMD_SEND_KEY;
    GPCMD_SEND_OPC; GPCMD_SEND_CUE_SHEET; GPCMD_SET_SPEED;
    GPCMD_PREVENT_ALLOW_MEDIUM_REMOVAL; GPCMD_LOAD_UNLOAD;
    GPCMD_SET_STREAMING; GPCMD_SET_READ_AHEAD ].

(** [capable] is the answer of [capable(CAP_SYS_RAWIO)]. *)
Definition blk_verify_command (capable : bool) (cmd : list Z) (has_write_perm : bool) : Z :=
  let op := default 0 (head cmd) in
  if capable then 0
  else if bool_decide (op ∈ filter_read_ok) then 0
  else if bool_decide (op ∈ filter_write_ok) && has_write_perm then 0
  else - EPERM.

(** ** The command header (struct sg_io_hdr, include/scsi/sg.h)

    A pointer to memory is [None] when NULL and the bytes it points to
    otherwise.  The fields no code of this path reads are left out. *)
Record sg_io_hdr := mk_sg_io_hdr {
  interface_id : Z;
  dxfer_direction : Z;
  cmd_len : Z;
  mx_sb_len : Z;
  iovec_count : Z;
  dxfer_len : Z;
  cmdp : option (list Z);
  sbp : option (list Z);
  timeout : Z;
  status : Z;
  masked_status : Z;
  msg_status : Z;
  sb_len_wr : Z;
  host_status : Z;
  driver_status : Z;
  resid : Z;
  duration : Z;
  info : Z;
}.

Definition set_interface_id (v : Z) (x : sg_io_hdr) : sg_io_hdr :=
  mk_sg_io_hdr v (dxfer_direction x) (cmd_len x) (mx_sb_len x) (iovec_count x)
    (dxfer_len x) (cmdp x) (sbp x) (timeout x) (status x) (masked_status x)
    (msg_status x) (sb_len_wr x) (host_status x) (driver_status x) (resid x)
    (duration x) (info x).
Definition set_dxfer_direction (v : Z) (x : sg_io_hdr) : sg_io_hdr :=
  mk_sg_io_hdr (interface_id x) v (cmd_len x) (mx_sb_len x) (iovec_count x)
    (dxfer_len x) (cmdp x) (sbp x) (timeout x) (status x) (masked_status x)
    (msg_status x) (sb_len_wr x) (host_status x) (driver_status x) (resid x)
    (duration x) (info x).
Definition set_cmd_len (v : Z) (x : sg_io_hdr) : sg_io_hdr :=
  mk_sg_io_hdr (interface_id x) (dxfer_direction x) v (mx_sb_len x)
    (iovec_count x) (dxfer_len x) (cmdp x) (sbp x) (timeout x) (status x)
    (masked_status x) (msg_status x) (sb_len_wr x) (host_status x)
    (driver_status x) (resid x) (duration x) (info x).
Definition set_mx_sb_len (v : Z) (x : sg_io_hdr) : sg_io_hdr :=
  mk_sg_io_hdr (interface_id x) (dxfer_direction x) (cmd_len x) v
    (iovec_count x) (dxfer_len x) (cmdp x) (sbp x) (timeout x) (status x)
    (masked_status x) (msg_status x) (sb_len_wr x) (host_status x)
    (driver_status x) (resid x) (duration x) (info x).
Definition set_iovec_count (v : Z) (x : sg_io_hdr) : sg_io_hdr :=
  mk_sg_io_hdr (interface_id x) (dxfer_direction x) (cmd_len x) (mx_sb_len x)
    v (dxfer_len x) (cmdp x) (sbp x) (timeout x) (status x) (masked_status x)
    (msg_status x) (sb_len_wr x) (host_status x) (driver_status x) (resid x)
    (duration x) (info x).
Definition set_dxfer_len (v : Z) (x : sg_io_hdr) : sg_io_hdr :=
  mk_sg_io_hdr (interface_id x) (dxfer_direction x) (cmd_len x) (mx_sb_len x)
    (iovec_count x) v (cmdp x) (sbp x) (timeout x) (status x)
    (masked_status x) (msg_status x) (sb_len_wr x) (host_status x)
    (driver_status x) (resid x) (duration x) (info x).
Definition set_cmdp (v : option (list Z)) (x : sg_io_hdr) : sg_io_hdr :=
  mk_sg_io_hdr (interface_id x) (dxfer_direction x) (cmd_len x) (mx_sb_len x)
    (iovec_count x) (dxfer_len x) v (sbp x) (timeout x) (status x)
    (masked_status x) (msg_status x) (sb_len_wr x) (host_status x)
    (driver_status x) (resid x) (duration x) (info x).
Definition set_sbp (v : option (list Z)) (x : sg_io_hdr) : sg_io_hdr :=
  mk_sg_io_hdr (interface_id x) (dxfer_direction x) (cmd_len x) (mx_sb_len x)
    (iovec_count x) (dxfer_len x) (cmdp x) v (timeout x) (status x)
    (masked_status x) (msg_status x) (sb_len_wr x) (host_status x)
    (driver_status x) (resid x) (duration x) (info x).
Definition set_timeout (v : Z) (x : sg_io_hdr) : sg_io_hdr :=
  mk_sg_io_hdr (interface_id x) (dxfer_direction x) (cmd_len x) (mx_sb_len x)
    (iovec_count x) (dxfer_len x) (cmdp x) (sbp x) v (status x)
    (masked_status x) (msg_status x) (sb_len_wr x) (host_status x)
    (driver_status x) (resid x) (duration x) (info x).
Definition set_status (v : Z) (x : sg_io_hdr) : sg_io_hdr :=
  mk_sg_io_hdr (interface_id x) (dxfer_direction x) (cmd_len x) (mx_sb_len x)
    (iovec_count x) (dxfer_len x) (cmdp x) (sbp x) (timeout x) v
    (masked_status x) (msg_status x) (sb_len_wr x) (host_status x)
    (driver_status x) (resid x) (duration x) (info x).
Definition set_masked_status (v : Z) (x : sg_io_hdr) : sg_io_hdr :=
  mk_sg_io_hdr (interface_id x) (dxfer_direction x) (cmd_len x) (mx_sb_len x)
    (iovec_count x) (dxfer_len x) (cmdp x) (sbp x) (timeout x) (status x) v
    (msg_status x) (sb_len_wr x) (host_status x) (driver_status x) (resid x)
    (duration x) (info x).
Definition set_msg_status (v : Z) (x : sg_io_hdr) : sg_io_hdr :=
  mk_sg_io_hdr (interface_id x) (dxfer_direction x) (cmd_len x) (mx_sb_len x)
    (iovec_count x) (dxfer_len x) (cmdp x) (sbp x) (timeout x) (status x)
    (masked_status x) v (sb_len_wr x) (host_status x) (driver_status x)
    (resid x) (duration x) (info x).
Definition set_sb_len_wr (v : Z) (x : sg_io_hdr) : sg_io_hdr :=
  mk_sg_io_hdr (interface_id x) (dxfer_direction x) (cmd_len x) (mx_sb_len x)
    (iovec_count x) (dxfer_len x) (cmdp x) (sbp x) (timeout x) (status x)
    (masked_status x) (msg_status x) v (host_status x) (driver_status x)
    (resid x) (duration x) (info x).
Definition set_host_status (v : Z) (x : sg_io_hdr) : sg_io_hdr :=
  mk_sg_io_hdr (interface_id x) (dxfer_direction x) (cmd_len x) (mx_sb_len x)
    (iovec_count x) (dxfer_len x) (cmdp x) (sbp x) (timeout x) (status x)
    (masked_status x) (msg_status x) (sb_len_wr x) v (driver_status x)
    (resid x) (duration x) (info x).
Definition set_driver_status (v : Z) (x : sg_io_hdr) : sg_io_hdr :=
  mk_sg_io_hdr (interface_id x) (dxfer_direction x) (cmd_len x) (mx_sb_len x)
    (iovec_count x) (dxfer_len x) (cmdp x) (sbp x) (timeout x) (status x)
    (masked_status x) (msg_status x) (sb_len_wr x) (host_status x) v (resid x)
    (duration x) (info x).
Definition set_resid (v : Z) (x : sg_io_hdr) : sg_io_hdr :=
  mk_sg_io_hdr (interface_id x) (dxfer_direction x) (cmd_len x) (mx_sb_len x)
    (iovec_count x) (dxfer_len x) (cmdp x) (sbp x) (timeout x) (status x)
    (masked_status x) (msg_status x) (sb_len_wr x) (host_status x)
    (driver_status x) v (duration x) (info x).
Definition set_duration (v : Z) (x : sg_io_hdr) : sg_io_hdr :=
  mk_sg_io_hdr (interface_id x) (dxfer_direction x) (cmd_len x) (mx_sb_len x)
    (iovec_count x) (dxfer_len x) (cmdp x) (sbp x) (timeout x) (status x)
    (masked_status x) (msg_status x) (sb_len_wr x) (host_status x)
    (driver_status x) (resid x) v (info x).
Definition set_info (v : Z) (x : sg_io_hdr) : sg_io_hdr :=
  mk_sg_io_hdr (interface_id x) (dxfer_direction x) (cmd_len x) (mx_sb_len x)
    (iovec_count x) (dxfer_len x) (cmdp x) (sbp x) (timeout x) (status x)
    (masked_status x) (msg_status x) (sb_len_wr x) (host_status x)
    (driver_status x) (resid x) (duration x) v.

(** ** The request (struct request, include/linux/blkdev.h)

    [rq_freed] counts how often the request was returned to its pool,
    [rq_end_io] and [rq_waiting] say whether [end_io] and [end_io_data] are
    set. *)
Record request := mk_request {
  rq_cmd : list Z;
  rq_cmd_len : Z;
  rq_block_pc : bool;
  rq_write : bool;
  rq_nomerge : bool;
  rq_timeout : Z;
  rq_sense : list Z;
  rq_sense_len : Z;
  rq_retries : Z;
  rq_errors : Z;
  rq_resid_len : Z;
  rq_sector : Z;
  rq_data_len : Z;
  rq_ref_count : Z;
  rq_end_io : bool;
  rq_waiting : bool;
  rq_freed : Z;
}.

Definition set_rq_cmd (v : list Z) (x : request) : request :=
  mk_request v (rq_cmd_len x) (rq_block_pc x) (rq_write x) (rq_nomerge x)
    (rq_timeout x) (rq_sense x) (rq_sense_len x) (rq_retries x) (rq_errors x)
    (rq_resid_len x) (rq_sector x) (rq_data_len x) (rq_ref_count x)
    (rq_end_io x) (rq_waiting x) (rq_freed x).
Definition set_rq_cmd_len (v : Z) (x : request) : request :=
  mk_request (rq_cmd x) v (rq_block_pc x) (rq_write x) (rq_nomerge x)
    (rq_timeout x) (rq_sense x) (rq_sense_len x) (rq_retries x) (rq_errors x)
    (rq_resid_len x) (rq_sector x) (rq_data_len x) (rq_ref_count x)
    (rq_end_io x) (rq_waiting x) (rq_freed x).
Definition set_rq_block_pc (v : bool) (x : request) : request :=
  mk_request (rq_cmd x) (rq_cmd_len x) v (rq_write x) (rq_nomerge x)
    (rq_timeout x) (rq_sense x) (rq_sense_len x) (rq_retries x) (rq_errors x)
    (rq_resid_len x) (rq_sector x) (rq_data_len x) (rq_ref_count x)
    (rq_end_io x) (rq_waiting x) (rq_freed x).
Definition set_rq_write (v : bool) (x : request) : request :=
  mk_request (rq_cmd x) (rq_cmd_len x) (rq_block_pc x) v (rq_nomerge x)
    (rq_timeout x) (rq_sense x) (rq_sense_len x) (rq_retries x) (rq_errors x)
    (rq_resid_len x) (rq_sector x) (rq_data_len x) (rq_ref_count x)
    (rq_end_io x) (rq_waiting x) (rq_freed x).
Definition set_rq_nomerge (v : bool) (x : request) : request :=
  mk_request (rq_cmd x) (rq_cmd_len x) (rq_block_pc x) (rq_write x) v
    (rq_timeout x) (rq_sense x) (rq_sense_len x) (rq_retries x) (rq_errors x)
    (rq_resid_len x) (rq_sector x) (rq_data_len x) (rq_ref_count x)
    (rq_end_io x) (rq_waiting x) (rq_freed x).
Definition set_rq_timeout (v : Z) (x : request) : request :=
  mk_request (rq_cmd x) (rq_cmd_len x) (rq_block_pc x) (rq_write x)
    (rq_nomerge x) v (rq_sense x) (rq_sense_len x) (rq_retries x)
    (rq_errors x) (rq_resid_len x) (rq_sector x) (rq_data_len x)
    (rq_ref_count x) (rq_end_io x) (rq_waiting x) (rq_freed x).
Definition set_rq_sense (v : list Z) (x : request) : request :=
  mk_request (rq_cmd x) (rq_cmd_len x) (rq_block_pc x) (rq_write x)
    (rq_nomerge x) (rq_timeout x) v (rq_sense_len x) (rq_retries x)
    (rq_errors x) (rq_resid_len x) (rq_sector x) (rq_data_len x)
    (rq_ref_count x) (rq_end_io x) (rq_waiting x) (rq_freed x).
Definition set_rq_sense_len (v : Z) (x : request) : request :=
  mk_request (rq_cmd x) (rq_cmd_len x) (rq_block_pc x) (rq_write x)
    (rq_nomerge x) (rq_timeout x) (rq_sense x) v (rq_retries x) (rq_errors x)
    (rq_resid_len x) (rq_sector x) (rq_data_len x) (rq_ref_count x)
    (rq_end_io x) (rq_waiting x) (rq_freed x).
Definition set_rq_retries (v : Z) (x : request) : request :=
  mk_request (rq_cmd x) (rq_cmd_len x) (rq_block_pc x) (rq_write x)
    (rq_nomerge x) (rq_timeout x) (rq_sense x) (rq_sense_len x) v
    (rq_errors x) (rq_resid_len x) (rq_sector x) (rq_data_len x)
    (rq_ref_count x) (rq_end_io x) (rq_waiting x) (rq_freed x).
Definition set_rq_errors (v : Z) (x : request) : request :=
  mk_request (rq_cmd x) (rq_cmd_len x) (rq_block_pc x) (rq_write x)
    (rq_nomerge x) (rq_timeout x) (rq_sense x) (rq_sense_len x) (rq_retries x)
    v (rq_resid_len x) (rq_sector x) (rq_data_len x) (rq_ref_count x)
    (rq_end_io x) (rq_waiting x) (rq_freed x).
Definition set_rq_resid_len (v : Z) (x : request) : request :=
  mk_request (rq_cmd x) (rq_cmd_len x) (rq_block_pc x) (rq_write x)
    (rq_nomerge x) (rq_timeout x) (rq_sense x) (rq_sense_len x) (rq_retries x)
    (rq_errors x) v (rq_sector x) (rq_data_len x) (rq_ref_count x)
    (rq_end_io x) (rq_waiting x) (rq_freed x).
Definition set_rq_sector (v : Z) (x : request) : request :=
  mk_request (rq_cmd x) (rq_cmd_len x) (rq_block_pc x) (rq_write x)
    (rq_nomerge x) (rq_timeout x) (rq_sense x) (rq_sense_len x) (rq_retries x)
    (rq_errors x) (rq_resid_len x) v (rq_data_len x) (rq_ref_count x)
    (rq_end_io x) (rq_waiting x) (rq_freed x).
Definition set_rq_data_len (v : Z) (x : request) : request :=
  mk_request (rq_cmd x) (rq_cmd_len x) (rq_block_pc x) (rq_write x)
    (rq_nomerge x) (rq_timeout x) (rq_sense x) (rq_sense_len x) (rq_retries x)
    (rq_errors x) (rq_resid_len x) (rq_sector x) v (rq_ref_count x)
    (rq_end_io x) (rq_waiting x) (rq_freed x).
Definition set_rq_ref_count (v : Z) (x : request) : request :=
  mk_request (rq_cmd x) (rq_cmd_len x) (rq_block_pc x) (rq_write x)
    (rq_nomerge x) (rq_timeout x) (rq_sense x) (rq_sense_len x) (rq_retries x)
    (rq_errors x) (rq_resid_len x) (rq_sector x) (rq_data_len x) v
    (rq_end_io x) (rq_waiting x) (rq_freed x).
Definition set_rq_end_io (v : bool) (x : request) : request :=
  mk_request (rq_cmd x) (rq_cmd_len x) (rq_block_pc x) (rq_write x)
    (rq_nomerge x) (rq_timeout x) (rq_sense x) (rq_sense_len x) (rq_retries x)
    (rq_errors x) (rq_resid_len x) (rq_sector x) (rq_data_len x)
    (rq_ref_count x) v (rq_waiting x) (rq_freed x).
Definition set_rq_waiting (v : bool) (x : request) : request :=
  mk_request (rq_cmd x) (rq_cmd_len x) (rq_block_pc x) (rq_write x)
    (rq_nomerge x) (rq_timeout x) (rq_sense x) (rq_sense_len x) (rq_retries x)
    (rq_errors x) (rq_resid_len x) (rq_sector x) (rq_data_len x)
    (rq_ref_count x) (rq_end_io x) v (rq_freed x).
Definition set_rq_freed (v : Z) (x : request) : request :=
  mk_request (rq_cmd x) (rq_cmd_len x) (rq_block_pc x) (rq_write x)
    (rq_nomerge x) (rq_timeout x) (rq_sense x) (rq_sense_len x) (rq_retries x)
    (rq_errors x) (rq_resid_len x) (rq_sector x) (rq_data_len x)
    (rq_ref_count x) (rq_end_io x) (rq_waiting x) v.

(** [blk_rq_init]: zeroed, with [__sector = -1] and one reference. *)
Definition blk_rq_init (write : bool) : request :=
  mk_request (replicate (Z.to_nat BLK_MAX_CDB) 0) BLK_MAX_CDB false write false 0 []
    0 0 0 0 (2 ^ 64 - 1) 0 1 false false 0.

(** [__blk_put_request]: the last reference frees the request. *)
Definition blk_put_request (rq : request) : request :=
  let n := rq_ref_count rq - 1 in
  let rq := set_rq_ref_count n rq in
  if truthy n then rq else set_rq_freed (rq_freed rq + 1) rq.

(** ** The bio (struct bio)

    [bi_private] says whether mapping data is attached.  A bounced bio comes
    with the bio it stands for. *)
Record bio := mk_bio {
  bi_null_mapped : bool;
  bi_user_mapped : bool;
  bi_private : bool;
  bi_cnt : Z;
  bi_sector : Z;
  bi_size : Z;
  bi_freed : Z;
}.

Definition bio_alloc : bio := mk_bio false false false 1 0 0 0.

Definition bio_get (b : bio) : bio :=
  mk_bio (bi_null_mapped b) (bi_user_mapped b) (bi_private b) (bi_cnt b + 1)
    (bi_sector b) (bi_size b) (bi_freed b).

(** [BIO_BUG_ON(!bi_cnt)] first; the last reference frees the bio. *)
Definition bio_put (b : bio) : option bio :=
  if bi_cnt b =? 0 then None
  else
    let n := bi_cnt b - 1 in
    Some (mk_bio (bi_null_mapped b) (bi_user_mapped b) (bi_private b) n
      (bi_sector b) (bi_size b) (if n =? 0 then bi_freed b + 1 else bi_freed b)).

Definition bio_set_null_mapped (b : bio) : bio :=
  mk_bio true (bi_user_mapped b) (bi_private b) (bi_cnt b) (bi_sector b)
    (bi_size b) (bi_freed b).

Definition bio_set_extent (sector size : Z) (b : bio) : bio :=
  mk_bio (bi_null_mapped b) (bi_user_mapped b) (bi_private b) (bi_cnt b) sector
    size (bi_freed b).

(** [bio_uncopy_user]; [copy] is the result of [__bio_copy_iov].  Without
    mapping data [bmd->iovecs] is an oops unless the bio is NULL-mapped;
    [bio_free_map_data] accepts the missing data. *)
Definition bio_uncopy_user (copy : Z) (b : bio) : option (Z * bio) :=
  ret ← (if bi_null_mapped b then Some 0
         else if bi_private b then Some copy else None);
  b ← bio_put b;
  Some (ret, b).

(** [bio_unmap_user] drops one reference itself and one in
    [__bio_unmap_user]. *)
Definition blk_rq_unmap_one (copy : Z) (b : bio) : option (Z * bio) :=
  if bi_user_mapped b then
    b ← bio_put b;
    b ← bio_put b;
    Some (0, b)
  else bio_uncopy_user copy b.

(** [blk_rq_unmap_user] over the chain of bios, each with the bio it bounces
    for; the first nonzero result is kept. *)
Fixpoint blk_rq_unmap_user (copy : Z) (bs : list (bio * option bio)) (ret : Z)
    : option (Z * list (bio * option bio)) :=
  match bs with
  | [] => Some (ret, [])
  | (b, orig) :: bs =>
      '(ret2, b, orig) ← match orig with
        | Some o => '(r, o) ← blk_rq_unmap_one copy o; Some (r, b, Some o)
        | None => '(r, b) ← blk_rq_unmap_one copy b; Some (r, b, None)
        end;
      b ← bio_put b;
      let ret := if truthy ret2 && negb (truthy ret) then ret2 else ret in
      '(ret, bs) ← blk_rq_unmap_user copy bs ret;
      Some (ret, (b, orig) :: bs)
  end.

(** ** The environment of one call

    Everything the call asks from the rest of the kernel. *)
Record sg_env := mk_sg_env {
  e_queue : bool;               (** [q] is not NULL *)
  e_queue_dead : bool;          (** [QUEUE_FLAG_DEAD] *)
  e_max_hw_sectors : Z;
  e_sg_timeout : Z;
  e_capable : bool;
  e_get_request : bool;         (** [blk_get_request] finds a request *)
  e_map_user : Z * list (bio * option bio);
                                (** result and bios of the mapping calls *)
  e_bio_alloc : bool;
  e_copy_to_user : bool;        (** the sense bytes can be written *)
  e_copy_iov : Z;
  e_interrupted : bool;         (** a signal ends the wait *)
  e_duration : Z;
}.

(** What driver and device leave in a finished request. *)
Record completion := mk_completion {
  c_errors : Z;
  c_sense : list Z;
  c_sense_len : Z;
  c_resid : Z;
}.

(** ** Building the request *)

(** [memcpy(rq->cmd, hdr->cmdp, hdr->cmd_len)]; [None] when the source is
    NULL or too short. *)
Definition copy_cmd (dst : list Z) (src : option (list Z)) (n : nat) : option (list Z) :=
  match n, src with
  | O, _ => Some dst
  | S _, None => None
  | S _, Some l => if bool_decide (n ≤ length l)%nat then Some (take n l ++ drop n dst) else None
  end.

Definition pick_timeout (hdr_timeout sg_timeout : Z) : Z :=
  let t := msecs_to_jiffies hdr_timeout in
  let t := if truthy t then t else sg_timeout in
  let t := if truthy t then t else BLK_DEFAULT_SG_TIMEOUT in
  if t <? BLK_MIN_SG_TIMEOUT then BLK_MIN_SG_TIMEOUT else t.

Definition blk_kern_fill_sghdr_rq (e : sg_env) (rq : request) (hdr : sg_io_hdr)
    (write_mode : bool) : option (Z * request) :=
  cmd ← copy_cmd (rq_cmd rq) (cmdp hdr) (Z.to_nat (cmd_len hdr));
  let rq := set_rq_cmd cmd rq in
  if truthy (blk_verify_command (e_capable e) cmd write_mode) then Some (- EPERM, rq)
  else
    let rq := set_rq_cmd_len (cmd_len hdr) rq in
    let rq := set_rq_block_pc true rq in
    Some (0, set_rq_timeout (pick_timeout (timeout hdr) (e_sg_timeout e)) rq).

(** The sector address and byte count that are read back from the command
    block into the bio and the request. *)
Definition cdb_extent (c : list Z) : option (Z * Z) :=
  b2 ← c !! 2%nat; b3 ← c !! 3%nat; b4 ← c !! 4%nat; b5 ← c !! 5%nat;
  b7 ← c !! 7%nat; b8 ← c !! 8%nat;
  Some (Z.lor (Z.lor (Z.lor (Z.land (Z.shiftl b2 24) 0xff000000)
                            (Z.land (Z.shiftl b3 16) 0x00ff0000))
                     (Z.land (Z.shiftl b4 8) 0x0000ff00))
              (Z.land b5 0x000000ff),
        Z.shiftl (Z.lor (Z.land (Z.shiftl b7 8) 0x0000ff00) (Z.land b8 0x000000ff)) 9).

(** ** Execution and completion *)

(** [rq->end_io = done] and the insertion in the queue
    ([__elv_add_request(q, rq, ELEVATOR_INSERT_VERIFY, 1)]). *)
Definition blk_execute_scsi_nowait (rq : request) : request := set_rq_end_io true rq.

(** The completion handler: drops the reference of the block layer and wakes
    the submitter. *)
Definition sg_kern_complete_rq (rq : request) : request :=
  blk_put_request (set_rq_waiting false rq).

(** The lower layers finish the request and call its [end_io]. *)
Definition device_complete (device : request → completion) (rq : request) : request :=
  let c := device rq in
  let rq := set_rq_errors (c_errors c) rq in
  let rq := set_rq_sense (c_sense c) rq in
  let rq := set_rq_sense_len (c_sense_len c) rq in
  let rq := set_rq_resid_len (c_resid c) rq in
  if rq_end_io rq then sg_kern_complete_rq rq else blk_put_request rq.

(** The result of a call: return value, header, request and bios. *)
Record sg_result := mk_sg_result {
  r_ret : Z;
  r_hdr : sg_io_hdr;
  r_rq : option request;
  r_bios : list (bio * option bio);
}.

Definition write_prefix (src dst : list Z) (n : nat) : list Z := take n src ++ drop n dst.

(** The output members that only depend on the request. *)
Definition fill_outputs (rq : request) (hdr : sg_io_hdr) : sg_io_hdr :=
  let hdr := set_status (Z.land (rq_errors rq) 0xff) hdr in
  let hdr := set_masked_status (status_byte (rq_errors rq)) hdr in
  let hdr := set_msg_status (msg_byte (rq_errors rq)) hdr in
  let hdr := set_host_status (host_byte (rq_errors rq)) hdr in
  let hdr := set_driver_status (driver_byte (rq_errors rq)) hdr in
  let hdr := set_info 0 hdr in
  let hdr :=
    if truthy (masked_status hdr) || truthy (host_status hdr) || truthy (driver_status hdr)
    then set_info (Z.lor (info hdr) SG_INFO_CHECK) hdr else hdr in
  let hdr := set_resid (s32 (rq_resid_len rq)) hdr in
  set_sb_len_wr 0 hdr.

(** The copy of the sense data to [sbp]. *)
Definition copy_sense (e : sg_env) (rq : request) (hdr : sg_io_hdr) : Z * sg_io_hdr :=
  match sbp hdr with
  | Some sb =>
      if truthy (rq_sense_len rq) then
        let len := Z.min (mx_sb_len hdr) (rq_sense_len rq) in
        if e_copy_to_user e then
          (0, set_sb_len_wr (u8 len)
                (set_sbp (Some (write_prefix (rq_sense rq) sb (Z.to_nat len))) hdr))
        else (- EFAULT, hdr)
      else (0, hdr)
  | None => (0, hdr)
  end.

Definition blk_complete_sghdr_rq (e : sg_env) (rq : request) (hdr : sg_io_hdr)
    (bs : list (bio * option bio)) : option sg_result :=
  let '(ret, hdr) := copy_sense e rq (fill_outputs rq hdr) in
  '(r, bs) ← blk_rq_unmap_user (e_copy_iov e) bs 0;
  let ret := if truthy ret then ret else r in
  Some (mk_sg_result ret hdr (Some (blk_put_request rq)) bs).

(** The part of [sg_kern_io] behind the [goto out]: the request is
    mapped, [mapped] is what [rq->bio] was. *)
Definition sg_kern_io_run (device : request → completion) (e : sg_env) (hdr : sg_io_hdr)
    (rq : request) (mapped : list (bio * option bio)) : option sg_result :=
  let rq := set_rq_sense (replicate SCSI_SENSE_BUFFERSIZE 0) rq in
  let rq := set_rq_sense_len 0 rq in
  let rq := set_rq_retries 0 rq in
  let rq := set_rq_ref_count (rq_ref_count rq + 1) rq in
  let rq := set_rq_waiting true rq in
  let rq := set_rq_nomerge true rq in
  bs ← match mapped with
       | [] => if e_bio_alloc e then Some [(bio_get (bio_set_null_mapped bio_alloc), None)]
               else None
       | _ => Some mapped
       end;
  '(rq, bs) ← match cmdp hdr, bs with
     | Some c, (b, o) :: bs' =>
         '(sector, size) ← cdb_extent c;
         Some (set_rq_data_len size (set_rq_sector sector rq),
               (bio_set_extent sector size b, o) :: bs')
     | _, _ => Some (rq, bs)
     end;
  let rq := blk_execute_scsi_nowait rq in
  let rq := if e_interrupted e then rq else device_complete device rq in
  blk_complete_sghdr_rq e rq (set_duration (e_duration e) hdr) bs.

Definition sg_kern_io (device : request → completion) (e : sg_env) (hdr : sg_io_hdr)
    (write_mode : bool) : option sg_result :=
  let fail ret := Some (mk_sg_result (- ret) hdr None []) in
  if negb (interface_id hdr =? 83) then fail EINVAL
  else if BLK_MAX_CDB <? cmd_len hdr then fail EINVAL
  else if u32 (Z.shiftl (e_max_hw_sectors e) 9) <? dxfer_len hdr then fail EIO
  else
    let known := existsb (Z.eqb (dxfer_direction hdr))
                   [SG_DXFER_TO_DEV; SG_DXFER_TO_FROM_DEV; SG_DXFER_FROM_DEV] in
    if truthy (dxfer_len hdr) && negb known then fail EINVAL
    else
      let writing := truthy (dxfer_len hdr) && (dxfer_direction hdr =? SG_DXFER_TO_DEV) in
      if negb (e_get_request e) then fail ENOMEM
      else
        '(err, rq) ← blk_kern_fill_sghdr_rq e (blk_rq_init writing) hdr write_mode;
        if truthy err then
          Some (mk_sg_result (- EFAULT) hdr (Some (blk_put_request rq)) [])
        else
          let '(ret, mapped) :=
            if truthy (iovec_count hdr) || truthy (dxfer_len hdr) then e_map_user e
            else (0, []) in
          if truthy ret then Some (mk_sg_result ret hdr (Some (blk_put_request rq)) [])
          else sg_kern_io_run device e hdr rq mapped.

(** [blk_get_queue] is nonzero for a dead queue. *)
Definition scsi_kern_ioctl (device : request → completion) (e : sg_env)
    (write_mode : bool) (cmd : Z) (hdr : sg_io_hdr) : option sg_result :=
  if negb (e_queue e) || e_queue_dead e then Some (mk_sg_result (- ENXIO) hdr None [])
  else if cmd =? SG_IO then sg_kern_io device e hdr write_mode
  else Some (mk_sg_result (- ENOTTY) hdr None []).

(** ** Lemmas *)

(** Big-endian value of four (two) bytes. *)
Definition be32 (a b c d : Z) : Z := ((a * 256 + b) * 256 + c) * 256 + d.
Definition be16 (a b : Z) : Z := a * 256 + b.

Lemma shifted_byte x n :
  in_u8 x → 0 ≤ n → Z.land (Z.shiftl x n) (Z.shiftl 255 n) = x * 2 ^ n.
Proof.
  intros [? ?] ?. rewrite <- Z.shiftl_land, land_ff, Z.mod_small by lia.
  by apply Z.shiftl_mul_pow2.
Qed.

Lemma cdb_extent_value c b2 b3 b4 b5 b7 b8 :
  Forall in_u8 c →
  c !! 2%nat = Some b2 → c !! 3%nat = Some b3 → c !! 4%nat = Some b4 →
  c !! 5%nat = Some b5 → c !! 7%nat = Some b7 → c !! 8%nat = Some b8 →
  cdb_extent c = Some (be32 b2 b3 b4 b5, be16 b7 b8 * 512).
Proof.
  intros Hc E2 E3 E4 E5 E7 E8. unfold cdb_extent. rewrite E2, E3, E4, E5, E7, E8.
  cbn [mbind option_bind].
  assert (∀ i x, c !! i = Some x → in_u8 x) as Hb by (intros; by eapply Forall_lookup_1).
  pose proof (Hb _ _ E2). pose proof (Hb _ _ E3). pose proof (Hb _ _ E4).
  pose proof (Hb _ _ E5). pose proof (Hb _ _ E7). pose proof (Hb _ _ E8).
  clear Hb E2 E3 E4 E5 E7 E8 Hc.
  change 4278190080 with (Z.shiftl 255 24). change 16711680 with (Z.shiftl 255 16).
  change 65280 with (Z.shiftl 255 8). rewrite !shifted_byte by (done || lia).
  rewrite !land_ff, !Z.mod_small by (unfold in_u8 in *; lia). unfold in_u8 in *.
  rewrite (lor_shift_add b2 (b3 * 2 ^ 16) 24) by lia.
  replace (b2 * 2 ^ 24 + b3 * 2 ^ 16) with ((b2 * 256 + b3) * 2 ^ 16) by lia.
  rewrite (lor_shift_add _ (b4 * 2 ^ 8) 16) by lia.
  replace ((b2 * 256 + b3) * 2 ^ 16 + b4 * 2 ^ 8)
    with (((b2 * 256 + b3) * 256 + b4) * 2 ^ 8) by lia.
  rewrite !(lor_shift_add _ _ 8) by lia.
  rewrite Z.shiftl_mul_pow2 by lia. unfold be32, be16. do 2 f_equal; lia.
Qed.

(** A command block long enough to carry an address and a count. *)
Definition cdb_ok (c : list Z) : Prop := Forall in_u8 c ∧ (9 ≤ length c ≤ 16)%nat.

Lemma cdb_extent_total c : cdb_ok c → ∃ s n, cdb_extent c = Some (s, n).
Proof.
  intros [Hc Hl].
  do 9 (destruct c as [|? c]; [simpl in Hl; lia|]).
  eexists _, _. apply cdb_extent_value; done.
Qed.

(** The header of a command without data transfer. *)
Record no_data_hdr (hdr : sg_io_hdr) (c : list Z) : Prop := {
  nd_id : interface_id hdr = 83;
  nd_cmd : cmdp hdr = Some c;
  nd_len : cmd_len hdr = Z.of_nat (length c);
  nd_cdb : cdb_ok c;
  nd_iov : iovec_count hdr = 0;
  nd_dxfer : dxfer_len hdr = 0;
}.

(** The request such a command becomes. *)
Definition submitted_rq (e : sg_env) (hdr : sg_io_hdr) (c : list Z) (sector size : Z)
    : request :=
  mk_request (c ++ drop (length c) (replicate (Z.to_nat BLK_MAX_CDB) 0)) (cmd_len hdr)
    true false true (pick_timeout (timeout hdr) (e_sg_timeout e))
    (replicate SCSI_SENSE_BUFFERSIZE 0) 0 0 0 0 sector size 2 true true 0.

Definition submitted_bio (sector size : Z) : bio := mk_bio true false false 2 sector size 0.

Definition finished_rq (device : request → completion) (e : sg_env) (rq : request) : request :=
  if e_interrupted e then rq else device_complete device rq.

(** The environment lets the call through to the device. *)
Record let_through (e : sg_env) (c : list Z) (wm : bool) : Prop := {
  ad_rq : e_get_request e = true;
  ad_bio : e_bio_alloc e = true;
  ad_cmd : blk_verify_command (e_capable e) c wm = 0;
}.

Lemma copy_cmd_all dst c :
  copy_cmd dst (Some c) (length c) = Some (c ++ drop (length c) dst).
Proof.
  unfold copy_cmd. destruct (length c) eqn:E.
  - destruct c; [done|discriminate].
  - rewrite bool_decide_eq_true_2 by lia. by rewrite <- E, firstn_all.
Qed.

Lemma verify_command_prefix cap c dst wm :
  c ≠ [] → blk_verify_command cap (c ++ dst) wm = blk_verify_command cap c wm.
Proof. by destruct c. Qed.

Lemma cdb_nonempty c : cdb_ok c → c ≠ [].
Proof. intros [_ ?] ->. simpl in *. lia. Qed.

Lemma fill_value e hdr c wm :
  no_data_hdr hdr c →
  blk_kern_fill_sghdr_rq e (blk_rq_init false) hdr wm =
  Some (let rq := set_rq_cmd (c ++ drop (length c) (replicate (Z.to_nat BLK_MAX_CDB) 0))
                    (blk_rq_init false) in
        if truthy (blk_verify_command (e_capable e) c wm) then (- EPERM, rq)
        else (0, set_rq_timeout (pick_timeout (timeout hdr) (e_sg_timeout e))
                   (set_rq_block_pc true (set_rq_cmd_len (cmd_len hdr) rq)))).
Proof.
  intros [? Hc Hl Hok ? ?]. unfold blk_kern_fill_sghdr_rq.
  rewrite Hc, Hl, Nat2Z.id, copy_cmd_all. cbn [mbind option_bind].
  rewrite verify_command_prefix by by apply cdb_nonempty.
  by destruct (truthy _).
Qed.

Lemma kern_io_checks device e hdr c wm :
  no_data_hdr hdr c →
  sg_kern_io device e hdr wm =
  (if negb (e_get_request e) then Some (mk_sg_result (- ENOMEM) hdr None [])
   else
     '(err, rq) ← blk_kern_fill_sghdr_rq e (blk_rq_init false) hdr wm;
     if truthy err then Some (mk_sg_result (- EFAULT) hdr (Some (blk_put_request rq)) [])
     else sg_kern_io_run device e hdr rq []).
Proof.
  intros [Hi Hc Hl [? ?] Hv Hx]. unfold sg_kern_io. rewrite Hi, Hl, Hv, Hx. simpl negb.
  pose proof (u32_range (Z.shiftl (e_max_hw_sectors e) 9)) as [? ?].
  unfold BLK_MAX_CDB. destruct (16 <? _) eqn:?; zbool; [lia|].
  destruct (_ <? 0) eqn:?; zbool; [lia|]. cbn [truthy Z.eqb negb andb orb]. done.
Qed.

Lemma kern_io_run_value device e hdr c wm s n :
  no_data_hdr hdr c → e_bio_alloc e = true → cdb_extent c = Some (s, n) →
  sg_kern_io_run device e hdr
    (set_rq_timeout (pick_timeout (timeout hdr) (e_sg_timeout e))
       (set_rq_block_pc true (set_rq_cmd_len (cmd_len hdr)
          (set_rq_cmd (c ++ drop (length c) (replicate (Z.to_nat BLK_MAX_CDB) 0))
             (blk_rq_init wm))))) [] =
  blk_complete_sghdr_rq e
    (finished_rq device e (set_rq_write wm (submitted_rq e hdr c s n)))
    (set_duration (e_duration e) hdr) [(submitted_bio s n, None)].
Proof.
  intros [Hi Hc Hl [? ?] Hv Hx] Hb He. unfold sg_kern_io_run.
  rewrite Hb, Hc. cbn [mbind option_bind]. rewrite He. cbn [mbind option_bind].
  reflexivity.
Qed.

(** What driver and device promise: [errors] is an [int], the sense buffer
    keeps its 96 bytes and [sense_len] says how many of them were written. *)
Class Device (device : request → completion) : Prop := {
  dev_errors rq : in_s32 (c_errors (device rq));
  dev_sense_bytes rq : Forall in_u8 (c_sense (device rq));
  dev_sense_size rq : length (c_sense (device rq)) = SCSI_SENSE_BUFFERSIZE;
  dev_sense_len rq : 0 ≤ c_sense_len (device rq) ≤ Z.of_nat SCSI_SENSE_BUFFERSIZE;
}.

(** The status members of a header are those of an [errors] word. *)
Record hdr_status (errors : Z) (hdr : sg_io_hdr) : Prop := {
  hs_status : status hdr = Z.land errors 0xff;
  hs_masked : masked_status hdr = status_byte errors;
  hs_host : host_status hdr = host_byte errors;
  hs_driver : driver_status hdr = driver_byte errors;
}.

(** What was written to the caller's sense buffer [old]. *)
Definition sense_copied (e : sg_env) (rq : request) (old : list Z) (hdr : sg_io_hdr)
    (ret : Z) : Prop :=
  let n := Z.min (mx_sb_len hdr) (rq_sense_len rq) in
  (ret = 0 ∧ sb_len_wr hdr = n ∧
   sbp hdr = Some (write_prefix (rq_sense rq) old (Z.to_nat n))) ∨
  (ret = - EFAULT ∧ e_copy_to_user e = false ∧ sb_len_wr hdr = 0 ∧ sbp hdr = Some old).

Lemma fill_outputs_value rq hdr :
  hdr_status (rq_errors rq) (fill_outputs rq hdr) ∧
  sbp (fill_outputs rq hdr) = sbp hdr ∧ mx_sb_len (fill_outputs rq hdr) = mx_sb_len hdr ∧
  sb_len_wr (fill_outputs rq hdr) = 0.
Proof.
  destruct hdr. unfold fill_outputs. cbv zeta.
  match goal with |- context [if ?b then _ else _] => destruct b end;
    by repeat split.
Qed.

Lemma copy_sense_value e rq hdr sb :
  0 ≤ rq_sense_len rq → in_u8 (mx_sb_len hdr) → sbp hdr = Some sb → sb_len_wr hdr = 0 →
  hdr_status (rq_errors rq) hdr →
  ∃ ret hdr', copy_sense e rq hdr = (ret, hdr') ∧ hdr_status (rq_errors rq) hdr' ∧
    mx_sb_len hdr' = mx_sb_len hdr ∧ sense_copied e rq sb hdr' ret.
Proof.
  intros Hs [? ?] Hsb Hw [? ? ? ?]. unfold copy_sense. rewrite Hsb.
  destruct (truthy (rq_sense_len rq)) eqn:Hl; zbool.
  - destruct (e_copy_to_user e) eqn:Hc; eexists _, _; (split; [reflexivity|]).
    + destruct hdr; simpl in *. split_and!; [done|done|left].
      cbn [mx_sb_len sb_len_wr sbp set_sb_len_wr set_sbp].
      rewrite u8_small by (unfold in_u8; lia). done.
    + split_and!; [done|done|]. right. done.
  - eexists _, _. split; [reflexivity|]. split_and!; [done|done|left].
    rewrite Hl, Z.min_r by lia. by rewrite Hw, Hsb.
Qed.

Definition freed_bio (s n : Z) : bio := mk_bio true false false 0 s n 1.

Lemma blk_complete_value e rq hdr s n sb :
  0 ≤ rq_sense_len rq → in_u8 (mx_sb_len hdr) → sbp hdr = Some sb →
  ∃ hdr' ret,
    blk_complete_sghdr_rq e rq hdr [(submitted_bio s n, None)] =
      Some (mk_sg_result ret hdr' (Some (blk_put_request rq)) [(freed_bio s n, None)]) ∧
    hdr_status (rq_errors rq) hdr' ∧ mx_sb_len hdr' = mx_sb_len hdr ∧
    sense_copied e rq sb hdr' ret.
Proof.
  intros Hs Hm Hsb. unfold blk_complete_sghdr_rq.
  destruct (fill_outputs_value rq hdr) as (Hst & Hsb' & Hmx & Hw).
  destruct (copy_sense_value e rq (fill_outputs rq hdr) sb) as (ret & hdr' & -> & ? & ? & ?);
    [done|by rewrite Hmx|by rewrite Hsb'|done|done|].
  exists hdr', ret. split_and!; [|done|congruence|done].
  cbn. destruct (truthy ret) eqn:Hr; zbool; [done|]. by rewrite Hr.
Qed.

(** The call reaches the device: its queue is alive and [let_through]. *)
Definition queue_alive (e : sg_env) : bool := e_queue e && negb (e_queue_dead e).

Section ioctl.
Context (device : request → completion) `{!Device device}.
Context (e : sg_env) (hdr : sg_io_hdr) (c sb : list Z) (wm : bool) (s n : Z).
Hypothesis Hhdr : no_data_hdr hdr c.
Hypothesis Hsb : sbp hdr = Some sb.
Hypothesis Hmx : in_u8 (mx_sb_len hdr).
Hypothesis Hbio : e_bio_alloc e = true.
Hypothesis Hext : cdb_extent c = Some (s, n).

(** The request the device has (or, after a signal, has not yet) worked on. *)
Let rq : request := finished_rq device e (submitted_rq e hdr c s n).

Lemma finished_sense_len : 0 ≤ rq_sense_len rq.
Proof.
  unfold rq, finished_rq. destruct (e_interrupted e); [done|].
  by destruct (dev_sense_len (device := device) (submitted_rq e hdr c s n)).
Qed.

Lemma kern_ioctl_value :
  queue_alive e = true → let_through e c wm →
  ∃ hdr' ret,
    scsi_kern_ioctl device e wm SG_IO hdr =
      Some (mk_sg_result ret hdr' (Some (blk_put_request rq)) [(freed_bio s n, None)]) ∧
    hdr_status (rq_errors rq) hdr' ∧ mx_sb_len hdr' = mx_sb_len hdr ∧
    sense_copied e rq sb hdr' ret.
Proof.
  unfold queue_alive. intros Hq%andb_true_iff [Hr _ Hv]. destruct Hq as [Hq Hd].
  unfold scsi_kern_ioctl. rewrite Hq, <- (negb_involutive (e_queue_dead e)), Hd.
  cbn [negb orb]. rewrite Z.eqb_refl, (kern_io_checks _ _ _ c) by done.
  rewrite Hr, (fill_value _ _ c) by done. cbn [negb mbind option_bind]. rewrite Hv.
  change (truthy 0) with false. cbn iota. change (truthy 0) with false. cbn iota.
  rewrite (kern_io_run_value device e hdr c false s n) by done.
  apply (blk_complete_value e rq (set_duration (e_duration e) hdr)); [|done|done].
  apply finished_sense_len.
Qed.

Lemma kern_ioctl_refused :
  queue_alive e = false ∨ e_get_request e = false ∨
    blk_verify_command (e_capable e) c wm ≠ 0 →
  ∃ ret orq,
    scsi_kern_ioctl device e wm SG_IO hdr = Some (mk_sg_result ret hdr orq []) ∧
    (ret = - ENXIO ∨ ret = - ENOMEM ∨ ret = - EFAULT) ∧
    (∀ r, orq = Some r → rq_ref_count r = 0 ∧ rq_freed r = 1).
Proof.
  intros H. unfold scsi_kern_ioctl, queue_alive in *.
  destruct (e_queue e); [|by eexists _, None; split_and!; [done|auto|]].
  destruct (e_queue_dead e); [by eexists _, None; split_and!; [done|auto|]|].
  cbn [negb orb andb] in *. rewrite Z.eqb_refl, (kern_io_checks _ _ _ c) by done.
  destruct (e_get_request e); [|by eexists _, None; split_and!; [done|auto|]].
  rewrite (fill_value _ _ c) by done. cbn [negb mbind option_bind].
  destruct (truthy (blk_verify_command (e_capable e) c wm)) eqn:Hv; zbool.
  - eexists _, _. split_and!; [reflexivity|auto|]. intros r [= <-]. done.
  - destruct H as [?|[?|?]]; congruence.
Qed.

Lemma finished_refs :
  rq_ref_count rq = (if e_interrupted e then 2 else 1) ∧ rq_freed rq = 0.
Proof. unfold rq, finished_rq. destruct (e_interrupted e); split; reflexivity. Qed.

Lemma put_finished :
  blk_put_request rq =
  if e_interrupted e then set_rq_ref_count 1 rq
  else set_rq_freed 1 (set_rq_ref_count 0 rq).
Proof.
  destruct finished_refs as [Hr Hf]. unfold blk_put_request. rewrite Hr.
  destruct (e_interrupted e); [reflexivity|].
  change (truthy (1 - 1)) with false. cbn iota. f_equal.
  change (rq_freed rq + 1 = 1). by rewrite Hf.
Qed.

Lemma put_interrupted :
  e_interrupted e = true →
  rq_ref_count (device_complete device (blk_put_request rq)) = 0 ∧
  rq_freed (device_complete device (blk_put_request rq)) = 1.
Proof. unfold rq, finished_rq. intros ->. done. Qed.

End ioctl.

(** A device that answers GOOD to every command. *)
Definition good_device (rq : request) : completion :=
  mk_completion 0 (replicate SCSI_SENSE_BUFFERSIZE 0) 0 0.

#[export] Instance good_device_ok : Device good_device.
Proof. split; intros; simpl; [done|by repeat constructor|done|lia]. Qed.

(** A live queue, no privileges. *)
Definition demo_env : sg_env :=
  mk_sg_env true false 1024 0 false true (0, []) true true 0 false 3.

Definition demo_cdb : list Z := [0x2f; 0; 0x12; 0x34; 0x56; 0x78; 0; 0x01; 0x02; 0].

Definition demo_hdr : sg_io_hdr :=
  mk_sg_io_hdr 83 SG_DXFER_NONE 10 32 0 0 (Some demo_cdb) (Some (replicate 32 0)) 60000
    0 0 0 0 0 0 0 0 0.

Lemma demo_no_data : no_data_hdr demo_hdr demo_cdb.
Proof.
  split; try done. split; [|simpl; lia].
  by repeat constructor.
Qed.

(** ** Theorems *)

(** C27: Life cycle of the request and of its bio. Whatever the state of the
    queue, the pools and the privileges, a command without data transfer never
    oopses in [scsi_kern_ioctl]; the bio allocated for it is freed exactly
    once, and the request is freed exactly once: by the time the call returns
    or, when a signal ended the wait, by the completion that is still to come. *)
Theorem request_life_cycle device `{!Device device} e hdr c sb wm :
  no_data_hdr hdr c → sbp hdr = Some sb → in_u8 (mx_sb_len hdr) →
  e_bio_alloc e = true →
  ∃ r, scsi_kern_ioctl device e wm SG_IO hdr = Some r ∧
    Forall (λ b, bi_cnt b.1 = 0 ∧ bi_freed b.1 = 1) (r_bios r) ∧
    match r_rq r with
    | None => r_ret r < 0
    | Some rq =>
        rq_ref_count rq = 0 ∧ rq_freed rq = 1 ∨
        e_interrupted e = true ∧ rq_freed rq = 0 ∧
        rq_ref_count (device_complete device rq) = 0 ∧
        rq_freed (device_complete device rq) = 1
    end.
Proof.
  intros Hh Hsb Hmx Hb. destruct (cdb_extent_total c) as (s & n & He); [apply Hh|].
  destruct (queue_alive e && e_get_request e &&
            (blk_verify_command (e_capable e) c wm =? 0)) eqn:Hok; zbool.
  1:{ destruct (kern_ioctl_value device e hdr c sb wm s n) as (hdr' & ret & Hr & _); try done.
    eexists. split; [exact Hr|]. simpl. split; [by repeat constructor|].
    destruct (e_interrupted e) eqn:Hi.
    + right. destruct (put_interrupted device e hdr c s n Hi) as [? ?].
      by rewrite put_finished, Hi at 1; unfold finished_rq; rewrite Hi at 1.
    + left. unfold finished_rq. by rewrite Hi. }
  all: edestruct (kern_ioctl_refused device e hdr c wm) as (ret & orq & Hr & Hret & Hrq);
      [done|eauto|]; eexists; (split; [exact Hr|]); simpl; (split; [constructor|]);
      destruct orq; [left; by apply Hrq|unfold ENXIO, ENOMEM, EFAULT in *; lia].
Qed.

Lemma request_life_cycle_witness :
  ∃ r, scsi_kern_ioctl good_device demo_env false SG_IO demo_hdr = Some r ∧
    Forall (λ b, bi_cnt b.1 = 0 ∧ bi_freed b.1 = 1) (r_bios r) ∧
    match r_rq r with
    | None => r_ret r < 0
    | Some rq =>
        rq_ref_count rq = 0 ∧ rq_freed rq = 1 ∨
        e_interrupted demo_env = true ∧ rq_freed rq = 0 ∧
        rq_ref_count (device_complete good_device rq) = 0 ∧
        rq_freed (device_complete good_device rq) = 1
    end.
Proof.
  apply (request_life_cycle good_device demo_env demo_hdr demo_cdb (replicate 32 0) false);
    [apply demo_no_data|done|done|done].
Defined.

(** What the device is asked and what the caller is told. A command that is
    let through reaches the device as a BLOCK_PC request that cannot be
    merged, with the bytes of the command block, the sector address and byte
    count the command block encodes, and a timeout of at least
    [BLK_MIN_SG_TIMEOUT]; the caller gets the status bytes of the device's
    answer and as much of its sense data as fits its buffer, whose size does
    not change. *)
Theorem device_round device `{!Device device} e hdr c sb wm s n :
  no_data_hdr hdr c → sbp hdr = Some sb → length sb = Z.to_nat (mx_sb_len hdr) →
  in_u8 (mx_sb_len hdr) → cdb_extent c = Some (s, n) →
  queue_alive e = true → let_through e c wm → e_interrupted e = false →
  ∃ rq r sb', take (length c) (rq_cmd rq) = c ∧ rq_block_pc rq = true ∧
    rq_nomerge rq = true ∧ rq_sector rq = s ∧ rq_data_len rq = n ∧
    BLK_MIN_SG_TIMEOUT ≤ rq_timeout rq ∧
    scsi_kern_ioctl device e wm SG_IO hdr = Some r ∧
    hdr_status (c_errors (device rq)) (r_hdr r) ∧
    sbp (r_hdr r) = Some sb' ∧ length sb' = length sb ∧
    sb_len_wr (r_hdr r) ≤ mx_sb_len hdr ∧
    take (Z.to_nat (sb_len_wr (r_hdr r))) sb' =
    take (Z.to_nat (sb_len_wr (r_hdr r))) (c_sense (device rq)) ∧
    (r_ret r = 0 → sb_len_wr (r_hdr r) = Z.min (mx_sb_len hdr) (c_sense_len (device rq))).
Proof.
  intros Hh Hsb Hl Hmx He Hq Hlt Hi. set (rq := submitted_rq e hdr c s n).
  destruct (kern_ioctl_value device e hdr c sb wm s n) as (hdr' & ret & Hr & Hst & Hm & Hc);
    try done; [by destruct Hlt|].
  unfold finished_rq in Hst, Hc. rewrite Hi in Hst, Hc. fold rq in Hst, Hc.
  pose proof (dev_sense_len (device := device) rq) as Hsl.
  pose proof (dev_sense_size (device := device) rq) as Hss.
  assert (rq_sense_len (device_complete device rq) = c_sense_len (device rq)) as Es by done.
  assert (rq_sense (device_complete device rq) = c_sense (device rq)) as Eb by done.
  unfold sense_copied in Hc. rewrite Es, Eb, Hm in Hc. destruct Hmx.
  assert (BLK_MIN_SG_TIMEOUT ≤ rq_timeout rq).
  { unfold rq. simpl. unfold pick_timeout. cbv zeta.
    match goal with |- context [?t <? BLK_MIN_SG_TIMEOUT] =>
      destruct (t <? BLK_MIN_SG_TIMEOUT) eqn:?; zbool; lia end. }
  assert (take (length c) (rq_cmd rq) = c) by (unfold rq; simpl; apply take_app_length).
  destruct Hc as [(-> & Hw & Hb)|(-> & _ & Hw & Hb)]; eexists rq, _, _;
    (split_and!; [done|done|done|done|done|done|exact Hr|exact Hst|exact Hb|..]).
  - unfold write_prefix. rewrite length_app, length_take, length_drop. lia.
  - simpl. lia.
  - cbn [r_hdr]. rewrite Hw. unfold write_prefix.
    rewrite take_app_le by (rewrite length_take; lia). by rewrite take_take, Nat.min_id.
  - intros _. cbn [r_hdr]. lia.
  - done.
  - cbn [r_hdr]. lia.
  - cbn [r_hdr]. by rewrite Hw.
  - cbn [r_ret]. unfold EFAULT. lia.
Qed.

Lemma device_round_witness :
  ∃ rq r sb', take (length demo_cdb) (rq_cmd rq) = demo_cdb ∧ rq_block_pc rq = true ∧
    rq_nomerge rq = true ∧ rq_sector rq = 0x12345678 ∧ rq_data_len rq = 0x102 * 512 ∧
    BLK_MIN_SG_TIMEOUT ≤ rq_timeout rq ∧
    scsi_kern_ioctl good_device demo_env false SG_IO demo_hdr = Some r ∧
    hdr_status (c_errors (good_device rq)) (r_hdr r) ∧
    sbp (r_hdr r) = Some sb' ∧ length sb' = length (replicate 32 0) ∧
    sb_len_wr (r_hdr r) ≤ mx_sb_len demo_hdr ∧
    take (Z.to_nat (sb_len_wr (r_hdr r))) sb' =
    take (Z.to_nat (sb_len_wr (r_hdr r))) (c_sense (good_device rq)) ∧
    (r_ret r = 0 →
     sb_len_wr (r_hdr r) = Z.min (mx_sb_len demo_hdr) (c_sense_len (good_device rq))).
Proof.
  apply (device_round good_device demo_env demo_hdr demo_cdb (replicate 32 0) false
           0x12345678 (0x102 * 512)); try done.
  apply demo_no_data.
Defined.

(** The command filter. An unprivileged caller without write permission may
    issue exactly the commands of the read list. VERIFY(10), the command of
    the scrubber, is one of them, so the scrubber needs no privilege; no
    command of the write list is, except SEND KEY, which shares its operation
    code 0xa3 with MAINTENANCE IN and so passes a read-only open. *)
Theorem filter_read_only op rest :
  (blk_verify_command false (op :: rest) false = 0 ↔ op ∈ filter_read_ok) ∧
  blk_verify_command false (GPCMD_VERIFY_10 :: rest) false = 0 ∧
  (op ∈ filter_write_ok →
   blk_verify_command false (op :: rest) false = 0 ↔ op = GPCMD_SEND_KEY).
Proof.
  assert (∀ o, blk_verify_command false (o :: rest) false = 0 ↔ o ∈ filter_read_ok) as Hr.
  { intros o. unfold blk_verify_command. simpl default.
    case_bool_decide; [done|]. rewrite andb_false_r. done. }
  split_and!; [apply Hr|by apply Hr; apply (bool_decide_unpack _)|].
  intros Hw. rewrite Hr. revert Hw. unfold filter_write_ok.
  rewrite !elem_of_cons, elem_of_nil. intros Hw.
  repeat destruct Hw as [->|Hw]; try done.
  all: first
    [ split; [intros H; exfalso; revert H; by apply (bool_decide_unpack _)|done]
    | split; [done|intros _; by apply (bool_decide_unpack _)] ].
Qed.
