(* ===== verification/Verify.v ===== *)
(** * The VERIFY(10) command of the scrubber (block/scrub_verify.c)

    [scsi_verify] asks the device to verify [count] sectors from [lba]: it
    builds the command block, sends it through [scsi_kern_ioctl], classifies
    the answer with the routines of the Sense file and reports errors.  The
    result of an operation is [None] on an oops or on a read outside the sense
    buffer.  The messages that need [verbose > 1] are not modelled; the ones
    of [scsi_verify] itself are. *)
From S2P Require Import Prelude Vsprintf Scrub Sense SgIo.

(** ** Constants *)

Definition SENSE_BUFF_LEN : nat := 32.
Abbreviation DEF_PT_TIMEOUT := 60%Z (only parsing).
Abbreviation DEF_TIMEOUT := 60000%Z (only parsing).
Abbreviation VERIFY10_CMD := 0x2f%Z (only parsing).
Abbreviation SAM_STAT_CHECK_CONDITION := 0x2%Z (only parsing).
Abbreviation SAM_STAT_COMMAND_TERMINATED := 0x22%Z (only parsing).
Abbreviation SG_LIB_DRIVER_MASK := 0x0f%Z (only parsing).
Abbreviation SG_LIB_DRIVER_SENSE := 0x08%Z (only parsing).
Abbreviation SCSI_PT_DO_BAD_PARAMS := 1%Z (only parsing).
Abbreviation SCSI_PT_DO_TIMEOUT := 2%Z (only parsing).
Abbreviation SCSI_PT_RESULT_GOOD := 0%Z (only parsing).
Abbreviation SCSI_PT_RESULT_STATUS := 1%Z (only parsing).
Abbreviation SCSI_PT_RESULT_SENSE := 2%Z (only parsing).
Abbreviation SCSI_PT_RESULT_TRANSPORT_ERR := 3%Z (only parsing).
Abbreviation SCSI_PT_RESULT_OS_ERR := 4%Z (only parsing).

(** ** The pass-through object (struct sg_pt_scsi) *)

Record sg_pt_scsi := mk_sg_pt_scsi {
  io_hdr : sg_io_hdr;
  in_err : Z;
  os_err : Z;
}.

(** [alloc] says whether [kmalloc_node] succeeds. *)
Definition construct_scsi_pt_obj (alloc : bool) : option sg_pt_scsi :=
  if alloc then
    Some (mk_sg_pt_scsi
            (mk_sg_io_hdr 83 SG_DXFER_NONE 0 0 0 0 None None 0 0 0 0 0 0 0 0 0 0) 0 0)
  else None.

Definition set_scsi_pt_cdb (p : sg_pt_scsi) (cdb : list Z) : sg_pt_scsi :=
  let err := match cmdp (io_hdr p) with Some _ => in_err p + 1 | None => in_err p end in
  mk_sg_pt_scsi
    (set_cmd_len (Z.of_nat (length cdb)) (set_cmdp (Some cdb) (io_hdr p))) err (os_err p).

(** The sense buffer is zeroed, so only its size matters. *)
Definition set_scsi_pt_sense (p : sg_pt_scsi) (max_sense_len : nat) : sg_pt_scsi :=
  let err := match sbp (io_hdr p) with Some _ => in_err p + 1 | None => in_err p end in
  mk_sg_pt_scsi
    (set_mx_sb_len (Z.of_nat max_sense_len)
       (set_sbp (Some (replicate max_sense_len 0)) (io_hdr p))) err (os_err p).

(** [memset(sbp, 0, mx_sb_len)] *)
Definition clear_sense (h : sg_io_hdr) : sg_io_hdr :=
  match sbp h with
  | Some sb =>
      if 0 <? mx_sb_len h then
        set_sbp (Some (write_prefix (replicate (Z.to_nat (mx_sb_len h)) 0) sb
                         (Z.to_nat (mx_sb_len h)))) h
      else h
  | None => h
  end.

Definition do_scsi_pt (device : request → completion) (e : sg_env) (p : sg_pt_scsi)
    (time_secs : Z) : option (Z * sg_pt_scsi) :=
  let p := mk_sg_pt_scsi (io_hdr p) (in_err p) 0 in
  if truthy (in_err p) then Some (SCSI_PT_DO_BAD_PARAMS, p)
  else
    match cmdp (io_hdr p) with
    | None => Some (SCSI_PT_DO_BAD_PARAMS, p)
    | Some _ =>
        let h := set_timeout (if 0 <? time_secs then time_secs * 1000 else DEF_TIMEOUT)
                   (io_hdr p) in
        let h := clear_sense h in
        r ← scsi_kern_ioctl device e false SG_IO h;
        let p := mk_sg_pt_scsi (r_hdr r) (in_err p) (r_ret r) in
        if os_err p <? 0 then Some (- os_err p, p) else Some (0, p)
    end.

(** ** Classification of the answer *)

Definition get_scsi_pt_result_category (p : sg_pt_scsi) : Z :=
  let dr_st := Z.land (driver_status (io_hdr p)) SG_LIB_DRIVER_MASK in
  let scsi_st := Z.land (status (io_hdr p)) 0x7e in
  if truthy (os_err p) then SCSI_PT_RESULT_OS_ERR
  else if truthy (host_status (io_hdr p)) then SCSI_PT_RESULT_TRANSPORT_ERR
  else if truthy dr_st && negb (SG_LIB_DRIVER_SENSE =? dr_st) then
    SCSI_PT_RESULT_TRANSPORT_ERR
  else if (SG_LIB_DRIVER_SENSE =? dr_st) || (SAM_STAT_CHECK_CONDITION =? scsi_st) ||
          (SAM_STAT_COMMAND_TERMINATED =? scsi_st) then SCSI_PT_RESULT_SENSE
  else if truthy scsi_st then SCSI_PT_RESULT_STATUS
  else SCSI_PT_RESULT_GOOD.

Definition of_access {A} (a : access A) : option A :=
  match a with Ret x => Some x | _ => None end.

(** The return value and, for -2, the sense category. *)
Definition sg_cmds_process_resp (p : sg_pt_scsi) (res : Z) (sense_b : list Z)
    : option (Z * option Z) :=
  if res <? 0 then Some (-1, None)
  else if SCSI_PT_DO_BAD_PARAMS =? res then Some (-1, None)
  else if SCSI_PT_DO_TIMEOUT =? res then Some (-1, None)
  else
    let cat := get_scsi_pt_result_category p in
    if cat =? SCSI_PT_RESULT_GOOD then Some (0, None)
    else if cat =? SCSI_PT_RESULT_STATUS then Some (-1, None)
    else if cat =? SCSI_PT_RESULT_SENSE then
      scat ← of_access (sg_err_category_sense (Some sense_b) (sb_len_wr (io_hdr p)));
      Some (-2, Some scat)
    else Some (-1, None).

(** ** The command *)

Definition verify10_cdb (vrprotect dpo bytechk lba veri_len : Z) : list Z :=
  [ VERIFY10_CMD;
    u8 (Z.lor (Z.lor (Z.shiftl (Z.land vrprotect 0x7) 5) (Z.shiftl (Z.land dpo 0x1) 4))
              (Z.shiftl (Z.land bytechk 0x1) 1));
    Z.land (Z.shiftr lba 24) 0xff;
    Z.land (Z.shiftr lba 16) 0xff;
    Z.land (Z.shiftr lba 8) 0xff;
    Z.land lba 0xff;
    0;
    Z.land (Z.shiftr veri_len 8) 0xff;
    Z.land veri_len 0xff;
    0 ].

(** The switch of [sg_ll_verify10] on the sense category: the return value
    and what is stored at [infop]. *)
Definition verify10_sense (sense_b : list Z) (slen sense_cat : Z) : option (Z * option Z) :=
  if existsb (Z.eqb sense_cat)
       [SG_LIB_CAT_NOT_READY; SG_LIB_CAT_INVALID_OP; SG_LIB_CAT_ILLEGAL_REQ;
        SG_LIB_CAT_UNIT_ATTENTION; SG_LIB_CAT_ABORTED_COMMAND]
  then Some (sense_cat, None)
  else if existsb (Z.eqb sense_cat) [SG_LIB_CAT_RECOVERED; SG_LIB_CAT_NO_SENSE]
  then Some (0, None)
  else if sense_cat =? SG_LIB_CAT_MEDIUM_HARD then
    '(valid, ull) ← of_access (sg_get_sense_info_fld sense_b slen);
    if truthy valid then Some (SG_LIB_CAT_MEDIUM_HARD_WITH_INFO, Some (u32 ull))
    else Some (SG_LIB_CAT_MEDIUM_HARD, None)
  else Some (-1, None).

(** [veri_len] is an [int]; the sense buffer is the one the header points
    to. *)
Definition sg_ll_verify10 (device : request → completion) (e : sg_env) (alloc : bool)
    (vrprotect dpo bytechk lba veri_len : Z) : option (Z * option Z) :=
  let vCmdBlk := verify10_cdb vrprotect dpo bytechk lba veri_len in
  match construct_scsi_pt_obj alloc with
  | None => Some (-1, None)
  | Some p =>
      let p := set_scsi_pt_cdb p vCmdBlk in
      let p := set_scsi_pt_sense p SENSE_BUFF_LEN in
      '(res, p) ← do_scsi_pt device e p DEF_PT_TIMEOUT;
      let sense_b := default [] (sbp (io_hdr p)) in
      '(ret, scat) ← sg_cmds_process_resp p res sense_b;
      if ret =? -1 then Some (-1, None)
      else if ret =? -2 then
        verify10_sense sense_b (sb_len_wr (io_hdr p)) (default 0 scat)
      else Some (0, None)
  end.

(** The message printed for a nonzero result. *)
Definition verify_report (name : string) (lba info res : Z) : string :=
  let text :=
    if res =? SG_LIB_CAT_NOT_READY then "Verify(10) failed, device not ready"
    else if res =? SG_LIB_CAT_UNIT_ATTENTION then "Verify(10), unit attention"
    else if res =? SG_LIB_CAT_ABORTED_COMMAND then "Verify(10), aborted command"
    else if res =? SG_LIB_CAT_INVALID_OP then "Verify(10) command not supported"
    else if res =? SG_LIB_CAT_ILLEGAL_REQ then
      ("bad field in Verify(10) cdb, near lba=0x" +:+ fmt_llu lba)%string
    else if res =? SG_LIB_CAT_MEDIUM_HARD then
      ("medium or hardware error near lba=0x" +:+ fmt_llu lba)%string
    else if res =? SG_LIB_CAT_MEDIUM_HARD_WITH_INFO then
      ("medium or hardware error, reported lba=0x" +:+ fmt_llu info)%string
    else ("Verify(10) failed near lba=" +:+ fmt_llu lba +:+
          " [0x" +:+ fmt_llu lba +:+ "]")%string in
  ("SCSIVerify (" +:+ name +:+ "): " +:+ text +:+ String NL "")%string.

(** Returns the result and the messages.  [count] is an [unsigned int] that
    is passed on as an [int]. *)
Definition scsi_verify (device : request → completion) (e : sg_env) (alloc : bool)
    (disk : gendisk) (s : disk_scrubber) (lba count : Z) : option (Z * list string) :=
  '(res, i) ← sg_ll_verify10 device e alloc (vrprotect s) (dpo s) 0 lba (s32 count);
  let info := default 0 i in
  Some (if 0 <=? res then res else SG_LIB_CAT_OTHER,
        if res =? 0 then [] else [verify_report (gd_name disk) lba info res]).

(** ** Lemmas *)

Lemma verify10_cdb_ok v d b lba len : cdb_ok (verify10_cdb v d b lba len).
Proof.
  split; [|simpl; lia]. unfold verify10_cdb. rewrite !land_ff.
  assert (∀ z, in_u8 (z mod 256)) by (intros; apply u8_range).
  repeat (apply Forall_cons; split; [first [done | apply u8_range | unfold in_u8; lia]|]).
  constructor.
Qed.

Lemma verify10_extent v d b lba len :
  cdb_extent (verify10_cdb v d b lba len) = Some (lba mod 2 ^ 32, len mod 2 ^ 16 * 512).
Proof.
  unfold verify10_cdb. rewrite !land_ff, !shiftr_div by lia.
  erewrite cdb_extent_value; [|pose proof (verify10_cdb_ok v d b lba len) as [Hb _];
    unfold verify10_cdb in Hb; rewrite !land_ff, !shiftr_div in Hb by lia; exact Hb
    |reflexivity..].
  unfold be32, be16. change (2 ^ 24) with 16777216. change (2 ^ 16) with 65536.
  change (2 ^ 8) with 256. change (2 ^ 32) with 4294967296. f_equal. f_equal; dlia.
Qed.

Lemma s32_mod16 z : s32 z mod 2 ^ 16 = z mod 2 ^ 16.
Proof.
  unfold s32, u32. cbv zeta. change (2 ^ 16) with 65536. change (2 ^ 32) with 4294967296.
  destruct (_ <? _); dlia.
Qed.

(** The header that reaches [scsi_kern_ioctl]. *)
Definition verify_hdr (cdb : list Z) : sg_io_hdr :=
  mk_sg_io_hdr 83 SG_DXFER_NONE (Z.of_nat (length cdb)) 32 0 0 (Some cdb)
    (Some (replicate SENSE_BUFF_LEN 0)) 60000 0 0 0 0 0 0 0 0 0.

Lemma verify_hdr_no_data v d b lba len :
  no_data_hdr (verify_hdr (verify10_cdb v d b lba len)) (verify10_cdb v d b lba len).
Proof. split; try done. apply verify10_cdb_ok. Qed.

(** The request the device sees. *)
Definition verify_rq (e : sg_env) (s : disk_scrubber) (lba count : Z) : request :=
  let cdb := verify10_cdb (vrprotect s) (dpo s) 0 lba (s32 count) in
  submitted_rq e (verify_hdr cdb) cdb (lba mod 2 ^ 32) (count mod 2 ^ 16 * 512).

(** How an answer of the device is judged: host and driver errors, then
    sense data, then the status byte. *)
Definition transport_error (c : completion) : bool :=
  let dr := Z.land (driver_byte (c_errors c)) 0xf in
  truthy (host_byte (c_errors c)) || (truthy dr && negb (dr =? 8)).

Definition sense_condition (c : completion) : bool :=
  let st := Z.land (c_errors c) 0x7e in
  (Z.land (driver_byte (c_errors c)) 0xf =? 8) || (st =? 0x2) || (st =? 0x22).

(** The sense bytes [sg_ll_verify10] looks at, and how many are valid. *)
Definition seen_len (c : completion) : Z := Z.min 32 (c_sense_len c).
Definition seen_sense (c : completion) : list Z :=
  write_prefix (c_sense c) (replicate SENSE_BUFF_LEN 0) (Z.to_nat (seen_len c)).

Definition verify_answer (c : completion) : option (Z * option Z) :=
  if transport_error c then Some (-1, None)
  else if sense_condition c then
    verify10_sense (seen_sense c) (seen_len c) (sense_category (seen_sense c) (seen_len c))
  else if truthy (Z.land (c_errors c) 0x7e) then Some (-1, None)
  else Some (0, None).

Lemma land_ff_7e z : Z.land (Z.land z 0xff) 0x7e = Z.land z 0x7e.
Proof. by rewrite <- Z.land_assoc. Qed.

Lemma seen_sense_length c : length (c_sense c) = SCSI_SENSE_BUFFERSIZE →
  0 ≤ c_sense_len c ≤ 96 → length (seen_sense c) = 32%nat.
Proof.
  intros Hl ?. unfold seen_sense, write_prefix, seen_len.
  rewrite length_app, length_take, length_drop, length_replicate, Hl.
  unfold SCSI_SENSE_BUFFERSIZE, SENSE_BUFF_LEN. lia.
Qed.

Lemma seen_sense_bytes c : Forall in_u8 (c_sense c) → bytes (seen_sense c).
Proof.
  intros Hb. apply Forall_app. split; [by apply Forall_take|].
  apply Forall_drop, Forall_replicate. done.
Qed.

Lemma process_resp_answer p c :
  hdr_status (c_errors c) (io_hdr p) → os_err p = 0 →
  sb_len_wr (io_hdr p) = seen_len c → seen_len c ≤ Z.of_nat (length (seen_sense c)) →
  ('(ret, scat) ← sg_cmds_process_resp p 0 (seen_sense c);
   if ret =? -1 then Some (-1, None)
   else if ret =? -2 then
     verify10_sense (seen_sense c) (sb_len_wr (io_hdr p)) (default 0 scat)
   else Some (0, None)) = verify_answer c.
Proof.
  intros [Hs _ Hh Hd] Ho Hw Hl.
  unfold sg_cmds_process_resp, get_scsi_pt_result_category, verify_answer,
    transport_error, sense_condition.
  rewrite Hs, Hh, Hd, Ho, Hw, land_ff_7e, err_category_value by done. cbv zeta.
  rewrite !(Z.eqb_sym 8), !(Z.eqb_sym 2), !(Z.eqb_sym 34).
  change (truthy 0) with false. cbn iota.
  destruct (truthy (host_byte (c_errors c))); [done|]. cbn [orb].
  destruct (truthy (Z.land (driver_byte (c_errors c)) 15) && _); [done|].
  destruct ((_ =? 8) || _ || _); [done|].
  by destruct (truthy (Z.land (c_errors c) 126)).
Qed.

(** The refusals and the answers of [sg_ll_verify10]. *)
Section verify.
Context (device : request → completion) `{!Device device}.
Context (e : sg_env) (s : disk_scrubber) (lba count : Z).
Hypothesis Hbio : e_bio_alloc e = true.
Let cdb : list Z := verify10_cdb (vrprotect s) (dpo s) 0 lba (s32 count).
Let rq : request := verify_rq e s lba count.

Lemma verify_extent : cdb_extent cdb = Some (lba mod 2 ^ 32, count mod 2 ^ 16 * 512).
Proof. unfold cdb. by rewrite verify10_extent, s32_mod16. Qed.

(** What is left of [sg_ll_verify10] once the call has returned. *)
Lemma ll_verify10_ioctl r :
  scsi_kern_ioctl device e false SG_IO (verify_hdr cdb) = Some r →
  let p := mk_sg_pt_scsi (r_hdr r) 0 (r_ret r) in
  let sense_b := default [] (sbp (r_hdr r)) in
  sg_ll_verify10 device e true (vrprotect s) (dpo s) 0 lba (s32 count) =
  ('(ret, scat) ← sg_cmds_process_resp p (if r_ret r <? 0 then - r_ret r else 0) sense_b;
   if ret =? -1 then Some (-1, None)
   else if ret =? -2 then verify10_sense sense_b (sb_len_wr (r_hdr r)) (default 0 scat)
   else Some (0, None)).
Proof.
  intros Hr. unfold sg_ll_verify10. cbn [construct_scsi_pt_obj].
  match goal with |- context [do_scsi_pt ?d ?env ?obj ?t] =>
    assert (do_scsi_pt d env obj t =
      (x ← scsi_kern_ioctl device e false SG_IO (verify_hdr cdb);
       let q := mk_sg_pt_scsi (r_hdr x) 0 (r_ret x) in
       if os_err q <? 0 then Some (- os_err q, q) else Some (0, q))) as -> by reflexivity
  end.
  rewrite Hr. cbn [mbind option_bind os_err]. by destruct (r_ret r <? 0).
Qed.

Lemma process_resp_os_err p res sense_b :
  os_err p ≠ 0 → 0 ≤ res → sg_cmds_process_resp p res sense_b = Some (-1, None).
Proof.
  intros Ho Hr. unfold sg_cmds_process_resp.
  destruct (res <? 0) eqn:?; zbool; [lia|].
  destruct (_ =? res); [done|]. destruct (_ =? res); [done|].
  unfold get_scsi_pt_result_category. destruct (truthy (os_err p)) eqn:?; zbool; [done|lia].
Qed.

Lemma ll_verify10_refused :
  queue_alive e = false ∨ e_get_request e = false →
  sg_ll_verify10 device e true (vrprotect s) (dpo s) 0 lba (s32 count) = Some (-1, None).
Proof.
  intros H.
  destruct (kern_ioctl_refused device e (verify_hdr cdb) cdb false) as (ret & orq & Hr & Hret & _);
    [apply verify_hdr_no_data|tauto|].
  erewrite ll_verify10_ioctl by exact Hr. cbn [r_hdr r_ret].
  unfold ENXIO, ENOMEM, EFAULT in Hret.
  rewrite process_resp_os_err; [done|simpl; lia|zcase; lia].
Qed.

Lemma ll_verify10_reached :
  queue_alive e = true → e_get_request e = true →
  sg_ll_verify10 device e true (vrprotect s) (dpo s) 0 lba (s32 count) =
    (if e_interrupted e then Some (0, None) else verify_answer (device rq)) ∨
  e_copy_to_user e = false ∧
  sg_ll_verify10 device e true (vrprotect s) (dpo s) 0 lba (s32 count) = Some (-1, None).
Proof.
  intros Hq Hr.
  destruct (kern_ioctl_value device e (verify_hdr cdb) cdb (replicate SENSE_BUFF_LEN 0) false
              (lba mod 2 ^ 32) (count mod 2 ^ 16 * 512))
    as (hdr' & ret & Hio & Hst & Hmx & Hc); try done.
  { apply verify_hdr_no_data. }
  { apply verify_extent. }
  { split; [done|done|]. unfold blk_verify_command. by destruct (e_capable e). }
  change (submitted_rq _ _ _ _ _) with rq in *.
  erewrite ll_verify10_ioctl by exact Hio. cbn [r_hdr r_ret].
  destruct Hc as [(-> & Hw & Hb)|(-> & He & _ & _)].
  2:{ right. split; [done|]. by rewrite process_resp_os_err. }
  left. rewrite Hb. cbn [default].
  rewrite Hmx in Hw. change (mx_sb_len (verify_hdr cdb)) with 32 in Hw.
  rewrite Hmx. change (mx_sb_len (verify_hdr cdb)) with 32.
  unfold finished_rq in *. destruct (e_interrupted e).
  - pose proof (process_resp_answer (mk_sg_pt_scsi hdr' 0 0) (mk_completion 0 [] 0 0)
                  Hst eq_refl Hw ltac:(done)) as H.
    cbn [io_hdr] in H. rewrite Hw in *. exact H.
  - assert (seen_len (device rq) ≤ Z.of_nat (length (seen_sense (device rq)))) as Hl.
    { rewrite seen_sense_length by apply Device0. unfold seen_len. lia. }
    pose proof (process_resp_answer (mk_sg_pt_scsi hdr' 0 0) (device rq)
                  Hst eq_refl Hw Hl) as H.
    cbn [io_hdr] in H. rewrite Hw in *. exact H.
Qed.

End verify.

(** ** Theorems *)

(** An answer that counts as success: no transport error, and either a clean
    status byte or sense data saying "no sense" or "recovered error". *)
Definition answer_good (c : completion) : Prop :=
  transport_error c = false ∧
  (sense_condition c = false ∧ Z.land (c_errors c) 0x7e = 0 ∨
   sense_condition c = true ∧
   (sense_category (seen_sense c) (seen_len c) = SG_LIB_CAT_RECOVERED ∨
    sense_category (seen_sense c) (seen_len c) = SG_LIB_CAT_NO_SENSE)).

(** The result codes of [scsi_verify]. *)
Definition verify_codes : list Z :=
  [0; SG_LIB_CAT_NOT_READY; SG_LIB_CAT_MEDIUM_HARD; SG_LIB_CAT_ILLEGAL_REQ;
   SG_LIB_CAT_UNIT_ATTENTION; SG_LIB_CAT_INVALID_OP; SG_LIB_CAT_ABORTED_COMMAND;
   SG_LIB_CAT_MEDIUM_HARD_WITH_INFO; SG_LIB_CAT_OTHER].

(** The information descriptors in an answer are not cut by the 32 bytes that
    are kept of it. *)
Definition answer_complete (c : completion) : Prop :=
  fixed_format (seen_sense c) ∨ info_complete (seen_sense c) (seen_len c).

Lemma verify10_sense_zero b n cat i :
  verify10_sense b n cat = Some (0, i) →
  cat = SG_LIB_CAT_RECOVERED ∨ cat = SG_LIB_CAT_NO_SENSE.
Proof.
  unfold verify10_sense. intros H.
  destruct (existsb _ _) eqn:E1.
  { injection H as -> _. done. }
  clear E1. destruct (existsb _ _) eqn:E2.
  { cbn [existsb] in E2. zbool; auto. done. }
  destruct (cat =? _); [|done].
  destruct (of_access _) as [[v u]|]; [|done]. cbn [mbind option_bind] in H.
  by destruct (truthy v).
Qed.

Lemma verify_answer_zero c i : verify_answer c = Some (0, i) → answer_good c.
Proof.
  unfold verify_answer, answer_good. intros H.
  destruct (transport_error c); [done|]. split; [done|].
  destruct (sense_condition c).
  - right. split; [done|]. by eapply verify10_sense_zero.
  - left. split; [done|]. destruct (truthy _) eqn:E; zbool; done.
Qed.

Lemma sense_info_short b n : n < 7 → sg_get_sense_info_fld b n = Ret (0, 0).
Proof. intros. unfold sg_get_sense_info_fld. by destruct (n <? 7) eqn:?; zbool; [|lia]. Qed.

Lemma verify10_sense_total b n :
  bytes b → n ≤ Z.of_nat (length b) → fixed_format b ∨ info_complete b n →
  ∃ r i, verify10_sense b n (sense_category b n) = Some (r, i) ∧
    (r = -1 ∨ r ∈ verify_codes).
Proof.
  intros Hb Hn Hc.
  assert (∃ v u, sg_get_sense_info_fld b n = Ret (v, u)) as (v & u & Hi).
  { destruct (decide (7 ≤ n)).
    - destruct (sense_info_spec b n) as (v & u & ? & _); [done|lia|tauto|]. eauto.
    - do 2 eexists. apply sense_info_short. lia. }
  pose proof (sense_category_in b n) as Hcat. unfold sense_categories in Hcat.
  unfold verify10_sense. rewrite Hi. cbn [of_access mbind option_bind].
  rewrite !elem_of_cons, elem_of_nil in Hcat. unfold verify_codes.
  rename v into valid. repeat destruct Hcat as [->|Hcat]; cbn; try destruct (truthy valid).
  all: try done; do 2 eexists; (split; [reflexivity|]);
    rewrite !elem_of_cons; tauto.
Qed.

(** The command block addresses what was asked: [sg_kern_io] reads back from
    it the low 32 bits of the sector address and the low 16 bits of the sector
    count (in bytes), so both are exact below 2^32 and 2^16; the protection,
    DPO and byte-check bits are in byte 1. *)
Theorem verify10_addresses v d b lba len :
  cdb_extent (verify10_cdb v d b lba len) = Some (lba mod 2 ^ 32, len mod 2 ^ 16 * 512) ∧
  verify10_cdb v d b lba len !! 1%nat = Some (v mod 8 * 32 + d mod 2 * 16 + b mod 2 * 2).
Proof.
  split; [apply verify10_extent|]. cbn [verify10_cdb lookup list_lookup]. f_equal.
  assert (∀ z, Z.land z 1 = z mod 2) as H1 by (intros; apply (Z.land_ones z 1); lia).
  assert (Z.land v 7 = v mod 8) as -> by (apply (Z.land_ones v 3); lia).
  rewrite !H1, !Z.shiftl_mul_pow2 by lia.
  assert (0 ≤ v mod 8 < 8 ∧ 0 ≤ d mod 2 < 2 ∧ 0 ≤ b mod 2 < 2) as (? & ? & ?).
  { split_and!; dlia. }
  rewrite (lor_shift_add _ _ 5) by lia.
  replace (v mod 8 * 2 ^ 5 + d mod 2 * 2 ^ 4) with ((v mod 8 * 2 + d mod 2) * 2 ^ 4) by lia.
  rewrite lor_shift_add by lia. rewrite u8_small; [lia|unfold in_u8; lia].
Qed.

Lemma reached_or_refused e :
  (queue_alive e = true ∧ e_get_request e = true) ∨
  (queue_alive e = false ∨ e_get_request e = false).
Proof. destruct (queue_alive e), (e_get_request e); tauto. Qed.



(** C32: Total, with known results. Whatever the device answers, as long as
    its information descriptors are complete, [scsi_verify] returns one of its
    nine result codes and prints one message exactly when the code is not 0;
    when the command cannot be sent at all the code is 99. *)
Theorem scsi_verify_total device `{!Device device} e alloc disk s lba count :
  e_bio_alloc e = true → (∀ rq, answer_complete (device rq)) →
  ∃ r msgs, scsi_verify device e alloc disk s lba count = Some (r, msgs) ∧
    r ∈ verify_codes ∧ length msgs = (if r =? 0 then 0%nat else 1%nat) ∧
    (alloc = false ∨ queue_alive e = false ∨ e_get_request e = false →
     r = SG_LIB_CAT_OTHER).
Proof.
  intros Hb Hc.
  enough (∃ r i, sg_ll_verify10 device e alloc (vrprotect s) (dpo s) 0 lba (s32 count) =
                 Some (r, i) ∧ (r = -1 ∨ r ∈ verify_codes) ∧
                 (alloc = false ∨ queue_alive e = false ∨ e_get_request e = false → r = -1))
    as (r & i & Hr & Hin & Hf).
  { unfold scsi_verify. rewrite Hr. cbn [mbind option_bind]. do 2 eexists.
    split; [reflexivity|]. destruct Hin as [->|Hin]; [split_and!; [|done|done]|].
    { apply (bool_decide_unpack _). done. }
    assert (0 ≤ r).
    { clear -Hin. unfold verify_codes in Hin. rewrite !elem_of_cons, elem_of_nil in Hin.
      repeat destruct Hin as [->|Hin]; done. }
    destruct (0 <=? r) eqn:?; zbool; [|lia]. split_and!; [done|by destruct (r =? 0)|].
    intros ?%Hf. lia. }
  destruct alloc; [|by exists (-1), None; split_and!; auto].
  destruct (reached_or_refused e) as [[Hq Hr]|Hq].
  2:{ exists (-1), None. split_and!; auto. by apply ll_verify10_refused. }
  assert (∀ r : Z, true = false ∨ queue_alive e = false ∨ e_get_request e = false → r = -1)
    as Hf by (intros r [?|[?|?]]; congruence).
  destruct (ll_verify10_reached device e s lba count Hb Hq Hr) as [->|[_ ->]];
    [|by exists (-1), None; auto].
  destruct (e_interrupted e); [by exists 0, None; split_and!; [|right; left|apply Hf]|].
  set (rq := verify_rq e s lba count). unfold verify_answer.
  destruct (transport_error _); [by exists (-1), None; auto|].
  destruct (sense_condition _).
  - destruct (verify10_sense_total (seen_sense (device rq)) (seen_len (device rq)))
      as (r & i & -> & ?); [apply seen_sense_bytes, Device0| |apply Hc|by exists r, i; auto].
    rewrite seen_sense_length by apply Device0. unfold seen_len. lia.
  - destruct (truthy _); [by exists (-1), None; auto|].
    by exists 0, None; split_and!; [|right; left|apply Hf].
Qed.

Lemma scsi_verify_total_witness :
  ∃ r msgs, scsi_verify good_device demo_env true demo_disk demo_scrubber 4096 2048 =
              Some (r, msgs) ∧
    r ∈ verify_codes ∧ length msgs = (if r =? 0 then 0%nat else 1%nat).
Proof.
  destruct (scsi_verify_total good_device demo_env true demo_disk demo_scrubber 4096 2048)
    as (r & msgs & ? & ? & ? & _).
  - done.
  - intros rq. right. intros o Ho%desc_chain_upper. vm_compute in Ho.
    change (Z.of_nat (length (seen_sense (good_device rq)))) with 32.
    assert (o < 0) by done. split; lia.
  - by exists r, msgs.
Defined.

Lemma fixed_format_key b n :
  fixed_format b → 7 ≤ n → Z.land 0xf (byte_at b 2) ∈ [3; 4; 8] →
  sense_category b n = SG_LIB_CAT_MEDIUM_HARD.
Proof.
  intros Hf Hn Hk. unfold sense_category, sense_header.
  assert (Z.land 112 (byte_at b 0) = 112) as ->.
  { rewrite Z.land_comm. change 112 with (Z.land 127 112) at 1.
    rewrite Z.land_assoc. by destruct Hf as [-> | ->]. }
  replace (2 <? n) with true by (symmetry; apply Z.ltb_lt; lia).
  assert ((114 <=? Z.land 127 (byte_at b 0)) = false) as ->.
  { rewrite Z.land_comm. by destruct Hf as [-> | ->]. }
  cbn [andb]. rewrite Z.eqb_refl. cbn iota. unfold category_of_key.
  cbv zeta. cbn [sense_key].
  rewrite !elem_of_cons, elem_of_nil in Hk.
  by destruct Hk as [-> | [-> | [-> | ?]]].
Qed.

Lemma be_val_4 b : bytes b → in_u32 (be_val (take 4 (drop 3 b))).
Proof.
  intros Hb. assert (Forall in_u8 (take 4 (drop 3 b))) as H by by apply Forall_take, Forall_drop.
  assert (length (take 4 (drop 3 b)) ≤ 4)%nat as Hl by (rewrite length_take; lia).
  revert H Hl. generalize (take 4 (drop 3 b)). intros l H Hl. unfold be_val, in_u32.
  unfold in_u8 in H.
  do 4 (destruct l as [|? l]; [simpl; decompose_Forall_hyps; lia|]).
  destruct l; [simpl; decompose_Forall_hyps; lia|simpl in Hl; lia].
Qed.

Lemma seen_sense_prefix c i n :
  length (c_sense c) = SCSI_SENSE_BUFFERSIZE → (i + n ≤ Z.to_nat (seen_len c))%nat →
  take n (drop i (seen_sense c)) = take n (drop i (c_sense c)).
Proof.
  intros Hl Hi. unfold seen_sense, write_prefix.
  assert (Z.to_nat (seen_len c) ≤ 32)%nat by (unfold seen_len; lia).
  assert (length (take (Z.to_nat (seen_len c)) (c_sense c)) = Z.to_nat (seen_len c)) as Ht.
  { rewrite length_take, Hl. unfold SCSI_SENSE_BUFFERSIZE. lia. }
  rewrite drop_app_le by lia. rewrite take_app_le by (rewrite length_drop; lia).
  rewrite skipn_firstn_comm, take_take. f_equal. lia.
Qed.

(** C26: A medium error is reported with its address. When the device answers
    with fixed-format sense data of a medium or hardware error whose valid bit
    is set, [scsi_verify] returns 18 and the message carries the big-endian
    value of bytes 3 to 6 of the device's sense data. *)
Theorem medium_error_reported device `{!Device device} e disk s lba count :
  let c := device (verify_rq e s lba count) in
  e_bio_alloc e = true → e_copy_to_user e = true → queue_alive e = true →
  e_get_request e = true → e_interrupted e = false →
  transport_error c = false → sense_condition c = true → 7 ≤ seen_len c →
  fixed_format (seen_sense c) → truthy (Z.land (byte_at (seen_sense c) 0) 0x80) = true →
  Z.land 0xf (byte_at (seen_sense c) 2) ∈ [3; 4; 8] →
  scsi_verify device e true disk s lba count =
  Some (SG_LIB_CAT_MEDIUM_HARD_WITH_INFO,
        [("SCSIVerify (" +:+ gd_name disk +:+
          "): medium or hardware error, reported lba=0x" +:+
          fmt_llu (be_val (take 4 (drop 3 (c_sense c)))) +:+ String NL "")%string]).
Proof.
  intros c Hb Hcp Hq Hr Hi Ht Hs Hl Hf Hv Hk.
  assert (bytes (seen_sense c)) as Hby by apply seen_sense_bytes, Device0.
  assert (length (seen_sense c) = 32%nat) as Hlen by (apply seen_sense_length; apply Device0).
  destruct (ll_verify10_reached device e s lba count Hb Hq Hr) as [Hc|[? _]]; [|congruence].
  unfold scsi_verify. rewrite Hc, Hi. fold c. unfold verify_answer. rewrite Ht, Hs.
  rewrite fixed_format_key by done.
  destruct (sense_info_spec (seen_sense c) (seen_len c)) as (v & u & Hsi & Hfix & _);
    [done|rewrite Hlen; unfold seen_len in *; lia|tauto|].
  destruct (Hfix Hf) as [-> ->]. rewrite Hv in Hsi. unfold verify10_sense.
  rewrite Hsi. cbn -[fmt_llu be_val take drop u32].
  rewrite u32_small by by apply be_val_4.
  rewrite seen_sense_prefix; [done|apply Device0|lia].
Qed.

(** A device with a bad sector. *)
Definition bad_device (rq : request) : completion :=
  mk_completion 0x08000002 (demo_sense ++ replicate 78 0) 18 0.

#[export] Instance bad_device_ok : Device bad_device.
Proof.
  split; intros; [done| |done|done].
  apply (Forall_app _ demo_sense). split; [apply demo_sense_bytes|by apply Forall_replicate].
Qed.

Lemma medium_error_reported_witness :
  scsi_verify bad_device demo_env true demo_disk demo_scrubber 4096 2048 =
  Some (18, [("SCSIVerify (sda): medium or hardware error, reported lba=0x" +:+
              fmt_llu 0x1234 +:+ String NL "")%string]).
Proof.
  apply (medium_error_reported bad_device demo_env demo_disk demo_scrubber 4096 2048);
    try done.
  - by left.
  - apply (bool_decide_unpack _). done.
Defined.

(** Only the first 2^32 sectors can be verified: every request addresses a
    sector below 2^32, and the result for a sector [k * 2^32] further on is
    that of the low sector, so the rest of a disk larger than 2 TB is counted
    as verified without being read. *)
Theorem verify_beyond_2tb device e alloc disk s lba count k :
  rq_sector (verify_rq e s (lba + k * 2 ^ 32) count) < 2 ^ 32 ∧
  verify_rq e s (lba + k * 2 ^ 32) count = verify_rq e s lba count ∧
  option_map fst (scsi_verify device e alloc disk s (lba + k * 2 ^ 32) count) =
  option_map fst (scsi_verify device e alloc disk s lba count).
Proof.
  assert (∀ v d b n, verify10_cdb v d b (lba + k * 2 ^ 32) n = verify10_cdb v d b lba n)
    as Hcdb.
  { intros. unfold verify10_cdb. rewrite !land_ff, !shiftr_div by lia.
    change (2 ^ 32) with 4294967296. change (2 ^ 24) with 16777216.
    change (2 ^ 16) with 65536. change (2 ^ 8) with 256.
    set (x := lba + k * 4294967296).
    assert (x / 16777216 mod 256 = lba / 16777216 mod 256) as -> by (unfold x; dlia).
    assert (x / 65536 mod 256 = lba / 65536 mod 256) as -> by (unfold x; dlia).
    assert (x / 256 mod 256 = lba / 256 mod 256) as -> by (unfold x; dlia).
    by assert (x mod 256 = lba mod 256) as -> by (unfold x; dlia). }
  assert ((lba + k * 2 ^ 32) mod 2 ^ 32 = lba mod 2 ^ 32) as Hmod by (apply Z_mod_plus_full).
  split_and!.
  - simpl. apply Z.mod_pos_bound. lia.
  - unfold verify_rq. by rewrite Hcdb, Hmod.
  - unfold scsi_verify, sg_ll_verify10. rewrite !Hcdb.
    destruct (construct_scsi_pt_obj alloc); [|done].
    destruct (do_scsi_pt _ _ _ _) as [[res p]|]; [|done]. cbn [mbind option_bind].
    destruct (sg_cmds_process_resp _ _ _) as [[ret scat]|]; [|done]. cbn [mbind option_bind].
    destruct (ret =? -1); [done|]. destruct (ret =? -2); [|done].
    by destruct (verify10_sense _ _ _) as [[r i]|].
Qed.
