(* ===== verification/ScrubCore.v ===== *)
(** * Scrubbing strategies (block/scrub_core.c)

    A scrub round is a sequence of jobs, one per call of [segread]: a job is a
    range of sectors handed to a worker thread.  This file models how the
    strategies ([seqscrub], [stgscrub], [fixedscrub]) choose the jobs, how
    [scrubdev] prepares their parameters, and how a worker cuts a job into
    VERIFY(10) commands of at most 65535 sectors (the TBUSY case of
    [kthread_segread]).  The abort request that an administrator can write to
    the [state] attribute at any time is an oracle: [abort n] says whether
    [state == 2] is read after the [n]-th job.  [None] is a division by zero
    or, for the loops with fuel, a run that needs more steps. *)
From S2P Require Import Prelude Scrub SgIo Verify.

(** ** Round parameters (struct scrubparams)

    The local copy of the settings, with the counters of the round.  The
    locks and [idlestamp] are not data. *)
Record scrubparams := mk_scrubparams {
  p_reqbound : Z;
  p_strategy : Z;
  p_priority : Z;
  p_segsize : Z;
  p_regsize : Z;
  p_threads : Z;
  p_dpo : Z;
  p_vrprotect : Z;
  p_verbose : Z;
  p_timed : Z;
  p_ttime_ms : Z;
  p_available : Z;
  p_read_errs : Z;
  p_capacity : Z;
  p_start : Z;
  p_delayms : Z;
  p_resptime_us : Z;
  p_reqcount : Z;
}.

Definition set_p_reqbound (v : Z) (x : scrubparams) : scrubparams :=
  mk_scrubparams v (p_strategy x) (p_priority x) (p_segsize x) (p_regsize x)
    (p_threads x) (p_dpo x) (p_vrprotect x) (p_verbose x) (p_timed x)
    (p_ttime_ms x) (p_available x) (p_read_errs x) (p_capacity x) (p_start x)
    (p_delayms x) (p_resptime_us x) (p_reqcount x).
Definition set_p_strategy (v : Z) (x : scrubparams) : scrubparams :=
  mk_scrubparams (p_reqbound x) v (p_priority x) (p_segsize x) (p_regsize x)
    (p_threads x) (p_dpo x) (p_vrprotect x) (p_verbose x) (p_timed x)
    (p_ttime_ms x) (p_available x) (p_read_errs x) (p_capacity x) (p_start x)
    (p_delayms x) (p_resptime_us x) (p_reqcount x).
Definition set_p_priority (v : Z) (x : scrubparams) : scrubparams :=
  mk_scrubparams (p_reqbound x) (p_strategy x) v (p_segsize x) (p_regsize x)
    (p_threads x) (p_dpo x) (p_vrprotect x) (p_verbose x) (p_timed x)
    (p_ttime_ms x) (p_available x) (p_read_errs x) (p_capacity x) (p_start x)
    (p_delayms x) (p_resptime_us x) (p_reqcount x).
Definition set_p_segsize (v : Z) (x : scrubparams) : scrubparams :=
  mk_scrubparams (p_reqbound x) (p_strategy x) (p_priority x) v (p_regsize x)
    (p_threads x) (p_dpo x) (p_vrprotect x) (p_verbose x) (p_timed x)
    (p_ttime_ms x) (p_available x) (p_read_errs x) (p_capacity x) (p_start x)
    (p_delayms x) (p_resptime_us x) (p_reqcount x).
Definition set_p_regsize (v : Z) (x : scrubparams) : scrubparams :=
  mk_scrubparams (p_reqbound x) (p_strategy x) (p_priority x) (p_segsize x) v
    (p_threads x) (p_dpo x) (p_vrprotect x) (p_verbose x) (p_timed x)
    (p_ttime_ms x) (p_available x) (p_read_errs x) (p_capacity x) (p_start x)
    (p_delayms x) (p_resptime_us x) (p_reqcount x).
Definition set_p_threads (v : Z) (x : scrubparams) : scrubparams :=
  mk_scrubparams (p_reqbound x) (p_strategy x) (p_priority x) (p_segsize x)
    (p_regsize x) v (p_dpo x) (p_vrprotect x) (p_verbose x) (p_timed x)
    (p_ttime_ms x) (p_available x) (p_read_errs x) (p_capacity x) (p_start x)
    (p_delayms x) (p_resptime_us x) (p_reqcount x).
Definition set_p_dpo (v : Z) (x : scrubparams) : scrubparams :=
  mk_scrubparams (p_reqbound x) (p_strategy x) (p_priority x) (p_segsize x)
    (p_regsize x) (p_threads x) v (p_vrprotect x) (p_verbose x) (p_timed x)
    (p_ttime_ms x) (p_available x) (p_read_errs x) (p_capacity x) (p_start x)
    (p_delayms x) (p_resptime_us x) (p_reqcount x).
Definition set_p_vrprotect (v : Z) (x : scrubparams) : scrubparams :=
  mk_scrubparams (p_reqbound x) (p_strategy x) (p_priority x) (p_segsize x)
    (p_regsize x) (p_threads x) (p_dpo x) v (p_verbose x) (p_timed x)
    (p_ttime_ms x) (p_available x) (p_read_errs x) (p_capacity x) (p_start x)
    (p_delayms x) (p_resptime_us x) (p_reqcount x).
Definition set_p_verbose (v : Z) (x : scrubparams) : scrubparams :=
  mk_scrubparams (p_reqbound x) (p_strategy x) (p_priority x) (p_segsize x)
    (p_regsize x) (p_threads x) (p_dpo x) (p_vrprotect x) v (p_timed x)
    (p_ttime_ms x) (p_available x) (p_read_errs x) (p_capacity x) (p_start x)
    (p_delayms x) (p_resptime_us x) (p_reqcount x).
Definition set_p_timed (v : Z) (x : scrubparams) : scrubparams :=
  mk_scrubparams (p_reqbound x) (p_strategy x) (p_priority x) (p_segsize x)
    (p_regsize x) (p_threads x) (p_dpo x) (p_vrprotect x) (p_verbose x) v
    (p_ttime_ms x) (p_available x) (p_read_errs x) (p_capacity x) (p_start x)
    (p_delayms x) (p_resptime_us x) (p_reqcount x).
Definition set_p_ttime_ms (v : Z) (x : scrubparams) : scrubparams :=
  mk_scrubparams (p_reqbound x) (p_strategy x) (p_priority x) (p_segsize x)
    (p_regsize x) (p_threads x) (p_dpo x) (p_vrprotect x) (p_verbose x)
    (p_timed x) v (p_available x) (p_read_errs x) (p_capacity x) (p_start x)
    (p_delayms x) (p_resptime_us x) (p_reqcount x).
Definition set_p_available (v : Z) (x : scrubparams) : scrubparams :=
  mk_scrubparams (p_reqbound x) (p_strategy x) (p_priority x) (p_segsize x)
    (p_regsize x) (p_threads x) (p_dpo x) (p_vrprotect x) (p_verbose x)
    (p_timed x) (p_ttime_ms x) v (p_read_errs x) (p_capacity x) (p_start x)
    (p_delayms x) (p_resptime_us x) (p_reqcount x).
Definition set_p_read_errs (v : Z) (x : scrubparams) : scrubparams :=
  mk_scrubparams (p_reqbound x) (p_strategy x) (p_priority x) (p_segsize x)
    (p_regsize x) (p_threads x) (p_dpo x) (p_vrprotect x) (p_verbose x)
    (p_timed x) (p_ttime_ms x) (p_available x) v (p_capacity x) (p_start x)
    (p_delayms x) (p_resptime_us x) (p_reqcount x).
Definition set_p_capacity (v : Z) (x : scrubparams) : scrubparams :=
  mk_scrubparams (p_reqbound x) (p_strategy x) (p_priority x) (p_segsize x)
    (p_regsize x) (p_threads x) (p_dpo x) (p_vrprotect x) (p_verbose x)
    (p_timed x) (p_ttime_ms x) (p_available x) (p_read_errs x) v (p_start x)
    (p_delayms x) (p_resptime_us x) (p_reqcount x).
Definition set_p_start (v : Z) (x : scrubparams) : scrubparams :=
  mk_scrubparams (p_reqbound x) (p_strategy x) (p_priority x) (p_segsize x)
    (p_regsize x) (p_threads x) (p_dpo x) (p_vrprotect x) (p_verbose x)
    (p_timed x) (p_ttime_ms x) (p_available x) (p_read_errs x) (p_capacity x)
    v (p_delayms x) (p_resptime_us x) (p_reqcount x).
Definition set_p_delayms (v : Z) (x : scrubparams) : scrubparams :=
  mk_scrubparams (p_reqbound x) (p_strategy x) (p_priority x) (p_segsize x)
    (p_regsize x) (p_threads x) (p_dpo x) (p_vrprotect x) (p_verbose x)
    (p_timed x) (p_ttime_ms x) (p_available x) (p_read_errs x) (p_capacity x)
    (p_start x) v (p_resptime_us x) (p_reqcount x).
Definition set_p_resptime_us (v : Z) (x : scrubparams) : scrubparams :=
  mk_scrubparams (p_reqbound x) (p_strategy x) (p_priority x) (p_segsize x)
    (p_regsize x) (p_threads x) (p_dpo x) (p_vrprotect x) (p_verbose x)
    (p_timed x) (p_ttime_ms x) (p_available x) (p_read_errs x) (p_capacity x)
    (p_start x) (p_delayms x) v (p_reqcount x).
Definition set_p_reqcount (v : Z) (x : scrubparams) : scrubparams :=
  mk_scrubparams (p_reqbound x) (p_strategy x) (p_priority x) (p_segsize x)
    (p_regsize x) (p_threads x) (p_dpo x) (p_vrprotect x) (p_verbose x)
    (p_timed x) (p_ttime_ms x) (p_available x) (p_read_errs x) (p_capacity x)
    (p_start x) (p_delayms x) (p_resptime_us x) v.

Definition SEQLSCRUB : Z := 1.
Definition STAGSCRUB : Z := 2.
Definition FIXEDSCRUB : Z := 3.
Definition RTIMEPRIO : Z := 1.
Definition IDCHKPRIO : Z := 2.

(** A job: the arguments [pos] and [count] of [segread]. *)
Record job := mk_job { j_pos : Z; j_count : Z }.

#[export] Instance job_eq_dec : EqDecision job.
Proof. solve_decision. Defined.

(** The sectors of a job. *)
Definition job_sectors (j : job) : list Z := seqZ (j_pos j) (j_count j).

(** ** Helpers *)

(** A [timespec] is a pair of seconds and nanoseconds. *)
Definition islater (b c : Z * Z) : Z :=
  if c.1 <? b.1 then 1
  else if b.1 =? c.1 then if c.2 <? b.2 then 1 else 0
  else 0.

Definition lceil (whole part : Z) : option Z :=
  if part =? 0 then None
  else if whole mod part =? 0 then Some (whole / part)
  else Some (u64 (1 + whole / part)).

(** The length of the segment at [pos]. *)
Definition segment_len (s : scrubparams) (pos : Z) : Z :=
  if p_capacity s <? u64 (pos + p_segsize s) then
    if p_capacity s <? p_segsize s then p_capacity s else u64 (p_capacity s - pos)
  else p_segsize s.

(** [state == 2 || (reqbound && ++reqcount > reqbound)], with the new
    [reqcount]. *)
Definition bail_out (abort : bool) (s : scrubparams) (reqcount : Z) : bool * Z :=
  if abort then (true, reqcount)
  else if truthy (p_reqbound s) then
    (p_reqbound s <? u64 (reqcount + 1), u64 (reqcount + 1))
  else (false, reqcount).

(** ** Sequential scrubbing

    Returns the jobs in the order of the calls.  [segread] returns 0, so the
    [return -1] is dead code. *)
Fixpoint seq_loop (fuel : nat) (abort : nat → bool) (s : scrubparams) (n : nat)
    (pos reqcount : Z) : option (list job) :=
  match fuel with
  | O => None
  | S fuel =>
      if pos <? p_capacity s then
        let num := segment_len s pos in
        let '(bail, reqcount) := bail_out (abort n) s reqcount in
        if bail then Some [mk_job pos num]
        else
          js ← seq_loop fuel abort s (S n) (u64 (pos + num)) reqcount;
          Some (mk_job pos num :: js)
      else Some []
  end.

Definition seqscrub (fuel : nat) (abort : nat → bool) (s : scrubparams) : option (list job) :=
  seq_loop fuel abort s 0 (p_start s) 0.

(** ** Staggered scrubbing

    The state of the loops: jobs issued (in reverse), [reqcount], and whether
    the function has returned. *)
Record stag := mk_stag { g_jobs : list job; g_reqcount : Z; g_bailed : bool }.

(** The body of the inner loop: segment [sn] of region [rn]. *)
Definition stag_body (abort : nat → bool) (s : scrubparams) (sn rn : Z) (g : stag) : stag :=
  if g_bailed g then g
  else
    let pos := u64 (u64 (p_start s + u64 (rn * p_regsize s)) + u64 (sn * p_segsize s)) in
    if pos <? p_capacity s then
      let num := segment_len s pos in
      let '(bail, reqcount) := bail_out (abort (length (g_jobs g))) s (g_reqcount g) in
      mk_stag (mk_job pos num :: g_jobs g) reqcount bail
    else g.

(** [for (rn = 0; rn < regnum; rn++)] and [for (sn = 0; sn < segnum; sn++)]. *)
Definition stag_regions (abort : nat → bool) (s : scrubparams) (regnum sn : Z) (g : stag)
    : stag :=
  foldl (λ g rn, stag_body abort s sn rn g) g (seqZ 0 regnum).

Definition stgscrub (abort : nat → bool) (s : scrubparams) : option (list job) :=
  regnum ← lceil (u64 (p_capacity s - p_start s)) (p_regsize s);
  segnum ← lceil (p_regsize s) (p_segsize s);
  let g := foldl (λ g sn, stag_regions abort s regnum sn g) (mk_stag [] 0 false)
             (seqZ 0 segnum) in
  Some (reverse (g_jobs g)).

(** ** Fixed scrubbing: 51 jobs alternating between the ends of the first
    20 GB; [None] inside is the refusal of a smaller disk. *)
Definition fixed_pos (i : Z) : Z :=
  if i mod 2 =? 0 then 0 + i / 2 * 400000 else 40000000 - (i - 1) / 2 * 400000.

Definition fixedscrub (disk_capacity : Z) (s : scrubparams) : Z * list job :=
  if disk_capacity <? 40000001 then (-1, [])
  else (0, mk_job 0 1 :: map (λ i, mk_job (fixed_pos i) (p_segsize s)) (seqZ 0 50)).

(** ** [scrubdev]: absolute end sector and sizes in sectors, then the chosen
    strategy.  Returns the prepared parameters, the result and the jobs. *)
Definition scrubdev_params (disk : gendisk) (s : scrubparams) : scrubparams :=
  let s := if negb (truthy (p_capacity s)) ||
              (get_capacity disk <? u64 (p_start s + p_capacity s))
           then set_p_capacity (get_capacity disk) s
           else set_p_capacity (u64 (p_start s + p_capacity s)) s in
  let s := set_p_regsize (u64 (p_regsize s * 2)) s in
  set_p_segsize (u64 (p_segsize s * 2)) s.

Definition scrubdev (fuel : nat) (abort : nat → bool) (disk : gendisk) (s : scrubparams)
    : option (scrubparams * Z * list job) :=
  let s := scrubdev_params disk s in
  if p_strategy s =? SEQLSCRUB then
    js ← seqscrub fuel abort s; Some (s, 0, js)
  else if p_strategy s =? STAGSCRUB then
    js ← stgscrub abort s; Some (s, 0, js)
  else if p_strategy s =? FIXEDSCRUB then
    let '(ret, js) := fixedscrub (get_capacity disk) s in
    Some (if ret =? 0 then set_p_timed 1 s else s, ret, js)
  else Some (s, 0, []).

(** ** The work of a thread on one job (case TBUSY of [kthread_segread])

    [verify n pos num] is the [n]-th call of [scsi_verify] of the job: its
    result and the time of day (seconds, microseconds) before and after it. *)
Definition verify_fn : Type := nat → Z → Z → Z * (Z * Z) * (Z * Z).

Definition chunk_count (count : Z) : Z := if 65535 <? count then 65535 else u32 count.

Definition elapsed_us (va vb : Z * Z) : Z := u64 ((vb.1 - va.1) * 1000000 + (vb.2 - va.2)).

(** The counters after one command: those of the round and the [reqcount]
    that sysfs shows. *)
Definition account (res : Z) (va vb : Z * Z) (s : scrubparams) (d : disk_scrubber)
    : scrubparams * disk_scrubber :=
  let s := if truthy (p_timed s)
           then set_p_resptime_us (u64 (p_resptime_us s + elapsed_us va vb)) s else s in
  let s := if truthy res then set_p_read_errs (s32 (p_read_errs s + 1)) s else s in
  (set_p_reqcount (u64 (p_reqcount s + 1)) s, set_reqcount (u64 (reqcount d + 1)) d).

(** The loop over the commands of a job; returns the commands issued, with
    their results, and the counters. *)
Fixpoint chunk_loop (fuel : nat) (verify : verify_fn) (n : nat) (pos count : Z)
    (s : scrubparams) (d : disk_scrubber)
    : option (list (job * Z) * scrubparams * disk_scrubber) :=
  match fuel with
  | O => None
  | S fuel =>
      let num := chunk_count count in
      let '(res, va, vb) := verify n pos num in
      let '(s, d) := account res va vb s d in
      if count <=? 65535 then Some ([(mk_job pos num, res)], s, d)
      else
        '(cs, s, d) ←
          chunk_loop fuel verify (S n) (u64 (pos + 65535)) (u64 (count - 65535)) s d;
        Some ((mk_job pos num, res) :: cs, s, d)
  end.

(** A job needs [count / 65535 + 1] commands at most. *)
Definition run_job (verify : verify_fn) (j : job) (s : scrubparams) (d : disk_scrubber)
    : option (list (job * Z) * scrubparams * disk_scrubber) :=
  chunk_loop (S (Z.to_nat (j_count j / 65535))) verify 0 (j_pos j) (j_count j) s d.

(** ** Sequential scrubbing: lemmas *)

(** Sizes for which no 64-bit sum of the round wraps. *)
Record geometry (s : scrubparams) : Prop := {
  geo_seg : 0 < p_segsize s;
  geo_start : 0 ≤ p_start s;
  geo_fit : p_segsize s ≤ p_capacity s ∨ p_start s = 0;
  geo_wrap : p_capacity s + p_segsize s < 2 ^ 64;
}.

Lemma segment_len_value s pos :
  geometry s → p_start s ≤ pos < p_capacity s →
  (p_segsize s ≤ p_capacity s ∨ pos = 0) →
  segment_len s pos = Z.min (p_segsize s) (p_capacity s - pos).
Proof.
  intros [? ? ? ?] ? Hf. unfold segment_len.
  rewrite (u64_small (pos + _)) by (unfold in_u64; lia).
  repeat zcase; rewrite ?u64_small by (unfold in_u64; lia); lia.
Qed.

(** The complete list of segments from [pos] on. *)
Fixpoint segments (fuel : nat) (s : scrubparams) (pos : Z) : list job :=
  match fuel with
  | O => []
  | S fuel =>
      if pos <? p_capacity s then
        let num := Z.min (p_segsize s) (p_capacity s - pos) in
        mk_job pos num :: segments fuel s (pos + num)
      else []
  end.

(** Steps from [pos] to the end, plus the last test of the loop. *)
Definition seq_fuel (s : scrubparams) (pos : Z) : nat :=
  S (Z.to_nat ((p_capacity s - pos + p_segsize s - 1) / p_segsize s)).

Lemma seq_fuel_step s pos :
  0 < p_segsize s → pos < p_capacity s →
  (seq_fuel s (pos + Z.min (p_segsize s) (p_capacity s - pos)) < seq_fuel s pos)%nat.
Proof.
  intros ? ?. unfold seq_fuel.
  destruct (decide (p_segsize s ≤ p_capacity s - pos)).
  - rewrite Z.min_l by lia.
    replace (p_capacity s - pos + p_segsize s - 1)
      with (p_capacity s - (pos + p_segsize s) + p_segsize s - 1 + 1 * p_segsize s) by lia.
    rewrite Z.div_add by lia.
    assert (0 ≤ (p_capacity s - (pos + p_segsize s) + p_segsize s - 1) / p_segsize s)
      by (apply Z.div_pos; lia).
    lia.
  - rewrite Z.min_r by lia.
    replace (p_capacity s - (pos + (p_capacity s - pos)) + p_segsize s - 1)
      with (p_segsize s - 1) by lia.
    rewrite Z.div_small by lia.
    assert (1 ≤ (p_capacity s - pos + p_segsize s - 1) / p_segsize s)
      by (apply Z.div_le_lower_bound; lia).
    lia.
Qed.

(** How many of [m] planned jobs are issued, [n] being the index of the
    first and [rc] the request count before it. *)
Fixpoint issued (abort : nat → bool) (s : scrubparams) (n : nat) (rc : Z) (m : nat) : nat :=
  match m with
  | O => O
  | S m =>
      let '(bail, rc) := bail_out (abort n) s rc in
      if bail then 1%nat else S (issued abort s (S n) rc m)
  end.

Lemma seq_loop_issued abort s fuel n pos rc :
  geometry s → p_start s ≤ pos → (p_segsize s ≤ p_capacity s ∨ pos = 0 ∨ p_capacity s ≤ pos) →
  (seq_fuel s pos ≤ fuel)%nat →
  seq_loop fuel abort s n pos rc =
  Some (take (issued abort s n rc (length (segments fuel s pos))) (segments fuel s pos)).
Proof.
  intros Hg. pose proof Hg as [? ? ? ?]. revert n pos rc.
  induction fuel as [|fuel IH]; intros n pos rc Hp Hf Hfuel.
  { unfold seq_fuel in Hfuel. lia. }
  cbn [seq_loop segments]. destruct (pos <? p_capacity s) eqn:?; zbool; [|done].
  rewrite (segment_len_value s pos) by (done || lia). cbn [length issued].
  destruct (bail_out (abort n) s rc) as [bail rc'].
  destruct bail; [done|].
  rewrite u64_small by (unfold in_u64; lia).
  pose proof (seq_fuel_step s pos).
  rewrite IH by lia. done.
Qed.

(** The segments tile the range they start in. *)
Lemma segments_tile s fuel pos :
  0 < p_segsize s → pos ≤ p_capacity s → (seq_fuel s pos ≤ S fuel)%nat →
  concat (job_sectors <$> segments fuel s pos) = seqZ pos (p_capacity s - pos).
Proof.
  intros Hs. revert pos. induction fuel as [|fuel IH]; intros pos Hp Hfuel.
  { unfold seq_fuel in Hfuel. destruct (decide (pos = p_capacity s)) as [->|].
    - by rewrite Z.sub_diag.
    - assert (1 ≤ (p_capacity s - pos + p_segsize s - 1) / p_segsize s)
        by (apply Z.div_le_lower_bound; lia). lia. }
  cbn [segments]. destruct (pos <? p_capacity s) eqn:?; zbool.
  2:{ replace (p_capacity s - pos) with 0 by lia. done. }
  pose proof (seq_fuel_step s pos).
  cbn [fmap list_fmap concat]. fold (@fmap list _). rewrite IH by lia.
  unfold job_sectors. cbn [j_pos j_count].
  set (k := Z.min (p_segsize s) (p_capacity s - pos)).
  replace (p_capacity s - pos) with (k + (p_capacity s - (pos + k))) by lia.
  rewrite seqZ_app by lia. done.
Qed.

Lemma segments_fuel s fuel pos :
  0 < p_segsize s → (seq_fuel s pos ≤ S fuel)%nat →
  segments fuel s pos = segments (pred (seq_fuel s pos)) s pos.
Proof.
  intros Hs. revert pos. induction fuel as [|fuel IH]; intros pos Hfuel.
  { replace (pred (seq_fuel s pos)) with 0%nat by lia. done. }
  destruct (decide (pos < p_capacity s)) as [Hlt|Hge].
  - pose proof (seq_fuel_step s pos Hs Hlt).
    destruct (pred (seq_fuel s pos)) as [|m] eqn:Hm.
    { unfold seq_fuel in *. lia. }
    cbn [segments]. destruct (pos <? p_capacity s) eqn:?; zbool; [|lia]. f_equal.
    rewrite IH by lia.
    destruct (decide (pos + Z.min (p_segsize s) (p_capacity s - pos) < p_capacity s)).
    + assert (m = pred (seq_fuel s (pos + Z.min (p_segsize s) (p_capacity s - pos)))) as ->; [|done].
      revert Hm. unfold seq_fuel. rewrite !Z.min_l by lia. cbn [pred].
      replace (p_capacity s - pos + p_segsize s - 1)
        with (p_capacity s - (pos + p_segsize s) + p_segsize s - 1 + 1 * p_segsize s) by lia.
      rewrite Z.div_add by lia.
      assert (0 ≤ (p_capacity s - (pos + p_segsize s) + p_segsize s - 1) / p_segsize s)
        by (apply Z.div_pos; lia).
      lia.
    + assert (∀ k p, p_capacity s ≤ p → segments k s p = []) as Hnil.
      { intros [|k] p ?; [done|]. cbn [segments].
        destruct (p <? p_capacity s) eqn:?; zbool; [lia|done]. }
      by rewrite !Hnil by lia.
  - assert (∀ k, segments k s pos = []) as Hnil.
    { intros [|k]; [done|]. cbn [segments].
      destruct (pos <? p_capacity s) eqn:?; zbool; [lia|done]. }
    by rewrite !Hnil.
Qed.

Section issued.
Context (abort : nat → bool) (s : scrubparams).

Lemma issued_le n rc m : (issued abort s n rc m ≤ m)%nat.
Proof.
  revert n rc. induction m as [|m IH]; intros n rc; cbn [issued]; [done|].
  destruct (bail_out _ _ _) as [[] rc']; [lia|]. specialize (IH (S n) rc'). lia.
Qed.

Lemma issued_all n rc m :
  (∀ i, abort i = false) → p_reqbound s = 0 → issued abort s n rc m = m.
Proof.
  intros Ha Hr. revert n rc. induction m as [|m IH]; intros n rc; cbn [issued]; [done|].
  unfold bail_out. rewrite Ha, Hr. cbn. by rewrite IH.
Qed.

Lemma issued_bound n rc m :
  (∀ i, abort i = false) → 0 ≤ rc ≤ p_reqbound s → 0 < p_reqbound s < 2 ^ 64 - 1 →
  issued abort s n rc m = (m `min` S (Z.to_nat (p_reqbound s - rc)))%nat.
Proof.
  intros Ha Hrc Hr. revert n rc Hrc. induction m as [|m IH]; intros n rc Hrc; cbn [issued]; [done|].
  unfold bail_out. rewrite Ha. destruct (truthy (p_reqbound s)) eqn:?; zbool; [|lia].
  rewrite u64_small by (unfold in_u64; lia).
  destruct (p_reqbound s <? rc + 1) eqn:?; zbool; [lia|]. rewrite IH by lia. lia.
Qed.

Lemma issued_abort n rc m i :
  abort (n + i)%nat = true → (issued abort s n rc m ≤ S i)%nat.
Proof.
  revert n rc i. induction m as [|m IH]; intros n rc i Ha; cbn [issued]; [lia|].
  destruct (bail_out (abort n) s rc) as [bail rc'] eqn:Hb. destruct bail; [lia|].
  destruct i as [|i].
  { rewrite Nat.add_0_r in Ha. unfold bail_out in Hb. by rewrite Ha in Hb. }
  enough (issued abort s (S n) rc' m ≤ S i)%nat by lia.
  apply IH. by replace (S n + i)%nat with (n + S i)%nat by lia.
Qed.
End issued.

(** The jobs of an undisturbed sequential scrub. *)
Definition seq_plan (s : scrubparams) : list job :=
  segments (pred (seq_fuel s (p_start s))) s (p_start s).

Lemma seqscrub_value fuel abort s :
  geometry s → (seq_fuel s (p_start s) ≤ fuel)%nat →
  seqscrub fuel abort s =
  Some (take (issued abort s 0 0 (length (seq_plan s))) (seq_plan s)).
Proof.
  intros Hg Hf. pose proof Hg as [? ? ? ?]. unfold seqscrub, seq_plan.
  rewrite seq_loop_issued by (done || lia).
  by rewrite segments_fuel by lia.
Qed.

Lemma segments_bounds s fuel pos :
  0 < p_segsize s →
  Forall (λ j, pos ≤ j_pos j ∧ 0 < j_count j ≤ p_segsize s ∧
               j_pos j + j_count j ≤ p_capacity s) (segments fuel s pos).
Proof.
  intros Hs. revert pos. induction fuel as [|fuel IH]; intros pos; cbn [segments]; [done|].
  destruct (pos <? p_capacity s) eqn:?; zbool; [|done]. constructor.
  - cbn [j_pos j_count]. lia.
  - eapply Forall_impl; [apply IH|]. intros j ?. cbn beta in *. lia.
Qed.

(** ** Sequential scrubbing: theorems *)


Definition demo_params : scrubparams :=
  mk_scrubparams 0 SEQLSCRUB IDCHKPRIO 100 1000 2 1 0 1 0 0 0 0 4321 1234 0 0 0.


(** Abort and request bound. Whenever the abort request arrives and whatever
    the bound, the jobs issued are an initial part of the complete scrub;
    after the job during which the abort is seen none is issued. *)
Theorem seqscrub_abort fuel abort s n :
  geometry s → (seq_fuel s (p_start s) ≤ fuel)%nat →
  ∃ js rest, seqscrub fuel abort s = Some js ∧ js ++ rest = seq_plan s ∧
    (abort n = true → (length js ≤ S n)%nat).
Proof.
  intros Hg Hf. do 2 eexists. split_and!.
  - by apply seqscrub_value.
  - apply take_drop.
  - intros Ha. rewrite length_take.
    pose proof (issued_abort abort s 0 0 (length (seq_plan s)) n Ha). lia.
Qed.

Lemma seqscrub_abort_witness :
  ∃ js rest, seqscrub 40 (λ n, bool_decide (n = 3)%nat) demo_params = Some js ∧
    js ++ rest = seq_plan demo_params ∧
    (bool_decide (3 = 3)%nat = true → (length js ≤ 4)%nat).
Proof.
  apply (seqscrub_abort 40 (λ n, bool_decide (n = 3)%nat) demo_params 3).
  - split; simpl; lia.
  - apply (bool_decide_unpack _). vm_compute. done.
Defined.

(** The request bound of a round is exceeded by one: with [reqbound = b > 0]
    an undisturbed round issues [b + 1] jobs (all of them when there are
    fewer), because the counter is compared after the job. *)
Theorem seqscrub_reqbound fuel abort s :
  geometry s → (seq_fuel s (p_start s) ≤ fuel)%nat → (∀ n, abort n = false) →
  0 < p_reqbound s < 2 ^ 64 - 1 →
  seqscrub fuel abort s = Some (take (Z.to_nat (p_reqbound s + 1)) (seq_plan s)).
Proof.
  intros Hg Hf Ha Hr. rewrite seqscrub_value by done. rewrite issued_bound by (done || lia).
  rewrite Z.sub_0_r.
  replace (Z.to_nat (p_reqbound s + 1)) with (S (Z.to_nat (p_reqbound s))) by lia.
  f_equal. destruct (decide (length (seq_plan s) ≤ S (Z.to_nat (p_reqbound s)))%nat).
  - rewrite Nat.min_l by lia. by rewrite firstn_all, firstn_all2.
  - by rewrite Nat.min_r by lia.
Qed.

Lemma seqscrub_reqbound_witness :
  seqscrub 40 (λ _, false) (set_p_reqbound 2 demo_params) =
  Some [mk_job 1234 100; mk_job 1334 100; mk_job 1434 100].
Proof.
  etransitivity;
    [apply (seqscrub_reqbound 40 (λ _, false) (set_p_reqbound 2 demo_params))|].
  - split; simpl; lia.
  - apply (bool_decide_unpack _). vm_compute. done.
  - done.
  - simpl; lia.
  - by vm_compute.
Defined.

(** A segment larger than the scrubbed part overruns it: when scrubbing starts
    behind sector 0 and [segsize] exceeds the end sector, the only job starts
    at the start sector and is as long as the whole capacity, so it ends
    [start] sectors past the end. *)
Theorem seqscrub_overrun fuel abort s :
  0 < p_start s < p_capacity s → p_capacity s < p_segsize s →
  p_segsize s + p_capacity s < 2 ^ 64 →
  seqscrub (S (S fuel)) abort s = Some [mk_job (p_start s) (p_capacity s)].
Proof.
  intros ? ? ?. unfold seqscrub. cbn [seq_loop].
  destruct (p_start s <? p_capacity s) eqn:?; zbool; [|lia].
  assert (segment_len s (p_start s) = p_capacity s) as ->.
  { unfold segment_len. rewrite u64_small by (unfold in_u64; lia).
    repeat zcase; lia. }
  destruct (bail_out _ _ _) as [[] rc]; [done|].
  rewrite u64_small by (unfold in_u64; lia).
  destruct (p_start s + p_capacity s <? p_capacity s) eqn:?; zbool; [lia|done].
Qed.

Lemma seqscrub_overrun_witness :
  seqscrub 2 (λ _, false) (set_p_segsize 5000 demo_params) = Some [mk_job 1234 4321].
Proof.
  apply (seqscrub_overrun 0 (λ _, false) (set_p_segsize 5000 demo_params)); simpl; lia.
Defined.

Lemma seq_loop_stuck s fuel n :
  p_segsize s = 0 → 0 ≤ p_start s < p_capacity s → p_capacity s < 2 ^ 64 →
  p_reqbound s = 0 → seq_loop fuel (λ _, false) s n (p_start s) 0 = None.
Proof.
  intros Hs ? ? Hr. revert n. induction fuel as [|fuel IH]; intros n; [done|].
  cbn [seq_loop]. destruct (p_start s <? p_capacity s) eqn:?; zbool; [|lia].
  assert (segment_len s (p_start s) = 0) as ->.
  { unfold segment_len. rewrite Hs, Z.add_0_r, u64_small by (unfold in_u64; lia).
    zcase; lia. }
  unfold bail_out. rewrite Hr, Z.add_0_r, (u64_small (p_start s)) by (unfold in_u64; lia).
  change (truthy 0) with false. cbn iota beta. by rewrite IH.
Qed.

(** A segment size that sysfs accepts makes the scrub spin: 2^63 KB, written
    to [segsize], is stored (the bound is tested against the old value), and
    doubling it to sectors gives 0, so the sequential scrub of a disk issues
    empty jobs for ever: no amount of fuel finishes it. *)
Theorem segsize_spins fuel :
  let d := (scrub_segsize_store demo_disk demo_scrubber "9223372036854775808" 19).1.2 in
  let s := mk_scrubparams 0 SEQLSCRUB IDCHKPRIO (segsize d) (regsize d) 1 1 0 1 0 0 0 0 0 0 0 0 0 in
  segsize d = 2 ^ 63 ∧ scrubdev fuel (λ _, false) demo_disk s = None.
Proof.
  set (d := (scrub_segsize_store demo_disk demo_scrubber "9223372036854775808" 19).1.2).
  assert (segsize d = 2 ^ 63) as Hd by (by vm_compute).
  cbv zeta. split; [done|]. unfold scrubdev. cbn [p_strategy].
  assert (∀ s, p_strategy s = SEQLSCRUB →
          p_strategy (scrubdev_params demo_disk s) = SEQLSCRUB) as Hst.
  { intros s ?. unfold scrubdev_params. by destruct (_ || _). }
  rewrite Hst by done. rewrite Z.eqb_refl. unfold seqscrub.
  rewrite seq_loop_stuck; [done|..].
  - unfold scrubdev_params. cbn. by rewrite Hd.
  - unfold scrubdev_params. cbn. lia.
  - unfold scrubdev_params. cbn. lia.
  - unfold scrubdev_params. cbn. done.
Qed.

(** ** Commands of a job *)

Lemma chunk_loop_spec verify fuel n pos count s d :
  0 ≤ pos → 0 ≤ count → pos + count < 2 ^ 64 → count / 65535 < Z.of_nat fuel →
  ∃ cs s' d', chunk_loop fuel verify n pos count s d = Some (cs, s', d') ∧
    concat (job_sectors ∘ fst <$> cs) = seqZ pos count ∧
    Forall (λ c, 0 ≤ j_count c.1 ≤ 65535 ∧ pos ≤ j_pos c.1 ∧
                 j_pos c.1 + j_count c.1 ≤ pos + count) cs ∧
    p_reqcount s' = u64 (p_reqcount s + Z.of_nat (length cs)) ∧
    p_read_errs s' =
      foldl (λ e c, if truthy c.2 then s32 (e + 1) else e) (p_read_errs s) cs ∧
    reqcount d' = u64 (reqcount d + Z.of_nat (length cs)).
Proof.
  revert n pos count s d. induction fuel as [|fuel IH]; intros n pos count s d Hp Hc Hw Hf.
  { assert (0 ≤ count / 65535) by (apply Z.div_pos; lia). lia. }
  cbn [chunk_loop]. destruct (verify n pos (chunk_count count)) as [[res va] vb].
  destruct (account res va vb s d) as [s1 d1] eqn:Ha.
  assert (p_reqcount s1 = u64 (p_reqcount s + 1) ∧
          p_read_errs s1 = (if truthy res then s32 (p_read_errs s + 1) else p_read_errs s) ∧
          reqcount d1 = u64 (reqcount d + 1)) as (Hq & He & Hd).
  { injection Ha as <- <-. by destruct (truthy (p_timed s)), (truthy res). }
  unfold chunk_count. destruct (count <=? 65535) eqn:?; zbool.
  - destruct (65535 <? count) eqn:?; zbool; [lia|].
    rewrite u32_small by (unfold in_u32; lia).
    do 3 eexists. split; [reflexivity|]. split_and!; [|by repeat constructor; simpl; lia|..].
    + cbn. by rewrite app_nil_r.
    + by rewrite Hq.
    + by rewrite He.
    + by rewrite Hd.
  - destruct (65535 <? count) eqn:?; zbool; [|lia].
    rewrite !u64_small by (unfold in_u64; lia).
    assert (count / 65535 = (count - 65535) / 65535 + 1) as Hdiv.
    { replace count with (count - 65535 + 1 * 65535) at 1 by lia. by rewrite Z.div_add. }
    destruct (IH (S n) (pos + 65535) (count - 65535) s1 d1)
      as (cs & s' & d' & -> & Hcat & Hall & Hq' & He' & Hd'); [lia..|].
    do 3 eexists. split; [reflexivity|]. split_and!.
    + rewrite fmap_cons. cbn [concat]. rewrite Hcat.
      unfold job_sectors. cbn [compose fst j_pos j_count].
      replace count with (65535 + (count - 65535)) at 2 by lia.
      by rewrite seqZ_app by lia.
    + constructor; [cbn; lia|]. eapply Forall_impl; [exact Hall|]. intros c ?. cbn beta in *. lia.
    + rewrite Hq', Hq. unfold u64. rewrite Zplus_mod_idemp_l. f_equal. cbn [length]. lia.
    + cbn [foldl]. by rewrite He', He.
    + rewrite Hd', Hd. unfold u64. rewrite Zplus_mod_idemp_l. f_equal. cbn [length]. lia.
Qed.

(** C7: A worker executes its job completely: it terminates and issues
    commands of at most 65535 sectors whose sectors, in order, are exactly
    those of the job; both request counters grow by the number of commands,
    and the error counter counts the failed ones. *)
Theorem run_job_correct verify j s d :
  0 ≤ j_pos j → 0 ≤ j_count j → j_pos j + j_count j < 2 ^ 64 →
  ∃ cs s' d', run_job verify j s d = Some (cs, s', d') ∧
    concat (job_sectors ∘ fst <$> cs) = job_sectors j ∧
    Forall (λ c, 0 ≤ j_count c.1 ≤ 65535) cs ∧
    p_reqcount s' = u64 (p_reqcount s + Z.of_nat (length cs)) ∧
    p_read_errs s' =
      foldl (λ e c, if truthy c.2 then s32 (e + 1) else e) (p_read_errs s) cs ∧
    reqcount d' = u64 (reqcount d + Z.of_nat (length cs)).
Proof.
  intros ? ? ?. assert (0 ≤ j_count j / 65535) by (apply Z.div_pos; lia).
  destruct (chunk_loop_spec verify (S (Z.to_nat (j_count j / 65535))) 0 (j_pos j) (j_count j) s d)
    as (cs & s' & d' & ? & ? & Hall & ? & ? & ?); [lia..|].
  exists cs, s', d'. split_and!; try done.
  eapply Forall_impl; [exact Hall|]. intros c Hc. cbn beta in *. lia.
Qed.

(** A worker that takes 5 us for every command and fails on the one that
    starts at sector 65535. *)
Definition demo_verify : verify_fn :=
  λ n pos num, (if pos =? 65535 then 3 else 0, (7, 10), (7, 15)).

Lemma run_job_correct_witness :
  ∃ cs s' d', run_job demo_verify (mk_job 0 131072) demo_params demo_scrubber =
                Some (cs, s', d') ∧
    concat (job_sectors ∘ fst <$> cs) = job_sectors (mk_job 0 131072) ∧
    Forall (λ c, 0 ≤ j_count c.1 ≤ 65535) cs ∧
    p_reqcount s' = u64 (p_reqcount demo_params + Z.of_nat (length cs)) ∧
    p_read_errs s' =
      foldl (λ e c, if truthy c.2 then s32 (e + 1) else e) (p_read_errs demo_params) cs ∧
    reqcount d' = u64 (reqcount demo_scrubber + Z.of_nat (length cs)).
Proof.
  apply (run_job_correct demo_verify (mk_job 0 131072) demo_params demo_scrubber);
    simpl; lia.
Defined.

(** ** From the round to the device *)

(** The jobs of a round, executed one after the other by one worker. *)
Fixpoint run_jobs (verify : nat → verify_fn) (n : nat) (js : list job) (s : scrubparams)
    (d : disk_scrubber) : option (list (job * Z) * scrubparams * disk_scrubber) :=
  match js with
  | [] => Some ([], s, d)
  | j :: js =>
      '(cs, s, d) ← run_job (verify n) j s d;
      '(cs', s, d) ← run_jobs verify (S n) js s d;
      Some (cs ++ cs', s, d)
  end.

(** The sectors the device is asked to verify by a request. *)
Definition rq_sectors (rq : request) : list Z := seqZ (rq_sector rq) (rq_data_len rq / 512).

Lemma run_jobs_spec verify n js s d hi :
  Forall (λ j, 0 ≤ j_pos j ∧ 0 ≤ j_count j ∧ j_pos j + j_count j ≤ hi) js → hi < 2 ^ 64 →
  in_u64 (p_reqcount s) →
  ∃ cs s' d', run_jobs verify n js s d = Some (cs, s', d') ∧
    concat (job_sectors ∘ fst <$> cs) = concat (job_sectors <$> js) ∧
    Forall (λ c, 0 ≤ j_count c.1 ≤ 65535 ∧ 0 ≤ j_pos c.1 ∧
                 j_pos c.1 + j_count c.1 ≤ hi) cs ∧
    p_reqcount s' = u64 (p_reqcount s + Z.of_nat (length cs)).
Proof.
  intros Hjs Hhi. revert n s d.
  induction Hjs as [|j js (Hp & Hc & He) Hjs IH]; intros n s d Hq.
  { exists [], s, d. split_and!; try done. cbn [length].
    rewrite Z.add_0_r. by rewrite u64_small. }
  assert (0 ≤ j_count j / 65535) by (apply Z.div_pos; lia).
  destruct (chunk_loop_spec (verify n) (S (Z.to_nat (j_count j / 65535))) 0 (j_pos j)
              (j_count j) s d) as (cs & s1 & d1 & Hr & Hcat & Hall & Hq1 & _); [lia..|].
  destruct (IH (S n) s1 d1) as (cs' & s' & d' & Hr' & Hcat' & Hall' & Hq').
  { rewrite Hq1. apply u64_range. }
  exists (cs ++ cs'), s', d'. split_and!.
  - cbn [run_jobs]. unfold run_job. rewrite Hr. cbn [mbind option_bind].
    rewrite Hr'. done.
  - rewrite fmap_app, concat_app, Hcat, Hcat'. done.
  - apply Forall_app. split; [|done].
    eapply Forall_impl; [exact Hall|]. intros c Hcc. cbn beta in *. lia.
  - rewrite Hq', Hq1, length_app. unfold u64. rewrite Zplus_mod_idemp_l. f_equal. lia.
Qed.



(** ** Staggered scrubbing: lemmas *)

(** The job for segment [sn] of region [rn], if it starts before the end. *)
Definition stag_job (s : scrubparams) (p : Z * Z) : option job :=
  let pos := u64 (u64 (p_start s + u64 (p.2 * p_regsize s)) + u64 (p.1 * p_segsize s)) in
  if pos <? p_capacity s then Some (mk_job pos (segment_len s pos)) else None.

(** The order in which the two loops visit segments and regions. *)
Definition stag_order (segnum regnum : Z) : list (Z * Z) :=
  seqZ 0 segnum ≫= λ sn, (λ rn, (sn, rn)) <$> seqZ 0 regnum.

Lemma stag_body_value abort s sn rn g :
  g_bailed g = false →
  stag_body abort s sn rn g =
  match stag_job s (sn, rn) with
  | Some j =>
      let '(bail, rc) := bail_out (abort (length (g_jobs g))) s (g_reqcount g) in
      mk_stag (j :: g_jobs g) rc bail
  | None => g
  end.
Proof.
  intros Hb. unfold stag_body, stag_job. rewrite Hb. cbn [fst snd].
  by destruct (_ <? p_capacity s).
Qed.

Lemma stag_fold_bailed abort s ps g :
  g_bailed g = true → foldl (λ g p, stag_body abort s p.1 p.2 g) g ps = g.
Proof.
  intros Hb. induction ps as [|p ps IH]; [done|]. cbn [foldl]. unfold stag_body at 2.
  by rewrite Hb.
Qed.

Lemma stag_fold abort s ps g :
  g_bailed g = false →
  reverse (g_jobs (foldl (λ g p, stag_body abort s p.1 p.2 g) g ps)) =
  reverse (g_jobs g) ++
  take (issued abort s (length (g_jobs g)) (g_reqcount g) (length (omap (stag_job s) ps)))
    (omap (stag_job s) ps).
Proof.
  revert g. induction ps as [|[sn rn] ps IH]; intros g Hb.
  { cbn. by rewrite app_nil_r. }
  cbn [foldl fst snd]. rewrite stag_body_value by done. cbn [omap list_omap].
  destruct (stag_job s (sn, rn)) as [j|]; [|by apply IH]. cbn [length issued].
  destruct (bail_out (abort (length (g_jobs g))) s (g_reqcount g)) as [bail rc].
  destruct bail.
  - rewrite stag_fold_bailed by done. cbn [g_jobs take]. by rewrite reverse_cons.
  - rewrite IH by done. cbn [g_jobs g_reqcount length take].
    rewrite reverse_cons, <- app_assoc. done.
Qed.

Lemma foldl_bind {A B C} (f : A → C → A) (h : B → list C) (l : list B) (a : A) :
  foldl (λ a b, foldl f a (h b)) a l = foldl f a (l ≫= h).
Proof.
  revert a. induction l as [|b l IH]; intros a; [done|]. cbn.
  by rewrite foldl_app, <- IH.
Qed.

Lemma stag_regions_value abort s regnum sn g :
  stag_regions abort s regnum sn g =
  foldl (λ g p, stag_body abort s p.1 p.2 g) g ((λ rn, (sn, rn)) <$> seqZ 0 regnum).
Proof.
  unfold stag_regions. revert g.
  induction (seqZ 0 regnum) as [|rn l IH]; intros g; [done|]. cbn [foldl fmap list_fmap].
  apply IH.
Qed.

(** The jobs of an undisturbed staggered scrub. *)
Definition stag_plan (s : scrubparams) (segnum regnum : Z) : list job :=
  omap (stag_job s) (stag_order segnum regnum).

Lemma stgscrub_value abort s regnum segnum :
  lceil (u64 (p_capacity s - p_start s)) (p_regsize s) = Some regnum →
  lceil (p_regsize s) (p_segsize s) = Some segnum →
  stgscrub abort s =
  Some (take (issued abort s 0 0 (length (stag_plan s segnum regnum)))
          (stag_plan s segnum regnum)).
Proof.
  intros Hr Hs. unfold stgscrub. rewrite Hr, Hs. cbn [mbind option_bind]. f_equal.
  etransitivity;
    [|apply (stag_fold abort s (stag_order segnum regnum) (mk_stag [] 0 false) eq_refl)].
  do 2 f_equal. unfold stag_order. rewrite <- foldl_bind. generalize (mk_stag [] 0 false).
  induction (seqZ 0 segnum) as [|sn l IH]; intros g; [done|]. cbn [foldl].
  by rewrite stag_regions_value.
Qed.

Lemma lceil_value whole part :
  0 < part → 0 ≤ whole < 2 ^ 63 → lceil whole part = Some ((whole + part - 1) / part).
Proof.
  intros Hp Hw. unfold lceil. destruct (part =? 0) eqn:?; zbool; [lia|].
  pose proof (Z.div_mod whole part ltac:(lia)) as Hdm.
  pose proof (Z.mod_pos_bound whole part ltac:(lia)) as Hmb.
  assert (0 ≤ whole / part) by (apply Z.div_pos; lia).
  assert (whole / part ≤ whole) by (apply Z.div_le_upper_bound; nia).
  destruct (whole mod part =? 0) eqn:Hm; zbool; f_equal.
  - apply (Z.div_unique _ _ _ (part - 1)); lia.
  - rewrite u64_small by (unfold in_u64; lia).
    apply (Z.div_unique _ _ _ (whole mod part - 1)); lia.
Qed.

(** Sizes for which no 64-bit sum of a staggered round wraps. *)
Record stag_geometry (s : scrubparams) : Prop := {
  sg_geo : geometry s;
  sg_reg : 0 < p_regsize s < 2 ^ 61;
  sg_seg : p_segsize s < 2 ^ 61;
  sg_cap : p_start s ≤ p_capacity s < 2 ^ 61;
  sg_fit : p_segsize s ≤ p_capacity s;
}.

Definition stag_regnum (s : scrubparams) : Z :=
  (p_capacity s - p_start s + p_regsize s - 1) / p_regsize s.
Definition stag_segnum (s : scrubparams) : Z :=
  (p_regsize s + p_segsize s - 1) / p_segsize s.

Lemma stgscrub_plan abort s :
  stag_geometry s →
  stgscrub abort s =
  Some (take (issued abort s 0 0 (length (stag_plan s (stag_segnum s) (stag_regnum s))))
          (stag_plan s (stag_segnum s) (stag_regnum s))).
Proof.
  intros [[? ? ? ?] ? ? ? ?]. apply stgscrub_value.
  - rewrite u64_small by (unfold in_u64; lia). by apply lceil_value; lia.
  - by apply lceil_value; lia.
Qed.

(** The sectors of a staggered scrub, segment by segment. *)
Definition stag_sectors (s : scrubparams) (p : Z * Z) : list Z :=
  from_option job_sectors [] (stag_job s p).

Lemma stag_plan_sectors s segnum regnum :
  concat (job_sectors <$> stag_plan s segnum regnum) =
  stag_order segnum regnum ≫= stag_sectors s.
Proof.
  unfold stag_plan. induction (stag_order segnum regnum) as [|p l IH]; [done|].
  cbn [omap list_omap mbind list_bind]. rewrite <- IH. unfold stag_sectors.
  by destruct (stag_job s p).
Qed.

Lemma elem_of_stag_order sn rn segnum regnum :
  (sn, rn) ∈ stag_order segnum regnum ↔ 0 ≤ sn < segnum ∧ 0 ≤ rn < regnum.
Proof.
  unfold stag_order. rewrite list_elem_of_bind. split.
  - intros (sn' & Hin & Hsn). apply list_elem_of_fmap in Hin as (rn' & [= -> ->] & Hrn).
    rewrite elem_of_seqZ in *. lia.
  - intros [? ?]. exists sn. rewrite list_elem_of_fmap, elem_of_seqZ. split; [|lia].
    exists rn. rewrite elem_of_seqZ. split; [done|lia].
Qed.

Lemma NoDup_stag_order segnum regnum : NoDup (stag_order segnum regnum).
Proof.
  apply NoDup_bind.
  - intros sn1 sn2 p _ _ (? & -> & _)%list_elem_of_fmap (? & [= -> _] & _)%list_elem_of_fmap.
    done.
  - intros sn _. apply NoDup_fmap_2; [by intros ? ? [= ->]|apply NoDup_seqZ].
  - apply NoDup_seqZ.
Qed.

Section staggered.
Context (s : scrubparams) (Hg : stag_geometry s).

Lemma stag_job_value sn rn :
  0 ≤ sn < stag_segnum s → 0 ≤ rn < stag_regnum s →
  stag_job s (sn, rn) =
  let pos := p_start s + rn * p_regsize s + sn * p_segsize s in
  if pos <? p_capacity s then Some (mk_job pos (Z.min (p_segsize s) (p_capacity s - pos)))
  else None.
Proof.
  destruct Hg as [Hgeo ? ? ? ?]. pose proof Hgeo as [? ? ? ?].
  unfold stag_segnum, stag_regnum. intros Hsn Hrn.
  assert (rn * p_regsize s < 2 ^ 61) as ?.
  { assert (rn + 1 ≤ (p_capacity s - p_start s + p_regsize s - 1) / p_regsize s) as Hup by lia.
    apply (Z.mul_le_mono_nonneg_r _ _ (p_regsize s)) in Hup; [|lia].
    pose proof (Z.mul_div_le (p_capacity s - p_start s + p_regsize s - 1) (p_regsize s)).
    lia. }
  assert (sn * p_segsize s < 2 ^ 61) as ?.
  { assert (sn + 1 ≤ (p_regsize s + p_segsize s - 1) / p_segsize s) as Hup by lia.
    apply (Z.mul_le_mono_nonneg_r _ _ (p_segsize s)) in Hup; [|lia].
    pose proof (Z.mul_div_le (p_regsize s + p_segsize s - 1) (p_segsize s)).
    lia. }
  assert (0 ≤ rn * p_regsize s ∧ 0 ≤ sn * p_segsize s) as [? ?] by (split; nia).
  unfold stag_job. cbn [fst snd].
  rewrite (u64_small (rn * _)), (u64_small (sn * _)) by (unfold in_u64; lia).
  rewrite (u64_small (p_start s + _)) by (unfold in_u64; lia).
  rewrite u64_small by (unfold in_u64; lia). cbv zeta.
  destruct (_ <? p_capacity s) eqn:?; zbool; [|done].
  rewrite segment_len_value by (done || lia). done.
Qed.

Lemma elem_of_stag_sectors x sn rn :
  0 ≤ sn < stag_segnum s → 0 ≤ rn < stag_regnum s →
  x ∈ stag_sectors s (sn, rn) ↔
  let pos := p_start s + rn * p_regsize s + sn * p_segsize s in
  pos ≤ x < pos + p_segsize s ∧ x < p_capacity s.
Proof.
  intros Hsn Hrn. unfold stag_sectors. rewrite stag_job_value by done. cbv zeta.
  pose proof (geo_seg s (sg_geo s Hg)).
  destruct (_ <? p_capacity s) eqn:?; zbool; cbn [from_option].
  - unfold job_sectors. rewrite elem_of_seqZ. cbn [j_pos j_count]. lia.
  - rewrite elem_of_nil. lia.
Qed.

(** Every sector lies in a segment of a region. *)
Lemma stag_locate x :
  p_start s ≤ x < p_capacity s →
  let rn := (x - p_start s) / p_regsize s in
  let sn := (x - p_start s) mod p_regsize s / p_segsize s in
  0 ≤ sn < stag_segnum s ∧ 0 ≤ rn < stag_regnum s ∧ x ∈ stag_sectors s (sn, rn).
Proof.
  intros Hx. cbv zeta. destruct Hg as [Hgeo Hreg ? ? ?]. pose proof Hgeo as [? ? ? ?].
  set (y := x - p_start s).
  pose proof (Z.div_mod y (p_regsize s) ltac:(lia)) as Hdm.
  pose proof (Z.mod_pos_bound y (p_regsize s) ltac:(lia)) as Hmb.
  pose proof (Z.div_mod (y mod p_regsize s) (p_segsize s) ltac:(lia)) as Hdm2.
  pose proof (Z.mod_pos_bound (y mod p_regsize s) (p_segsize s) ltac:(lia)) as Hmb2.
  assert (0 ≤ y / p_regsize s < stag_regnum s) as Hrn.
  { split; [apply Z.div_pos; lia|]. unfold stag_regnum.
    apply Z.div_lt_upper_bound; [lia|].
    pose proof (Z.mul_succ_div_gt (p_capacity s - p_start s + p_regsize s - 1) (p_regsize s)).
    lia. }
  assert (0 ≤ y mod p_regsize s / p_segsize s < stag_segnum s) as Hsn.
  { split; [apply Z.div_pos; lia|]. unfold stag_segnum.
    apply Z.div_lt_upper_bound; [lia|].
    pose proof (Z.mul_succ_div_gt (p_regsize s + p_segsize s - 1) (p_segsize s)).
    lia. }
  split_and!; try lia. apply elem_of_stag_sectors; [done|done|]. cbv zeta. lia.
Qed.

Lemma stag_bounds x sn rn :
  0 ≤ sn < stag_segnum s → 0 ≤ rn < stag_regnum s → x ∈ stag_sectors s (sn, rn) →
  p_start s ≤ x < p_capacity s.
Proof.
  intros Hsn Hrn Hx%elem_of_stag_sectors; [|done|done]. cbv zeta in Hx.
  destruct Hg as [Hgeo Hreg ? ? ?]. pose proof Hgeo as [? ? ? ?]. nia.
Qed.

(** When segments divide regions, a sector is in one segment only. *)
Lemma stag_unique x sn rn :
  p_regsize s mod p_segsize s = 0 →
  0 ≤ sn < stag_segnum s → 0 ≤ rn < stag_regnum s → x ∈ stag_sectors s (sn, rn) →
  rn = (x - p_start s) / p_regsize s ∧
  sn = (x - p_start s) mod p_regsize s / p_segsize s.
Proof.
  intros Hdiv Hsn Hrn Hx%elem_of_stag_sectors; [|done|done]. cbv zeta in Hx.
  destruct Hg as [Hgeo Hreg ? ? ?]. pose proof Hgeo as [? ? ? ?].
  apply Z.mod_divide in Hdiv as [q Hq]; [|lia].
  assert (stag_segnum s = q) as Hn.
  { unfold stag_segnum. symmetry. apply (Z.div_unique _ _ _ (p_segsize s - 1)); lia. }
  assert ((sn + 1) * p_segsize s ≤ p_regsize s) as Hin by (rewrite Hq; nia).
  assert (rn = (x - p_start s) / p_regsize s) as Er.
  { apply (Z.div_unique _ _ _ (x - p_start s - rn * p_regsize s)); [left; nia|lia]. }
  split; [done|].
  assert ((x - p_start s) mod p_regsize s = x - p_start s - rn * p_regsize s) as ->.
  { symmetry. apply (Z.mod_unique _ _ rn); [left; nia|lia]. }
  apply (Z.div_unique _ _ _ (x - p_start s - rn * p_regsize s - sn * p_segsize s)); lia.
Qed.
End staggered.

(** ** Staggered scrubbing: theorems *)

(** Coverage. The jobs of an undisturbed staggered scrub contain every sector
    from the start to the end of the scrubbed part, and no other. *)
Theorem stgscrub_covers abort s :
  stag_geometry s → p_reqbound s = 0 → (∀ n, abort n = false) →
  ∃ js, stgscrub abort s = Some js ∧
    ∀ x, x ∈ concat (job_sectors <$> js) ↔ p_start s ≤ x < p_capacity s.
Proof.
  intros Hg Hr Ha. eexists. split.
  - rewrite stgscrub_plan, issued_all, firstn_all by done. reflexivity.
  - intros x. rewrite stag_plan_sectors, list_elem_of_bind. split.
    + intros ([sn rn] & Hx & [? ?]%elem_of_stag_order). by eapply stag_bounds.
    + intros Hx%stag_locate; [|done]. cbv zeta in Hx. destruct Hx as (? & ? & ?).
      eexists (_, _). split; [done|]. by apply elem_of_stag_order.
Qed.

Lemma stgscrub_covers_witness :
  ∃ js, stgscrub (λ _, false) demo_params = Some js ∧
    ∀ x, x ∈ concat (job_sectors <$> js) ↔ 1234 ≤ x < 4321.
Proof.
  apply (stgscrub_covers (λ _, false) demo_params); try done.
  split; try (simpl; lia). split; simpl; lia.
Defined.



(** ** [scrubdev] *)

Lemma scrubdev_capacity disk s :
  p_capacity (scrubdev_params disk s) ≤ get_capacity disk.
Proof.
  unfold scrubdev_params. destruct (negb (truthy (p_capacity s))) eqn:?; cbn; [lia|].
  destruct (get_capacity disk <? u64 (p_start s + p_capacity s)) eqn:?; zbool; cbn; lia.
Qed.


