(* ===== verification/Workers.v ===== *)
(** * Worker threads (segread and kthread_segread, block/scrub_core.c)

    The main scrubber thread hands jobs to worker threads through
    [tdata[i].state], [pos] and [count] and a spinlock per worker that is used
    as a barrier: the main thread unlocks it, the worker takes it with
    [spin_trylock].  The system is a transition system whose steps are the
    accesses to shared data, so every interleaving of main thread and workers
    is a run.  [step] computes the effect of one step of a chosen thread; it is
    [None] when that thread is blocked. *)
From S2P Require Import Prelude Scrub ScrubCore.

(** ** Ticket spinlocks (NR_CPUS < 256, arch/x86/include/asm/spinlock.h)

    The lock word holds the ticket being served ([head], low byte) and the
    next free ticket ([tail], high byte).  [spin_lock_init] makes both 0. *)
Record ticket := mk_ticket { t_head : Z; t_tail : Z }.

Definition spin_lock_init : ticket := mk_ticket 0 0.

Definition spin_trylock (t : ticket) : option ticket :=
  if t_head t =? t_tail t then Some (mk_ticket (t_head t) (u8 (t_tail t + 1))) else None.

(** The increment of the low byte, whoever calls it. *)
Definition spin_unlock (t : ticket) : ticket := mk_ticket (u8 (t_head t + 1)) (t_tail t).

(** ** Threads *)

Inductive tstate := TINIT | TIDLE | TBUSY.

#[export] Instance tstate_eq_dec : EqDecision tstate.
Proof. solve_decision. Defined.

(** Where a worker is in [kthread_segread]. *)
Inductive wpc :=
  | W_init    (** before [data->state = TIDLE] on entry *)
  | W_count   (** before [++available] *)
  | W_try     (** at [spin_trylock] *)
  | W_check   (** behind the inner loop: [kthread_should_stop], then the switch *)
  | W_work    (** in case TBUSY, executing the job *)
  | W_reset   (** before [data->state = TIDLE] after the job *)
  | W_exited.

#[export] Instance wpc_eq_dec : EqDecision wpc.
Proof. solve_decision. Defined.

(** struct scrub_thread_data with the worker's barrier and stop flag. *)
Record worker := mk_worker {
  w_pc : wpc;
  w_state : tstate;
  w_job : job;
  w_lock : ticket;
  w_stop : bool;
}.

Definition set_w_pc (p : wpc) (w : worker) : worker :=
  mk_worker p (w_state w) (w_job w) (w_lock w) (w_stop w).
Definition set_w_state (t : tstate) (w : worker) : worker :=
  mk_worker (w_pc w) t (w_job w) (w_lock w) (w_stop w).
Definition set_w_job (j : job) (w : worker) : worker :=
  mk_worker (w_pc w) (w_state w) j (w_lock w) (w_stop w).
Definition set_w_lock (t : ticket) (w : worker) : worker :=
  mk_worker (w_pc w) (w_state w) (w_job w) t (w_stop w).
Definition set_w_stop (b : bool) (w : worker) : worker :=
  mk_worker (w_pc w) (w_state w) (w_job w) (w_lock w) b.

(** Where the main thread is: in [segread] for the first job of the list, or
    in the loop of [scrubber] that stops the workers. *)
Inductive mpc :=
  | M_wait                (** [while (!s->available)], then [--available] *)
  | M_scan (tc : nat)     (** [while (tdata[tc].state != TIDLE)] *)
  | M_pos (tc : nat)      (** before [tdata[tc].pos = pos] *)
  | M_count (tc : nat)    (** before [tdata[tc].count = count] *)
  | M_unlock (tc : nat)   (** before [spin_unlock(&barrier[tc])] *)
  | M_sync (tc : nat)     (** [while (task->state == TASK_RUNNING)] *)
  | M_stop (i : nat)      (** before [kthread_stop(tdata[i].task)] *)
  | M_join (i : nat)      (** waiting in [kthread_stop] *)
  | M_done.

(** The system: [todo] are the jobs not yet handed over, [submitted] and
    [executed] record the jobs whose barrier was raised and the jobs done. *)
Record sys := mk_sys {
  m_pc : mpc;
  todo : list job;
  available : Z;
  workers : list worker;
  submitted : list job;
  executed : list job;
}.

Definition at_main (p : mpc) (x : sys) : sys :=
  mk_sys p (todo x) (available x) (workers x) (submitted x) (executed x).
Definition with_worker (i : nat) (w : worker) (x : sys) : sys :=
  mk_sys (m_pc x) (todo x) (available x) (<[i := w]> (workers x)) (submitted x) (executed x).
Definition with_available (a : Z) (x : sys) : sys :=
  mk_sys (m_pc x) (todo x) a (workers x) (submitted x) (executed x).

(** [task->state != TASK_RUNNING]: polling the barrier, blocked in a
    command, or gone. *)
Definition asleep (w : worker) : bool :=
  match w_pc w with W_try | W_work | W_exited => true | _ => false end.

(** ** Steps of the main thread *)

Definition main_step (x : sys) : option sys :=
  match m_pc x with
  | M_wait =>
      match todo x with
      | [] => Some (at_main (M_stop 0) x)
      | _ => if available x =? 0 then None
             else Some (at_main (M_scan 0) (with_available (available x - 1) x))
      end
  | M_scan tc =>
      w ← workers x !! tc;
      match w_state w with
      | TIDLE => Some (at_main (M_pos tc) (with_worker tc (set_w_state TBUSY w) x))
      | _ => Some (at_main (M_scan ((tc + 1) mod length (workers x))) x)
      end
  | M_pos tc =>
      w ← workers x !! tc;
      j ← head (todo x);
      let w := set_w_job (mk_job (j_pos j) (j_count (w_job w))) w in
      Some (at_main (M_count tc) (with_worker tc w x))
  | M_count tc =>
      w ← workers x !! tc;
      j ← head (todo x);
      let w := set_w_job (mk_job (j_pos (w_job w)) (j_count j)) w in
      Some (at_main (M_unlock tc) (with_worker tc w x))
  | M_unlock tc =>
      w ← workers x !! tc;
      j ← head (todo x);
      let w := set_w_lock (spin_unlock (w_lock w)) w in
      Some (mk_sys (M_sync tc) (tail (todo x)) (available x) (<[tc := w]> (workers x))
              (submitted x ++ [j]) (executed x))
  | M_sync tc =>
      w ← workers x !! tc;
      if asleep w then Some (at_main M_wait x) else None
  | M_stop i =>
      match workers x !! i with
      | Some w => Some (at_main (M_join i) (with_worker i (set_w_stop true w) x))
      | None => Some (at_main M_done x)
      end
  | M_join i =>
      w ← workers x !! i;
      match w_pc w with W_exited => Some (at_main (M_stop (S i)) x) | _ => None end
  | M_done => None
  end.

(** ** Steps of a worker *)

Definition worker_step (i : nat) (x : sys) : option sys :=
  w ← workers x !! i;
  match w_pc w with
  | W_init => Some (with_worker i (set_w_pc W_count (set_w_state TIDLE w)) x)
  | W_count =>
      Some (with_available (available x + 1) (with_worker i (set_w_pc W_try w) x))
  | W_try =>
      match spin_trylock (w_lock w) with
      | Some t => Some (with_worker i (set_w_pc W_check (set_w_lock t w)) x)
      | None => if w_stop w then Some (with_worker i (set_w_pc W_check w) x) else None
      end
  | W_check =>
      if w_stop w then Some (with_worker i (set_w_pc W_exited w) x)
      else Some (with_worker i
             (set_w_pc (match w_state w with TBUSY => W_work | _ => W_try end) w) x)
  | W_work =>
      Some (mk_sys (m_pc x) (todo x) (available x) (<[i := set_w_pc W_reset w]> (workers x))
              (submitted x) (executed x ++ [w_job w]))
  | W_reset => Some (with_worker i (set_w_pc W_count (set_w_state TIDLE w)) x)
  | W_exited => None
  end.

(** The thread that moves. *)
Inductive thread := Main | Worker (i : nat).

Definition step (t : thread) (x : sys) : option sys :=
  match t with Main => main_step x | Worker i => worker_step i x end.

(** The runs of a schedule; a blocked thread wastes its turn. *)
Definition run (ts : list thread) (x : sys) : sys :=
  foldl (λ x t, default x (step t x)) x ts.

Inductive reaches (x : sys) : sys → Prop :=
  | reaches_refl : reaches x x
  | reaches_step y z t : reaches x y → step t y = Some z → reaches x z.

(** Freshly created workers, and workers that have taken their barrier once
    and are waiting for work. *)
Definition new_worker : worker := mk_worker W_init TINIT (mk_job 0 0) spin_lock_init false.

Definition ready_worker : worker :=
  mk_worker W_try TIDLE (mk_job 0 0) (mk_ticket 0 1) false.

Definition start_sys (n : nat) (js : list job) : sys :=
  mk_sys M_wait js 0 (replicate n new_worker) [] [].

Definition ready_sys (n : nat) (js : list job) : sys :=
  mk_sys M_wait js (Z.of_nat n) (replicate n ready_worker) [] [].

(** ** Lemmas on lists of workers *)

Lemma omap_update {A B} (f : A → option B) (l : list A) i x :
  l !! i = Some x →
  ∃ rest, omap f l ≡ₚ option_list (f x) ++ rest ∧
    ∀ y, omap f (<[i := y]> l) ≡ₚ option_list (f y) ++ rest.
Proof.
  intros Hi. exists (omap f (take i l) ++ omap f (drop (S i) l)).
  assert (∀ y, omap f (take i l ++ y :: drop (S i) l) ≡ₚ
          option_list (f y) ++ omap f (take i l) ++ omap f (drop (S i) l)) as H.
  { intros y. rewrite omap_app. cbn [omap list_omap].
    destruct (f y); cbn [option_list]; [by rewrite <- Permutation_middle|done]. }
  split.
  - rewrite <- H. by rewrite take_drop_middle.
  - intros y. rewrite <- H. rewrite insert_take_drop; [done|]. by eapply lookup_lt_Some.
Qed.

(** Sum of an integer measure over a list. *)
Fixpoint sum {A} (f : A → Z) (l : list A) : Z :=
  match l with [] => 0 | x :: l => f x + sum f l end.

Lemma sum_update {A} (f : A → Z) (l : list A) i x y :
  l !! i = Some x → sum f (<[i := y]> l) = sum f l - f x + f y.
Proof.
  revert i. induction l as [|z l IH]; intros [|i] Hi; try discriminate.
  - injection Hi as ->. cbn. lia.
  - specialize (IH i Hi).
    change (f z + sum f (<[i := y]> l) = f z + sum f l - f x + f y). lia.
Qed.

Lemma sum_positive {A} (f : A → Z) (l : list A) :
  0 < sum f l → ∃ i x, l !! i = Some x ∧ 0 < f x.
Proof.
  induction l as [|x l IH]; cbn; [lia|]. intros H.
  destruct (decide (0 < f x)).
  - by exists 0%nat, x.
  - destruct IH as (i & y & ? & ?); [lia|]. by exists (S i), y.
Qed.

(** ** The invariant *)

Definition freeb (t : ticket) : bool := t_head t =? t_tail t.
Definition lockedb (t : ticket) : bool := t_tail t =? u8 (t_head t + 1).

Lemma locked_not_free t : in_u8 (t_head t) → lockedb t = true → freeb t = false.
Proof.
  unfold lockedb, freeb, in_u8, u8. intros ? ?. zbool. apply Z.eqb_neq. dlia.
Qed.

(** The main thread is filling in worker [i]. *)
Definition assigning (m : mpc) (i : nat) : bool :=
  match m with M_pos k | M_count k | M_unlock k => Nat.eqb k i | _ => false end.

Definition stopping (m : mpc) : bool :=
  match m with M_stop _ | M_join _ | M_done => true | _ => false end.

(** Idle and assigned workers hold their barrier; raising it and taking it
    alternate. *)
Definition phase_ok (asg : bool) (w : worker) : bool :=
  match w_state w, w_pc w with
  | TIDLE, (W_try | W_count) => negb asg && lockedb (w_lock w)
  | TIDLE, (W_check | W_exited) => negb asg && lockedb (w_lock w) && w_stop w
  | TBUSY, (W_try | W_count) => if asg then lockedb (w_lock w) else freeb (w_lock w)
  | TBUSY, (W_check | W_work | W_reset) => negb asg && lockedb (w_lock w)
  | TBUSY, W_exited => negb asg && lockedb (w_lock w) && w_stop w
  | _, _ => false
  end.

Definition worker_ok (m : mpc) (i : nat) (w : worker) : Prop :=
  in_u8 (t_head (w_lock w)) ∧ phase_ok (assigning m i) w = true ∧
  (w_stop w = true → stopping m = true).

(** The job a worker has been given and has not done. *)
Definition pend_job (w : worker) : option job :=
  match w_state w, w_pc w with
  | TBUSY, (W_try | W_count) => if freeb (w_lock w) then Some (w_job w) else None
  | TBUSY, (W_check | W_work | W_exited) => Some (w_job w)
  | _, _ => None
  end.

(** What a worker contributes to [available]. *)
Definition token (w : worker) : Z :=
  (match w_state w with TIDLE => 1 | _ => 0 end) -
  (match w_pc w with W_count => 1 | _ => 0 end).

Definition scanning (m : mpc) : Z := match m with M_scan _ => 1 | _ => 0 end.

Definition main_ok (x : sys) : Prop :=
  match m_pc x with
  | M_scan tc | M_pos tc => (tc < length (workers x))%nat ∧ ∃ j, head (todo x) = Some j
  | M_count tc =>
      ∃ w j, workers x !! tc = Some w ∧ head (todo x) = Some j ∧ j_pos (w_job w) = j_pos j
  | M_unlock tc =>
      ∃ w, workers x !! tc = Some w ∧ head (todo x) = Some (w_job w)
  | M_sync tc => (tc < length (workers x))%nat
  | M_wait => True
  | M_join i => todo x = [] ∧ ∃ w, workers x !! i = Some w ∧ w_stop w = true
  | M_stop _ | M_done => todo x = []
  end.

Record inv (all : list job) (x : sys) : Prop := {
  inv_workers i w : workers x !! i = Some w → worker_ok (m_pc x) i w;
  inv_available : available x + scanning (m_pc x) = sum token (workers x);
  inv_nonneg : 0 ≤ available x;
  inv_jobs : submitted x ≡ₚ executed x ++ omap pend_job (workers x);
  inv_plan : submitted x ++ todo x = all;
  inv_main : main_ok x;
}.

Lemma worker_ok_main m m' i w :
  assigning m i = assigning m' i → (stopping m = true → stopping m' = true) →
  worker_ok m i w → worker_ok m' i w.
Proof. intros Ha Hs (? & ? & ?). split_and!; [done|by rewrite <- Ha|auto]. Qed.

Lemma workers_update m m' i w' (ws : list worker) :
  (∀ k w, ws !! k = Some w → worker_ok m k w) →
  (∀ k, k ≠ i → assigning m k = assigning m' k) →
  (stopping m = true → stopping m' = true) →
  worker_ok m' i w' →
  ∀ k w, <[i := w']> ws !! k = Some w → worker_ok m' k w.
Proof.
  intros Hall Ha Hs Hi k w [(-> & <- & _)|[? Hk]]%list_lookup_insert_Some; [done|].
  apply (worker_ok_main m); auto.
Qed.

(** A step that changes worker [i] only. *)
Lemma inv_update all x i w w' m' td' a' sub' ex' :
  inv all x → workers x !! i = Some w →
  worker_ok m' i w' →
  (∀ k, k ≠ i → assigning (m_pc x) k = assigning m' k) →
  (stopping (m_pc x) = true → stopping m' = true) →
  a' + scanning m' = available x + scanning (m_pc x) - token w + token w' → 0 ≤ a' →
  (∀ rest, submitted x ≡ₚ executed x ++ option_list (pend_job w) ++ rest →
           sub' ≡ₚ ex' ++ option_list (pend_job w') ++ rest) →
  sub' ++ td' = all →
  main_ok (mk_sys m' td' a' (<[i := w']> (workers x)) sub' ex') →
  inv all (mk_sys m' td' a' (<[i := w']> (workers x)) sub' ex').
Proof.
  intros [Hw Hav Hnn Hj Hp Hm] Hi Hok Has Hst Ha Ha0 Hperm Hplan Hmain.
  destruct (omap_update pend_job (workers x) i w Hi) as (rest & Hr & Hr').
  constructor; cbn [m_pc workers available submitted executed todo]; try done.
  - by apply (workers_update (m_pc x)).
  - rewrite (sum_update _ _ _ _ _ Hi). lia.
  - rewrite Hr'. apply Hperm. by rewrite <- Hr.
Qed.

(** A step of the main thread that changes no worker. *)
Lemma inv_main_move all x m' a' :
  inv all x →
  (∀ k, assigning (m_pc x) k = assigning m' k) →
  (stopping (m_pc x) = true → stopping m' = true) →
  a' + scanning m' = available x + scanning (m_pc x) → 0 ≤ a' →
  main_ok (mk_sys m' (todo x) a' (workers x) (submitted x) (executed x)) →
  inv all (mk_sys m' (todo x) a' (workers x) (submitted x) (executed x)).
Proof.
  intros [Hw Hav Hnn Hj Hp Hm] Has Hst Ha Ha0 Hmain.
  constructor; cbn [m_pc workers available submitted executed todo]; try done; [|lia].
  intros i w Hi. eapply worker_ok_main; eauto.
Qed.

(** [main_ok] only looks at the main thread's own worker. *)
Lemma main_ok_worker x i w w' a' ex' :
  workers x !! i = Some w → main_ok x → w_job w' = w_job w → w_stop w' = w_stop w →
  main_ok (mk_sys (m_pc x) (todo x) a' (<[i := w']> (workers x)) (submitted x) ex').
Proof.
  intros Hi Hm Hj Hst. unfold main_ok in *. cbn [m_pc workers todo].
  destruct (m_pc x); rewrite ?length_insert; try done.
  - destruct Hm as (v & j & Hv & Ht & Hp).
    destruct (decide (i = tc)) as [->|].
    + exists w', j. rewrite list_lookup_insert_eq by (by eapply lookup_lt_Some).
      assert (w = v) as -> by congruence. by rewrite Hj.
    + exists v, j. by rewrite list_lookup_insert_ne.
  - destruct Hm as (v & Hv & Ht).
    destruct (decide (i = tc)) as [->|].
    + exists w'. rewrite list_lookup_insert_eq by (by eapply lookup_lt_Some).
      assert (w = v) as -> by congruence. by rewrite Hj.
    + exists v. by rewrite list_lookup_insert_ne.
  - destruct Hm as (? & v & Hv & Hs). split; [done|].
    destruct (decide (i = i0)) as [->|].
    + exists w'. rewrite list_lookup_insert_eq by (by eapply lookup_lt_Some).
      assert (w = v) as -> by congruence. by rewrite Hst.
    + exists v. by rewrite list_lookup_insert_ne.
Qed.

Lemma stopping_not_assigning m i : stopping m = true → assigning m i = false.
Proof. by destruct m. Qed.

Ltac worker_cases w :=
  unfold token, pend_job, phase_ok in *;
  destruct w as [pc st j [h t] stop]; destruct pc, st; cbn in *; try discriminate.

(** A step of one worker that leaves its job alone. *)
Lemma inv_worker_move all i x w w' a ex :
  inv all x → workers x !! i = Some w → w_job w' = w_job w → w_stop w' = w_stop w →
  worker_ok (m_pc x) i w' → a = available x - token w + token w' → 0 ≤ a →
  ex ++ option_list (pend_job w') ≡ₚ executed x ++ option_list (pend_job w) →
  inv all (mk_sys (m_pc x) (todo x) a (<[i := w']> (workers x)) (submitted x) ex).
Proof.
  intros Hinv Hi Hj Hsw Hok Ha Ha0 Hperm. eapply inv_update; try done.
  - lia.
  - intros rest ->. by rewrite !app_assoc, Hperm.
  - apply Hinv.
  - eapply main_ok_worker; [done|apply Hinv|done|done].
Qed.

(** The worker gets past its barrier: it was raised, or the thread is stopped. *)
Lemma inv_worker_past all i x w w' :
  inv all x → workers x !! i = Some w → w_pc w = W_try →
  (spin_trylock (w_lock w) = Some (w_lock w') ∨
   spin_trylock (w_lock w) = None ∧ w_stop w = true ∧ w_lock w' = w_lock w) →
  w' = set_w_pc W_check (set_w_lock (w_lock w') w) → inv all (with_worker i w' x).
Proof.
  intros Hinv Hi Epc Ht ->. pose proof (inv_workers _ _ Hinv _ _ Hi) as (Hh & Hph & Hstop).
  pose proof (inv_nonneg _ _ Hinv). unfold spin_trylock in Ht. cbn [w_lock set_w_pc set_w_lock] in *.
  destruct (t_head (w_lock w) =? t_tail (w_lock w)) eqn:Ef.
  - destruct Ht as [[= <-]|[? _]]; [|done]. pose proof (locked_not_free (w_lock w) Hh) as Hlf.
    eapply inv_worker_move; try done.
    + split_and!; [done| |done]. worker_cases w; zbool; subst.
      all: try (destruct (assigning _ _)); cbn in *; try discriminate.
      all: unfold lockedb, freeb in *; cbn in *; zbool; subst; try lia.
      all: try (apply Z.eqb_eq; done).
      all: try (rewrite Z.eqb_refl in *; by specialize (Hlf eq_refl)).
    + worker_cases w; lia.
    + worker_cases w; unfold freeb; cbn; rewrite ?Ef; try done.
  - destruct Ht as [?|(_ & Est & ->)]; [done|].
    pose proof (stopping_not_assigning _ i (Hstop Est)) as Ea. rewrite Ea in Hph.
    eapply inv_worker_move; try done.
    + split_and!; [done| |by intros _; apply Hstop]. rewrite Ea.
      worker_cases w; subst; unfold freeb in *; cbn in *; try congruence.
      by rewrite Hph.
    + worker_cases w; lia.
    + worker_cases w; unfold freeb in *; cbn in *; congruence || done.
Qed.

Lemma worker_step_inv all i x y : inv all x → worker_step i x = Some y → inv all y.
Proof.
  intros Hinv Hs. unfold worker_step in Hs.
  destruct (workers x !! i) as [w|] eqn:Hi; [|done]. cbn [mbind option_bind] in Hs.
  pose proof (inv_workers _ _ Hinv _ _ Hi) as (Hh & Hph & Hstop).
  pose proof (inv_nonneg _ _ Hinv). pose proof (inv_worker_move all i x w) as Hgo.
  destruct (w_pc w) eqn:Epc.
  - (* W_init does not occur *)
    worker_cases w.
  - injection Hs as <-. apply Hgo; clear Hgo; try done.
    + split_and!; [done| |done]. worker_cases w; done.
    + worker_cases w; lia.
    + worker_cases w; lia.
    + worker_cases w; done.
  - destruct (spin_trylock (w_lock w)) as [t|] eqn:Et.
    + injection Hs as <-. eapply inv_worker_past; [done|done|done|left; exact Et|done].
    + destruct (w_stop w) eqn:Est; [|done]. injection Hs as <-.
      eapply (inv_worker_past _ _ _ w); [done|done|done|by right|by destruct w].
  - destruct (w_stop w) eqn:Est; injection Hs as <-; apply Hgo; clear Hgo; try done.
    + split_and!; [done| |by intros _; apply Hstop]. worker_cases w; subst; rewrite ?andb_true_r in *; done.
    + worker_cases w; lia.
    + worker_cases w; done.
    + split_and!; [done| |by cbn; rewrite Est]. worker_cases w; subst; rewrite ?andb_false_r in *; done.
    + worker_cases w; lia.
    + worker_cases w; subst; rewrite ?andb_false_r in *; done.
  - injection Hs as <-. apply Hgo; clear Hgo; try done.
    + split_and!; [done| |done]. worker_cases w; done.
    + worker_cases w; lia.
    + worker_cases w. by rewrite app_nil_r.
  - injection Hs as <-. apply Hgo; clear Hgo; try done.
    + split_and!; [done| |done]. worker_cases w; done.
    + worker_cases w; lia.
    + worker_cases w; done.
  - done.
Qed.

(** A worker the main thread is filling in has no pending job. *)
Lemma assigned_not_pending m i w :
  worker_ok m i w → assigning m i = true →
  w_state w = TBUSY ∧ (w_pc w = W_try ∨ w_pc w = W_count) ∧
  lockedb (w_lock w) = true ∧ pend_job w = None.
Proof.
  intros (Hh & Hph & _) Ha. rewrite Ha in Hph.
  pose proof (locked_not_free _ Hh) as Hlf.
  worker_cases w; rewrite Hlf by done; auto.
Qed.

(** Filling in the job of the worker being assigned. *)
Lemma inv_set_job all x tc w j m' :
  inv all x → workers x !! tc = Some w →
  assigning (m_pc x) tc = true → scanning (m_pc x) = 0 →
  m' = M_count tc ∨ m' = M_unlock tc →
  (∀ k, k ≠ tc → assigning (m_pc x) k = assigning m' k) →
  main_ok (at_main m' (with_worker tc (set_w_job j w) x)) →
  inv all (at_main m' (with_worker tc (set_w_job j w) x)).
Proof.
  intros Hinv Hi Ha Hsc Hm' Has Hmain.
  pose proof (inv_workers _ _ Hinv _ _ Hi) as Hok.
  destruct (assigned_not_pending _ _ _ Hok Ha) as (Es & Ep & El & Epn).
  destruct Hok as (Hh & Hph & Hst).
  assert (assigning m' tc = true ∧ scanning m' = 0) as [Ha' Hsc'].
  { destruct Hm' as [-> | ->]; cbn; rewrite Nat.eqb_refl; done. }
  assert (w_stop w = false) as Ew.
  { destruct (w_stop w); [|done].
    pose proof (stopping_not_assigning _ tc (Hst eq_refl)). congruence. }
  eapply inv_update; try done.
  - split_and!; [done| |by cbn; rewrite Ew]. rewrite Ha'. rewrite Ha in Hph. exact Hph.
  - intros Hs. pose proof (stopping_not_assigning _ tc Hs). congruence.
  - rewrite Hsc, Hsc'. unfold token. cbn. lia.
  - apply Hinv.
  - intros rest ->. rewrite Epn. unfold pend_job in *. cbn. rewrite Es in *.
    rewrite (locked_not_free _ Hh El). by destruct Ep as [-> | ->].
  - apply Hinv.
Qed.

Lemma main_scan_inv all x tc y :
  inv all x → m_pc x = M_scan tc → main_step x = Some y → inv all y.
Proof.
  intros Hinv E Hs. unfold main_step in Hs. rewrite E in Hs.
  pose proof (inv_main _ _ Hinv) as Hm. unfold main_ok in Hm. rewrite E in Hm.
  destruct (workers x !! tc) as [w|] eqn:Hi; [|done]. cbn [mbind option_bind] in Hs.
  pose proof (inv_nonneg _ _ Hinv).
  destruct (inv_workers _ _ Hinv _ _ Hi) as (Hh & Hph & Hst). rewrite E in Hph, Hst.
  destruct (w_state w) eqn:Es.
  1,3: injection Hs as <-; apply inv_main_move; try done;
    [by rewrite E|by rewrite E|by rewrite E|]; cbn; split; [|tauto];
    apply Nat.mod_upper_bound; lia.
  injection Hs as <-. pose proof (locked_not_free _ Hh) as Hlf.
  assert (w_stop w = false) as Ew by (destruct (w_stop w); [by specialize (Hst eq_refl)|done]).
  eapply inv_update; try done.
  - split_and!; [done| |by cbn; rewrite Ew]. cbn [assigning]. rewrite Nat.eqb_refl.
    worker_cases w; subst; rewrite ?andb_false_r in *; done.
  - intros k ?. rewrite E. cbn. symmetry. by apply Nat.eqb_neq.
  - by rewrite E.
  - rewrite E. worker_cases w; lia.
  - intros rest ->. worker_cases w; subst; rewrite ?andb_false_r in *; try done;
      by rewrite Hlf.
  - apply Hinv.
  - cbn. rewrite length_insert. tauto.
Qed.

Lemma main_unlock_inv all x tc y :
  inv all x → m_pc x = M_unlock tc → main_step x = Some y → inv all y.
Proof.
  intros Hinv E Hs. unfold main_step in Hs. rewrite E in Hs.
  pose proof (inv_main _ _ Hinv) as Hm. unfold main_ok in Hm. rewrite E in Hm.
  destruct Hm as (w & Hi & Hj). rewrite Hi in Hs. cbn [mbind option_bind] in Hs.
  rewrite Hj in Hs. cbn [mbind option_bind] in Hs. injection Hs as <-.
  pose proof (inv_workers _ _ Hinv _ _ Hi) as Hok.
  assert (assigning (m_pc x) tc = true) as Ha by (rewrite E; apply Nat.eqb_refl).
  destruct (assigned_not_pending _ _ _ Hok Ha) as (Es & Ep & El & Epn).
  destruct Hok as (Hh & Hph & Hst). rewrite E in Hst.
  assert (freeb (spin_unlock (w_lock w)) = true) as Hfree.
  { unfold lockedb in El. unfold freeb. cbn. zbool. apply Z.eqb_eq. done. }
  eapply inv_update; try done.
  - split_and!; [apply u8_range| |done]. cbn [assigning]. unfold phase_ok. cbn.
    rewrite Es. destruct Ep as [-> | ->]; exact Hfree.
  - intros k ?. rewrite E. cbn. by apply Nat.eqb_neq.
  - by rewrite E.
  - rewrite E. unfold token. cbn. lia.
  - apply Hinv.
  - intros rest ->. rewrite Epn. unfold pend_job. cbn. rewrite Es.
    destruct Ep as [-> | ->]; rewrite Hfree; cbn; rewrite <- app_assoc;
      by rewrite (Permutation_app_comm rest).
  - pose proof (inv_plan _ _ Hinv) as <-. rewrite <- app_assoc.
    destruct (todo x); [done|]. cbn in Hj. by injection Hj as ->.
  - cbn. rewrite length_insert. by eapply lookup_lt_Some.
Qed.

Lemma main_step_inv all x y : inv all x → main_step x = Some y → inv all y.
Proof.
  intros Hinv Hs. pose proof (inv_main _ _ Hinv) as Hm.
  pose proof (inv_nonneg _ _ Hinv) as Hnn. pose proof (inv_available _ _ Hinv) as Hav.
  destruct (m_pc x) as [|tc|tc|tc|tc|tc|i|i|] eqn:E;
    [|by eapply main_scan_inv| | |by eapply main_unlock_inv|..];
    unfold main_ok in Hm; rewrite E in Hm; unfold main_step in Hs; rewrite E in Hs.
  - destruct (todo x) as [|j js] eqn:Et.
    + injection Hs as <-. apply inv_main_move; try done; by rewrite E.
    + destruct (available x =? 0) eqn:?; zbool; [done|]. injection Hs as <-.
      apply (inv_main_move all x (M_scan 0) (available x - 1)); rewrite ?E; cbn; try done;
        [lia|lia|]. cbn in Hav.
      destruct (sum_positive token (workers x)) as (i & w & Hi & _); [lia|].
      apply lookup_lt_Some in Hi. split; [lia|]. rewrite Et. by exists j.
  - destruct Hm as [Hlt [j Hj]]. apply lookup_lt_is_Some_2 in Hlt as [w Hi].
    rewrite Hi, Hj in Hs. cbn [mbind option_bind] in Hs. injection Hs as <-.
    apply inv_set_job; try done; [by rewrite E; apply Nat.eqb_refl|by rewrite E|by left|by rewrite E|].
    cbn. eexists _, j. by rewrite list_lookup_insert_eq by (by eapply lookup_lt_Some).
  - destruct Hm as (w & j & Hi & Hj & Hpos).
    rewrite Hi, Hj in Hs. cbn [mbind option_bind] in Hs. injection Hs as <-.
    apply inv_set_job; try done; [by rewrite E; apply Nat.eqb_refl|by rewrite E|by right|by rewrite E|].
    cbn. eexists. rewrite list_lookup_insert_eq by (by eapply lookup_lt_Some).
    split; [done|]. cbn. rewrite Hj, Hpos. by destruct j.
  - apply lookup_lt_is_Some_2 in Hm as [w Hi]. rewrite Hi in Hs. cbn [mbind option_bind] in Hs.
    destruct (asleep w); [|done]. injection Hs as <-.
    apply inv_main_move; try done; by rewrite E.
  - destruct (workers x !! i) as [w|] eqn:Hi; injection Hs as <-.
    2:{ apply inv_main_move; try done; by rewrite E. }
    destruct (inv_workers _ _ Hinv _ _ Hi) as (Hh & Hph & Hst). rewrite E in Hph.
    eapply inv_update; try done; rewrite ?E; try done.
    + split_and!; [done| |done]. worker_cases w; try done; by destruct (lockedb _).
    + worker_cases w; lia.
    + apply Hinv.
    + cbn. split; [done|]. eexists.
      by rewrite list_lookup_insert_eq by (by eapply lookup_lt_Some).
  - destruct (workers x !! i) as [w|] eqn:Hi; [|done]. cbn [mbind option_bind] in Hs.
    destruct (w_pc w); try done. injection Hs as <-.
    apply inv_main_move; try done; rewrite ?E; try done. apply Hm.
  - done.
Qed.

Lemma reaches_inv all x y : inv all x → reaches x y → inv all y.
Proof.
  intros Hx. induction 1 as [|y z t _ IH Hs]; [done|].
  destruct t; [by eapply main_step_inv|by eapply worker_step_inv].
Qed.

Lemma ready_inv n js : inv js (ready_sys n js).
Proof.
  constructor; cbn; try done; try lia.
  - intros i w [-> _]%lookup_replicate. done.
  - induction n as [|n IH]; [done|]. rewrite Nat2Z.inj_succ. cbn [replicate sum].
    rewrite <- IH. change (token ready_worker) with 1. lia.
  - by induction n.
Qed.

Lemma step_length t x y : step t x = Some y → length (workers y) = length (workers x).
Proof.
  assert (∀ (o : option sys), o = Some y →
    (∀ z, o = Some z → length (workers z) = length (workers x)) →
    length (workers y) = length (workers x)) as Hgo by eauto.
  destruct t; cbn [step]; intros Hs; eapply Hgo; try exact Hs; clear Hs Hgo;
    intros z Hz; unfold main_step, worker_step in Hz.
  - destruct (m_pc x); repeat (case_match; try done); simplify_option_eq;
      repeat (case_match; try done); simplify_option_eq; cbn; by rewrite ?length_insert.
  - simplify_option_eq. repeat (case_match; try done); simplify_option_eq; cbn;
      by rewrite ?length_insert.
Qed.

Lemma reaches_length x y : reaches x y → length (workers y) = length (workers x).
Proof.
  induction 1 as [|y z t _ IH Hs]; [done|]. apply step_length in Hs. congruence.
Qed.

Lemma run_reaches ts x : reaches x (run ts x).
Proof.
  assert (∀ y, reaches x y → reaches x (run ts y)) as H; [|apply H; constructor].
  induction ts as [|t ts IH]; intros y Hy; [done|]. cbn [run foldl].
  apply IH. destruct (step t y) eqn:E; [by econstructor|done].
Qed.

(** ** Theorems *)

(** C4: No job is lost or done twice while the workers run. From the moment
    all workers wait at their barriers, in every interleaving of main thread
    and workers, the jobs handed over are an initial part of the round's list,
    and they are, as a multiset, the executed jobs together with the jobs
    workers still hold; so when everything was handed over and the workers are
    idle, each job of the round has been executed exactly once. *)
Theorem jobs_conserved n js x :
  reaches (ready_sys n js) x →
  submitted x ++ todo x = js ∧
  submitted x ≡ₚ executed x ++ omap pend_job (workers x) ∧
  (todo x = [] → Forall (λ w, w_state w = TIDLE) (workers x) → executed x ≡ₚ js).
Proof.
  intros Hr. destruct (reaches_inv js _ _ (ready_inv n js) Hr) as [_ _ _ Hj Hp _].
  split_and!; [done|done|]. intros Ht Hidle. rewrite <- Hp, Ht, app_nil_r, Hj.
  assert (omap pend_job (workers x) = []) as ->; [|by rewrite app_nil_r].
  clear -Hidle. induction Hidle as [|w ws Hw _ IH]; [done|].
  cbn [omap list_omap]. unfold pend_job at 1. by rewrite Hw.
Qed.

(** Two workers, three jobs, executed in parallel. *)
Definition demo_jobs : list job := [mk_job 0 8; mk_job 8 8; mk_job 16 8].

Definition main_turns (n : nat) : list thread := replicate n Main.
Definition worker_turns (i n : nat) : list thread := replicate n (Worker i).

Definition demo_schedule : list thread :=
  main_turns 7 ++ main_turns 7 ++ worker_turns 1 5 ++ worker_turns 0 5 ++
  main_turns 6 ++ worker_turns 0 5 ++ worker_turns 1 5.

Lemma jobs_conserved_witness :
  executed (run demo_schedule (ready_sys 2 demo_jobs)) ≡ₚ demo_jobs.
Proof.
  destruct (jobs_conserved 2 demo_jobs (run demo_schedule (ready_sys 2 demo_jobs)))
    as (_ & _ & H).
  - apply run_reaches.
  - apply H; [by vm_compute|]. apply (bool_decide_unpack _). by vm_compute.
Defined.

(** The main thread is never stuck looking for an idle worker: whenever it
    scans the thread table some worker is idle (its reservation of one is
    backed by [available]), and [available] never becomes negative. *)
Theorem scan_succeeds n js x tc :
  reaches (ready_sys n js) x → m_pc x = M_scan tc →
  0 ≤ available x ∧ (tc < n)%nat ∧
  ∃ i w, workers x !! i = Some w ∧ w_state w = TIDLE.
Proof.
  intros Hr E. pose proof (reaches_length _ _ Hr) as Hl. cbn in Hl.
  rewrite length_replicate in Hl.
  destruct (reaches_inv js _ _ (ready_inv n js) Hr) as [_ Hav Hnn _ _ Hm].
  unfold main_ok in Hm. rewrite E in Hm, Hav. cbn in Hav.
  split_and!; [done|lia|].
  destruct (sum_positive token (workers x)) as (i & w & Hi & Htok); [lia|].
  exists i, w. split; [done|]. unfold token in Htok. by destruct (w_state w), (w_pc w).
Qed.

Lemma scan_succeeds_witness :
  0 ≤ available (run (main_turns 1) (ready_sys 2 demo_jobs)) ∧ (0 < 2)%nat ∧
  ∃ i w, workers (run (main_turns 1) (ready_sys 2 demo_jobs)) !! i = Some w ∧
         w_state w = TIDLE.
Proof.
  apply (scan_succeeds 2 demo_jobs _ 0); [apply run_reaches|by vm_compute].
Defined.

(** A worker that cannot move. *)
Lemma worker_blocked i x w :
  workers x !! i = Some w → worker_step i x = None →
  w_pc w = W_exited ∨ w_pc w = W_try ∧ freeb (w_lock w) = false ∧ w_stop w = false.
Proof.
  intros Hi. unfold worker_step. rewrite Hi. cbn [mbind option_bind].
  destruct (w_pc w); try done.
  - unfold spin_trylock, freeb. destruct (_ =? _); [done|]. destruct (w_stop w); [done|auto].
  - by destruct (w_stop w).
  - by left.
Qed.



(** ** The races *)

(** Stopping loses the last jobs. [kthread_stop] may reach a worker whose
    barrier was raised but which has not run yet: with one worker and one job
    the round can end, all threads joined, with the job handed over and never
    executed. In any completed round the jobs lost this way are those the
    workers still hold, at most one per worker. *)
Theorem stop_loses_jobs :
  (∃ x, reaches (ready_sys 1 [mk_job 0 8]) x ∧ m_pc x = M_done ∧
        submitted x = [mk_job 0 8] ∧ executed x = []) ∧
  (∀ n js x, reaches (ready_sys n js) x → m_pc x = M_done →
     ∃ lost, js ≡ₚ executed x ++ lost ∧ (length lost ≤ n)%nat).
Proof.
  split.
  - exists (run (main_turns 8 ++ worker_turns 0 2 ++ main_turns 2)
              (ready_sys 1 [mk_job 0 8])).
    split; [apply run_reaches|by vm_compute].
  - intros n js x Hr E. pose proof (reaches_length _ _ Hr) as Hl. cbn in Hl.
    rewrite length_replicate in Hl.
    destruct (reaches_inv js _ _ (ready_inv n js) Hr) as [_ _ _ Hj Hp Hm].
    unfold main_ok in Hm. rewrite E in Hm. rewrite Hm, app_nil_r in Hp.
    exists (omap pend_job (workers x)). rewrite <- Hp at 1. split; [done|].
    rewrite <- Hl. clear. induction (workers x) as [|w ws IH]; [done|].
    cbn [omap list_omap length]. destruct (pend_job w); cbn [length]; lia.
Qed.

(** Starting can hang. The barriers are created unlocked, so a worker must
    take its barrier once before jobs are handed over. If the main thread
    raises it first, the ticket counters are off by one for good: the worker
    never gets the job and the round deadlocks. *)
Theorem start_deadlock :
  ∃ x, reaches (start_sys 1 demo_jobs) x ∧ submitted x = [mk_job 0 8] ∧
    executed x = [] ∧ m_pc x = M_wait ∧ ∀ t, step t x = None.
Proof.
  exists (run (worker_turns 0 2 ++ main_turns 6) (start_sys 1 demo_jobs)).
  split; [apply run_reaches|]. split_and!; try by vm_compute.
  intros [|[|i]]; by vm_compute.
Qed.

(** A fresh worker can run a stale job. [state = TBUSY] is stored before [pos]
    and [count]; a worker that takes its initially unlocked barrier in between
    executes the old contents (0 sectors at 0), and the job that was handed
    over is then never executed although both threads are idle. *)
Theorem stale_job :
  ∃ x, reaches (start_sys 1 [mk_job 64 8]) x ∧ submitted x = [mk_job 64 8] ∧
    todo x = [] ∧ executed x = [mk_job 0 0] ∧
    Forall (λ w, w_state w = TIDLE ∧ w_pc w = W_try) (workers x).
Proof.
  exists (run (worker_turns 0 2 ++ main_turns 2 ++ worker_turns 0 5 ++ main_turns 4 ++
               worker_turns 0 2) (start_sys 1 [mk_job 64 8])).
  split; [apply run_reaches|]. split_and!; try by vm_compute.
  apply (bool_decide_unpack _). by vm_compute.
Qed.
