(* ===== verification/ScrubMain.v ===== *)
(** * The main scrubber thread (scrubber, block/scrub_core.c)

    One round of the endless loop: copy the sysfs settings, reset the
    counters, warm up, scrub with the chosen strategy, and publish the
    statistics.  The jobs of the round are executed in the order in which they
    are handed over, as by one worker; the Workers file treats the parallel
    case.  Thread creation, priorities and messages are not modelled here. *)
From S2P Require Import Prelude Vsprintf Scrub SgIo Verify ScrubCore.

(** ** Copying the settings

    [s] is the parameter block of the previous round; an unknown strategy or
    priority name leaves the old value. *)
Definition copy_params (d : disk_scrubber) (s : scrubparams) : scrubparams :=
  mk_scrubparams (reqbound d)
    (if streq (strategy d) "seql" then SEQLSCRUB
     else if streq (strategy d) "stag" then STAGSCRUB
     else if streq (strategy d) "fixed" then FIXEDSCRUB else p_strategy s)
    (if streq (priority d) "realtime" then RTIMEPRIO
     else if streq (priority d) "idlechk" then IDCHKPRIO else p_priority s)
    (segsize d) (regsize d) (threads d) (dpo d) (vrprotect d) (verbose d) (timed d)
    (p_ttime_ms s) (p_available s) (p_read_errs s) (scount d) (spoint d) (delayms d)
    (p_resptime_us s) (p_reqcount s).

(** The resets before a round; the [reqcount] that sysfs shows is kept. *)
Definition reset_round (d : disk_scrubber) (s : scrubparams) : disk_scrubber * scrubparams :=
  let d := set_ttime_ms 0 d in
  let s := set_p_ttime_ms 0 s in
  let d := set_resptime_us 0 d in
  let s := set_p_resptime_us 0 s in
  let s := set_p_reqcount 0 s in
  let s := set_p_available 0 s in
  (d, set_p_read_errs 0 s).

(** The warm-up job, issued before the sizes are doubled. *)
Definition warm_up (s : scrubparams) : list job :=
  if truthy (p_capacity s) && (p_capacity s <? p_segsize s) then []
  else [mk_job (u64 (p_start s + p_segsize s)) (p_segsize s)].

(** [((tb - ta) in us) / 1000], a signed division stored in 64 bits. *)
Definition round_ms (ta tb : Z * Z) : Z :=
  u64 (Z.quot ((tb.1 - ta.1) * 1000000 + tb.2 - ta.2) 1000).

(** The statistics published in sysfs at the end. *)
Definition publish (d : disk_scrubber) (s : scrubparams) : disk_scrubber :=
  let d := if truthy (p_ttime_ms s) then set_ttime_ms (p_ttime_ms s) d else d in
  let d := if truthy (p_reqcount s)
           then set_resptime_us (p_resptime_us s / p_reqcount s) d else d in
  set_reqcount (p_reqcount s) d.

(** The clock is read at the start and at the end when the round is timed;
    [fixedscrub] may have turned timing on in between, in which case the start
    time is 0. *)
Definition scrub_round (fuel : nat) (abort : nat → bool) (verify : nat → verify_fn)
    (ta tb : Z * Z) (disk : gendisk) (d : disk_scrubber) (s : scrubparams)
    : option (disk_scrubber * scrubparams * list (job * Z)) :=
  let s := copy_params d s in
  let '(d, s) := reset_round d s in
  '(cs1, s, d) ← run_jobs verify 0 (warm_up s) s d;
  let ta := if truthy (p_timed s) then ta else (0, 0) in
  '(s, ret, js) ← scrubdev fuel abort disk s;
  '(cs2, s, d) ← run_jobs verify 1 js s d;
  let s := if truthy (p_timed s) then set_p_ttime_ms (round_ms ta tb) s else s in
  Some (publish d s, s, cs1 ++ cs2).

(** ** The polling loop *)

Inductive main_action := Scrub_round | Sleep | Terminate.

(** One iteration of [while(1)]: [stop] is [kthread_should_stop()]. *)
Definition scrubber_iteration (d : disk_scrubber) (stop : bool) : main_action :=
  if state d =? 0 then Scrub_round else if stop then Terminate else Sleep.

(** ** Lemmas *)

(** The fields that rounds do not change. *)
Definition same_settings (d d' : disk_scrubber) : Prop :=
  set_reqcount 0 (set_ttime_ms 0 (set_resptime_us 0 d')) =
  set_reqcount 0 (set_ttime_ms 0 (set_resptime_us 0 d)).

#[export] Instance same_settings_equiv : Equivalence same_settings.
Proof. split; unfold same_settings; congruence. Qed.

Lemma same_settings_wf d d' :
  same_settings d d' → wf_scrubber d → in_u64 (ttime_ms d') → in_u64 (resptime_us d') →
  in_u64 (reqcount d') → wf_scrubber d'.
Proof.
  unfold same_settings. destruct d, d'. cbn.
  intros [=]; subst. intros [] ? ? ?. by constructor.
Qed.

(** What one command changes. *)
Record round_step (s s' : scrubparams) (d d' : disk_scrubber) : Prop := {
  rs_same : same_settings d d';
  rs_ttime : ttime_ms d' = ttime_ms d;
  rs_resp : resptime_us d' = resptime_us d;
  rs_timed : p_timed s' = p_timed s;
  rs_count : in_u64 (reqcount d) → in_u64 (reqcount d');
  rs_resptime : in_u64 (p_resptime_us s) → in_u64 (p_resptime_us s');
  rs_reqcount : in_u64 (p_reqcount s) → in_u64 (p_reqcount s');
  rs_params : p_segsize s' = p_segsize s ∧ p_regsize s' = p_regsize s ∧
              p_capacity s' = p_capacity s ∧ p_start s' = p_start s ∧
              p_strategy s' = p_strategy s ∧ p_reqbound s' = p_reqbound s ∧
              p_ttime_ms s' = p_ttime_ms s;
}.

Lemma round_step_refl s d : round_step s s d d.
Proof. constructor; done. Qed.

Lemma round_step_trans s1 s2 s3 d1 d2 d3 :
  round_step s1 s2 d1 d2 → round_step s2 s3 d2 d3 → round_step s1 s3 d1 d3.
Proof.
  intros [? ? ? ? ? ? ? (? & ? & ? & ? & ? & ? & ?)]
         [? ? ? ? ? ? ? (? & ? & ? & ? & ? & ? & ?)].
  constructor; [by etransitivity|congruence|congruence|congruence|auto|auto|auto|].
  split_and!; congruence.
Qed.

Lemma account_step res va vb s d :
  round_step s (account res va vb s d).1 d (account res va vb s d).2.
Proof.
  unfold account. destruct (truthy (p_timed s)), (truthy res); cbn;
    (constructor; cbn; intros; first [apply u64_range|done|idtac]); by split_and!.
Qed.

Lemma chunk_loop_step fuel verify n pos count s d cs s' d' :
  chunk_loop fuel verify n pos count s d = Some (cs, s', d') → round_step s s' d d'.
Proof.
  revert n pos count s d cs. induction fuel as [|fuel IH]; intros n pos count s d cs H; [done|].
  cbn [chunk_loop] in H. destruct (verify n pos (chunk_count count)) as [[res va] vb].
  pose proof (account_step res va vb s d) as Ha.
  destruct (account res va vb s d) as [s1 d1]. cbn [fst snd] in Ha.
  destruct (count <=? 65535); [by injection H as <- <- <-|].
  destruct (chunk_loop fuel verify _ _ _ s1 d1) as [[[cs1 s2] d2]|] eqn:E; [|done].
  injection H as <- <- <-. apply IH in E. by eapply round_step_trans.
Qed.

Lemma run_jobs_step verify n js s d cs s' d' :
  run_jobs verify n js s d = Some (cs, s', d') → round_step s s' d d'.
Proof.
  revert n s d cs. induction js as [|j js IH]; intros n s d cs H; cbn [run_jobs] in H.
  { injection H as <- <- <-. apply round_step_refl. }
  destruct (run_job _ _ _ _) as [[[cs1 s1] d1]|] eqn:E1; [|done]. cbn [mbind option_bind] in H.
  destruct (run_jobs _ _ _ _ _) as [[[cs2 s2] d2]|] eqn:E2; [|done].
  injection H as <- <- <-. apply chunk_loop_step in E1. apply IH in E2.
  by eapply round_step_trans.
Qed.

(** The sector at which a round ends. *)
Definition round_end (disk : gendisk) (d : disk_scrubber) : Z :=
  if (scount d =? 0) || (get_capacity disk <? spoint d + scount d) then get_capacity disk
  else spoint d + scount d.

(** Settings for which a sequential round is regular. *)
Record regular (disk : gendisk) (d : disk_scrubber) : Prop := {
  reg_strategy : strategy d = "seql";
  reg_bound : reqbound d = 0;
  reg_seg : 2 * segsize d ≤ round_end disk d;
  reg_start : spoint d ≤ round_end disk d;
  reg_cap : get_capacity disk < 2 ^ 62;
  reg_sum : spoint d + scount d < 2 ^ 64;
}.

(** The parameters [scrubdev] works with, whatever the counters. *)
Lemma regular_params disk d s :
  wf_scrubber d → regular disk d →
  p_segsize s = segsize d → p_capacity s = scount d → p_start s = spoint d →
  p_reqbound s = reqbound d →
  let s' := scrubdev_params disk s in
  geometry s' ∧ p_start s' = spoint d ∧ p_capacity s' = round_end disk d ∧
  p_segsize s' = 2 * segsize d ∧ p_reqbound s' = 0 ∧ p_strategy s' = p_strategy s ∧
  p_reqcount s' = p_reqcount s ∧ p_timed s' = p_timed s.
Proof.
  intros Hwf [? ? ? ? ? ?] Hs Hc Hp Hr s'.
  pose proof (wf_segsize _ Hwf). pose proof (wf_spoint _ Hwf) as [? ?].
  pose proof (wf_scount _ Hwf) as [? ?].
  assert (round_end disk d ≤ get_capacity disk) as Hre.
  { unfold round_end. zcase; try lia. }
  assert (p_segsize s' = 2 * segsize d ∧ p_start s' = spoint d ∧
          p_capacity s' = round_end disk d ∧ p_reqbound s' = 0 ∧
          p_strategy s' = p_strategy s ∧ p_reqcount s' = p_reqcount s ∧
          p_timed s' = p_timed s) as (E1 & E2 & E3 & E4 & E5 & E6 & E7).
  { unfold s', scrubdev_params, round_end. rewrite Hc, Hp.
    rewrite (u64_small (spoint d + scount d)) by (unfold in_u64; lia).
    unfold truthy. rewrite negb_involutive.
    destruct ((scount d =? 0) || _); cbn;
      rewrite Hs, u64_small by (unfold in_u64; lia); split_and!; try done; try lia; congruence. }
  split_and!; try done. constructor; rewrite ?E1, ?E2, ?E3; lia.
Qed.

Lemma warm_up_bounds s hi :
  0 < p_segsize s → 0 ≤ p_start s → p_start s + 2 * p_segsize s ≤ hi → hi < 2 ^ 64 →
  Forall (λ j, 0 ≤ j_pos j ∧ 0 ≤ j_count j ∧ j_pos j + j_count j ≤ hi) (warm_up s).
Proof.
  intros. unfold warm_up. destruct (_ && _); [done|]. constructor; [|done].
  cbn [j_pos j_count]. rewrite u64_small by (unfold in_u64; lia). lia.
Qed.

(** The effect of publishing on a well-formed object. *)
Lemma publish_wf d0 d s :
  wf_scrubber d0 → same_settings d0 d → in_u64 (ttime_ms d) → in_u64 (resptime_us d) →
  in_u64 (p_ttime_ms s) → in_u64 (p_resptime_us s) → in_u64 (p_reqcount s) →
  wf_scrubber (publish d s) ∧ same_settings d0 (publish d s) ∧
  reqcount (publish d s) = p_reqcount s.
Proof.
  intros Hwf Hsame Ht Hr Hpt Hpr Hpc.
  assert (in_u64 (p_resptime_us s / p_reqcount s) ∨ p_reqcount s = 0) as Hq.
  { destruct (decide (p_reqcount s = 0)); [by right|left].
    destruct Hpr, Hpc. split; [apply Z.div_pos; lia|].
    apply Z.div_lt_upper_bound; nia. }
  assert (same_settings d0 (publish d s)) as Hs.
  { unfold publish. by destruct (truthy (p_ttime_ms s)), (truthy (p_reqcount s)). }
  split_and!; [|done|by destruct (truthy (p_ttime_ms s)), (truthy (p_reqcount s))].
  apply (same_settings_wf d0); try done; unfold publish;
    destruct (truthy (p_ttime_ms s)), (truthy (p_reqcount s)) eqn:?; zbool; cbn; try done;
    by destruct Hq.
Qed.

Lemma reset_fields d s d0 s0 :
  reset_round d (copy_params d s) = (d0, s0) → strategy d = "seql" →
  d0 = set_resptime_us 0 (set_ttime_ms 0 d) ∧
  (p_segsize s0 = segsize d ∧ p_capacity s0 = scount d ∧ p_start s0 = spoint d ∧
   p_reqbound s0 = reqbound d ∧ p_strategy s0 = SEQLSCRUB) ∧
  p_reqcount s0 = 0 ∧ p_resptime_us s0 = 0 ∧ p_ttime_ms s0 = 0.
Proof. intros [= <- <-] Hst. cbn. by rewrite Hst. Qed.

Lemma regular_fuel disk d fuel s :
  0 < segsize d → spoint d ≤ round_end disk d →
  (Z.to_nat ((round_end disk d - spoint d) / (2 * segsize d)) + 2 ≤ fuel)%nat →
  p_start s = spoint d → p_capacity s = round_end disk d → p_segsize s = 2 * segsize d →
  (seq_fuel s (p_start s) ≤ fuel)%nat.
Proof.
  intros ? ? Hf G1 G2 G3. unfold seq_fuel. rewrite G1, G2, G3.
  assert ((round_end disk d - spoint d + 2 * segsize d - 1) / (2 * segsize d) ≤
          (round_end disk d - spoint d) / (2 * segsize d) + 1).
  { rewrite <- Z.div_add by lia. apply Z.div_le_mono; lia. }
  assert (0 ≤ (round_end disk d - spoint d) / (2 * segsize d)) by (apply Z.div_pos; lia).
  lia.
Qed.

Lemma round_end_le disk d : round_end disk d ≤ get_capacity disk.
Proof. unfold round_end. zcase; lia. Qed.

(** The scrubbing part of a regular round. *)
Lemma regular_scrub fuel abort verify disk d s1 d1 :
  wf_scrubber d → regular disk d → (∀ n, abort n = false) →
  (Z.to_nat ((round_end disk d - spoint d) / (2 * segsize d)) + 2 ≤ fuel)%nat →
  p_segsize s1 = segsize d → p_capacity s1 = scount d → p_start s1 = spoint d →
  p_reqbound s1 = reqbound d → p_strategy s1 = SEQLSCRUB → in_u64 (p_reqcount s1) →
  ∃ js cs s2 d2,
    scrubdev fuel abort disk s1 = Some (scrubdev_params disk s1, 0, js) ∧
    run_jobs verify 1 js (scrubdev_params disk s1) d1 = Some (cs, s2, d2) ∧
    concat (job_sectors ∘ fst <$> cs) = seqZ (spoint d) (round_end disk d - spoint d) ∧
    p_reqcount s2 = u64 (p_reqcount s1 + Z.of_nat (length cs)).
Proof.
  intros Hwf Hreg Ha Hf F1 F2 F3 F4 F5 Hq.
  pose proof (round_end_le disk d). pose proof (wf_segsize _ Hwf).
  pose proof (wf_spoint _ Hwf) as [? ?].
  pose proof Hreg as [_ _ ? ? ? _].
  destruct (regular_params disk d s1) as (Hg & G1 & G2 & G3 & G4 & G5 & G6 & G7); try done.
  set (s' := scrubdev_params disk s1) in *.
  assert (Forall (λ j, 0 ≤ j_pos j ∧ 0 ≤ j_count j ∧ j_pos j + j_count j ≤ 2 ^ 63)
            (seq_plan s')) as Hb.
  { eapply Forall_impl; [apply segments_bounds, Hg|]. intros j ?. cbn beta in *. lia. }
  destruct (run_jobs_spec verify 1 _ s' d1 _ Hb) as (cs & s2 & d2 & Hr & Hcat & _ & Hq2);
    [lia|by rewrite G6|].
  exists (seq_plan s'), cs, s2, d2. split_and!; try done.
  - unfold scrubdev. fold s'. rewrite G5, F5. cbn [Z.eqb Pos.eqb SEQLSCRUB].
    rewrite seqscrub_value, issued_all, firstn_all by
      (done || (eapply (regular_fuel disk d); done || lia)). done.
  - rewrite Hcat. unfold seq_plan. rewrite segments_tile; [by rewrite G1, G2|lia|lia|].
    unfold seq_fuel. lia.
  - by rewrite Hq2, G6.
Qed.

(** ** Theorems *)


(** A 4096-sector disk, scrubbed in 128 KB segments from sector 100. *)
Definition small_disk : gendisk :=
  {| gd_name := "sda"; gd_major := 8; gd_queue := true; nr_sects := 4096 |}.

Definition small_scrubber : disk_scrubber := set_spoint 100 (set_segsize 128 demo_scrubber).


Lemma publish_state d s : state (publish d s) = state d.
Proof. unfold publish. by destruct (truthy (p_ttime_ms s)), (truthy (p_reqcount s)). Qed.

Lemma same_settings_state d d' : same_settings d d' → state d' = state d.
Proof. intros Hs. exact (f_equal state Hs). Qed.

Lemma reset_round_state d s : state (reset_round d s).1 = state d.
Proof. done. Qed.

(** A round does not change the state attribute. *)
Lemma round_state d fuel abort verify ta tb disk s d' s' cs :
  scrub_round fuel abort verify ta tb disk d s = Some (d', s', cs) → state d' = state d.
Proof.
  unfold scrub_round. rewrite <- (reset_round_state d (copy_params d s)).
  destruct (reset_round d (copy_params d s)) as [d0 s0]. cbn [fst]. intros H.
  apply bind_Some in H as ([[cs1 s1] d1] & E1%run_jobs_step & H).
  apply bind_Some in H as ([[s2 ret] js] & _ & H).
  apply bind_Some in H as ([[cs2 s3] d2] & E2%run_jobs_step & H).
  destruct E1 as [E1 _], E2 as [E2 _]. apply same_settings_state in E1, E2.
  apply (f_equal (option_map (λ x, state x.1.1))) in H. cbn [option_map fst] in H.
  rewrite publish_state in H. congruence.
Qed.

(** A running scrubber cannot be stopped: [kthread_should_stop] is only looked
    at in the idle branch, so while [state] is 0 every iteration of the main
    loop starts another round, even when the thread was told to stop; in the
    other states the thread stops when told and sleeps otherwise. *)
Theorem running_ignores_stop d stop :
  (state d = 0 → scrubber_iteration d stop = Scrub_round) ∧
  (state d ≠ 0 → scrubber_iteration d stop = if stop then Terminate else Sleep) ∧
  (∀ fuel abort verify ta tb disk s d' s' cs,
     scrub_round fuel abort verify ta tb disk d s = Some (d', s', cs) → state d' = state d).
Proof.
  unfold scrubber_iteration. split_and!.
  - by intros ->.
  - intros ?. by destruct (state d =? 0) eqn:?; zbool.
  - apply round_state.
Qed.
