(* ===== verification/Elevator.v ===== *)
(** * The elevator core (block/elevator.c)

    The request queue and the operations that the block layer and the I/O
    schedulers share: insertion, the dispatch queue, draining, and the merge
    hash.  Requests are shared, mutable objects that sit on several lists at
    once: the queue owns a store of them and every list holds their names.
    [None] is a BUG.  The driver's side of the queue is in [BlkQueue]; plugging
    is not modelled: it decides when requests leave the dispatch queue, not
    which. *)
From stdpp Require Import sorting.
From S2P Require Import Prelude.

(** ** Requests and bios, as the elevator sees them *)

Record erq := mk_erq {
  er_pos : Z;           (** [blk_rq_pos], in sectors *)
  er_sectors : Z;
  er_write : bool;      (** [rq_data_dir] *)
  er_discard : bool;
  er_fs : bool;         (** [cmd_type == REQ_TYPE_FS] *)
  er_pc : bool;         (** [cmd_type == REQ_TYPE_BLOCK_PC] *)
  er_rw_sync : bool;    (** [REQ_RW_SYNC] *)
  er_nomerge : bool;
  er_soft : bool;       (** [REQ_SOFTBARRIER] *)
  er_hard : bool;       (** [REQ_HARDBARRIER] *)
  er_started : bool;
  er_sorted : bool;
  er_elvpriv : bool;
  er_color : bool;      (** [REQ_ORDERED_COLOR] *)
  er_disk : nat;
  er_special : bool;
  er_integrity : bool;
  er_fifo_time : Z;
}.

Definition set_er_soft (v : bool) (x : erq) : erq :=
  mk_erq (er_pos x) (er_sectors x) (er_write x) (er_discard x) (er_fs x)
    (er_pc x) (er_rw_sync x) (er_nomerge x) v (er_hard x) (er_started x)
    (er_sorted x) (er_elvpriv x) (er_color x) (er_disk x) (er_special x)
    (er_integrity x) (er_fifo_time x).
Definition set_er_started (v : bool) (x : erq) : erq :=
  mk_erq (er_pos x) (er_sectors x) (er_write x) (er_discard x) (er_fs x)
    (er_pc x) (er_rw_sync x) (er_nomerge x) (er_soft x) (er_hard x) v
    (er_sorted x) (er_elvpriv x) (er_color x) (er_disk x) (er_special x)
    (er_integrity x) (er_fifo_time x).
Definition set_er_sorted (v : bool) (x : erq) : erq :=
  mk_erq (er_pos x) (er_sectors x) (er_write x) (er_discard x) (er_fs x)
    (er_pc x) (er_rw_sync x) (er_nomerge x) (er_soft x) (er_hard x)
    (er_started x) v (er_elvpriv x) (er_color x) (er_disk x) (er_special x)
    (er_integrity x) (er_fifo_time x).
Definition set_er_color (v : bool) (x : erq) : erq :=
  mk_erq (er_pos x) (er_sectors x) (er_write x) (er_discard x) (er_fs x)
    (er_pc x) (er_rw_sync x) (er_nomerge x) (er_soft x) (er_hard x)
    (er_started x) (er_sorted x) (er_elvpriv x) v (er_disk x) (er_special x)
    (er_integrity x) (er_fifo_time x).
Definition set_er_fifo_time (v : Z) (x : erq) : erq :=
  mk_erq (er_pos x) (er_sectors x) (er_write x) (er_discard x) (er_fs x)
    (er_pc x) (er_rw_sync x) (er_nomerge x) (er_soft x) (er_hard x)
    (er_started x) (er_sorted x) (er_elvpriv x) (er_color x) (er_disk x)
    (er_special x) (er_integrity x) v.

Definition rq_end_sector (r : erq) : Z := u64 (er_pos r + er_sectors r).

Definition rq_mergeable (r : erq) : bool :=
  negb (er_nomerge r || er_started r || er_hard r || er_soft r) && (er_discard r || er_fs r).

Record ebio := mk_ebio {
  eb_sector : Z;
  eb_sectors : Z;
  eb_write : bool;
  eb_discard : bool;
  eb_disk : nat;
  eb_integrity : bool;
}.

(** ** The state of a flush sequence

    The members of struct request_queue that concern the driver's side: the
    flush sequence of a barrier (block/blk-barrier.c), with the names of the
    three requests embedded in the queue, and the requests in flight.  [ended]
    records the requests handed back to their owners, with the error. *)
Record ordered_state := mk_ord {
  o_seq : Z;                  (** [ordseq] *)
  o_ordered : Z;
  o_next : Z;                 (** [next_ordered] *)
  o_err : Z;                  (** [orderr] *)
  o_orig : option nat;        (** [orig_bar_rq] *)
  pre_flush_rq : nat;
  bar_rq : nat;
  post_flush_rq : nat;
  fl_async : Z;               (** [in_flight[0]] *)
  fl_sync : Z;                (** [in_flight[1]] *)
  ended : list (nat * Z);
}.

(** No sequence in progress, nothing in flight, barriers unsupported. *)
Definition idle_ord : ordered_state := mk_ord 0 0 0 0 None 100 101 102 0 0 [].

Definition QUEUE_ORDSEQ_STARTED : Z := 1.
Definition QUEUE_ORDSEQ_DRAIN : Z := 2.
Definition QUEUE_ORDSEQ_PREFLUSH : Z := 4.
Definition QUEUE_ORDSEQ_BAR : Z := 8.
Definition QUEUE_ORDSEQ_POSTFLUSH : Z := 16.
Definition QUEUE_ORDSEQ_DONE : Z := 32.

(** ** The request queue (struct request_queue)

    [D] is the private data of the I/O scheduler.  [hash] maps a bucket
    number to the requests in it. *)
Record rqueue (D : Type) := mk_rqueue {
  rqs : gmap nat erq;
  queue_head : list nat;
  nr_sorted : Z;
  end_sector : Z;
  boundary_rq : option nat;
  last_merge : option nat;
  hash : gmap Z (list nat);
  ordcolor : bool;
  q_ord : ordered_state;
  nomerges : bool;
  noxmerges : bool;
  edata : D;
}.
Arguments mk_rqueue {D} _ _ _ _ _ _ _ _ _ _ _ _.
Arguments rqs {D} _.
Arguments queue_head {D} _.
Arguments nr_sorted {D} _.
Arguments end_sector {D} _.
Arguments boundary_rq {D} _.
Arguments last_merge {D} _.
Arguments hash {D} _.
Arguments ordcolor {D} _.
Arguments q_ord {D} _.
Arguments nomerges {D} _.
Arguments noxmerges {D} _.
Arguments edata {D} _.

Definition set_rqs {D} (v : gmap nat erq) (x : rqueue D) : rqueue D :=
  mk_rqueue v (queue_head x) (nr_sorted x) (end_sector x) (boundary_rq x)
    (last_merge x) (hash x) (ordcolor x) (q_ord x) (nomerges x)
    (noxmerges x) (edata x).
Definition set_queue_head {D} (v : list nat) (x : rqueue D) : rqueue D :=
  mk_rqueue (rqs x) v (nr_sorted x) (end_sector x) (boundary_rq x)
    (last_merge x) (hash x) (ordcolor x) (q_ord x) (nomerges x)
    (noxmerges x) (edata x).
Definition set_nr_sorted {D} (v : Z) (x : rqueue D) : rqueue D :=
  mk_rqueue (rqs x) (queue_head x) v (end_sector x) (boundary_rq x)
    (last_merge x) (hash x) (ordcolor x) (q_ord x) (nomerges x)
    (noxmerges x) (edata x).
Definition set_end_sector {D} (v : Z) (x : rqueue D) : rqueue D :=
  mk_rqueue (rqs x) (queue_head x) (nr_sorted x) v (boundary_rq x)
    (last_merge x) (hash x) (ordcolor x) (q_ord x) (nomerges x)
    (noxmerges x) (edata x).
Definition set_boundary_rq {D} (v : option nat) (x : rqueue D) : rqueue D :=
  mk_rqueue (rqs x) (queue_head x) (nr_sorted x) (end_sector x) v
    (last_merge x) (hash x) (ordcolor x) (q_ord x) (nomerges x)
    (noxmerges x) (edata x).
Definition set_last_merge {D} (v : option nat) (x : rqueue D) : rqueue D :=
  mk_rqueue (rqs x) (queue_head x) (nr_sorted x) (end_sector x)
    (boundary_rq x) v (hash x) (ordcolor x) (q_ord x) (nomerges x)
    (noxmerges x) (edata x).
Definition set_hash {D} (v : gmap Z (list nat)) (x : rqueue D) : rqueue D :=
  mk_rqueue (rqs x) (queue_head x) (nr_sorted x) (end_sector x)
    (boundary_rq x) (last_merge x) v (ordcolor x) (q_ord x) (nomerges x)
    (noxmerges x) (edata x).
Definition set_ordcolor {D} (v : bool) (x : rqueue D) : rqueue D :=
  mk_rqueue (rqs x) (queue_head x) (nr_sorted x) (end_sector x)
    (boundary_rq x) (last_merge x) (hash x) v (q_ord x) (nomerges x)
    (noxmerges x) (edata x).
Definition set_q_ord {D} (v : ordered_state) (x : rqueue D) : rqueue D :=
  mk_rqueue (rqs x) (queue_head x) (nr_sorted x) (end_sector x)
    (boundary_rq x) (last_merge x) (hash x) (ordcolor x) v (nomerges x)
    (noxmerges x) (edata x).
Definition set_nomerges {D} (v : bool) (x : rqueue D) : rqueue D :=
  mk_rqueue (rqs x) (queue_head x) (nr_sorted x) (end_sector x)
    (boundary_rq x) (last_merge x) (hash x) (ordcolor x) (q_ord x) v
    (noxmerges x) (edata x).
Definition set_noxmerges {D} (v : bool) (x : rqueue D) : rqueue D :=
  mk_rqueue (rqs x) (queue_head x) (nr_sorted x) (end_sector x)
    (boundary_rq x) (last_merge x) (hash x) (ordcolor x) (q_ord x)
    (nomerges x) v (edata x).
Definition set_edata {D} (v : D) (x : rqueue D) : rqueue D :=
  mk_rqueue (rqs x) (queue_head x) (nr_sorted x) (end_sector x)
    (boundary_rq x) (last_merge x) (hash x) (ordcolor x) (q_ord x)
    (nomerges x) (noxmerges x) v.

(** The request named [i]; [upd_rq] stores fields through the pointer. *)
Definition blank_rq : erq :=
  mk_erq 0 0 false false false false false false false false false false false false 0
    false false 0.
Definition rq_of {D} (q : rqueue D) (i : nat) : erq := default blank_rq (rqs q !! i).
Definition upd_rq {D} (i : nat) (f : erq → erq) (q : rqueue D) : rqueue D :=
  set_rqs (<[i := f (rq_of q i)]> (rqs q)) q.

Definition q_ordseq {D} (q : rqueue D) : Z := o_seq (q_ord q).

(** The step of the sequence a request belongs to.  Every caller has checked
    that a sequence is in progress, so [BUG_ON(q->ordseq == 0)] is not an
    outcome, and [orig_bar_rq] is set. *)
Definition blk_ordered_req_seq {D} (q : rqueue D) (i : nat) : Z :=
  let o := q_ord q in
  let rq := rq_of q i in
  if bool_decide (i = pre_flush_rq o) then QUEUE_ORDSEQ_PREFLUSH
  else if bool_decide (i = bar_rq o) then QUEUE_ORDSEQ_BAR
  else if bool_decide (i = post_flush_rq o) then QUEUE_ORDSEQ_POSTFLUSH
  else if negb (er_fs rq) then QUEUE_ORDSEQ_DRAIN
  else if eqb (er_color rq) (er_color (default blank_rq (rq_of q <$> o_orig o)))
  then QUEUE_ORDSEQ_DRAIN else QUEUE_ORDSEQ_DONE.

(** ** The merge hash *)

Definition hash_64 (val bits : Z) : Z :=
  let n := u64 (Z.shiftl val 18) in
  let h := u64 (val - n) in
  let n := u64 (Z.shiftl n 33) in
  let h := u64 (h - n) in
  let n := u64 (Z.shiftl n 3) in
  let h := u64 (h + n) in
  let n := u64 (Z.shiftl n 3) in
  let h := u64 (h - n) in
  let n := u64 (Z.shiftl n 4) in
  let h := u64 (h + n) in
  let n := u64 (Z.shiftl n 2) in
  let h := u64 (h + n) in
  Z.shiftr h (64 - bits).

Definition ELV_HASH_FN (sec : Z) : Z := hash_64 (Z.shiftr sec 3) 6.

Definition rq_hash_key (r : erq) : Z := rq_end_sector r.

Definition bucket {D} (q : rqueue D) (b : Z) : list nat := default [] (hash q !! b).

(** [ELV_ON_HASH]: linked into some bucket. *)
Definition on_hash {D} (q : rqueue D) (i : nat) : bool :=
  bool_decide (map_Exists (λ _ l, i ∈ l) (hash q)).

(** [hlist_del_init] unlinks the request from whatever bucket it is in. *)
Definition __elv_rqhash_del {D} (i : nat) (q : rqueue D) : rqueue D :=
  set_hash (filter (λ j, j ≠ i) <$> hash q) q.

Definition elv_rqhash_del {D} (i : nat) (q : rqueue D) : rqueue D :=
  if on_hash q i then __elv_rqhash_del i q else q.

Definition elv_rqhash_add {D} (i : nat) (q : rqueue D) : option (rqueue D) :=
  if on_hash q i then None
  else
    let b := ELV_HASH_FN (rq_hash_key (rq_of q i)) in
    Some (set_hash (<[b := i :: bucket q b]> (hash q)) q).

Definition elv_rqhash_reposition {D} (i : nat) (q : rqueue D) : option (rqueue D) :=
  elv_rqhash_add i (__elv_rqhash_del i q).

(** The walk over one bucket: requests that can no longer be merged are
    dropped on the way. *)
Fixpoint rqhash_walk {D} (offset : Z) (l : list nat) (q : rqueue D) : option nat * rqueue D :=
  match l with
  | [] => (None, q)
  | i :: l =>
      if negb (rq_mergeable (rq_of q i)) then rqhash_walk offset l (__elv_rqhash_del i q)
      else if rq_hash_key (rq_of q i) =? offset then (Some i, q)
      else rqhash_walk offset l q
  end.

Definition elv_rqhash_find {D} (offset : Z) (q : rqueue D) : option nat * rqueue D :=
  rqhash_walk offset (bucket q (ELV_HASH_FN offset)) q.

(** ** The dispatch queue *)

Definition stop_flags (r : erq) : bool := er_soft r || er_hard r || er_started r.

(** Whether the backward walk of [elv_dispatch_sort] stops behind [pos]. *)
Definition sort_stop (boundary : Z) (rq pos : erq) : bool :=
  if negb (eqb (er_discard rq) (er_discard pos)) then true
  else if negb (eqb (er_write rq) (er_write pos)) then true
  else if stop_flags pos then true
  else if boundary <=? er_pos rq then
    if er_pos pos <? boundary then false else er_pos pos <=? er_pos rq
  else if boundary <=? er_pos pos then true
  else er_pos pos <=? er_pos rq.

(** The walk, on the reversed queue. *)
Fixpoint sort_in {D} (q : rqueue D) (i : nat) (rev : list nat) : list nat :=
  match rev with
  | [] => [i]
  | p :: rest =>
      if sort_stop (end_sector q) (rq_of q i) (rq_of q p) then i :: p :: rest
      else p :: sort_in q i rest
  end.

Definition clear_last_merge {D} (i : nat) (q : rqueue D) : rqueue D :=
  if bool_decide (last_merge q = Some i) then set_last_merge None q else q.

Definition elv_dispatch_sort {D} (i : nat) (q : rqueue D) : rqueue D :=
  let q := clear_last_merge i q in
  let q := elv_rqhash_del i q in
  let q := set_nr_sorted (u32 (nr_sorted q - 1)) q in
  set_queue_head (reverse (sort_in q i (reverse (queue_head q)))) q.

Definition elv_dispatch_add_tail {D} (i : nat) (q : rqueue D) : rqueue D :=
  let q := clear_last_merge i q in
  let q := elv_rqhash_del i q in
  let q := set_nr_sorted (u32 (nr_sorted q - 1)) q in
  let q := set_end_sector (rq_end_sector (rq_of q i)) q in
  let q := set_boundary_rq (Some i) q in
  set_queue_head (queue_head q ++ [i]) q.

(** ** I/O schedulers

    The operations a scheduler registers with the elevator, and what the
    elevator relies on. *)
Inductive merge_kind := NO_MERGE | FRONT_MERGE | BACK_MERGE.

Class Sched (D : Type) := {
  sched_add : nat → rqueue D → option (rqueue D);
  sched_dispatch : rqueue D → option (bool * rqueue D);
  sched_merge : ebio → rqueue D → option nat;
  sched_merged : nat → merge_kind → rqueue D → option (rqueue D);
  sched_merge_req : nat → nat → rqueue D → option (rqueue D);
  sched_empty : D → bool;
  sched_contents : D → list nat;   (** the requests it holds (specification) *)
}.

Section elevator.
Context {D : Type} `{Sched D}.

(** [while (dispatch_fn(q, 1)) ;] *)
Fixpoint elv_drain_elevator (fuel : nat) (q : rqueue D) : option (rqueue D) :=
  match fuel with
  | O => None
  | S fuel =>
      '(again, q) ← sched_dispatch q;
      if (again : bool) then elv_drain_elevator fuel q else Some q
  end.

Inductive insert_where :=
  ELEVATOR_INSERT_FRONT | ELEVATOR_INSERT_BACK | ELEVATOR_INSERT_VERIFY |
  ELEVATOR_INSERT_SORT | ELEVATOR_INSERT_REQUEUE.

(** [list_add_tail] before the first request whose sequence number is not
    smaller. *)
Fixpoint insert_by_seq (q : rqueue D) (i : nat) (l : list nat) : list nat :=
  match l with
  | [] => [i]
  | p :: l =>
      if blk_ordered_req_seq q i <=? blk_ordered_req_seq q p then i :: p :: l
      else p :: insert_by_seq q i l
  end.

(** [fuel] bounds the draining. *)
Definition elv_insert (fuel : nat) (i : nat) (at_ : insert_where) (q : rqueue D)
    : option (rqueue D) :=
  match at_ with
  | ELEVATOR_INSERT_FRONT =>
      let q := upd_rq i (set_er_soft true) q in
      Some (set_queue_head (i :: queue_head q) q)
  | ELEVATOR_INSERT_BACK =>
      let q := upd_rq i (set_er_soft true) q in
      q ← elv_drain_elevator fuel q;
      Some (set_queue_head (queue_head q ++ [i]) q)
  | ELEVATOR_INSERT_VERIFY =>
      let q := upd_rq i (set_er_sorted true) q in
      let q := set_nr_sorted (u32 (nr_sorted q + 1)) q in
      sched_add i q
  | ELEVATOR_INSERT_SORT =>
      if negb (er_fs (rq_of q i)) && negb (er_discard (rq_of q i)) then None
      else
        let q := upd_rq i (set_er_sorted true) q in
        let q := set_nr_sorted (u32 (nr_sorted q + 1)) q in
        q ← (if rq_mergeable (rq_of q i) then
               q ← elv_rqhash_add i q;
               Some (match last_merge q with
                     | None => set_last_merge (Some i) q
                     | Some _ => q
                     end)
             else Some q);
        sched_add i q
  | ELEVATOR_INSERT_REQUEUE =>
      let q := upd_rq i (set_er_soft true) q in
      if q_ordseq q =? 0 then Some (set_queue_head (i :: queue_head q) q)
      else Some (set_queue_head (insert_by_seq q i (queue_head q)) q)
  end.

Definition __elv_add_request (fuel : nat) (i : nat) (at_ : insert_where) (q : rqueue D)
    : option (rqueue D) :=
  let q := if ordcolor q then upd_rq i (set_er_color true) q else q in
  let rq := rq_of q i in
  let back w := match w with ELEVATOR_INSERT_SORT => ELEVATOR_INSERT_BACK | w => w end in
  if er_soft rq || er_hard rq then
    let q := if er_hard rq then set_ordcolor (negb (ordcolor q)) q else q in
    let q := if er_fs rq || er_discard rq then
               set_boundary_rq (Some i) (set_end_sector (rq_end_sector rq) q) else q in
    elv_insert fuel i (back at_) q
  else if negb (er_elvpriv rq) then elv_insert fuel i (back at_) q
  else elv_insert fuel i at_ q.

Definition elv_queue_empty (q : rqueue D) : bool :=
  match queue_head q with [] => sched_empty (edata q) | _ => false end.

(** ** Merging *)

(** Of the schedulers only CFQ has an [elevator_allow_merge_fn]; without one
    every merge is allowed. *)
Definition elv_rq_merge_ok (r : erq) (b : ebio) : bool :=
  if negb (rq_mergeable r) then false
  else if negb (eqb (eb_discard b) (er_discard r)) then false
  else if negb (eqb (eb_write b) (er_write r)) then false
  else if negb (Nat.eqb (er_disk r) (eb_disk b)) || er_special r then false
  else eqb (eb_integrity b) (er_integrity r).

Definition elv_try_merge (r : erq) (b : ebio) : merge_kind :=
  if elv_rq_merge_ok r b then
    if rq_end_sector r =? eb_sector b then BACK_MERGE
    else if u64 (er_pos r - eb_sectors b) =? eb_sector b then FRONT_MERGE
    else NO_MERGE
  else NO_MERGE.

(** The result and the request it is for; the queue changes because the hash
    is cleaned on the way. *)
Definition elv_merge (b : ebio) (q : rqueue D) : merge_kind * option nat * rqueue D :=
  if nomerges q then (NO_MERGE, None, q)
  else
    let cached :=
      match last_merge q with
      | Some i => match elv_try_merge (rq_of q i) b with
                  | NO_MERGE => None
                  | k => Some (k, i)
                  end
      | None => None
      end in
    match cached with
    | Some (k, i) => (k, Some i, q)
    | None =>
        if noxmerges q then (NO_MERGE, None, q)
        else
          let '(found, q) := elv_rqhash_find (eb_sector b) q in
          let hit := match found with
                     | Some i => elv_rq_merge_ok (rq_of q i) b
                     | None => false
                     end in
          if hit then (BACK_MERGE, found, q)
          else match sched_merge b q with
               | Some i => (FRONT_MERGE, Some i, q)
               | None => (NO_MERGE, None, q)
               end
    end.

Definition elv_merged_request (i : nat) (k : merge_kind) (q : rqueue D) : option (rqueue D) :=
  q ← sched_merged i k q;
  q ← (match k with BACK_MERGE => elv_rqhash_reposition i q | _ => Some q end);
  Some (set_last_merge (Some i) q).

Definition elv_merge_requests (i next : nat) (q : rqueue D) : option (rqueue D) :=
  q ← sched_merge_req i next q;
  q ← elv_rqhash_reposition i q;
  let q := elv_rqhash_del next q in
  let q := set_nr_sorted (u32 (nr_sorted q - 1)) q in
  Some (set_last_merge (Some i) q).
End elevator.

(** ** What the elevator relies on *)

(** All requests of a queue, dispatched or still with the scheduler. *)
Definition queued {D} `{Sched D} (q : rqueue D) : list nat :=
  queue_head q ++ sched_contents (edata q).

(** Two states of a request that are the same for a scheduler. *)
Definition same_place (r r' : erq) : Prop :=
  er_pos r' = er_pos r ∧ er_sectors r' = er_sectors r ∧ er_write r' = er_write r.

(** A scheduler keeps what decides about merging and barriers. *)
Definition same_flags (r r' : erq) : Prop :=
  rq_mergeable r' = rq_mergeable r ∧ stop_flags r' = stop_flags r ∧ same_place r r'.

(** A scheduler may take requests off the merge hash, never put one on. *)
Definition hash_shrinks {D} (q q' : rqueue D) : Prop :=
  (∀ i, on_hash q' i = true → on_hash q i = true) ∧
  (last_merge q' = last_merge q ∨ last_merge q' = None).

Class SchedOk (D : Type) `{Sched D} := {
  sched_inv : rqueue D → Prop;
  sched_inv_frame q q' :
    sched_inv q → edata q' = edata q →
    (∀ i, i ∈ sched_contents (edata q) → same_place (rq_of q i) (rq_of q' i)) →
    sched_inv q';
  sched_add_ok q i :
    sched_inv q → in_u32 (nr_sorted q) → i ∉ sched_contents (edata q) →
    ∃ q', sched_add i q = Some q' ∧ sched_inv q' ∧
      queued q' ≡ₚ i :: queued q ∧ i ∈ sched_contents (edata q') ∧
      nr_sorted q' = u32 (nr_sorted q - 1 + Z.of_nat (length (sched_contents (edata q')))
                          - Z.of_nat (length (sched_contents (edata q)))) ∧
      (∀ j, same_flags (rq_of q j) (rq_of q' j)) ∧ hash_shrinks q q';
  sched_dispatch_ok q :
    sched_inv q →
    ∃ b q', sched_dispatch q = Some (b, q') ∧ sched_inv q' ∧ queued q' ≡ₚ queued q ∧
      (∀ j, same_flags (rq_of q j) (rq_of q' j)) ∧
      if (b : bool) then
        length (sched_contents (edata q)) = S (length (sched_contents (edata q'))) ∧
        nr_sorted q' = u32 (nr_sorted q - 1)
      else q' = q ∧ sched_contents (edata q) = [];
  sched_merge_ok b q i :
    sched_merge b q = Some i → elv_rq_merge_ok (rq_of q i) b = true ∧
      er_pos (rq_of q i) = u64 (eb_sector b + eb_sectors b);
  sched_empty_ok d : sched_empty d = true ↔ sched_contents d = [];
}.

#[export] Instance same_flags_equiv : Equivalence same_flags.
Proof.
  unfold same_flags, same_place.
  split; [by intros ?|intros ? ? (? & ? & ? & ? & ?)|
    intros ? ? ? (? & ? & ? & ? & ?) (? & ? & ? & ? & ?)]; split_and!; congruence.
Qed.

(** ** Lemmas on the store *)

Lemma rq_of_upd {D} (q : rqueue D) i f j :
  rq_of (upd_rq i f q) j = if decide (i = j) then f (rq_of q i) else rq_of q j.
Proof.
  unfold rq_of, upd_rq. cbn [rqs set_rqs]. case_decide; subst.
  - by rewrite lookup_insert_eq.
  - by rewrite lookup_insert_ne.
Qed.

Lemma upd_rq_place {D} (q : rqueue D) i f j :
  (∀ r, same_place r (f r)) → same_place (rq_of q j) (rq_of (upd_rq i f q) j).
Proof. intros Hf. rewrite rq_of_upd. case_decide; subst; [apply Hf|done]. Qed.

(** ** The one-way elevator order

    From the boundary upwards, then from the lowest sector up to the
    boundary. *)
Definition elv_before (b x y : Z) : bool :=
  if b <=? x then if b <=? y then x <=? y else true
  else if b <=? y then false else x <=? y.

Lemma elv_before_trans b x y z :
  elv_before b x y = true → elv_before b y z = true → elv_before b x z = true.
Proof.
  unfold elv_before. intros H1 H2. repeat zcase_in H1; repeat zcase_in H2; repeat zcase;
    try done; zbool; try lia; apply Z.leb_le; lia.
Qed.

Lemma elv_before_total b x y :
  elv_before b x y = false → elv_before b y x = true.
Proof.
  unfold elv_before. intros H. repeat zcase_in H; repeat zcase; try done; zbool; try lia;
    apply Z.leb_le; lia.
Qed.

(** Requests that are sorted among each other. *)
Definition comparable (r p : erq) : Prop :=
  er_discard r = er_discard p ∧ er_write r = er_write p ∧ stop_flags p = false.

Lemma sort_stop_order b r p :
  comparable r p → sort_stop b r p = elv_before b (er_pos p) (er_pos r).
Proof.
  intros (Hd & Hw & Hs). unfold sort_stop, elv_before. rewrite Hd, Hw, Hs, !eqb_reflx.
  cbn [negb]. repeat zcase; try done; zbool; try lia.
Qed.

(** ** Lemmas on insertion *)

Lemma sort_in_split {D} (q : rqueue D) i rev :
  ∃ l1 l2, rev = l1 ++ l2 ∧ sort_in q i rev = l1 ++ i :: l2 ∧
    Forall (λ p, sort_stop (end_sector q) (rq_of q i) (rq_of q p) = false) l1 ∧
    (∀ p, head l2 = Some p → sort_stop (end_sector q) (rq_of q i) (rq_of q p) = true).
Proof.
  induction rev as [|p rest IH]; cbn [sort_in].
  - exists [], []. by split_and!.
  - destruct (sort_stop _ _ _) eqn:E.
    + exists [], (p :: rest). split_and!; [done|done|done|]. by intros ? [= <-].
    + destruct IH as (l1 & l2 & -> & -> & ? & ?).
      exists (p :: l1), l2. by split_and!; [| |constructor|].
Qed.

Lemma insert_by_seq_split {D} (q : rqueue D) i l :
  ∃ l1 l2, l = l1 ++ l2 ∧ insert_by_seq q i l = l1 ++ i :: l2.
Proof.
  induction l as [|p l IH]; cbn [insert_by_seq].
  - by exists [], [].
  - case_match.
    + by exists [], (p :: l).
    + destruct IH as (l1 & l2 & -> & ->). by exists (p :: l1), l2.
Qed.

(** ** Lemmas on the hash *)

Lemma on_hash_bucket {D} (q : rqueue D) i :
  on_hash q i = true ↔ ∃ b, i ∈ bucket q b.
Proof.
  unfold on_hash, bucket. rewrite bool_decide_eq_true. split.
  - intros (b & l & Hb & Hi). exists b. by rewrite Hb.
  - intros [b Hi]. destruct (hash q !! b) as [l|] eqn:Hb; [|by apply elem_of_nil in Hi].
    by exists b, l.
Qed.

Lemma bucket_del {D} (q : rqueue D) i b :
  bucket (__elv_rqhash_del i q) b = filter (λ j, j ≠ i) (bucket q b).
Proof.
  unfold bucket, __elv_rqhash_del. cbn [hash set_hash]. rewrite lookup_fmap.
  by destruct (hash q !! b).
Qed.

Lemma rqhash_del_shrinks {D} (q : rqueue D) i : hash_shrinks q (elv_rqhash_del i q).
Proof.
  unfold elv_rqhash_del. destruct (on_hash q i) eqn:E; [|by split; [|left]].
  split; [|by left]. intros j. rewrite !on_hash_bucket. intros [b Hj].
  rewrite bucket_del, list_elem_of_filter in Hj. exists b. tauto.
Qed.

(** What both ways of dispatching leave alone. *)
Lemma rqhash_del_fields {D} (q : rqueue D) i :
  rqs (elv_rqhash_del i q) = rqs q ∧ edata (elv_rqhash_del i q) = edata q ∧
  queue_head (elv_rqhash_del i q) = queue_head q ∧
  nr_sorted (elv_rqhash_del i q) = nr_sorted q ∧
  last_merge (elv_rqhash_del i q) = last_merge q ∧
  end_sector (elv_rqhash_del i q) = end_sector q.
Proof. unfold elv_rqhash_del. by destruct (on_hash q i). Qed.

Lemma clear_last_merge_fields {D} (q : rqueue D) i :
  rqs (clear_last_merge i q) = rqs q ∧ edata (clear_last_merge i q) = edata q ∧
  queue_head (clear_last_merge i q) = queue_head q ∧
  nr_sorted (clear_last_merge i q) = nr_sorted q ∧
  end_sector (clear_last_merge i q) = end_sector q ∧
  hash_shrinks q (clear_last_merge i q).
Proof.
  unfold clear_last_merge, hash_shrinks. case_bool_decide; split_and!; try done; auto.
Qed.

Lemma rq_of_eq {D} (q q' : rqueue D) i : rqs q' = rqs q → rq_of q' i = rq_of q i.
Proof. unfold rq_of. by intros ->. Qed.

Lemma hash_shrinks_trans {D} (q1 q2 q3 : rqueue D) :
  hash_shrinks q1 q2 → hash_shrinks q2 q3 → hash_shrinks q1 q3.
Proof. intros [? H1] [? H2]. split; [auto|]. destruct H1, H2; intuition congruence. Qed.

(** The common part of dispatching. *)
Definition undo_sorted {D} (i : nat) (q : rqueue D) : rqueue D :=
  elv_rqhash_del i (clear_last_merge i q).

Lemma undo_sorted_fields {D} (q : rqueue D) i :
  rqs (undo_sorted i q) = rqs q ∧ edata (undo_sorted i q) = edata q ∧
  queue_head (undo_sorted i q) = queue_head q ∧ nr_sorted (undo_sorted i q) = nr_sorted q ∧
  end_sector (undo_sorted i q) = end_sector q ∧ hash_shrinks q (undo_sorted i q).
Proof.
  unfold undo_sorted. destruct (clear_last_merge_fields q i) as (? & ? & ? & ? & ? & ?).
  destruct (rqhash_del_fields (clear_last_merge i q) i) as (? & ? & ? & ? & ? & ?).
  split_and!; try congruence.
  eapply hash_shrinks_trans; [done|apply rqhash_del_shrinks].
Qed.

Lemma dispatch_sort_value {D} (q : rqueue D) i :
  rqs (elv_dispatch_sort i q) = rqs q ∧ edata (elv_dispatch_sort i q) = edata q ∧
  queue_head (elv_dispatch_sort i q) = reverse (sort_in q i (reverse (queue_head q))) ∧
  nr_sorted (elv_dispatch_sort i q) = u32 (nr_sorted q - 1) ∧
  hash_shrinks q (elv_dispatch_sort i q).
Proof.
  destruct (undo_sorted_fields q i) as (Hr & He & Hq & Hn & Hs & Hh).
  unfold elv_dispatch_sort. fold (undo_sorted i q).
  split_and!; try done; cbn [queue_head nr_sorted set_queue_head set_nr_sorted];
    [|by rewrite Hn]. rewrite Hq. f_equal.
  set (q1 := set_nr_sorted _ _).
  assert (∀ j, rq_of q1 j = rq_of q j) as Hrq by (intros; by apply rq_of_eq).
  assert (end_sector q1 = end_sector q) as Hes by done.
  clearbody q1. induction (reverse (queue_head q)) as [|p l IH]; [done|].
  cbn [sort_in]. by rewrite IH, Hes, !Hrq.
Qed.

Lemma dispatch_add_tail_value {D} (q : rqueue D) i :
  rqs (elv_dispatch_add_tail i q) = rqs q ∧ edata (elv_dispatch_add_tail i q) = edata q ∧
  queue_head (elv_dispatch_add_tail i q) = queue_head q ++ [i] ∧
  nr_sorted (elv_dispatch_add_tail i q) = u32 (nr_sorted q - 1) ∧
  hash_shrinks q (elv_dispatch_add_tail i q).
Proof.
  destruct (undo_sorted_fields q i) as (Hr & He & Hq & Hn & Hs & Hh).
  unfold elv_dispatch_add_tail. fold (undo_sorted i q).
  split_and!; try done; cbn; [by rewrite Hq|by rewrite Hn].
Qed.

Lemma dispatch_sort_perm {D} (q : rqueue D) i :
  queue_head (elv_dispatch_sort i q) ≡ₚ i :: queue_head q.
Proof.
  destruct (dispatch_sort_value q i) as (_ & _ & -> & _).
  destruct (sort_in_split q i (reverse (queue_head q))) as (l1 & l2 & E & -> & _).
  rewrite reverse_Permutation, <- Permutation_middle, <- E. by rewrite reverse_Permutation.
Qed.

(** ** Theorems on the dispatch queue *)

(** The dispatch queue is kept in one-way elevator order: if the queued
    requests have the direction and kind of the new one and carry no barrier,
    and are ordered from the boundary sector upwards and then from the lowest
    sector, they still are after [elv_dispatch_sort]. *)
Theorem dispatch_sort_sorted {D} (q : rqueue D) i :
  Forall (λ p, comparable (rq_of q i) (rq_of q p)) (queue_head q) →
  StronglySorted (λ a b, elv_before (end_sector q) (er_pos (rq_of q a)) (er_pos (rq_of q b)) = true)
    (queue_head q) →
  StronglySorted (λ a b, elv_before (end_sector q) (er_pos (rq_of q a)) (er_pos (rq_of q b)) = true)
    (queue_head (elv_dispatch_sort i q)).
Proof.
  set (R := λ a b, elv_before (end_sector q) (er_pos (rq_of q a)) (er_pos (rq_of q b)) = true).
  intros Hc Hs. destruct (dispatch_sort_value q i) as (_ & _ & -> & _).
  destruct (sort_in_split q i (reverse (queue_head q))) as (l1 & l2 & E & -> & Hno & Hstop).
  assert (queue_head q = reverse l2 ++ reverse l1) as Hq.
  { by rewrite <- reverse_app, <- E, reverse_involutive. }
  rewrite Hq in Hs, Hc. rewrite reverse_app, reverse_cons, <- app_assoc.
  apply StronglySorted_app in Hs as (H12 & Hs2 & Hs1).
  apply Forall_app in Hc as [Hc2 Hc1].
  assert (∀ p, p ∈ l2 → R p i) as Hbefore.
  { intros p Hp. destruct l2 as [|p2 l2]; [by apply elem_of_nil in Hp|].
    assert (R p2 i) as Hp2.
    { specialize (Hstop p2 eq_refl). rewrite sort_stop_order in Hstop; [done|].
      apply (proj1 (Forall_forall _ _) Hc2), elem_of_reverse. left. }
    apply elem_of_cons in Hp as [->|Hp]; [done|].
    rewrite reverse_cons in Hs2. apply StronglySorted_app in Hs2 as (Hx & _ & _).
    eapply elv_before_trans; [|exact Hp2]. apply Hx; [by apply elem_of_reverse|].
    by apply list_elem_of_singleton. }
  assert (∀ p, p ∈ l1 → R i p) as Hafter.
  { intros p Hp. apply elv_before_total. rewrite <- sort_stop_order.
    - by apply (proj1 (Forall_forall _ _) Hno).
    - by apply (proj1 (Forall_forall _ _) Hc1), elem_of_reverse. }
  apply StronglySorted_app. split_and!; [|done|].
  - intros a b Ha Hb. rewrite elem_of_reverse in Ha. apply elem_of_cons in Hb as [->|Hb].
    + by apply Hbefore.
    + eapply elv_before_trans; [by apply Hbefore|]. apply Hafter. by rewrite elem_of_reverse in Hb.
  - constructor; [done|]. apply Forall_forall. intros b Hb. apply Hafter.
    by rewrite elem_of_reverse in Hb.
Qed.

(** Three reads at 100, 200 and 20 behind a boundary of 50, and a read at 150
    to be dispatched. *)
Definition demo_read (pos : Z) : erq :=
  mk_erq pos 8 false false true false false false false false false true true false 0
    false false 0.

Definition demo_queue : rqueue (list nat) :=
  mk_rqueue {[ 0%nat := demo_read 100; 1%nat := demo_read 200; 2%nat := demo_read 20;
               3%nat := demo_read 150 ]}
    [0%nat; 1%nat; 2%nat] 1 50 None None ∅ false idle_ord false false [].

Lemma dispatch_sort_sorted_witness :
  queue_head (elv_dispatch_sort 3 demo_queue) = [0; 3; 1; 2]%nat ∧
  StronglySorted (λ a b, elv_before 50 (er_pos (rq_of demo_queue a))
                           (er_pos (rq_of demo_queue b)) = true)
    (queue_head (elv_dispatch_sort 3 demo_queue)).
Proof.
  split; [by vm_compute|]. apply (dispatch_sort_sorted demo_queue 3).
  - repeat constructor.
  - repeat constructor.
Defined.

(** Sorting never crosses a barrier: [elv_dispatch_sort] only moves the new
    request in front of requests of its own direction and kind that carry no
    barrier and are not started, and leaves the order of the others alone. *)
Theorem dispatch_sort_barrier {D} (q : rqueue D) i :
  ∃ l1 l2, queue_head q = l1 ++ l2 ∧
    queue_head (elv_dispatch_sort i q) = l1 ++ i :: l2 ∧
    Forall (λ p, comparable (rq_of q i) (rq_of q p)) l2.
Proof.
  destruct (dispatch_sort_value q i) as (_ & _ & -> & _).
  destruct (sort_in_split q i (reverse (queue_head q))) as (l1 & l2 & E & -> & Hno & _).
  exists (reverse l2), (reverse l1). split_and!.
  - by rewrite <- reverse_app, <- E, reverse_involutive.
  - by rewrite reverse_app, reverse_cons, <- app_assoc.
  - apply Forall_reverse. eapply Forall_impl; [exact Hno|]. intros p Hp. cbn beta in Hp.
    unfold sort_stop in Hp. unfold comparable.
    destruct (eqb (er_discard (rq_of q i)) _) eqn:E1; [|done].
    destruct (eqb (er_write (rq_of q i)) _) eqn:E2; [|done]. cbn [negb] in Hp.
    apply eqb_prop in E1, E2. by destruct (stop_flags (rq_of q p)).
Qed.

(** ** Generic theorems, against the scheduler interface *)

Section interface.
Context {D : Type} `{SchedOk D}.

Lemma queued_perm (q q' : rqueue D) i :
  queue_head q' ≡ₚ i :: queue_head q → edata q' = edata q → queued q' ≡ₚ i :: queued q.
Proof. intros Hq He. unfold queued. by rewrite Hq, He. Qed.

Lemma drain_spec fuel (q : rqueue D) :
  sched_inv q → (length (sched_contents (edata q)) < fuel)%nat →
  ∃ q', elv_drain_elevator fuel q = Some q' ∧ sched_inv q' ∧ queued q' ≡ₚ queued q ∧
    sched_contents (edata q') = [] ∧ (∀ j, same_flags (rq_of q j) (rq_of q' j)) ∧
    nr_sorted q' = (if decide (sched_contents (edata q) = []) then nr_sorted q
                    else u32 (nr_sorted q - Z.of_nat (length (sched_contents (edata q))))).
Proof.
  revert q. induction fuel as [|fuel IH]; intros q Hinv Hf; [lia|].
  cbn [elv_drain_elevator].
  destruct (sched_dispatch_ok q Hinv) as (b & q1 & -> & Hinv1 & Hp1 & Hfl1 & Hb).
  cbn [mbind option_bind]. destruct b.
  - destruct Hb as [Hl Hn].
    destruct (IH q1 Hinv1) as (q' & -> & ? & Hp & Hc & Hfl & Hn'); [lia|].
    exists q'. split_and!; try done; [by rewrite Hp|intros j; etransitivity; [apply Hfl1|apply Hfl]|].
    rewrite Hn'.
    destruct (decide (sched_contents (edata q) = [])) as [E|_]; [by rewrite E in Hl|].
    case_decide as Hc1.
    + rewrite Hc1 in Hl. rewrite Hl, Hn. done.
    + rewrite Hl, Hn. unfold u32. rewrite Zminus_mod_idemp_l. f_equal. lia.
  - destruct Hb as [-> Hc]. exists q. split_and!; try done. by rewrite decide_True.
Qed.

(** The scheduler accepts a request once its flags are set. *)
Lemma add_after (q q1 : rqueue D) i :
  sched_inv q → in_u32 (nr_sorted q1) → i ∉ queued q → edata q1 = edata q →
  queue_head q1 = queue_head q → (∀ j, same_place (rq_of q j) (rq_of q1 j)) →
  ∃ q', sched_add i q1 = Some q' ∧ sched_inv q' ∧ queued q' ≡ₚ i :: queued q ∧
    i ∈ sched_contents (edata q') ∧ (∀ j, same_flags (rq_of q1 j) (rq_of q' j)) ∧
    hash_shrinks q1 q' ∧
    nr_sorted q' = u32 (nr_sorted q1 - 1 + Z.of_nat (length (sched_contents (edata q')))
                        - Z.of_nat (length (sched_contents (edata q)))).
Proof.
  intros Hinv Hn Hi He Hq Hpl.
  destruct (sched_add_ok q1 i) as (q' & ? & ? & Hp & ? & ? & ? & ?).
  - eapply sched_inv_frame; [exact Hinv|done|]. intros; apply Hpl.
  - done.
  - rewrite He. unfold queued in Hi. by rewrite elem_of_app in Hi; intros ?; apply Hi; right.
  - exists q'. split_and!; try done; [|by rewrite He in *].
    unfold queued in *. by rewrite Hp, Hq, He.
Qed.

Lemma soft_place r : same_place r (set_er_soft true r).
Proof. done. Qed.

Lemma sorted_place r : same_place r (set_er_sorted true r).
Proof. done. Qed.

Lemma queued_nil_contents (q : rqueue D) :
  sched_contents (edata q) = [] → queued q = queue_head q.
Proof. unfold queued. intros ->. apply app_nil_r. Qed.
End interface.

(** [nr_sorted] counts the requests the scheduler holds. *)
Definition sorted_ok {D} `{Sched D} (q : rqueue D) : Prop :=
  nr_sorted q = u32 (Z.of_nat (length (sched_contents (edata q)))).

Lemma sorted_count n a : u32 (u32 (u32 n + 1) - 1 + a - n) = u32 a.
Proof.
  assert (∀ x, ∃ k, u32 x = x + k * 2 ^ 32) as Hk.
  { intros x. exists (- (x / 2 ^ 32)). unfold u32. rewrite Z.mod_eq by lia. lia. }
  destruct (Hk n) as [k1 ->]. destruct (Hk (n + k1 * 2 ^ 32 + 1)) as [k2 ->].
  replace (_ - _) with (a + (k1 + k2) * 2 ^ 32) by lia. apply Z_mod_plus_full.
Qed.

(** Draining is complete: whatever the scheduler, [elv_drain_elevator]
    terminates with all its requests on the dispatch queue, none lost and none
    added, and [nr_sorted] is 0, so the complaint about broken forced
    dispatching is never printed. *)
Theorem drain_complete {D} `{SchedOk D} fuel (q : rqueue D) :
  sched_inv q → sorted_ok q → (length (sched_contents (edata q)) < fuel)%nat →
  ∃ q', elv_drain_elevator fuel q = Some q' ∧ sched_contents (edata q') = [] ∧
    queue_head q' ≡ₚ queued q ∧ nr_sorted q' = 0.
Proof.
  intros Hinv Hso Hf. destruct (drain_spec fuel q Hinv Hf) as (q' & ? & ? & Hp & Hc & _ & Hn).
  exists q'. split_and!; try done.
  - by rewrite <- (queued_nil_contents q') by done.
  - rewrite Hn, Hso. case_decide as Hnil; [by rewrite Hnil|].
    unfold u32. rewrite Zminus_mod_idemp_l, Z.sub_diag. done.
Qed.

Lemma insert_sched {D} `{SchedOk D} (q q1 : rqueue D) i :
  sched_inv q → sorted_ok q → i ∉ queued q → edata q1 = edata q →
  queue_head q1 = queue_head q → (∀ j, same_place (rq_of q j) (rq_of q1 j)) →
  nr_sorted q1 = u32 (nr_sorted q + 1) →
  ∃ q', sched_add i q1 = Some q' ∧ sched_inv q' ∧ queued q' ≡ₚ i :: queued q ∧ sorted_ok q' ∧
    i ∈ sched_contents (edata q') ∧ (∀ j, same_flags (rq_of q1 j) (rq_of q' j)) ∧
    hash_shrinks q1 q'.
Proof.
  intros Hinv Hso Hi He Hq Hpl Hn.
  destruct (add_after q q1 i) as (q' & ? & ? & ? & ? & ? & ? & Hn'); try done.
  { rewrite Hn. apply u32_range. }
  assert (sorted_ok q') by (unfold sorted_ok; rewrite Hn', Hn, Hso; apply sorted_count).
  clear Hn Hn'. by exists q'.
Qed.

(** Putting a request on the hash changes nothing else. *)
Lemma rqhash_add_fields {D} (q q' : rqueue D) i :
  elv_rqhash_add i q = Some q' →
  rqs q' = rqs q ∧ edata q' = edata q ∧ queue_head q' = queue_head q ∧
  nr_sorted q' = nr_sorted q ∧ last_merge q' = last_merge q.
Proof.
  unfold elv_rqhash_add. destruct (on_hash q i); [done|].
  intros E. apply (inj Some) in E as <-. split_and!; reflexivity.
Qed.

Lemma insert_sort_prepared {D} (q : rqueue D) i :
  on_hash q i = false →
  ∃ q1, (if rq_mergeable (rq_of q i) then
           q ← elv_rqhash_add i q;
           Some (match last_merge q with
                 | None => set_last_merge (Some i) q
                 | Some _ => q
                 end)
         else Some q) = Some q1 ∧
    rqs q1 = rqs q ∧ edata q1 = edata q ∧ queue_head q1 = queue_head q ∧
    nr_sorted q1 = nr_sorted q.
Proof.
  intros Hh. destruct (rq_mergeable (rq_of q i)); [|by exists q].
  destruct (elv_rqhash_add i q) as [q1|] eqn:E.
  - apply rqhash_add_fields in E as (? & ? & ? & ? & ?). cbn [mbind option_bind].
    destruct (last_merge q1); eexists; (split; [reflexivity|]); cbn; done.
  - unfold elv_rqhash_add in E. by rewrite Hh in E.
Qed.

(** Changing flags of a request and the dispatch queue does not concern the
    scheduler. *)
Lemma insert_frame {D} `{SchedOk D} (q : rqueue D) i :
  sched_inv q → sorted_ok q → ∀ f q1, (∀ r, same_place r (f r)) →
  rqs q1 = rqs (upd_rq i f q) → edata q1 = edata q → nr_sorted q1 = nr_sorted q →
  sched_inv q1 ∧ sorted_ok q1.
Proof.
  intros Hinv Hso f q1 Hpl Hr He Hn. split.
  - eapply sched_inv_frame; [exact Hinv|done|]. intros j _.
    rewrite (rq_of_eq (upd_rq i f q) q1) by done. by apply upd_rq_place.
  - unfold sorted_ok. by rewrite Hn, He.
Qed.

(** Insertion conserves requests. For every insertion point and every
    scheduler, [elv_insert] succeeds on a request that is not queued (a file
    system or discard request for sorted insertion), and afterwards exactly
    that request has been added; [nr_sorted] stays accurate. *)
Theorem insert_conserves {D} `{SchedOk D} fuel (q : rqueue D) i w :
  sched_inv q → sorted_ok q → i ∉ queued q → on_hash q i = false →
  (w = ELEVATOR_INSERT_SORT → er_fs (rq_of q i) = true ∨ er_discard (rq_of q i) = true) →
  (length (sched_contents (edata q)) < fuel)%nat →
  ∃ q', elv_insert fuel i w q = Some q' ∧ sched_inv q' ∧ sorted_ok q' ∧
    queued q' ≡ₚ i :: queued q.
Proof.
  intros Hinv Hso Hi Hh Hfs Hf.
  pose proof (insert_frame q i Hinv Hso) as Hfr.
  unfold elv_insert. destruct w.
  - eexists. split; [reflexivity|].
    destruct (Hfr (set_er_soft true) (set_queue_head (i :: queue_head q)
      (upd_rq i (set_er_soft true) q))) as [? ?]; [apply soft_place|done..|]. by split_and!.
  - set (q1 := upd_rq i (set_er_soft true) q).
    destruct (Hfr (set_er_soft true) q1) as [Hinv1 Hso1]; [apply soft_place|done..|].
    destruct (drain_spec fuel q1 Hinv1 Hf) as (q' & -> & Hinv' & Hp & Hc & Hfl & Hn).
    cbn [mbind option_bind]. eexists. split; [reflexivity|]. split_and!.
    + eapply sched_inv_frame; [exact Hinv'|done|]. done.
    + unfold sorted_ok in *. cbn. rewrite Hn, Hc, Hso1. case_decide as Hnil; [by rewrite Hnil|].
      unfold u32. by rewrite Zminus_mod_idemp_l, Z.sub_diag.
    + unfold queued in *. cbn. rewrite Hc, app_nil_r in *. rewrite Hp.
      by rewrite Permutation_app_comm.
  - destruct (insert_sched q (set_nr_sorted (u32 (nr_sorted (upd_rq i (set_er_sorted true) q) + 1))
      (upd_rq i (set_er_sorted true) q)) i) as (q' & ? & ? & ? & ? & _); try done.
    { intros j. apply (upd_rq_place q i (set_er_sorted true) j sorted_place). }
    by exists q'.
  - destruct (negb (er_fs (rq_of q i)) && negb (er_discard (rq_of q i))) eqn:Eb.
    { exfalso. apply andb_true_iff in Eb as [E1 E2].
      destruct (Hfs eq_refl) as [E|E]; rewrite E in *; done. }
    destruct (insert_sort_prepared (set_nr_sorted
      (u32 (nr_sorted (upd_rq i (set_er_sorted true) q) + 1))
      (upd_rq i (set_er_sorted true) q)) i) as (q1 & -> & Hr1 & He1 & Hq1 & Hn1); [done|].
    cbn [mbind option_bind].
    destruct (insert_sched q q1 i) as (q' & ? & ? & ? & ? & _); try done.
    { intros j. rewrite (rq_of_eq (upd_rq i (set_er_sorted true) q) q1) by done.
      apply upd_rq_place, sorted_place. }
    by exists q'.
  - case_match; (eexists; split; [reflexivity|]).
    + destruct (Hfr (set_er_soft true) (set_queue_head (i :: queue_head q)
        (upd_rq i (set_er_soft true) q))) as [? ?]; [apply soft_place|done..|]. by split_and!.
    + set (q1 := upd_rq i (set_er_soft true) q).
      destruct (Hfr (set_er_soft true) (set_queue_head (insert_by_seq q1 i (queue_head q1)) q1))
        as [? ?]; [apply soft_place|done..|]. split_and!; try done.
      apply queued_perm; [|done]. cbn.
      destruct (insert_by_seq_split q1 i (queue_head q)) as (l1 & l2 & -> & ->).
      by rewrite Permutation_middle.
Qed.

(** The queue [__elv_add_request] hands to [elv_insert]: the colour of the
    request and the scheduling boundary are set, the rest is as before. *)
Lemma add_request_insert {D} `{Sched D} fuel i w (q : rqueue D) :
  ∃ q1, __elv_add_request fuel i w q =
      elv_insert fuel i (if er_soft (rq_of q i) || er_hard (rq_of q i)
                            || negb (er_elvpriv (rq_of q i))
                         then match w with ELEVATOR_INSERT_SORT => ELEVATOR_INSERT_BACK | w => w end
                         else w) q1 ∧
    edata q1 = edata q ∧ queue_head q1 = queue_head q ∧ nr_sorted q1 = nr_sorted q ∧
    hash q1 = hash q ∧ last_merge q1 = last_merge q ∧
    ∀ j, same_flags (rq_of q j) (rq_of q1 j).
Proof.
  unfold __elv_add_request.
  set (q0 := if ordcolor q then _ else q).
  assert (edata q0 = edata q ∧ queue_head q0 = queue_head q ∧ nr_sorted q0 = nr_sorted q ∧
    hash q0 = hash q ∧ last_merge q0 = last_merge q) as Hq0 by (subst q0; by destruct (ordcolor q)).
  assert (∀ j, same_flags (rq_of q j) (rq_of q0 j)) as Hfl.
  { intros j. subst q0. destruct (ordcolor q); [|done]. rewrite rq_of_upd. by case_decide; subst. }
  assert (er_soft (rq_of q0 i) = er_soft (rq_of q i) ∧ er_hard (rq_of q0 i) = er_hard (rq_of q i) ∧
    er_elvpriv (rq_of q0 i) = er_elvpriv (rq_of q i)) as (-> & -> & ->).
  { subst q0. destruct (ordcolor q); [|done]. rewrite rq_of_upd. by rewrite decide_True. }
  clearbody q0. destruct Hq0 as (? & ? & ? & ? & ?). destruct (er_soft (rq_of q i) || er_hard (rq_of q i)); cbn [orb].
  - eexists. split; [reflexivity|].
    destruct (er_hard (rq_of q i)), (er_fs (rq_of q0 i) || er_discard (rq_of q0 i)); done.
  - destruct (er_elvpriv (rq_of q i)); by exists q0.
Qed.

Lemma place_trans r1 r2 r3 : same_flags r1 r2 → same_place r2 r3 → same_place r1 r3.
Proof. intros (_ & _ & ? & ? & ?) (? & ? & ?). split_and!; congruence. Qed.

(** A barrier is a barrier: a request that carries a barrier flag, or does not
    belong to the scheduler, and is added for sorted insertion ends up at the
    tail of the dispatch queue behind every request queued before it, the
    scheduler is empty, and its flag stops later sorting. *)
Theorem add_barrier {D} `{SchedOk D} fuel (q : rqueue D) i :
  sched_inv q → (length (sched_contents (edata q)) < fuel)%nat →
  er_soft (rq_of q i) || er_hard (rq_of q i) || negb (er_elvpriv (rq_of q i)) = true →
  ∃ q' l, __elv_add_request fuel i ELEVATOR_INSERT_SORT q = Some q' ∧
    queue_head q' = l ++ [i] ∧ l ≡ₚ queued q ∧ sched_contents (edata q') = [] ∧
    stop_flags (rq_of q' i) = true.
Proof.
  intros Hinv Hf Hb.
  destruct (add_request_insert fuel i ELEVATOR_INSERT_SORT q) as (q1 & -> & He & Hq & _ & _ & _ & Hfl).
  rewrite Hb. cbn [elv_insert]. set (q2 := upd_rq i (set_er_soft true) q1).
  assert (∀ j, same_place (rq_of q j) (rq_of q2 j)) as Hpl.
  { intros j. eapply place_trans; [apply Hfl|]. exact (upd_rq_place q1 i _ j soft_place). }
  destruct (drain_spec fuel q2) as (q' & -> & _ & Hp & Hc & Hfl' & _).
  { eapply sched_inv_frame; [exact Hinv|done|]. intros; apply Hpl. }
  { by change (edata q2) with (edata q1); rewrite He. }
  cbn [mbind option_bind]. eexists _, (queue_head q'). split_and!; [done|done| |done|].
  - rewrite <- (queued_nil_contents q') by done. rewrite Hp. unfold queued.
    change (edata q2) with (edata q1). change (queue_head q2) with (queue_head q1).
    by rewrite He, Hq.
  - destruct (Hfl' i) as (_ & Hs & _). unfold rq_of, set_queue_head in *. cbn [rqs] in *.
    rewrite Hs. pose proof (rq_of_upd q1 i (set_er_soft true) i) as E.
    rewrite decide_True in E by done. unfold rq_of in E. unfold q2. by rewrite E.
Qed.

(** ** Lemmas on merging *)

Lemma u64_sub_swap p n s : in_u64 p → u64 (p - n) = s → p = u64 (s + n).
Proof.
  intros Hp <-. unfold u64. rewrite Zplus_mod_idemp_l.
  replace (p - n + n) with p by lia. by rewrite Z.mod_small.
Qed.

Lemma try_merge_back r b :
  elv_try_merge r b = BACK_MERGE →
  elv_rq_merge_ok r b = true ∧ rq_end_sector r = eb_sector b.
Proof. unfold elv_try_merge. repeat case_match; try done. by zbool. Qed.

Lemma try_merge_front r b :
  elv_try_merge r b = FRONT_MERGE → in_u64 (er_pos r) →
  elv_rq_merge_ok r b = true ∧ er_pos r = u64 (eb_sector b + eb_sectors b).
Proof.
  unfold elv_try_merge. repeat case_match; try done. intros _ Hp. split; [done|].
  apply u64_sub_swap; [done|]. by apply Z.eqb_eq.
Qed.

Lemma rqhash_walk_rqs {D} off l (q : rqueue D) : rqs (rqhash_walk off l q).2 = rqs q.
Proof.
  revert q. induction l as [|i l IH]; intros q; cbn [rqhash_walk]; [done|].
  destruct (negb _); [by rewrite IH|]. destruct (_ =? _); [done|apply IH].
Qed.

Lemma rqhash_walk_found {D} off l (q : rqueue D) i :
  (rqhash_walk off l q).1 = Some i →
  i ∈ l ∧ rq_mergeable (rq_of q i) = true ∧ rq_hash_key (rq_of q i) = off.
Proof.
  revert q. induction l as [|j l IH]; intros q; cbn [rqhash_walk]; [done|].
  destruct (negb (rq_mergeable (rq_of q j))) eqn:Em.
  - intros E. apply IH in E as (? & ?). split; [by right|done].
  - destruct (_ =? off) eqn:Ek.
    + intros [= ->]. split_and!; [left|by destruct (rq_mergeable _)|by apply Z.eqb_eq].
    + intros E. apply IH in E as (? & ?). split; [by right|done].
Qed.

Lemma rqhash_walk_missed {D} off l (q : rqueue D) i :
  (rqhash_walk off l q).1 = None → i ∈ l → rq_mergeable (rq_of q i) = true →
  rq_hash_key (rq_of q i) ≠ off.
Proof.
  revert q. induction l as [|j l IH]; intros q; cbn [rqhash_walk]; [by intros _ ?%elem_of_nil|].
  intros Hw Hi Hm. apply elem_of_cons in Hi as [->|Hi].
  - rewrite Hm in Hw. cbn [negb] in Hw. destruct (_ =? off) eqn:Ek; [done|]. by apply Z.eqb_neq.
  - destruct (negb _); [by apply (IH (__elv_rqhash_del j q))|].
    destruct (_ =? off); [done|by apply (IH q)].
Qed.

Lemma rqhash_walk_keeps {D} off l (q : rqueue D) i b :
  rq_mergeable (rq_of q i) = true →
  i ∈ bucket (rqhash_walk off l q).2 b ↔ i ∈ bucket q b.
Proof.
  revert q. induction l as [|j l IH]; intros q Hm; cbn [rqhash_walk]; [done|].
  destruct (negb (rq_mergeable (rq_of q j))) eqn:Em.
  - rewrite IH by done. rewrite bucket_del, list_elem_of_filter.
    split; [tauto|]. intros ?. split; [|done]. intros ->. by rewrite Hm in Em.
  - destruct (_ =? off); [done|by apply IH].
Qed.

(** The part of [elv_merge] behind the one-hit cache. *)
Lemma merge_lookup {D} `{SchedOk D} (q q' : rqueue D) b k i :
  (if noxmerges q then (NO_MERGE, None, q)
   else
     let '(found, q) := elv_rqhash_find (eb_sector b) q in
     let hit := match found with
                | Some i => elv_rq_merge_ok (rq_of q i) b
                | None => false
                end in
     if hit then (BACK_MERGE, found, q)
     else match sched_merge b q with
          | Some i => (FRONT_MERGE, Some i, q)
          | None => (NO_MERGE, None, q)
          end) = (k, Some i, q') →
  elv_rq_merge_ok (rq_of q i) b = true ∧
  (k = BACK_MERGE ∧ rq_end_sector (rq_of q i) = eb_sector b ∨
   k = FRONT_MERGE ∧ er_pos (rq_of q i) = u64 (eb_sector b + eb_sectors b)).
Proof.
  destruct (noxmerges q); [done|]. unfold elv_rqhash_find.
  pose proof (rqhash_walk_rqs (eb_sector b) (bucket q (ELV_HASH_FN (eb_sector b))) q) as Hr.
  pose proof (rqhash_walk_found (eb_sector b) (bucket q (ELV_HASH_FN (eb_sector b))) q i) as Hw.
  destruct (rqhash_walk _ _ _) as [found q1]. cbn [fst snd] in *.
  assert (∀ j, rq_of q1 j = rq_of q j) as Hrq by (intros; by apply rq_of_eq).
  destruct (match found with Some _ => _ | None => _ end) eqn:Eh.
  - destruct found as [j|]; [|done]. intros [= <- <- <-]. rewrite Hrq in Eh.
    split; [done|]. left. by destruct (Hw eq_refl) as (_ & _ & ?).
  - destruct (sched_merge b q1) as [j|] eqn:Es; [|done]. intros [= <- <- <-].
    apply sched_merge_ok in Es as [? ?]. rewrite Hrq in *. auto.
Qed.

Lemma merge_target {D} `{SchedOk D} (q q' : rqueue D) b k i :
  (∀ j, in_u64 (er_pos (rq_of q j))) → elv_merge b q = (k, Some i, q') →
  elv_rq_merge_ok (rq_of q i) b = true ∧
  (k = BACK_MERGE ∧ rq_end_sector (rq_of q i) = eb_sector b ∨
   k = FRONT_MERGE ∧ er_pos (rq_of q i) = u64 (eb_sector b + eb_sectors b)).
Proof.
  intros Hpos. unfold elv_merge. destruct (nomerges q); [done|].
  destruct (last_merge q) as [m|] eqn:Hm.
  - destruct (elv_try_merge (rq_of q m) b) eqn:Et.
    + intros E. eapply merge_lookup, E.
    + intros [= <- <- <-]. apply try_merge_front in Et as [? ?]; [auto|apply Hpos].
    + intros [= <- <- <-]. apply try_merge_back in Et as [? ?]; auto.
  - intros E. eapply merge_lookup, E.
Qed.

(** ** Theorems on merging *)

(** Only requests that may take the bio are offered for merging, and the bio
    really is adjacent: behind the request for a back merge, in front of it
    for a front merge. *)
Theorem merge_target_ok {D} `{SchedOk D} (q q' : rqueue D) b k i :
  (∀ j, in_u64 (er_pos (rq_of q j))) →
  elv_merge b q = (k, Some i, q') →
  elv_rq_merge_ok (rq_of q i) b = true ∧
  (k = BACK_MERGE ∧ rq_end_sector (rq_of q i) = eb_sector b ∨
   k = FRONT_MERGE ∧ er_pos (rq_of q i) = u64 (eb_sector b + eb_sectors b)).
Proof. apply merge_target. Qed.

(** A request that cannot take any bio is never offered. *)
Lemma merge_ok_mergeable r b : elv_rq_merge_ok r b = true → rq_mergeable r = true.
Proof. unfold elv_rq_merge_ok. by destruct (rq_mergeable r). Qed.

Lemma on_hash_eq {D} (q q' : rqueue D) i : hash q' = hash q → on_hash q' i = on_hash q i.
Proof. unfold on_hash. by intros ->. Qed.

Lemma if_same {A} (b : bool) (x : A) : (if b then x else x) = x.
Proof. by destruct b. Qed.


(** ** Theorems on the merge hash *)

(** Every request is in the bucket of its end sector. *)
Definition hash_ok {D} (q : rqueue D) : Prop :=
  ∀ b j, j ∈ bucket q b → b = ELV_HASH_FN (rq_hash_key (rq_of q j)).

(** The hash lookup is exact: it returns a hashed, mergeable request that ends
    at the wanted sector whenever there is one, and drops no mergeable request
    from the hash. *)
Theorem rqhash_find_correct {D} (q : rqueue D) off :
  hash_ok q →
  (match (elv_rqhash_find off q).1 with
   | Some i => on_hash q i = true ∧ rq_mergeable (rq_of q i) = true ∧
               rq_end_sector (rq_of q i) = off
   | None => ∀ j, on_hash q j = true → rq_mergeable (rq_of q j) = true →
                  rq_end_sector (rq_of q j) ≠ off
   end) ∧
  ∀ j, rq_mergeable (rq_of q j) = true →
    on_hash (elv_rqhash_find off q).2 j = on_hash q j.
Proof.
  intros Hok. unfold elv_rqhash_find. set (l := bucket q (ELV_HASH_FN off)). split.
  - destruct (rqhash_walk off l q).1 as [i|] eqn:E.
    + apply rqhash_walk_found in E as (Hi & ? & ?). split_and!; [|done|done].
      apply on_hash_bucket. by eexists.
    + intros j Hj Hm Hk. apply on_hash_bucket in Hj as [b Hj].
      pose proof (Hok b j Hj) as Hb. unfold rq_hash_key in Hb. rewrite Hk in Hb. subst b.
      by apply (rqhash_walk_missed off l q j).
  - intros j Hm. apply eq_bool_prop_intro. rewrite !Is_true_true, !on_hash_bucket.
    split; intros [b Hj]; exists b; by apply (rqhash_walk_keeps off l).
Qed.

Lemma bucket_add {D} (q q' : rqueue D) i b :
  elv_rqhash_add i q = Some q' →
  bucket q' b = if decide (b = ELV_HASH_FN (rq_hash_key (rq_of q i)))
                then i :: bucket q b else bucket q b.
Proof.
  unfold elv_rqhash_add. destruct (on_hash q i); [done|]. intros E.
  apply (inj Some) in E as <-. unfold bucket. cbn [hash set_hash]. case_decide; subst.
  - by rewrite lookup_insert_eq.
  - by rewrite lookup_insert_ne.
Qed.

(** After a back merge moved the end of a request, [elv_rqhash_reposition]
    never hits its BUG_ON and puts the request back under its new key. *)
Theorem rqhash_reposition_ok {D} (q : rqueue D) i :
  (∀ b j, j ∈ bucket q b → j ≠ i → b = ELV_HASH_FN (rq_hash_key (rq_of q j))) →
  ∃ q', elv_rqhash_reposition i q = Some q' ∧ hash_ok q' ∧ on_hash q' i = true ∧
    ∀ j, on_hash q j = true → on_hash q' j = true.
Proof.
  intros Hok. unfold elv_rqhash_reposition. set (q1 := __elv_rqhash_del i q).
  assert (on_hash q1 i = false) as Hoff.
  { apply not_true_is_false. rewrite on_hash_bucket. intros [b Hb]. unfold q1 in Hb.
    rewrite bucket_del, list_elem_of_filter in Hb. tauto. }
  destruct (elv_rqhash_add i q1) as [q'|] eqn:E; [|unfold elv_rqhash_add in E; by rewrite Hoff in E].
  assert (∀ j, rq_of q' j = rq_of q j) as Hrq.
  { intros j. apply rqhash_add_fields in E as (Hr & _). apply rq_of_eq. by rewrite Hr. }
  exists q'. split; [done|]. split_and!.
  - intros b j Hj. rewrite (bucket_add q1 q' i b E) in Hj. rewrite Hrq. unfold q1 in Hj.
    rewrite bucket_del in Hj. case_decide as Hb.
    + apply elem_of_cons in Hj as [->|Hj]; [done|].
      apply list_elem_of_filter in Hj as [? ?]. by apply Hok.
    + apply list_elem_of_filter in Hj as [? ?]. by apply Hok.
  - apply on_hash_bucket. eexists. rewrite (bucket_add q1 q' i _ E), decide_True by done. left.
  - intros j Hj. apply on_hash_bucket. destruct (decide (j = i)) as [->|Hne].
    { eexists. rewrite (bucket_add q1 q' i _ E), decide_True by done. left. }
    apply on_hash_bucket in Hj as [b Hj]. exists b. rewrite (bucket_add q1 q' i b E).
    assert (j ∈ bucket q1 b) by (unfold q1; by rewrite bucket_del, list_elem_of_filter).
    case_decide; [by right|done].
Qed.

(** Two hashed reads ending at 108 and 208. *)
Definition hashed_queue : rqueue (list nat) :=
  default demo_queue (q ← elv_rqhash_add 0 demo_queue; elv_rqhash_add 1 q).

Lemma hashed_queue_buckets :
  Forall (λ p, Forall (λ j, p.1 = ELV_HASH_FN (rq_hash_key (rq_of hashed_queue j))) p.2)
    (map_to_list (hash hashed_queue)).
Proof. apply (bool_decide_unpack _). by vm_compute. Qed.

Lemma hashed_queue_ok : hash_ok hashed_queue.
Proof.
  intros b j. unfold bucket. destruct (hash hashed_queue !! b) as [l|] eqn:E.
  - apply elem_of_map_to_list in E.
    pose proof (proj1 (Forall_forall _ _) hashed_queue_buckets (b, l) E) as Hl.
    intros Hj. exact (proj1 (Forall_forall _ _) Hl j Hj).
  - intros Hj. exfalso. exact (not_elem_of_nil j Hj).
Qed.

Lemma rqhash_find_correct_witness :
  (elv_rqhash_find 108 hashed_queue).1 = Some 0%nat ∧
  on_hash (elv_rqhash_find 108 hashed_queue).2 1 = true.
Proof.
  destruct (rqhash_find_correct hashed_queue 108 hashed_queue_ok) as [_ H].
  split; [by vm_compute|]. rewrite (H 1%nat); by vm_compute.
Defined.

Lemma rqhash_reposition_ok_witness :
  ∃ q', elv_rqhash_reposition 0 (upd_rq 0 (λ _, demo_read 300) hashed_queue) = Some q' ∧
    hash_ok q' ∧ on_hash q' 1 = true.
Proof.
  destruct (rqhash_reposition_ok (upd_rq 0 (λ _, demo_read 300) hashed_queue) 0)
    as (q' & ? & ? & _ & H).
  - intros b j Hj Hne. rewrite rq_of_upd, decide_False by done. by apply hashed_queue_ok.
  - exists q'. split_and!; [done|done|]. apply H. by vm_compute.
Defined.
