(* ===== verification/Noop.v ===== *)
(** * The noop I/O scheduler (block/noop-iosched.c)

    A first-in first-out list.  The file implements the scheduler interface of
    the elevator with it, which makes the generic theorems of [Elevator] hold
    for it, and evaluates them on a concrete queue. *)
From S2P Require Import Prelude Elevator.

(** [struct noop_data]: the list of request names. *)
Record noop_data := mk_noop { nd_queue : list nat }.

Definition noop_merged_requests (rq next : nat) (q : rqueue noop_data) : option (rqueue noop_data) :=
  Some (set_edata (mk_noop (filter (λ j, j ≠ next) (nd_queue (edata q)))) q).

Definition noop_dispatch (q : rqueue noop_data) : option (bool * rqueue noop_data) :=
  match nd_queue (edata q) with
  | [] => Some (false, q)
  | rq :: rest => Some (true, elv_dispatch_sort rq (set_edata (mk_noop rest) q))
  end.

Definition noop_add_request (rq : nat) (q : rqueue noop_data) : option (rqueue noop_data) :=
  Some (set_edata (mk_noop (nd_queue (edata q) ++ [rq])) q).

Definition noop_queue_empty (d : noop_data) : bool :=
  match nd_queue d with [] => true | _ => false end.

(** The neighbours of a request that is on the list. *)
Definition noop_latter_request (d : noop_data) (rq : nat) : option nat :=
  next_in rq (nd_queue d).

Definition noop_former_request (d : noop_data) (rq : nat) : option nat :=
  next_in rq (reverse (nd_queue d)).

(** [alloc] is whether [kmalloc_node] succeeds. *)
Definition noop_init_queue (alloc : bool) : option noop_data :=
  if alloc then Some (mk_noop []) else None.

(** [None] is the BUG. *)
Definition noop_exit_queue (d : noop_data) : option () :=
  if negb (noop_queue_empty d) then None else Some ().

(** noop registers neither a merge nor a merged hook. *)
#[export] Instance noop_sched : Sched noop_data := {
  sched_add := noop_add_request;
  sched_dispatch := noop_dispatch;
  sched_merge _ _ := None;
  sched_merged _ _ q := Some q;
  sched_merge_req := noop_merged_requests;
  sched_empty := noop_queue_empty;
  sched_contents := nd_queue;
}.

(** ** The interface holds *)

Lemma noop_add_ok (q : rqueue noop_data) i :
  True → in_u32 (nr_sorted q) → i ∉ sched_contents (edata q) →
  ∃ q', sched_add i q = Some q' ∧ True ∧
    queued q' ≡ₚ i :: queued q ∧ i ∈ sched_contents (edata q') ∧
    nr_sorted q' = u32 (nr_sorted q - 1 + Z.of_nat (length (sched_contents (edata q')))
                        - Z.of_nat (length (sched_contents (edata q)))) ∧
    (∀ j, same_flags (rq_of q j) (rq_of q' j)) ∧ hash_shrinks q q'.
Proof.
  intros _ Hn Hi. eexists. split; [reflexivity|]. cbn. split_and!; try done.
  - unfold queued. cbn. by rewrite app_assoc, Permutation_app_comm.
  - apply elem_of_app. right. by apply list_elem_of_singleton.
  - rewrite length_app. cbn [length].
    replace (_ - _) with (nr_sorted q) by lia. by rewrite u32_small.
  - split; [done|by left].
Qed.

Lemma noop_dispatch_ok (q : rqueue noop_data) :
  True →
  ∃ b q', sched_dispatch q = Some (b, q') ∧ True ∧ queued q' ≡ₚ queued q ∧
    (∀ j, same_flags (rq_of q j) (rq_of q' j)) ∧
    if (b : bool) then
      length (sched_contents (edata q)) = S (length (sched_contents (edata q'))) ∧
      nr_sorted q' = u32 (nr_sorted q - 1)
    else q' = q ∧ sched_contents (edata q) = [].
Proof.
  intros _. cbn [sched_dispatch noop_sched sched_contents]. unfold noop_dispatch.
  destruct (nd_queue (edata q)) as [|i rest] eqn:Hd.
  - by exists false, q.
  - set (q1 := set_edata _ q). destruct (dispatch_sort_value q1 i) as (Hr & He & _ & Hn & _).
    eexists true, _. split; [reflexivity|]. split_and!; [done| | | |done].
    + unfold queued. rewrite dispatch_sort_perm, He. cbn. rewrite Hd. by rewrite Permutation_middle.
    + intros j. by rewrite (rq_of_eq q1 (elv_dispatch_sort i q1)) by done.
    + by rewrite He.
Qed.

#[export, refine] Instance noop_ok : SchedOk noop_data := {
  sched_inv _ := True;
  sched_add_ok := noop_add_ok;
  sched_dispatch_ok := noop_dispatch_ok;
}.
Proof.
  - done.
  - done.
  - intros d. cbn. unfold noop_queue_empty. by destruct (nd_queue d).
Defined.

(** ** The neighbours *)

(** The former request of the latter request is the request itself. *)
Theorem noop_neighbours (d : noop_data) i j :
  NoDup (nd_queue d) →
  noop_latter_request d i = Some j ↔ noop_former_request d j = Some i.
Proof.
  intros Hnd. unfold noop_latter_request, noop_former_request.
  rewrite !next_in_split; [|by rewrite reverse_Permutation|done].
  split; intros (l1 & l2 & E); exists (reverse l2), (reverse l1).
  - rewrite E, reverse_app, !reverse_cons. by rewrite <- !app_assoc.
  - apply (f_equal reverse) in E. rewrite reverse_involutive in E.
    rewrite E, reverse_app, !reverse_cons. by rewrite <- !app_assoc.
Qed.

(** ** The generic theorems on a concrete queue *)

Lemma noop_inv (q : rqueue noop_data) : sched_inv q.
Proof. exact I. Qed.

(** Two reads with the scheduler, one on the dispatch queue; requests 3 (a
    read), 4 (a read with a barrier) and 5 (a packet command) are new. *)
Definition noop_demo : rqueue noop_data :=
  mk_rqueue {[ 0%nat := demo_read 100; 1%nat := demo_read 200; 2%nat := demo_read 20;
               3%nat := demo_read 150; 4%nat := set_er_soft true (demo_read 40);
               5%nat := mk_erq 0 0 false false false true false false false false false
                          false true false 0 false false 0 ]}
    [0%nat] 2 50 None None ∅ false idle_ord false false (mk_noop [1; 2]%nat).

Lemma drain_complete_witness :
  ∃ q', elv_drain_elevator 3 noop_demo = Some q' ∧ queue_head q' = [0; 1; 2]%nat ∧
    nd_queue (edata q') = [] ∧ nr_sorted q' = 0.
Proof.
  destruct (drain_complete 3 noop_demo (noop_inv _)) as (q' & E & Hc & _ & Hn); [by vm_compute| |].
  - cbn. lia.
  - exists q'. split_and!; [done| |done|done].
    apply (f_equal (fmap queue_head)) in E. vm_compute in E. by simplify_eq.
Defined.

Lemma insert_conserves_witness :
  ∃ q', elv_insert 3 3 ELEVATOR_INSERT_SORT noop_demo = Some q' ∧
    queued q' ≡ₚ [3; 0; 1; 2]%nat ∧ sorted_ok q'.
Proof.
  destruct (insert_conserves 3 noop_demo 3 ELEVATOR_INSERT_SORT (noop_inv _)) as (q' & ? & _ & ? & ?).
  - by vm_compute.
  - apply (bool_decide_unpack _). by vm_compute.
  - by vm_compute.
  - by left.
  - cbn. lia.
  - exists q'. split_and!; assumption.
Defined.

Lemma add_barrier_witness :
  ∃ q' l, __elv_add_request 3 4 ELEVATOR_INSERT_SORT noop_demo = Some q' ∧
    queue_head q' = l ++ [4%nat] ∧ l ≡ₚ [0; 1; 2]%nat.
Proof.
  destruct (add_barrier 3 noop_demo 4 (noop_inv _)) as (q' & l & ? & ? & ? & _).
  - cbn. lia.
  - by vm_compute.
  - exists q', l. split_and!; assumption.
Defined.

Lemma noop_demo_rqs : map_Forall (λ _ r, 0 ≤ er_pos r < 2 ^ 64) (rqs noop_demo).
Proof. apply (bool_decide_unpack _). by vm_compute. Qed.

Lemma noop_demo_pos j : in_u64 (er_pos (rq_of noop_demo j)).
Proof.
  unfold rq_of. destruct (rqs noop_demo !! j) as [r|] eqn:E.
  - exact (noop_demo_rqs j r E).
  - by split.
Qed.


(** A bio behind request 3 once that is hashed. *)
Lemma merge_target_ok_witness :
  ∃ q', elv_merge (mk_ebio 158 8 false false 0 false)
          (set_last_merge (Some 3%nat) noop_demo) = (BACK_MERGE, Some 3%nat, q') ∧
    rq_end_sector (rq_of noop_demo 3) = 158.
Proof.
  set (q := set_last_merge (Some 3%nat) noop_demo).
  destruct (merge_target_ok q q (mk_ebio 158 8 false false 0 false) BACK_MERGE 3)
    as [_ [[_ E]|[? _]]].
  - exact noop_demo_pos.
  - reflexivity.
  - by exists q.
  - done.
Defined.
