(* ===== verification/Deadline.v ===== *)
(** * The deadline I/O scheduler (block/deadline-iosched.c)

    Requests sit on a sorted tree and on a first-in first-out list per
    direction.  The scheduler serves batches in sector order, starts a batch
    at the oldest request when that has expired, and lets reads overtake
    writes a bounded number of times.  The file implements the scheduler
    interface of [Elevator] with it.

    A tree is modelled by its in-order sequence, which is all that the walks
    of [elv_rb_add] and [elv_rb_find] and [rb_next] depend on; [RbRequests]
    proves that the red-black trees in memory implement it.  [None] is a BUG. *)
From stdpp Require Import sorting.
From S2P Require Import Prelude Vsprintf SgIo Elevator.

(** ** Data *)

(** The [READ] and [WRITE] entries of a two-element array. *)
Record two (A : Type) := mk_two { rd : A; wr : A }.
Arguments mk_two {A} _ _.
Arguments rd {A} _.
Arguments wr {A} _.

Definition sel {A} (d : bool) (t : two A) : A := if d then wr t else rd t.
Definition upd {A} (d : bool) (v : A) (t : two A) : two A :=
  if d then mk_two (rd t) v else mk_two v (wr t).

Record deadline_data := mk_dd {
  sort_list : two (list nat);   (** the rb trees, as their in-order sequences *)
  fifo_list : two (list nat);
  next_rq : two (option nat);
  batching : Z;
  last_sector : Z;
  starved : Z;
  fifo_expire : two Z;
  fifo_batch : Z;
  writes_starved : Z;
  front_merges : Z;
  jiffies : Z;   (** the kernel's clock, which the scheduler reads *)
}.

Definition set_sort_list (v : two (list nat)) (x : deadline_data) : deadline_data :=
  mk_dd v (fifo_list x) (next_rq x) (batching x) (last_sector x) (starved x) (fifo_expire x)
    (fifo_batch x) (writes_starved x) (front_merges x) (jiffies x).
Definition set_fifo_list (v : two (list nat)) (x : deadline_data) : deadline_data :=
  mk_dd (sort_list x) v (next_rq x) (batching x) (last_sector x) (starved x) (fifo_expire x)
    (fifo_batch x) (writes_starved x) (front_merges x) (jiffies x).
Definition set_next_rq (v : two (option nat)) (x : deadline_data) : deadline_data :=
  mk_dd (sort_list x) (fifo_list x) v (batching x) (last_sector x) (starved x) (fifo_expire x)
    (fifo_batch x) (writes_starved x) (front_merges x) (jiffies x).
Definition set_batching (v : Z) (x : deadline_data) : deadline_data :=
  mk_dd (sort_list x) (fifo_list x) (next_rq x) v (last_sector x) (starved x) (fifo_expire x)
    (fifo_batch x) (writes_starved x) (front_merges x) (jiffies x).
Definition set_last_sector (v : Z) (x : deadline_data) : deadline_data :=
  mk_dd (sort_list x) (fifo_list x) (next_rq x) (batching x) v (starved x) (fifo_expire x)
    (fifo_batch x) (writes_starved x) (front_merges x) (jiffies x).
Definition set_starved (v : Z) (x : deadline_data) : deadline_data :=
  mk_dd (sort_list x) (fifo_list x) (next_rq x) (batching x) (last_sector x) v (fifo_expire x)
    (fifo_batch x) (writes_starved x) (front_merges x) (jiffies x).
Definition set_fifo_expire (v : two Z) (x : deadline_data) : deadline_data :=
  mk_dd (sort_list x) (fifo_list x) (next_rq x) (batching x) (last_sector x) (starved x) v
    (fifo_batch x) (writes_starved x) (front_merges x) (jiffies x).
Definition set_fifo_batch (v : Z) (x : deadline_data) : deadline_data :=
  mk_dd (sort_list x) (fifo_list x) (next_rq x) (batching x) (last_sector x) (starved x)
    (fifo_expire x) v (writes_starved x) (front_merges x) (jiffies x).
Definition set_writes_starved (v : Z) (x : deadline_data) : deadline_data :=
  mk_dd (sort_list x) (fifo_list x) (next_rq x) (batching x) (last_sector x) (starved x)
    (fifo_expire x) (fifo_batch x) v (front_merges x) (jiffies x).
Definition set_front_merges (v : Z) (x : deadline_data) : deadline_data :=
  mk_dd (sort_list x) (fifo_list x) (next_rq x) (batching x) (last_sector x) (starved x)
    (fifo_expire x) (fifo_batch x) (writes_starved x) v (jiffies x).
Definition set_jiffies (v : Z) (x : deadline_data) : deadline_data :=
  mk_dd (sort_list x) (fifo_list x) (next_rq x) (batching x) (last_sector x) (starved x)
    (fifo_expire x) (fifo_batch x) (writes_starved x) (front_merges x) v.

(** Stores through the scheduler's data pointer. *)
Definition dd_upd (f : deadline_data → deadline_data) (q : rqueue deadline_data)
    : rqueue deadline_data := set_edata (f (edata q)) q.

Definition dir_of (q : rqueue deadline_data) (i : nat) : bool := er_write (rq_of q i).

(** ** The sorted trees (block/elevator.c) *)

(** [inl a]: the request [a] has the same position. *)
Fixpoint elv_rb_add {D} (q : rqueue D) (i : nat) (l : list nat) : nat + list nat :=
  match l with
  | [] => inr [i]
  | p :: l' =>
      if er_pos (rq_of q i) <? er_pos (rq_of q p) then inr (i :: p :: l')
      else if er_pos (rq_of q p) <? er_pos (rq_of q i) then
        match elv_rb_add q i l' with
        | inl a => inl a
        | inr l'' => inr (p :: l'')
        end
      else inl p
  end.

Fixpoint elv_rb_find {D} (q : rqueue D) (sector : Z) (l : list nat) : option nat :=
  match l with
  | [] => None
  | p :: l' =>
      if sector <? er_pos (rq_of q p) then None
      else if er_pos (rq_of q p) <? sector then elv_rb_find q sector l'
      else Some p
  end.

Definition deadline_rb_root (q : rqueue deadline_data) (rq : nat) : list nat :=
  sel (dir_of q rq) (sort_list (edata q)).

Definition elv_rb_del (rq : nat) (q : rqueue deadline_data) : option (rqueue deadline_data) :=
  if bool_decide (rq ∈ deadline_rb_root q rq) then
    Some (dd_upd (λ dd, set_sort_list
      (upd (dir_of q rq) (without rq (deadline_rb_root q rq)) (sort_list dd)) dd) q)
  else None.

Definition deadline_latter_request (q : rqueue deadline_data) (rq : nat) : option nat :=
  next_in rq (deadline_rb_root q rq).

(** ** Moving requests *)

Definition deadline_del_rq_rb (rq : nat) (q : rqueue deadline_data) : option (rqueue deadline_data) :=
  let data_dir := dir_of q rq in
  let q := if bool_decide (sel data_dir (next_rq (edata q)) = Some rq) then
             dd_upd (λ dd, set_next_rq
               (upd data_dir (deadline_latter_request q rq) (next_rq dd)) dd) q
           else q in
  elv_rb_del rq q.

(** The request leaves the list it is on; its time is no longer one. *)
Definition rq_fifo_clear (rq : nat) (q : rqueue deadline_data) : rqueue deadline_data :=
  upd_rq rq (set_er_fifo_time 0)
    (dd_upd (λ dd, set_fifo_list
       (mk_two (without rq (rd (fifo_list dd))) (without rq (wr (fifo_list dd)))) dd) q).

Definition deadline_remove_request (rq : nat) (q : rqueue deadline_data)
    : option (rqueue deadline_data) :=
  deadline_del_rq_rb rq (rq_fifo_clear rq q).

Definition deadline_move_to_dispatch (rq : nat) (q : rqueue deadline_data)
    : option (rqueue deadline_data) :=
  q ← deadline_remove_request rq q;
  Some (elv_dispatch_add_tail rq q).

Definition deadline_move_request (rq : nat) (q : rqueue deadline_data)
    : option (rqueue deadline_data) :=
  let q := dd_upd (λ dd, set_next_rq
    (upd (dir_of q rq) (deadline_latter_request q rq) (mk_two None None)) dd) q in
  let q := dd_upd (set_last_sector (rq_end_sector (rq_of q rq))) q in
  deadline_move_to_dispatch rq q.

(** [while (alias = elv_rb_add(root, rq)) deadline_move_request(dd, alias);] *)
Fixpoint deadline_add_rq_rb (fuel : nat) (rq : nat) (q : rqueue deadline_data)
    : option (rqueue deadline_data) :=
  match fuel with
  | O => None
  | S fuel =>
      match elv_rb_add q rq (deadline_rb_root q rq) with
      | inl alias =>
          q ← deadline_move_request alias q;
          deadline_add_rq_rb fuel rq q
      | inr l => Some (dd_upd (λ dd, set_sort_list (upd (dir_of q rq) l (sort_list dd)) dd) q)
      end
  end.

(** Every turn of the loop takes a request off the tree. *)
Definition rb_fuel (rq : nat) (q : rqueue deadline_data) : nat :=
  S (length (deadline_rb_root q rq)).

Definition deadline_add_request (rq : nat) (q : rqueue deadline_data)
    : option (rqueue deadline_data) :=
  let data_dir := dir_of q rq in
  q ← deadline_add_rq_rb (rb_fuel rq q) rq q;
  let q := upd_rq rq (set_er_fifo_time
    (u64 (jiffies (edata q) + sel data_dir (fifo_expire (edata q))))) q in
  Some (dd_upd (λ dd, set_fifo_list
    (upd data_dir (sel data_dir (fifo_list dd) ++ [rq]) (fifo_list dd)) dd) q).

(** ** Merging *)

Definition deadline_merge (b : ebio) (q : rqueue deadline_data) : option nat :=
  if truthy (front_merges (edata q)) then
    let sector := u64 (eb_sector b + eb_sectors b) in
    match elv_rb_find q sector (sel (eb_write b) (sort_list (edata q))) with
    | Some rq => if elv_rq_merge_ok (rq_of q rq) b then Some rq else None
    | None => None
    end
  else None.

Definition deadline_merged_request (req : nat) (type : merge_kind) (q : rqueue deadline_data)
    : option (rqueue deadline_data) :=
  match type with
  | FRONT_MERGE =>
      q ← elv_rb_del req q;
      deadline_add_rq_rb (rb_fuel req q) req q
  | _ => Some q
  end.

(** [(long)b - (long)a < 0], the difference wrapping. *)
Definition time_after (a b : Z) : bool := s64 (s64 b - s64 a) <? 0.
Definition time_before (a b : Z) : bool := time_after b a.

Definition on_fifo (q : rqueue deadline_data) (i : nat) : bool :=
  bool_decide (i ∈ rd (fifo_list (edata q)) ++ wr (fifo_list (edata q))).

(** [list_move(&req->queuelist, &next->queuelist)]: [req] goes behind [next]. *)
Definition put_behind (next req : nat) (l : list nat) : list nat :=
  l ≫= λ j, if Nat.eqb j next then [next; req] else [j].
Definition list_move (req next : nat) (l : list nat) : list nat :=
  put_behind next req (without req l).

Definition deadline_merged_requests (req next : nat) (q : rqueue deadline_data)
    : option (rqueue deadline_data) :=
  let q :=
    if on_fifo q req && on_fifo q next
       && time_before (er_fifo_time (rq_of q next)) (er_fifo_time (rq_of q req)) then
      upd_rq req (set_er_fifo_time (er_fifo_time (rq_of q next)))
        (dd_upd (λ dd, set_fifo_list
           (mk_two (list_move req next (rd (fifo_list dd)))
                   (list_move req next (wr (fifo_list dd)))) dd) q)
    else q in
  deadline_remove_request next q.

(** ** Dispatching *)

(** Requires a request on the list. *)
Definition deadline_check_fifo (q : rqueue deadline_data) (ddir : bool) : option bool :=
  rq ← head (sel ddir (fifo_list (edata q)));
  Some (time_after (jiffies (edata q)) (er_fifo_time (rq_of q rq))).

(** From the label [dispatch_request]. *)
Definition dispatch_request (rq : nat) (q : rqueue deadline_data)
    : option (bool * rqueue deadline_data) :=
  let q := dd_upd (λ dd, set_batching (u32 (batching dd + 1)) dd) q in
  q ← deadline_move_request rq q;
  Some (true, q).

(** From the label [dispatch_find_request]. *)
Definition dispatch_find_request (data_dir : bool) (q : rqueue deadline_data)
    : option (bool * rqueue deadline_data) :=
  expired ← deadline_check_fifo q data_dir;
  oldest ← head (sel data_dir (fifo_list (edata q)));
  let rq := match sel data_dir (next_rq (edata q)) with
            | Some next => if (expired : bool) then oldest else next
            | None => oldest
            end in
  dispatch_request rq (dd_upd (set_batching 0) q).

(** From the label [dispatch_writes]. *)
Definition dispatch_writes (q : rqueue deadline_data) : option (bool * rqueue deadline_data) :=
  match wr (sort_list (edata q)) with
  | [] => None
  | _ => dispatch_find_request true (dd_upd (set_starved 0) q)
  end.

Definition is_nil {A} (l : list A) : bool := match l with [] => true | _ => false end.

Definition deadline_dispatch_requests (q : rqueue deadline_data)
    : option (bool * rqueue deadline_data) :=
  let reads := negb (is_nil (rd (fifo_list (edata q)))) in
  let writes := negb (is_nil (wr (fifo_list (edata q)))) in
  let rq := match wr (next_rq (edata q)) with
            | Some rq => Some rq
            | None => rd (next_rq (edata q))
            end in
  let no_batch :=
    if reads then
      if is_nil (rd (sort_list (edata q))) then None
      else if writes then
        let starve := u32 (writes_starved (edata q)) <=? starved (edata q) in
        let q := dd_upd (λ dd, set_starved (u32 (starved dd + 1)) dd) q in
        if starve then dispatch_writes q else dispatch_find_request false q
      else dispatch_find_request false q
    else if writes then dispatch_writes q
    else Some (false, q) in
  match rq with
  | Some rq =>
      if batching (edata q) <? u32 (fifo_batch (edata q)) then dispatch_request rq q else no_batch
  | None => no_batch
  end.

Definition deadline_queue_empty (dd : deadline_data) : bool :=
  is_nil (wr (fifo_list dd)) && is_nil (rd (fifo_list dd)).

(** ** Setting up and tearing down *)

Definition read_expire : Z := HZ / 2.
Definition write_expire : Z := 5 * HZ.

(** [alloc] is whether [kmalloc_node] succeeds. *)
Definition deadline_init_queue (alloc : bool) (now : Z) : option deadline_data :=
  if alloc then
    Some (mk_dd (mk_two [] []) (mk_two [] []) (mk_two None None) 0 0 0
      (mk_two read_expire write_expire) 16 2 1 now)
  else None.

Definition deadline_exit_queue (dd : deadline_data) : option () :=
  match rd (fifo_list dd), wr (fifo_list dd) with
  | [], [] => Some ()
  | _, _ => None
  end.

#[export] Instance deadline_sched : Sched deadline_data := {
  sched_add := deadline_add_request;
  sched_dispatch := deadline_dispatch_requests;
  sched_merge := deadline_merge;
  sched_merged := deadline_merged_request;
  sched_merge_req := deadline_merged_requests;
  sched_empty := deadline_queue_empty;
  sched_contents dd := rd (fifo_list dd) ++ wr (fifo_list dd);
}.

(** ** The settings in sysfs *)

Inductive dd_attr := Read_expire | Write_expire | Writes_starved | Front_merges | Fifo_batch.

Definition INT_MAX : Z := 2 ^ 31 - 1.
Definition INT_MIN : Z := - 2 ^ 31.

Definition deadline_var_show (var : Z) : string := (fmt_d var +:+ String NL "")%string.
Definition deadline_var_store (page : string) : Z := s32 (simple_strtol page 10).1.

Definition jiffies_to_msecs (j : Z) : Z := u32 (u64 (MSEC_PER_SEC / HZ * j)).

(** The arguments of [SHOW_FUNCTION] and [STORE_FUNCTION]. *)
Definition attr_get (a : dd_attr) (dd : deadline_data) : Z :=
  match a with
  | Read_expire => rd (fifo_expire dd)
  | Write_expire => wr (fifo_expire dd)
  | Writes_starved => writes_starved dd
  | Front_merges => front_merges dd
  | Fifo_batch => fifo_batch dd
  end.
Definition attr_set (a : dd_attr) (v : Z) (dd : deadline_data) : deadline_data :=
  match a with
  | Read_expire => set_fifo_expire (upd false v (fifo_expire dd)) dd
  | Write_expire => set_fifo_expire (upd true v (fifo_expire dd)) dd
  | Writes_starved => set_writes_starved v dd
  | Front_merges => set_front_merges v dd
  | Fifo_batch => set_fifo_batch v dd
  end.
Definition attr_conv (a : dd_attr) : bool :=
  match a with Read_expire | Write_expire => true | _ => false end.
Definition attr_min (a : dd_attr) : Z :=
  match a with Writes_starved => INT_MIN | _ => 0 end.
Definition attr_max (a : dd_attr) : Z :=
  match a with Front_merges => 1 | _ => INT_MAX end.

Definition deadline_show (a : dd_attr) (dd : deadline_data) : string :=
  let data := attr_get a dd in
  let data := if attr_conv a then s32 (jiffies_to_msecs (u64 data)) else data in
  deadline_var_show data.

(** The new data and the returned count. *)
Definition deadline_store (a : dd_attr) (page : string) (count : Z) (dd : deadline_data)
    : deadline_data * Z :=
  let data := deadline_var_store page in
  let data := if data <? attr_min a then attr_min a
              else if data >? attr_max a then attr_max a else data in
  let v := if attr_conv a then s32 (msecs_to_jiffies (u32 data)) else data in
  (attr_set a v dd, count).

(** ** Lemmas on the trees *)

Lemma sel_upd {A} d (v : A) t : sel d (upd d v t) = v.
Proof. by destruct d. Qed.
Lemma sel_upd_other {A} d (v : A) t : sel (negb d) (upd d v t) = sel (negb d) t.
Proof. by destruct d. Qed.
Lemma upd_upd {A} d (v w : A) t : upd d v (upd d w t) = upd d v t.
Proof. by destruct d. Qed.

Definition tree_ok (g : nat → erq) (d : bool) (l : list nat) : Prop :=
  StronglySorted (λ a b, er_pos (g a) < er_pos (g b)) l ∧ Forall (λ i, er_write (g i) = d) l.

Lemma tree_nodup g d l : tree_ok g d l → NoDup l.
Proof.
  intros [Hs _]. induction Hs as [|p l _ IH Hp]; constructor; [|done].
  intros Hin. pose proof (proj1 (Forall_forall _ _) Hp p Hin). cbn in *. lia.
Qed.

Lemma tree_without g d i l : tree_ok g d l → tree_ok g d (without i l).
Proof.
  intros [Hs Hw]. split.
  - clear Hw. induction Hs as [|p l Hs IH Hp]; [constructor|].
    rewrite without_cons. case_decide; [done|]. constructor; [done|]. by apply Forall_without.
  - by apply Forall_without.
Qed.

Lemma tree_ext g g' d l :
  (∀ i, i ∈ l → er_pos (g' i) = er_pos (g i) ∧ er_write (g' i) = er_write (g i)) →
  tree_ok g d l → tree_ok g' d l.
Proof.
  intros Hg [Hs Hw]. split.
  - induction Hs as [|p l Hs IH Hp]; constructor.
    + apply IH; [|by apply Forall_cons in Hw as [_ ?]]. intros i Hi. apply Hg. by right.
    + apply Forall_forall. intros j Hj.
      pose proof (proj1 (Forall_forall _ _) Hp j Hj) as H0. cbn beta in H0.
      destruct (Hg p) as [-> _]; [left|]. destruct (Hg j) as [-> _]; [by right|]. done.
  - apply Forall_forall. intros i Hi. destruct (Hg i Hi) as [_ ->].
    by apply (proj1 (Forall_forall _ _) Hw).
Qed.

Lemma tree_pos_inj g d l i j :
  tree_ok g d l → i ∈ l → j ∈ l → er_pos (g i) = er_pos (g j) → i = j.
Proof.
  intros [Hs _]. induction Hs as [|p l Hs IH Hp]; [by intros ?%elem_of_nil|].
  rewrite !elem_of_cons. rewrite Forall_forall in Hp. intros [->|Hi] [->|Hj] E; try done.
  - specialize (Hp j Hj). lia.
  - specialize (Hp i Hi). lia.
  - by apply IH.
Qed.

(** What [elv_rb_add] does: it inserts at the sorted place, or returns the
    request of the same position. *)
Lemma rb_add_spec {D} (q : rqueue D) i d l :
  tree_ok (rq_of q) d l → er_write (rq_of q i) = d →
  match elv_rb_add q i l with
  | inl a => a ∈ l ∧ er_pos (rq_of q a) = er_pos (rq_of q i)
  | inr l' => l' ≡ₚ i :: l ∧ tree_ok (rq_of q) d l' ∧
              Forall (λ p, er_pos (rq_of q p) ≠ er_pos (rq_of q i)) l
  end.
Proof.
  intros Ht Hi. induction l as [|p l IH]; cbn [elv_rb_add].
  { split_and!; [done| |constructor]. split; repeat constructor. done. }
  destruct Ht as [Hs Hw]. apply StronglySorted_cons in Hs as [Hp Hs].
  apply Forall_cons in Hw as [Hpw Hw].
  repeat zcase; zbool.
  - split_and!; [done| |].
    + split; [|by repeat constructor]. constructor; [by constructor|]. constructor; [done|].
      eapply Forall_impl; [exact Hp|]. cbn. lia.
    + constructor; [lia|]. eapply Forall_impl; [exact Hp|]. cbn. lia.
  - specialize (IH (conj Hs Hw)). destruct (elv_rb_add q i l) as [a|l'].
    + destruct IH. split; [by right|done].
    + destruct IH as (Hl & [Hs' Hw'] & Hne). split_and!.
      * rewrite Hl. constructor.
      * split; [|by constructor]. constructor; [done|]. rewrite Hl. by constructor.
      * constructor; [lia|done].
  - split; [left|lia].
Qed.

Lemma rb_find_spec {D} (q : rqueue D) d sector l :
  tree_ok (rq_of q) d l →
  match elv_rb_find q sector l with
  | Some i => i ∈ l ∧ er_pos (rq_of q i) = sector
  | None => ∀ i, i ∈ l → er_pos (rq_of q i) ≠ sector
  end.
Proof.
  intros [Hs _]. induction Hs as [|p l Hs IH Hp]; cbn [elv_rb_find].
  { by intros i ?%elem_of_nil. }
  repeat zcase; zbool.
  - intros i [->|Hi]%elem_of_cons; [lia|].
    pose proof (proj1 (Forall_forall _ _) Hp i Hi). cbn in *. lia.
  - destruct (elv_rb_find q sector l); [|].
    + destruct IH. split; [by right|done].
    + intros i [->|Hi]%elem_of_cons; [lia|by apply IH].
  - split; [left|lia].
Qed.

Lemma rb_find_pos {D} (q : rqueue D) sector l i :
  elv_rb_find q sector l = Some i → er_pos (rq_of q i) = sector.
Proof.
  induction l as [|p l IH]; cbn [elv_rb_find]; [done|]. repeat zcase; zbool; auto.
  - done.
  - intros [= <-]. lia.
Qed.

(** ** The invariant

    The tree and the list of a direction hold the same requests of that
    direction, the tree is sorted strictly, and the next request is in it.
    [ex] are requests that are on the list but not (yet) in the tree. *)
Definition inv_ex (ex : two (list nat)) (q : rqueue deadline_data) : Prop :=
  ∀ d, tree_ok (rq_of q) d (sel d (sort_list (edata q))) ∧
    sel d (fifo_list (edata q)) ≡ₚ sel d ex ++ sel d (sort_list (edata q)) ∧
    (∀ i, sel d (next_rq (edata q)) = Some i → i ∈ sel d ex ++ sel d (sort_list (edata q))).

Definition none_ex : two (list nat) := mk_two [] [].

Definition deadline_inv (q : rqueue deadline_data) : Prop := inv_ex none_ex q.

Lemma next_in_ne l i j : NoDup l → next_in i l = Some j → j ≠ i.
Proof.
  intros Hnd. rewrite next_in_split by done. intros (l1 & l2 & ->) ->.
  apply NoDup_app in Hnd as (_ & _ & Hnd). apply NoDup_cons in Hnd as [Hi _]. apply Hi. left.
Qed.

Lemma dir_of_eq (q q' : rqueue deadline_data) i :
  rqs q' = rqs q → dir_of q' i = dir_of q i.
Proof. intros. unfold dir_of. by rewrite (rq_of_eq q q'). Qed.

(** The data after a request was moved to the dispatch queue. *)
Definition moved (d : bool) (i : nat) (sector : Z) (dd : deadline_data) : deadline_data :=
  set_sort_list (upd d (without i (sel d (sort_list dd))) (sort_list dd))
    (set_fifo_list (mk_two (without i (rd (fifo_list dd))) (without i (wr (fifo_list dd))))
      (set_last_sector sector
        (set_next_rq (upd d (next_in i (sel d (sort_list dd))) (mk_two None None)) dd))).

Lemma move_request_value (q : rqueue deadline_data) i d :
  dir_of q i = d → NoDup (sel d (sort_list (edata q))) → i ∈ sel d (sort_list (edata q)) →
  ∃ q', deadline_move_request i q = Some q' ∧
    edata q' = moved d i (rq_end_sector (rq_of q i)) (edata q) ∧
    queue_head q' = queue_head q ++ [i] ∧ nr_sorted q' = u32 (nr_sorted q - 1) ∧
    (∀ j, same_flags (rq_of q j) (rq_of q' j)) ∧ hash_shrinks q q'.
Proof.
  intros Hd Hnd Hi. unfold deadline_move_request, deadline_move_to_dispatch,
    deadline_remove_request, deadline_latter_request, deadline_rb_root. rewrite Hd.
  set (q1 := dd_upd _ (dd_upd _ q)). set (q2 := rq_fifo_clear i q1).
  assert (∀ j, same_flags (rq_of q j) (rq_of q2 j)) as Hfl.
  { intros j. unfold q2, rq_fifo_clear. rewrite rq_of_upd. case_decide; subst; done. }
  assert (dir_of q2 i = d) as Hd2.
  { destruct (Hfl i) as (_ & _ & _ & _ & Hw). unfold dir_of in *. by rewrite Hw. }
  unfold deadline_del_rq_rb. rewrite Hd2.
  rewrite bool_decide_false.
  2:{ unfold q2, q1. cbn. rewrite sel_upd. intros E. by apply next_in_ne in E. }
  unfold elv_rb_del, deadline_rb_root. rewrite Hd2.
  rewrite bool_decide_true by done. cbn [mbind option_bind].
  set (q3 := dd_upd _ q2).
  destruct (dispatch_add_tail_value q3 i) as (Hr & He & Hq & Hn & Hh).
  eexists. split; [reflexivity|]. rewrite He, Hq, Hn. split_and!; try done.
  intros j. by rewrite (rq_of_eq q3 (elv_dispatch_add_tail i q3)) by done.
Qed.

(** Taking a request off the tree of its direction takes it off both. *)
Lemma sel_upd_without g d d' i t :
  (∀ d'', tree_ok g d'' (sel d'' t)) → er_write (g i) = d →
  sel d' (upd d (without i (sel d t)) t) = without i (sel d' t).
Proof.
  intros Ht Hd. destruct (decide (d' = d)) as [->|Hne]; [by rewrite sel_upd|].
  assert (d' = negb d) as -> by (by destruct d, d'). rewrite sel_upd_other.
  rewrite without_notin; [done|]. intros Hin. destruct (Ht (negb d)) as [_ Hw].
  pose proof (proj1 (Forall_forall _ _) Hw i Hin) as Hd'. cbn in Hd'.
  rewrite Hd in Hd'. by destruct d.
Qed.

Lemma sel_moved d d' i s dd :
  sel d' (fifo_list (moved d i s dd)) = without i (sel d' (fifo_list dd)).
Proof. by destruct d'. Qed.

Lemma moved_inv ex (q q' : rqueue deadline_data) i d s :
  inv_ex ex q → dir_of q i = d → i ∈ sel d (sort_list (edata q)) →
  (∀ d', i ∉ sel d' ex) →
  edata q' = moved d i s (edata q) → (∀ j, same_flags (rq_of q j) (rq_of q' j)) →
  inv_ex ex q'.
Proof.
  intros Hinv Hd Hi Hex He Hfl d'. destruct (Hinv d') as (Ht & Hp & Hnx).
  rewrite He, sel_moved.
  assert (sel d' (sort_list (moved d i s (edata q))) = without i (sel d' (sort_list (edata q)))) as Hs.
  { apply (sel_upd_without (rq_of q)); [|done]. intros d''. apply Hinv. }
  rewrite Hs. split_and!.
  - apply tree_without. eapply tree_ext; [|exact Ht]. intros j _.
    destruct (Hfl j) as (_ & _ & ? & _ & ?). done.
  - by rewrite Hp, without_app, (without_notin i (sel d' ex)).
  - intros j. cbn. destruct (decide (d' = d)) as [->|Hne].
    + rewrite sel_upd. intros E. apply elem_of_app. right. apply elem_of_without.
      pose proof (tree_nodup _ _ _ Ht). split; [by eapply next_in_ne|by eapply next_in_elem].
    + assert (d' = negb d) as -> by (by destruct d, d'). rewrite sel_upd_other. by destruct d.
Qed.

Definition count_of (o : option nat) : Z := match o with Some _ => 1 | None => 0 end.

(** [q'] is [q], or [q] with the request [a] moved to the dispatch queue. *)
Definition moved_out (o : option nat) (q q' : rqueue deadline_data) : Prop :=
  match o with
  | None => q' = q
  | Some a =>
      a ∈ sel (dir_of q a) (sort_list (edata q)) ∧
      edata q' = moved (dir_of q a) a (rq_end_sector (rq_of q a)) (edata q) ∧
      queue_head q' = queue_head q ++ [a] ∧ nr_sorted q' = u32 (nr_sorted q - 1) ∧
      (∀ j, same_flags (rq_of q j) (rq_of q' j)) ∧ hash_shrinks q q'
  end.

Lemma move_request_out (q : rqueue deadline_data) i d :
  tree_ok (rq_of q) d (sel d (sort_list (edata q))) → i ∈ sel d (sort_list (edata q)) →
  ∃ q', deadline_move_request i q = Some q' ∧ moved_out (Some i) q q' ∧ dir_of q i = d.
Proof.
  intros Ht Hi. assert (dir_of q i = d) as Hd.
  { destruct Ht as [_ Hw]. by apply (proj1 (Forall_forall _ _) Hw) in Hi. }
  destruct (move_request_value q i d) as (q' & ? & ? & ? & ? & ? & ?); try done.
  { by eapply tree_nodup. }
  exists q'. unfold moved_out. by rewrite Hd.
Qed.

Lemma moved_out_inv ex o (q q' : rqueue deadline_data) :
  inv_ex ex q → moved_out o q q' → (∀ a d, o = Some a → a ∉ sel d ex) → inv_ex ex q'.
Proof.
  intros Hinv Ho Hex. destruct o as [a|]; [|by rewrite Ho].
  destruct Ho as (Ha & He & _ & _ & Hfl & _).
  eapply moved_inv; [exact Hinv|done|exact Ha| |exact He|done]. intros d. by apply Hex.
Qed.

Lemma moved_out_queued o (q q' : rqueue deadline_data) :
  moved_out o q q' → NoDup (sched_contents (edata q)) →
  (∀ a, o = Some a → a ∈ sched_contents (edata q)) →
  queued q' ≡ₚ queued q ∧ NoDup (sched_contents (edata q')) ∧
  sched_contents (edata q') ⊆ sched_contents (edata q) ∧
  (∀ j, same_flags (rq_of q j) (rq_of q' j)) ∧ hash_shrinks q q' ∧
  Z.of_nat (length (sched_contents (edata q))) =
    Z.of_nat (length (sched_contents (edata q'))) + count_of o ∧
  (in_u32 (nr_sorted q) → nr_sorted q' = u32 (nr_sorted q - count_of o)).
Proof.
  destruct o as [a|].
  - intros (_ & He & Hq & Hn & Hfl & Hh) Hnd Ha. specialize (Ha a eq_refl).
    assert (sched_contents (edata q') = without a (sched_contents (edata q))) as Hc.
    { rewrite He. symmetry. apply without_app. }
    rewrite Hc. split_and!; try done.
    + unfold queued. rewrite Hq, Hc, <- app_assoc. f_equiv. cbn [app].
      by rewrite <- without_perm.
    + by apply NoDup_without.
    + intros j [_ ?]%elem_of_without. done.
    + rewrite (without_length a (sched_contents (edata q))) by done. cbn [count_of]. lia.
  - intros -> Hnd _. split_and!; try done; [by split; [|left]|cbn [count_of]; lia|].
    intros ?. cbn [count_of]. by rewrite Z.sub_0_r, u32_small.
Qed.

(** The settings and counters, which moving a request leaves alone. *)
Definition counters (dd : deadline_data) : Z * Z * two Z * Z * Z * Z * Z :=
  (batching dd, starved dd, fifo_expire dd, fifo_batch dd, writes_starved dd,
   front_merges dd, jiffies dd).

Lemma moved_out_counters o (q q' : rqueue deadline_data) :
  moved_out o q q' → counters (edata q') = counters (edata q).
Proof. destruct o; [|by intros ->]. intros (_ & -> & _). done. Qed.

(** [deadline_add_rq_rb] terminates: it moves out at most one request, the one
    of the same position, and inserts the new one at its place. *)
Lemma add_rq_rb_spec ex (q : rqueue deadline_data) i d :
  inv_ex ex q → dir_of q i = d → i ∉ sel d (sort_list (edata q)) →
  (∀ d' j, j ∈ sel d' ex → j = i) →
  ∃ q1 o l, deadline_add_rq_rb (rb_fuel i q) i q =
      Some (dd_upd (λ dd, set_sort_list (upd d l (sort_list dd)) dd) q1) ∧
    moved_out o q q1 ∧ inv_ex ex q1 ∧ tree_ok (rq_of q1) d l ∧
    l ≡ₚ i :: sel d (sort_list (edata q1)) ∧
    (∀ a, o = Some a → a ∈ sel d (sort_list (edata q))) ∧ dir_of q1 i = d.
Proof.
  intros Hinv Hd Hi Hex. unfold rb_fuel, deadline_rb_root. rewrite Hd.
  destruct (Hinv d) as (Ht & _ & _). pose proof (rb_add_spec q i d _ Ht Hd) as Hadd.
  cbn [deadline_add_rq_rb]. unfold deadline_rb_root at 1. rewrite Hd.
  destruct (elv_rb_add q i (sel d (sort_list (edata q)))) as [a|l] eqn:Ea.
  - destruct Hadd as [Ha Hpos].
    destruct (move_request_out q a d) as (q1 & -> & Ho & Hda); [done|done|]. cbn [mbind option_bind].
    assert (inv_ex ex q1) as Hinv1.
    { eapply moved_out_inv; [done|exact Ho|]. intros a' d' [= <-] Hin.
      apply Hex in Hin as ->. done. }
    destruct (length (sel d (sort_list (edata q)))) as [|n] eqn:Hlen.
    { by apply length_zero_iff_nil in Hlen; rewrite Hlen in Ha; apply elem_of_nil in Ha. }
    destruct Ho as (Ha' & He & Hq & Hn & Hfl & Hh) eqn:Ho'. clear Ho'.
    assert (dir_of q1 i = d) as Hd1.
    { unfold dir_of in *. destruct (Hfl i) as (_ & _ & _ & _ & ->). done. }
    assert (sel d (sort_list (edata q1)) = without a (sel d (sort_list (edata q)))) as Hs1.
    { rewrite He, Hda. cbn. by rewrite sel_upd. }
    destruct (Hinv1 d) as (Ht1 & _ & _). pose proof (rb_add_spec q1 i d _ Ht1 Hd1) as Hadd1.
    cbn [deadline_add_rq_rb]. unfold deadline_rb_root at 1. rewrite Hd1.
    destruct (elv_rb_add q1 i _) as [b|l] eqn:Eb.
    + exfalso. destruct Hadd1 as [Hb Hpb]. rewrite Hs1 in Hb.
      apply elem_of_without in Hb as [Hba Hb].
      assert (er_pos (rq_of q b) = er_pos (rq_of q a)) as Hpba.
      { destruct (Hfl b) as (_ & _ & E1 & _), (Hfl i) as (_ & _ & E2 & _). congruence. }
      apply Hba. exact (tree_pos_inj _ d _ b a Ht Hb Ha Hpba).
    + destruct Hadd1 as (? & ? & _).
      exists q1, (Some a), l. split_and!; try done. by intros ? [= <-].
  - destruct Hadd as (? & ? & _). exists q, None, l. by split_and!.
Qed.

(** ** The scheduler interface holds *)

Lemma sel_none d : sel d none_ex = [].
Proof. by destruct d. Qed.

Lemma inv_nodup q : deadline_inv q → NoDup (sched_contents (edata q)).
Proof.
  intros Hinv. destruct (Hinv false) as (Hr & Hfr & _), (Hinv true) as (Hw & Hfw & _).
  cbn in Hfr, Hfw. cbn. rewrite Hfr, Hfw. apply NoDup_app. split_and!.
  - by eapply tree_nodup.
  - intros i Hi1 Hi2. destruct Hr as [_ Hr], Hw as [_ Hw].
    pose proof (proj1 (Forall_forall _ _) Hr i Hi1) as E1.
    pose proof (proj1 (Forall_forall _ _) Hw i Hi2) as E2. cbn in *. congruence.
  - by eapply tree_nodup.
Qed.

Lemma in_sort_contents q d i :
  deadline_inv q → i ∈ sel d (sort_list (edata q)) → i ∈ sched_contents (edata q).
Proof.
  intros Hinv Hi. destruct (Hinv d) as (_ & Hf & _). cbn. rewrite elem_of_app.
  assert (i ∈ sel d (fifo_list (edata q))) as Hif by (rewrite Hf; apply elem_of_app; by right).
  destruct d; auto.
Qed.

Lemma contents_in_sort q i :
  deadline_inv q → i ∈ sched_contents (edata q) → ∃ d, i ∈ sel d (sort_list (edata q)).
Proof.
  intros Hinv. cbn. rewrite elem_of_app. intros [Hi|Hi]; [exists false|exists true].
  - destruct (Hinv false) as (_ & Hf & _). cbn in *. by rewrite Hf in Hi.
  - destruct (Hinv true) as (_ & Hf & _). cbn in *. by rewrite Hf in Hi.
Qed.

Lemma deadline_frame q q' :
  deadline_inv q → edata q' = edata q →
  (∀ i, i ∈ sched_contents (edata q) → same_place (rq_of q i) (rq_of q' i)) →
  deadline_inv q'.
Proof.
  intros Hinv He Hpl d. destruct (Hinv d) as (Ht & Hf & Hn). rewrite He. split_and!; try done.
  eapply tree_ext; [|exact Ht]. intros i Hi.
  destruct (Hpl i) as (? & _ & ?); [by eapply in_sort_contents|done].
Qed.

(** Adding to the tree and to the list of the same direction. *)
Lemma insert_inv q q' i d l :
  deadline_inv q → (∀ j, same_place (rq_of q j) (rq_of q' j)) →
  tree_ok (rq_of q) d l → l ≡ₚ i :: sel d (sort_list (edata q)) →
  sort_list (edata q') = upd d l (sort_list (edata q)) →
  fifo_list (edata q') = upd d (sel d (fifo_list (edata q)) ++ [i]) (fifo_list (edata q)) →
  next_rq (edata q') = next_rq (edata q) →
  deadline_inv q'.
Proof.
  intros Hinv Hpl Ht Hl Hs Hf Hn d'. rewrite Hs, Hf, Hn.
  destruct (Hinv d') as (Ht' & Hf' & Hn').
  assert (∀ l d, tree_ok (rq_of q) d l → tree_ok (rq_of q') d l) as Hext.
  { intros l0 d0. apply tree_ext. intros j _. destruct (Hpl j) as (? & _ & ?). done. }
  destruct (decide (d' = d)) as [->|Hne].
  - rewrite !sel_upd. split_and!; [by apply Hext| |].
    + rewrite Hf', Hl, sel_none. cbn [app]. by rewrite <- Permutation_cons_append.
    + intros j Hj. apply Hn' in Hj. rewrite sel_none in *. cbn [app] in *. rewrite Hl. by right.
  - assert (d' = negb d) as -> by (by destruct d, d').
    rewrite !sel_upd_other. split_and!; [by apply Hext|done|done].
Qed.

Lemma contents_append d i (dd dd' : deadline_data) :
  fifo_list dd' = upd d (sel d (fifo_list dd) ++ [i]) (fifo_list dd) →
  sched_contents dd' ≡ₚ i :: sched_contents dd.
Proof.
  intros Hf. cbn. rewrite Hf. destruct d; cbn.
  - by rewrite app_assoc, <- Permutation_cons_append.
  - rewrite <- app_assoc. by rewrite Permutation_middle.
Qed.

Lemma deadline_add_ok (q : rqueue deadline_data) i :
  deadline_inv q → in_u32 (nr_sorted q) → i ∉ sched_contents (edata q) →
  ∃ q', sched_add i q = Some q' ∧ deadline_inv q' ∧
    queued q' ≡ₚ i :: queued q ∧ i ∈ sched_contents (edata q') ∧
    nr_sorted q' = u32 (nr_sorted q - 1 + Z.of_nat (length (sched_contents (edata q')))
                        - Z.of_nat (length (sched_contents (edata q)))) ∧
    (∀ j, same_flags (rq_of q j) (rq_of q' j)) ∧ hash_shrinks q q'.
Proof.
  intros Hinv Hn Hi. cbn [sched_add deadline_sched]. unfold deadline_add_request.
  destruct (add_rq_rb_spec none_ex q i (dir_of q i)) as (q1 & o & l & -> & Ho & Hinv1 & Ht & Hl & Ha & Hd1);
    [done|done| | |].
  { intros Hin. by apply Hi, (in_sort_contents q (dir_of q i)). }
  { intros [] j Hj; by apply elem_of_nil in Hj. }
  cbn [mbind option_bind]. eexists. split; [reflexivity|].
  set (q' := dd_upd _ (upd_rq _ _ _)).
  destruct (moved_out_queued o q q1 Ho) as (Hq1 & _ & _ & Hfl & Hh & Hlen & Hn1).
  { by apply inv_nodup. }
  { intros a ->. by eapply in_sort_contents, Ha. }
  assert (sched_contents (edata q') ≡ₚ i :: sched_contents (edata q1)) as Hc
    by (by apply (contents_append (dir_of q i))).
  assert (∀ j, same_flags (rq_of q1 j) (rq_of q' j)) as Hfl'.
  { intros j. unfold q'. rewrite (rq_of_eq (upd_rq i _ q1) (dd_upd _ _)) by done.
    rewrite rq_of_upd. by case_decide; subst. }
  split_and!.
  - eapply (insert_inv q1); [done| |exact Ht|exact Hl|done..]. intros j. apply Hfl'.
  - unfold queued in *. rewrite Hc. change (queue_head q') with (queue_head q1).
    by rewrite <- Permutation_middle, Hq1.
  - rewrite Hc. left.
  - change (nr_sorted q') with (nr_sorted q1). rewrite Hn1, Hc, Hlen by done. f_equal. cbn [length]. lia.
  - intros j. etransitivity; [apply Hfl|apply Hfl'].
  - done.
Qed.

(** ** The decision of the scheduler

    The request to serve and the new values of the counters, without the
    mechanics of moving it. *)

(** The next request of a running batch. *)
Definition batch_next (q : rqueue deadline_data) : option nat :=
  if batching (edata q) <? u32 (fifo_batch (edata q)) then
    match wr (next_rq (edata q)) with
    | Some i => Some i
    | None => rd (next_rq (edata q))
    end
  else None.

(** The start of a new batch: [oldest] when it has expired or nothing follows
    the last request. *)
Definition batch_start (q : rqueue deadline_data) (d : bool) (oldest : nat) : nat :=
  match sel d (next_rq (edata q)) with
  | Some next =>
      if time_after (jiffies (edata q)) (er_fifo_time (rq_of q oldest)) then oldest else next
  | None => oldest
  end.

Definition pick (q : rqueue deadline_data) : option (nat * Z * Z) :=
  let dd := edata q in
  match batch_next q with
  | Some i => Some (i, u32 (batching dd + 1), starved dd)
  | None =>
      match rd (fifo_list dd), wr (fifo_list dd) with
      | [], [] => None
      | r :: _, [] => Some (batch_start q false r, 1, starved dd)
      | [], w :: _ => Some (batch_start q true w, 1, 0)
      | r :: _, w :: _ =>
          if u32 (writes_starved dd) <=? starved dd then Some (batch_start q true w, 1, 0)
          else Some (batch_start q false r, 1, u32 (starved dd + 1))
      end
  end.

Definition bump (b s : Z) (q : rqueue deadline_data) : rqueue deadline_data :=
  dd_upd (λ dd, set_batching b (set_starved s dd)) q.

Lemma is_nil_sort q d :
  deadline_inv q → is_nil (sel d (sort_list (edata q))) = is_nil (sel d (fifo_list (edata q))).
Proof.
  intros Hinv. destruct (Hinv d) as (_ & Hf & _). rewrite sel_none in Hf. cbn [app] in Hf.
  destruct (sel d (sort_list (edata q))), (sel d (fifo_list (edata q))); try done;
    apply Permutation_length in Hf; done.
Qed.

Ltac dd_eta q := destruct q as [? ? ? ? ? ? ? ? ? ? ? []].

Lemma dispatch_request_value q i :
  dispatch_request i q =
    (q' ← deadline_move_request i (bump (u32 (batching (edata q) + 1)) (starved (edata q)) q);
     Some (true, q')).
Proof. by dd_eta q. Qed.

Lemma dispatch_find_value q d i l :
  sel d (fifo_list (edata q)) = i :: l →
  dispatch_find_request d q =
    (q' ← deadline_move_request (batch_start q d i) (bump 1 (starved (edata q)) q);
     Some (true, q')).
Proof.
  intros Hf. unfold dispatch_find_request, deadline_check_fifo. rewrite Hf. cbn [head mbind option_bind].
  unfold batch_start. rewrite dispatch_request_value. dd_eta q. cbn.
  by destruct (sel d _).
Qed.

Lemma bump_bump b s b' s' q : bump b s (bump b' s' q) = bump b s q.
Proof. by dd_eta q. Qed.

Lemma starved_bump s q : dd_upd (set_starved s) q = bump (batching (edata q)) s q.
Proof. by dd_eta q. Qed.

(** The code takes this decision, and none of its BUGs is reachable. *)
Lemma dispatch_value q :
  deadline_inv q →
  deadline_dispatch_requests q =
    match pick q with
    | None => Some (false, q)
    | Some (i, b, s) => q' ← deadline_move_request i (bump b s q); Some (true, q')
    end.
Proof.
  intros Hinv. pose proof (is_nil_sort q false Hinv) as Hr. pose proof (is_nil_sort q true Hinv) as Hw.
  cbn [sel] in Hr, Hw. unfold deadline_dispatch_requests, pick, batch_next.
  set (nb := if negb _ then _ else _).
  assert (nb = match rd (fifo_list (edata q)), wr (fifo_list (edata q)) with
      | [], [] => Some (false, q)
      | r :: _, [] => q' ← deadline_move_request (batch_start q false r) (bump 1 (starved (edata q)) q);
                      Some (true, q')
      | [], w :: _ => q' ← deadline_move_request (batch_start q true w) (bump 1 0 q); Some (true, q')
      | r :: _, w :: _ =>
          if u32 (writes_starved (edata q)) <=? starved (edata q) then
            q' ← deadline_move_request (batch_start q true w) (bump 1 0 q); Some (true, q')
          else q' ← deadline_move_request (batch_start q false r)
                      (bump 1 (u32 (starved (edata q) + 1)) q); Some (true, q')
      end) as ->.
  { subst nb. rewrite Hr. unfold dispatch_writes.
    destruct (rd (fifo_list (edata q))) as [|r rs] eqn:Er, (wr (fifo_list (edata q))) as [|w ws] eqn:Ew;
      cbn [negb is_nil]; [done| | |].
    - destruct (wr (sort_list (edata q))); [done|].
      rewrite (dispatch_find_value _ true w ws) by done. by rewrite starved_bump, bump_bump.
    - by rewrite (dispatch_find_value _ false r rs).
    - destruct (_ <=? _).
      + cbn. destruct (wr (sort_list (edata q))); [done|].
        rewrite (dispatch_find_value _ true w ws) by done. by dd_eta q.
      + rewrite (dispatch_find_value _ false r rs) by done. by dd_eta q. }
  destruct (batching (edata q) <? u32 (fifo_batch (edata q))), (wr (next_rq (edata q))),
    (rd (next_rq (edata q))); try (by rewrite dispatch_request_value);
    repeat case_match; done.
Qed.

Lemma bump_inv b s q : deadline_inv q → deadline_inv (bump b s q).
Proof. done. Qed.

Lemma batch_start_in q d i l :
  deadline_inv q → sel d (fifo_list (edata q)) = i :: l →
  batch_start q d i ∈ sel d (sort_list (edata q)).
Proof.
  intros Hinv Hf. destruct (Hinv d) as (_ & Hp & Hn). rewrite sel_none in *. cbn [app] in *.
  assert (i ∈ sel d (sort_list (edata q))) by (rewrite <- Hp, Hf; left).
  unfold batch_start. destruct (sel d (next_rq (edata q))) eqn:E; [|done].
  destruct (time_after _ _); [done|by apply Hn].
Qed.

(** The direction of the choice, and where the choice comes from. *)
Lemma pick_in q i b s :
  deadline_inv q → pick q = Some (i, b, s) → ∃ d, i ∈ sel d (sort_list (edata q)).
Proof.
  intros Hinv. unfold pick, batch_next.
  pose proof (batch_start_in q false) as Hr. pose proof (batch_start_in q true) as Hw.
  cbn [sel] in Hr, Hw.
  destruct (Hinv false) as (_ & _ & Hnr), (Hinv true) as (_ & _ & Hnw).
  cbn [sel none_ex rd wr app] in Hnr, Hnw.
  destruct (batching (edata q) <? _), (wr (next_rq (edata q))) as [x|] eqn:Ex,
    (rd (next_rq (edata q))) as [y|] eqn:Ey;
  try (intros [= <- _ _]; exists true; by apply Hnw);
  try (intros [= <- _ _]; exists false; by apply Hnr);
  (destruct (rd (fifo_list (edata q))) as [|r rs], (wr (fifo_list (edata q))) as [|w ws];
   try destruct (_ <=? _); intros [= <- _ _];
   first [exists true; by eapply Hw | exists false; by eapply Hr]).
Qed.

Lemma pick_none q :
  deadline_inv q → pick q = None ↔ sched_contents (edata q) = [].
Proof.
  intros Hinv. destruct (Hinv false) as (_ & Hfr & Hnr), (Hinv true) as (_ & Hfw & Hnw).
  cbn [sel none_ex rd wr app] in *. unfold pick. cbn [sched_contents deadline_sched]. split.
  - destruct (batch_next q); [done|].
    destruct (rd (fifo_list (edata q))), (wr (fifo_list (edata q))); try done.
    by destruct (_ <=? _).
  - intros [Er Ew]%app_eq_nil. rewrite Er, Ew in *.
    apply Permutation_nil_l in Hfr, Hfw. rewrite <- Hfr in Hnr. rewrite <- Hfw in Hnw.
    destruct (wr (next_rq (edata q))) as [x|] eqn:Ew'; [by specialize (Hnw x eq_refl); apply elem_of_nil in Hnw|].
    destruct (rd (next_rq (edata q))) as [x|] eqn:Er'; [by specialize (Hnr x eq_refl); apply elem_of_nil in Hnr|].
    unfold batch_next. rewrite Er', Ew'. by destruct (_ <? _).
Qed.

(** What one dispatch does. *)
Lemma dispatch_moves q i b s :
  deadline_inv q → pick q = Some (i, b, s) →
  ∃ q', deadline_dispatch_requests q = Some (true, q') ∧
    moved_out (Some i) (bump b s q) q' ∧ deadline_inv q' ∧ i ∈ sched_contents (edata q).
Proof.
  intros Hinv Hp. rewrite dispatch_value, Hp by done.
  destruct (pick_in q i b s Hinv Hp) as [d Hi].
  destruct (Hinv d) as (Ht & _ & _).
  destruct (move_request_out (bump b s q) i d) as (q' & -> & Ho & _); [done|done|].
  exists q'. split_and!; [done|done| |by eapply in_sort_contents].
  eapply moved_out_inv; [by apply bump_inv|exact Ho|].
  intros a d' _. rewrite sel_none. apply not_elem_of_nil.
Qed.

Lemma deadline_dispatch_ok (q : rqueue deadline_data) :
  deadline_inv q →
  ∃ b q', sched_dispatch q = Some (b, q') ∧ deadline_inv q' ∧ queued q' ≡ₚ queued q ∧
    (∀ j, same_flags (rq_of q j) (rq_of q' j)) ∧
    if (b : bool) then
      length (sched_contents (edata q)) = S (length (sched_contents (edata q'))) ∧
      nr_sorted q' = u32 (nr_sorted q - 1)
    else q' = q ∧ sched_contents (edata q) = [].
Proof.
  intros Hinv. cbn [sched_dispatch deadline_sched].
  destruct (pick q) as [[[i b] s]|] eqn:Hp.
  - destruct (dispatch_moves q i b s Hinv Hp) as (q' & -> & Ho & Hinv' & Hi).
    exists true, q'. destruct (moved_out_queued (Some i) (bump b s q) q' Ho) as (Hq & _ & _ & Hfl & _ & Hlen & _).
    { by apply inv_nodup. }
    { by intros a [= <-]. }
    destruct Ho as (_ & _ & _ & Hn & _). cbn [count_of] in Hlen.
    split_and!; [done|done|done|done| |exact Hn].
    change (sched_contents (edata (bump b s q))) with (sched_contents (edata q)) in Hlen. lia.
  - exists false, q. rewrite dispatch_value, Hp by done. split_and!; try done.
    by apply pick_none.
Qed.

Lemma deadline_merge_ok b (q : rqueue deadline_data) i :
  sched_merge b q = Some i → elv_rq_merge_ok (rq_of q i) b = true ∧
    er_pos (rq_of q i) = u64 (eb_sector b + eb_sectors b).
Proof.
  cbn [sched_merge deadline_sched]. unfold deadline_merge. destruct (truthy _); [|done].
  destruct (elv_rb_find _ _ _) as [j|] eqn:E; [|done]. destruct (elv_rq_merge_ok _ _) eqn:Em; [|done].
  intros [= <-]. split; [done|]. by apply rb_find_pos in E.
Qed.

#[export, refine] Instance deadline_ok : SchedOk deadline_data := {
  sched_inv := deadline_inv;
  sched_inv_frame := deadline_frame;
  sched_add_ok := deadline_add_ok;
  sched_dispatch_ok := deadline_dispatch_ok;
  sched_merge_ok := deadline_merge_ok;
}.
Proof.
  intros [? [[|] [|]] ? ? ? ? ? ? ? ? ?]; by cbn.
Defined.

(** ** Merging keeps the invariant *)

(** A bio merged at the front moves the start of the request. *)
Definition grow_front (pos sectors : Z) (x : erq) : erq :=
  mk_erq pos sectors (er_write x) (er_discard x) (er_fs x) (er_pc x) (er_rw_sync x)
    (er_nomerge x) (er_soft x) (er_hard x) (er_started x) (er_sorted x) (er_elvpriv x)
    (er_color x) (er_disk x) (er_special x) (er_integrity x) (er_fifo_time x).

Lemma sort_dir q d i :
  deadline_inv q → i ∈ sel d (sort_list (edata q)) → dir_of q i = d.
Proof.
  intros Hinv Hi. destruct (Hinv d) as ([_ Hw] & _). by apply (proj1 (Forall_forall _ _) Hw) in Hi.
Qed.

Lemma other_dir d d' : d' ≠ d → d' = negb d.
Proof. by destruct d, d'. Qed.

(** Taking a moved request off its tree leaves it on the list only. *)
Lemma rb_del_grown q i d pos sectors :
  deadline_inv q → i ∈ sel d (sort_list (edata q)) →
  ∃ q', elv_rb_del i (upd_rq i (grow_front pos sectors) q) = Some q' ∧
    inv_ex (upd d [i] none_ex) q' ∧ dir_of q' i = d ∧ (i ∉ sel d (sort_list (edata q'))) ∧
    fifo_list (edata q') = fifo_list (edata q) ∧ queue_head q' = queue_head q.
Proof.
  intros Hinv Hi. pose proof (sort_dir q d i Hinv Hi) as Hd.
  set (q1 := upd_rq i _ q).
  assert (dir_of q1 i = d) as Hd1.
  { unfold dir_of, q1. rewrite rq_of_upd, decide_True by done. exact Hd. }
  unfold elv_rb_del, deadline_rb_root. rewrite Hd1, bool_decide_true by done.
  eexists. split; [reflexivity|]. split_and!; try done.
  - intros d'. destruct (Hinv d') as (Ht & Hf & Hn). rewrite sel_none in *. cbn [app] in *.
    assert (tree_ok (rq_of q1) d' (without i (sel d' (sort_list (edata q))))) as Ht1.
    { eapply tree_ext; [|by apply tree_without]. intros j [Hj _]%elem_of_without.
      unfold q1. rewrite rq_of_upd. by rewrite decide_False by done. }
    destruct (decide (d' = d)) as [->|Hne].
    + cbn. rewrite !sel_upd. cbn [app]. pose proof (tree_nodup _ _ _ Ht).
      split_and!; [done|by rewrite Hf; apply without_perm|].
      intros j Hj. rewrite <- without_perm by done. by apply Hn.
    + rewrite (other_dir d d' Hne) in *. cbn. rewrite !sel_upd_other, sel_none. cbn [app].
      rewrite without_notin in Ht1; [by split_and!|].
      intros Hin. apply (sort_dir q _ i Hinv) in Hin. rewrite Hd in Hin. by destruct d.
  - cbn. rewrite sel_upd. intros [Hx _]%elem_of_without. done.
Qed.

Lemma front_merge_spec q i pos sectors :
  deadline_inv q → i ∈ sched_contents (edata q) →
  ∃ q', deadline_merged_request i FRONT_MERGE (upd_rq i (grow_front pos sectors) q) = Some q' ∧
    deadline_inv q' ∧ queued q' ≡ₚ queued q.
Proof.
  intros Hinv Hc. destruct (contents_in_sort q i Hinv Hc) as [d Hi].
  destruct (rb_del_grown q i d pos sectors Hinv Hi) as (q1 & E & Hex & Hd1 & Hni & Hf1 & Hq1).
  unfold deadline_merged_request. rewrite E. cbn [mbind option_bind].
  destruct (add_rq_rb_spec (upd d [i] none_ex) q1 i d)
    as (q2 & o & l & -> & Ho & Hinv2 & Ht & Hl & Ha & _); try done.
  { intros [] j; destruct d; cbn; rewrite ?list_elem_of_singleton; try done; by intros ?%elem_of_nil. }
  eexists. split; [reflexivity|]. split.
  - intros d'. destruct (Hinv2 d') as (Ht' & Hf' & Hn'). destruct (decide (d' = d)) as [->|Hne].
    + cbn. rewrite !sel_upd in *. rewrite sel_none. cbn [app] in *.
      split_and!; [done|by rewrite Hl|]. intros j Hj. rewrite Hl. by apply Hn'.
    + rewrite (other_dir d d' Hne) in *. cbn. rewrite !sel_upd_other in *. done.
  - assert (sched_contents (edata q1) = sched_contents (edata q)) as Hcc by (cbn; by rewrite Hf1).
    destruct (moved_out_queued o q1 q2 Ho) as (Hp & _).
    { rewrite Hcc. by apply inv_nodup. }
    { intros a Hoa. destruct (Hex d) as (_ & Hf & _). apply Ha in Hoa.
      assert (a ∈ sel d (fifo_list (edata q1))) as Hin by (rewrite Hf; apply elem_of_app; by right).
      cbn. rewrite elem_of_app. destruct d; auto. }
    transitivity (queued q2); [done|]. rewrite Hp. unfold queued. by rewrite Hcc, Hq1.
Qed.

(** *** Coalescing two requests *)

Lemma put_behind_cons next req p l :
  put_behind next req (p :: l) =
    (if Nat.eqb p next then [next; req] else [p]) ++ put_behind next req l.
Proof. done. Qed.

Lemma put_behind_notin next req l : next ∉ l → put_behind next req l = l.
Proof.
  induction l as [|p l IH]; [done|]. rewrite elem_of_cons, put_behind_cons. intros Hn.
  destruct (Nat.eqb_spec p next); [naive_solver|]. cbn [app]. f_equal. apply IH. tauto.
Qed.

Lemma put_behind_perm next req l :
  next ∈ l → NoDup l → put_behind next req l ≡ₚ req :: l.
Proof.
  induction l as [|p l IH]; [by intros ?%elem_of_nil|].
  rewrite NoDup_cons, put_behind_cons. intros Hin [Hp Hnd].
  destruct (Nat.eqb_spec p next) as [->|Hne].
  - rewrite put_behind_notin by done. cbn [app]. constructor.
  - apply elem_of_cons in Hin as [->|Hin]; [done|]. cbn [app]. rewrite IH by done. constructor.
Qed.

Lemma list_move_perm req next l :
  req ≠ next → NoDup l → (req ∈ l ↔ next ∈ l) → list_move req next l ≡ₚ l.
Proof.
  intros Hne Hnd Hiff. unfold list_move. destruct (decide (next ∈ l)) as [Hin|Hni].
  - rewrite put_behind_perm; [by rewrite <- without_perm by (done || tauto)| |by apply NoDup_without].
    by apply elem_of_without.
  - rewrite without_notin by tauto. by rewrite put_behind_notin.
Qed.

(** Coalescing only reorders the lists. *)
Lemma reorder_inv q q' :
  deadline_inv q → (∀ j, same_place (rq_of q j) (rq_of q' j)) →
  sort_list (edata q') = sort_list (edata q) → next_rq (edata q') = next_rq (edata q) →
  (∀ d, sel d (fifo_list (edata q')) ≡ₚ sel d (fifo_list (edata q))) →
  deadline_inv q'.
Proof.
  intros Hinv Hpl Hs Hn Hf d. destruct (Hinv d) as (Ht & Hp & Hnx). rewrite Hs, Hn, (Hf d).
  split_and!; try done. eapply tree_ext; [|exact Ht]. intros j _.
  destruct (Hpl j) as (? & _ & ?). done.
Qed.

(** The next request after one was removed. *)
Lemma removed_next q i d d' j :
  deadline_inv q → i ∈ sel d (sort_list (edata q)) →
  sel d' (if bool_decide (sel d (next_rq (edata q)) = Some i)
          then upd d (next_in i (sel d (sort_list (edata q)))) (next_rq (edata q))
          else next_rq (edata q)) = Some j →
  j ≠ i ∧ j ∈ sel d' (sort_list (edata q)).
Proof.
  intros Hinv Hi. pose proof (sort_dir q d i Hinv Hi) as Hd.
  destruct (Hinv d') as (Ht & _ & Hn). rewrite sel_none in Hn. cbn [app] in Hn.
  pose proof (tree_nodup _ _ _ Ht) as Hnd.
  destruct (decide (d' = d)) as [->|Hne].
  - case_bool_decide as Hx.
    + rewrite sel_upd. intros E. split; [by eapply next_in_ne|by eapply next_in_elem].
    + intros E. split; [intros ->; done|by apply Hn].
  - assert (sel d' (next_rq (edata q)) = Some j → j ≠ i ∧ j ∈ sel d' (sort_list (edata q))) as Hj.
    { intros E. apply Hn in E. split; [|done]. intros ->.
      apply (sort_dir q d' i Hinv) in E. congruence. }
    case_bool_decide; [|done]. rewrite (other_dir d d' Hne) in *. by rewrite sel_upd_other.
Qed.

(** Removing a request for good. *)
Lemma remove_request_spec q i d :
  deadline_inv q → i ∈ sel d (sort_list (edata q)) →
  ∃ q', deadline_remove_request i q = Some q' ∧ deadline_inv q' ∧ queue_head q' = queue_head q ∧
    sched_contents (edata q') = without i (sched_contents (edata q)).
Proof.
  intros Hinv Hi. pose proof (sort_dir q d i Hinv Hi) as Hd.
  unfold deadline_remove_request, deadline_del_rq_rb.
  set (q1 := rq_fifo_clear i q).
  assert (∀ j, same_place (rq_of q j) (rq_of q1 j)) as Hpl.
  { intros j. unfold q1, rq_fifo_clear. rewrite rq_of_upd. by case_decide; subst. }
  assert (dir_of q1 i = d) as Hd1.
  { destruct (Hpl i) as (_ & _ & Hw). unfold dir_of in *. by rewrite Hw. }
  rewrite Hd1. set (q2 := if bool_decide _ then _ else q1).
  assert (rqs q2 = rqs q1 ∧ queue_head q2 = queue_head q ∧
    sort_list (edata q2) = sort_list (edata q) ∧ fifo_list (edata q2) = fifo_list (edata q1)) as
    (Hr2 & Hq2 & Hs2 & Hf2) by (subst q2; by case_bool_decide).
  assert (next_rq (edata q2) =
    if bool_decide (sel d (next_rq (edata q)) = Some i)
    then upd d (next_in i (sel d (sort_list (edata q)))) (next_rq (edata q))
    else next_rq (edata q)) as Hn2.
  { subst q2. unfold deadline_latter_request, deadline_rb_root. rewrite Hd1.
    change (next_rq (edata q1)) with (next_rq (edata q)).
    by destruct (bool_decide (sel d (next_rq (edata q)) = Some i)). }
  unfold elv_rb_del, deadline_rb_root. rewrite (dir_of_eq q1 q2), Hd1, Hs2 by done.
  rewrite bool_decide_true by done. eexists. split; [reflexivity|]. split_and!; [|done|].
  - intros d'. destruct (Hinv d') as (Ht & Hp & Hn). rewrite sel_none in *. cbn [app] in *.
    cbn [edata dd_upd set_edata sort_list fifo_list next_rq set_sort_list].
    rewrite Hs2, Hf2, (sel_upd_without (rq_of q)) by (done || intros d''; apply Hinv).
    split_and!.
    + eapply tree_ext; [|by apply tree_without]. intros j _. destruct (Hpl j) as (? & _ & ?).
      by rewrite (rq_of_eq q1) by done.
    + transitivity (without i (sel d' (fifo_list (edata q)))); [by destruct d'|]. by rewrite Hp.
    + intros j Hj. apply elem_of_without. apply (removed_next q i d d'); try done.
      by rewrite <- Hn2.
  - cbn. rewrite Hf2. symmetry. apply without_app.
Qed.

Lemma merged_requests_spec q req next :
  deadline_inv q → req ≠ next → req ∈ sched_contents (edata q) →
  next ∈ sched_contents (edata q) → dir_of q req = dir_of q next →
  ∃ q', deadline_merged_requests req next q = Some q' ∧ deadline_inv q' ∧
    queued q ≡ₚ next :: queued q'.
Proof.
  intros Hinv Hne Hr Hx Hdir. unfold deadline_merged_requests.
  set (q1 := if _ && _ && _ then _ else q).
  assert (∀ d, req ∈ sel d (fifo_list (edata q)) ↔ next ∈ sel d (fifo_list (edata q))) as Hiff.
  { intros d. destruct (Hinv d) as (_ & Hf & _). rewrite sel_none in Hf. rewrite !Hf. cbn [app].
    destruct (contents_in_sort q req Hinv Hr) as [dr Hdr].
    destruct (contents_in_sort q next Hinv Hx) as [dx Hdx].
    assert (dr = dx) as <-.
    { apply (sort_dir q dr req Hinv) in Hdr. apply (sort_dir q dx next Hinv) in Hdx. congruence. }
    split; intros Hin.
    - apply (sort_dir q d req Hinv) in Hin. apply (sort_dir q dr req Hinv) in Hdr. congruence.
    - apply (sort_dir q d next Hinv) in Hin. apply (sort_dir q dr next Hinv) in Hdx. congruence. }
  assert (∀ d, NoDup (sel d (fifo_list (edata q)))) as Hnd.
  { intros d. destruct (Hinv d) as (Ht & Hf & _). rewrite sel_none in Hf. rewrite Hf.
    by eapply tree_nodup. }
  assert (∀ d, sel d (fifo_list (edata q1)) ≡ₚ sel d (fifo_list (edata q))) as Hf1.
  { intros d. subst q1. destruct (_ && _ && _); [|done].
    transitivity (list_move req next (sel d (fifo_list (edata q)))); [by destruct d|].
    by apply list_move_perm. }
  assert (sort_list (edata q1) = sort_list (edata q) ∧ next_rq (edata q1) = next_rq (edata q) ∧
    queue_head q1 = queue_head q) as (Hs1 & Hn1 & Hq1) by (subst q1; by destruct (_ && _ && _)).
  assert (deadline_inv q1) as Hinv1.
  { eapply reorder_inv; [exact Hinv| |done..]. intros j. subst q1. destruct (_ && _ && _); [|done].
    rewrite rq_of_upd. by case_decide; subst. }
  destruct (contents_in_sort q next Hinv Hx) as [d Hd]. rewrite <- Hs1 in Hd.
  destruct (remove_request_spec q1 next d Hinv1 Hd) as (q' & -> & ? & Hq' & Hc').
  exists q'. split_and!; [done|done|]. unfold queued. rewrite Hq', Hq1, Hc', Permutation_middle.
  f_equiv. rewrite <- without_perm.
  - cbn. by rewrite <- (Hf1 false), <- (Hf1 true).
  - by apply inv_nodup.
  - by eapply in_sort_contents.
Qed.

(** ** Reachable states

    The operations of the scheduler as the block layer uses them, the passing
    of time and the tuning of the settings. *)
Inductive dl_step (q : rqueue deadline_data) : rqueue deadline_data → Prop :=
| dl_add i q' :
    i ∉ queued q → in_u32 (nr_sorted q) → deadline_add_request i q = Some q' → dl_step q q'
| dl_dispatch b q' : deadline_dispatch_requests q = Some (b, q') → dl_step q q'
| dl_front i pos sectors q' :
    i ∈ sched_contents (edata q) →
    deadline_merged_request i FRONT_MERGE (upd_rq i (grow_front pos sectors) q) = Some q' →
    dl_step q q'
| dl_coalesce req next q' :
    req ≠ next → req ∈ sched_contents (edata q) → next ∈ sched_contents (edata q) →
    dir_of q req = dir_of q next → deadline_merged_requests req next q = Some q' → dl_step q q'
| dl_tick t : dl_step q (dd_upd (set_jiffies t) q)
| dl_tune a page count : dl_step q (dd_upd (λ dd, (deadline_store a page count dd).1) q).

Inductive dl_reach : rqueue deadline_data → Prop :=
| dl_start q now : deadline_init_queue true now = Some (edata q) → dl_reach q
| dl_more q q' : dl_reach q → dl_step q q' → dl_reach q'.

Lemma dl_step_inv q q' : deadline_inv q → dl_step q q' → deadline_inv q'.
Proof.
  intros Hinv Hs. destruct Hs as [i q' Hi Hn E|b q' E|i pos n q' Hi E|req next q' ? ? ? ? E|t|a page c].
  - destruct (deadline_add_ok q i) as (q1 & E1 & ? & _); try done.
    { intros Hin. apply Hi. unfold queued. apply elem_of_app. by right. }
    change (deadline_add_request i q = Some q1) in E1. by simplify_eq.
  - destruct (deadline_dispatch_ok q Hinv) as (b1 & q1 & E1 & ? & _).
    change (deadline_dispatch_requests q = Some (b1, q1)) in E1. by simplify_eq.
  - destruct (front_merge_spec q i pos n Hinv Hi) as (q1 & E1 & ? & _). by simplify_eq.
  - destruct (merged_requests_spec q req next) as (q1 & E1 & ? & _); try done. by simplify_eq.
  - done.
  - intros d. destruct (Hinv d) as (? & ? & ?). by destruct a.
Qed.

Lemma dl_reach_inv q : dl_reach q → deadline_inv q.
Proof.
  induction 1 as [q now E|q q' _ IH Hs]; [|by eapply dl_step_inv].
  cbn in E. apply (inj Some) in E. intros d. rewrite <- E.
  destruct d; cbn; (split_and!; [split; constructor|done|done]).
Qed.

(** C28: The structures of the deadline scheduler stay consistent: in every
    state reachable by adding, dispatching and merging requests, by time and
    by tuning, tree and list of each direction hold the same requests of that
    direction, each tree is strictly sorted by sector, the next request is in
    its tree, and no BUG is hit by dispatching, merging or a new request. *)
Theorem deadline_consistent q :
  dl_reach q →
  deadline_inv q ∧
  (∃ b q', deadline_dispatch_requests q = Some (b, q')) ∧
  (∀ i, i ∉ queued q → in_u32 (nr_sorted q) →
    ∃ q', deadline_add_request i q = Some q' ∧ queued q' ≡ₚ i :: queued q) ∧
  (∀ i pos sectors, i ∈ sched_contents (edata q) →
    ∃ q', deadline_merged_request i FRONT_MERGE (upd_rq i (grow_front pos sectors) q) = Some q' ∧
      queued q' ≡ₚ queued q) ∧
  (∀ req next, req ≠ next → req ∈ sched_contents (edata q) → next ∈ sched_contents (edata q) →
    dir_of q req = dir_of q next →
    ∃ q', deadline_merged_requests req next q = Some q' ∧ queued q ≡ₚ next :: queued q').
Proof.
  intros Hq. apply dl_reach_inv in Hq as Hinv. split_and!; [done| | | |].
  - destruct (deadline_dispatch_ok q Hinv) as (b & q' & E & _). by exists b, q'.
  - intros i Hi Hn. destruct (deadline_add_ok q i) as (q' & E & _ & ? & _); try done.
    { intros Hin. apply Hi. unfold queued. apply elem_of_app. by right. }
    by exists q'.
  - intros i pos n Hi. destruct (front_merge_spec q i pos n Hinv Hi) as (q' & ? & _ & ?).
    by exists q'.
  - intros req next ? ? ? ?. destruct (merged_requests_spec q req next) as (q' & ? & _ & ?); try done.
    by exists q'.
Qed.

(** The scheduler decides as documented. A running batch continues with the
    next request in sector order while fewer than [fifo_batch] were sent;
    otherwise reads go first unless writes have waited [writes_starved] times,
    and a batch starts at the oldest request if that has expired or nothing
    follows the last one. The chosen request moves to the tail of the dispatch
    queue. *)
Theorem deadline_decides q :
  deadline_inv q →
  match pick q with
  | None => deadline_dispatch_requests q = Some (false, q) ∧ sched_contents (edata q) = []
  | Some (i, b, s) =>
      ∃ q', deadline_dispatch_requests q = Some (true, q') ∧
        i ∈ sched_contents (edata q) ∧ queue_head q' = queue_head q ++ [i] ∧
        queued q' ≡ₚ queued q ∧ batching (edata q') = b ∧ starved (edata q') = s
  end.
Proof.
  intros Hinv. destruct (pick q) as [[[i b] s]|] eqn:Hp.
  - destruct (dispatch_moves q i b s Hinv Hp) as (q' & E & Ho & _ & Hi).
    destruct (moved_out_queued (Some i) (bump b s q) q' Ho) as (Hq & _).
    { by apply inv_nodup. }
    { by intros a [= <-]. }
    apply moved_out_counters in Ho as Hcn. destruct Ho as (_ & _ & Hh & _).
    exists q'. split_and!; try done; [by injection Hcn|by injection Hcn].
  - split; [by rewrite dispatch_value, Hp|]. by apply pick_none.
Qed.

(** ** Starvation *)

(** Dispatches after which a pending write is served at the latest. *)
Definition write_wait (dd : deadline_data) : Z :=
  Z.max 0 (writes_starved dd - starved dd) * Z.max 1 (fifo_batch dd)
  + Z.max 0 (Z.max 1 (fifo_batch dd) - batching dd).

Record tunables_ok (dd : deadline_data) : Prop := {
  to_starved : 0 ≤ writes_starved dd < 2 ^ 31;
  to_batch : 0 ≤ fifo_batch dd < 2 ^ 31;
  to_count : 0 ≤ starved dd < 2 ^ 31;
  to_batching : 0 ≤ batching dd;
}.

(** Each choice serves a write or brings one closer. *)
Lemma pick_measure q i b s w ws :
  deadline_inv q → tunables_ok (edata q) → wr (fifo_list (edata q)) = w :: ws →
  pick q = Some (i, b, s) →
  (dir_of q i = true ∧ i ∈ wr (fifo_list (edata q))) ∨
  (dir_of q i = false ∧ write_wait (edata (bump b s q)) < write_wait (edata q) ∧
   tunables_ok (edata (bump b s q))).
Proof.
  intros Hinv [Hs Hb Hc Hg] Hw Hp.
  destruct (pick_in q i b s Hinv Hp) as [d Hi]. pose proof (sort_dir q d i Hinv Hi) as Hd.
  destruct d.
  { left. split; [done|]. destruct (Hinv true) as (_ & Hf & _). by rewrite Hf. }
  right. split; [done|]. unfold pick in Hp.
  destruct (batch_next q) as [n|] eqn:En.
  - injection Hp as -> <- <-. unfold batch_next in En.
    destruct (_ <? _) eqn:Eb in En; [|done]. zbool. rewrite u32_small in Eb by (unfold in_u32; lia).
    rewrite (u32_small (batching (edata q) + 1)) by (unfold in_u32; lia).
    split; [unfold write_wait; cbn; lia|]. constructor; cbn; lia.
  - rewrite Hw in Hp. destruct (rd (fifo_list (edata q))) as [|r rs] eqn:Er.
    { exfalso. injection Hp as <- _ _. pose proof (batch_start_in q true w ws Hinv Hw) as Hin.
      apply (sort_dir q true _ Hinv) in Hin. congruence. }
    rewrite u32_small in Hp by (unfold in_u32; lia). destruct (_ <=? _) eqn:Es in Hp; zbool.
    { exfalso. injection Hp as <- _ _. pose proof (batch_start_in q true w ws Hinv Hw) as Hin.
      apply (sort_dir q true _ Hinv) in Hin. congruence. }
    injection Hp as _ <- <-. rewrite u32_small by (unfold in_u32; lia).
    split; [|constructor; cbn; lia]. unfold write_wait. cbn.
    set (F := Z.max 1 (fifo_batch (edata q))).
    rewrite !Z.max_r by lia. nia.
Qed.

Fixpoint dispatch_n (n : nat) (q : rqueue deadline_data) : option (rqueue deadline_data) :=
  match n with
  | O => Some q
  | S n => '(_, q) ← deadline_dispatch_requests q; dispatch_n n q
  end.

Lemma write_served k q :
  deadline_inv q → tunables_ok (edata q) → wr (fifo_list (edata q)) ≠ [] →
  write_wait (edata q) ≤ Z.of_nat k →
  ∃ n q' l i, (n ≤ S k)%nat ∧ dispatch_n n q = Some q' ∧
    queue_head q' = queue_head q ++ l ++ [i] ∧ i ∈ wr (fifo_list (edata q)).
Proof.
  revert q. induction k as [|k IH]; intros q Hinv Hto Hne Hk;
    (destruct (wr (fifo_list (edata q))) as [|w ws] eqn:Hw; [done|]);
    (destruct (pick q) as [[[i b] s]|] eqn:Hp;
     [|apply pick_none in Hp; [|done]; cbn in Hp; rewrite Hw in Hp;
       by apply app_eq_nil in Hp as [_ ?]]);
    (destruct (dispatch_moves q i b s Hinv Hp) as (q1 & Ed & Ho & Hinv1 & _));
    (apply moved_out_counters in Ho as Hcn; destruct Ho as (_ & He & Hh & _));
    (destruct (pick_measure q i b s w ws Hinv Hto Hw Hp) as [[Hd Hi]|(Hd & Hlt & Hto1)];
     [exists 1%nat, q1, [], i; rewrite <- Hw; cbn; rewrite Ed; split_and!; try done; lia|]).
  - exfalso. unfold write_wait in *. nia.
  - assert (write_wait (edata q1) = write_wait (edata (bump b s q)) ∧ tunables_ok (edata q1)) as [Hww Ht1].
    { unfold write_wait. injection Hcn as E1 E2 E3 E4 E5 E6 E7.
      split; [by rewrite E1, E2, E4, E5|]. destruct Hto1. constructor; by rewrite ?E1, ?E2, ?E4, ?E5. }
    assert (wr (fifo_list (edata q1)) = wr (fifo_list (edata q))) as Hf1.
    { rewrite He. cbn. apply without_notin. intros Hin.
      destruct (Hinv true) as (_ & Hf & _). cbn in Hf. rewrite Hf in Hin.
      apply (sort_dir q true i Hinv) in Hin. congruence. }
    destruct (IH q1 Hinv1 Ht1) as (n & q' & l & j & Hn & E & Hq & Hj).
    { by rewrite Hf1, Hw. }
    { rewrite Hww. lia. }
    exists (S n), q', (i :: l), j. rewrite <- Hw, <- Hf1. cbn [dispatch_n]. rewrite Ed.
    cbn [mbind option_bind]. split_and!; [lia|done| |done].
    rewrite Hq, Hh. by rewrite <- !app_assoc.
Qed.


(** A batch sweeps the disk in one direction: the request that continues a
    batch has the direction of the one just sent, lies behind it, and is the
    closest such request. *)
Theorem batch_ascending q q' i b s j :
  deadline_inv q → pick q = Some (i, b, s) →
  deadline_dispatch_requests q = Some (true, q') → batch_next q' = Some j →
  dir_of q j = dir_of q i ∧ er_pos (rq_of q i) < er_pos (rq_of q j) ∧
  ∀ k, k ∈ sel (dir_of q i) (sort_list (edata q)) →
    er_pos (rq_of q i) < er_pos (rq_of q k) → er_pos (rq_of q j) ≤ er_pos (rq_of q k).
Proof.
  intros Hinv Hp Ed Hj. destruct (dispatch_moves q i b s Hinv Hp) as (q1 & E & Ho & Hinv1 & Hi).
  rewrite Ed in E. injection E as <-.
  destruct (pick_in q i b s Hinv Hp) as [d Hid]. pose proof (sort_dir q d i Hinv Hid) as Hd.
  destruct Ho as (_ & He & _). change (dir_of (bump b s q) i) with (dir_of q i) in He.
  assert (next_in i (sel d (sort_list (edata q))) = Some j) as Hn.
  { unfold batch_next in Hj. rewrite He, Hd in Hj. destruct (_ <? _) in Hj; [|done].
    by destruct d; cbn in Hj; [destruct (next_in _ _)|]. }
  destruct (Hinv d) as (Ht & _ & _). pose proof (tree_nodup _ _ _ Ht) as Hnd.
  rewrite Hd. split; [by eapply (sort_dir q d j Hinv), next_in_elem|].
  apply next_in_split in Hn as (l1 & l2 & Hl); [|done].
  destruct Ht as [Hs _]. rewrite Hl in Hs |- *.
  apply StronglySorted_app in Hs as (H12 & _ & Hs2).
  apply StronglySorted_cons in Hs2 as [Hij Hs2]. apply Forall_cons in Hij as [Hij _].
  split; [done|]. intros k Hk Hik. apply elem_of_app in Hk as [Hk|Hk].
  - assert (er_pos (rq_of q k) < er_pos (rq_of q i)) by (apply H12; [done|left]). lia.
  - apply elem_of_cons in Hk as [->|Hk]; [lia|]. apply elem_of_cons in Hk as [->|Hk]; [lia|].
    apply StronglySorted_cons in Hs2 as [Hjk _].
    pose proof (proj1 (Forall_forall _ _) Hjk k Hk). cbn in *. lia.
Qed.

(** ** The settings *)

Lemma attr_get_set a v dd : attr_get a (attr_set a v dd) = v.
Proof. by destruct a. Qed.

Lemma attr_set_set a v w dd : attr_set a v (attr_set a w dd) = attr_set a v dd.
Proof. by destruct a. Qed.

Definition attr_ok (a : dd_attr) (v : Z) : Prop := attr_min a ≤ v ≤ attr_max a.

Lemma attr_ok_s32 a v : attr_ok a v → in_s32 v.
Proof. unfold attr_ok, in_s32. destruct a; cbn; unfold INT_MIN, INT_MAX; lia. Qed.

(** Times are kept in jiffies and shown in milliseconds. *)
Lemma conv_store a v :
  attr_ok a v → (if attr_conv a then s32 (msecs_to_jiffies (u32 v)) else v) = v.
Proof.
  intros Hv. destruct (attr_conv a) eqn:Ea; [|done].
  assert (0 ≤ v < 2 ^ 31) as Hr by (destruct a; try done; unfold attr_ok in Hv; cbn in Hv;
    unfold INT_MAX in Hv; lia).
  rewrite u32_small by (unfold in_u32; lia). unfold msecs_to_jiffies.
  rewrite (s32_small v) by (unfold in_s32; lia). zcase; [lia|].
  change (MSEC_PER_SEC / HZ) with 1. rewrite Z.div_1_r, s32_small by (unfold in_s32; lia). lia.
Qed.

Lemma conv_show a v :
  attr_ok a v → (if attr_conv a then s32 (jiffies_to_msecs (u64 v)) else v) = v.
Proof.
  intros Hv. destruct (attr_conv a) eqn:Ea; [|done].
  assert (0 ≤ v < 2 ^ 31) as Hr by (destruct a; try done; unfold attr_ok in Hv; cbn in Hv;
    unfold INT_MAX in Hv; lia).
  unfold jiffies_to_msecs. change (MSEC_PER_SEC / HZ) with 1. rewrite Z.mul_1_l.
  rewrite !u64_small by (unfold in_u64; rewrite ?u64_small; unfold in_u64; lia).
  rewrite u32_small by (unfold in_u32; lia). apply s32_small. unfold in_s32. lia.
Qed.

Definition clamped (a : dd_attr) (data : Z) : Z :=
  if data <? attr_min a then attr_min a else if data >? attr_max a then attr_max a else data.

Lemma clamped_ok a data : attr_ok a (clamped a data).
Proof.
  unfold clamped, attr_ok. assert (attr_min a ≤ attr_max a) by (by destruct a).
  repeat zcase; lia.
Qed.

Lemma clamped_id a v : attr_ok a v → clamped a v = v.
Proof. unfold clamped, attr_ok. intros. repeat zcase; lia. Qed.

(** Whatever is written to a setting, the stored value is in its range, and
    writing back what reading shows changes nothing. *)
Theorem deadline_attr_roundtrip a page count dd :
  let dd' := (deadline_store a page count dd).1 in
  attr_ok a (attr_get a dd') ∧
  deadline_store a (deadline_show a dd') count dd' = (dd', count).
Proof.
  unfold deadline_store at 1. fold (clamped a (deadline_var_store page)).
  set (v := clamped a (deadline_var_store page)).
  assert (attr_ok a v) as Hv by apply clamped_ok. rewrite (conv_store a v Hv). cbn [fst].
  rewrite attr_get_set. split; [done|].
  unfold deadline_store, deadline_show. rewrite attr_get_set, (conv_show a v Hv).
  unfold deadline_var_show, deadline_var_store.
  rewrite strtol_fmt_d by (done || by eapply attr_ok_s32). cbn [fst].
  rewrite (s32_small v) by (by eapply attr_ok_s32). fold (clamped a v).
  by rewrite clamped_id, conv_store, attr_set_set.
Qed.

(** A negative [writes_starved] is accepted and compared as an unsigned
    number, so that writes then wait behind two billion batches of reads. *)
Theorem negative_starves q r rs w ws :
  deadline_inv q → rd (fifo_list (edata q)) = r :: rs → wr (fifo_list (edata q)) = w :: ws →
  batch_next q = None → INT_MIN ≤ writes_starved (edata q) < 0 → 0 ≤ starved (edata q) < 2 ^ 31 →
  ∃ i b s, pick q = Some (i, b, s) ∧ dir_of q i = false.
Proof.
  intros Hinv Hr Hw Hb Hn Hs. unfold pick. rewrite Hb, Hr, Hw.
  assert (u32 (writes_starved (edata q)) = writes_starved (edata q) + 2 ^ 32) as ->.
  { unfold u32, INT_MIN in *. symmetry. apply Z.mod_unique with (q := -1); lia. }
  unfold INT_MIN in Hn. destruct (_ <=? _) eqn:E; zbool; [lia|].
  do 3 eexists. split; [reflexivity|].
  apply (sort_dir q false _ Hinv). by apply (batch_start_in q false r rs Hinv).
Qed.

(** ** A concrete queue

    Two reads and a write are added to a new scheduler. *)
Definition demo_write (pos : Z) : erq :=
  mk_erq pos 8 true false true false false false false false false true true false 0
    false false 0.

Definition dl_empty : rqueue deadline_data :=
  mk_rqueue {[ 0%nat := demo_read 100; 1%nat := demo_read 50; 2%nat := demo_write 20 ]}
    [] 0 0 None None ∅ false idle_ord false false
    (default (mk_dd (mk_two [] []) (mk_two [] []) (mk_two None None) 0 0 0 (mk_two 0 0) 0 0 0 0)
       (deadline_init_queue true 1000)).

Definition dl_with (i : nat) (q : rqueue deadline_data) : rqueue deadline_data :=
  default q (deadline_add_request i q).

Definition dl_demo : rqueue deadline_data := dl_with 2 (dl_with 1 (dl_with 0 dl_empty)).

Lemma dl_with_reach i q :
  dl_reach q → i ∉ queued q → in_u32 (nr_sorted q) → dl_reach (dl_with i q).
Proof.
  intros Hq Hi Hn. apply dl_reach_inv in Hq as Hinv.
  destruct (deadline_add_ok q i) as (q' & E & _); [done|done| |].
  { intros Hin. apply Hi. unfold queued. apply elem_of_app. by right. }
  change (deadline_add_request i q = Some q') in E.
  apply dl_more with q; [done|]. unfold dl_with. rewrite E. by apply (dl_add q i).
Qed.

Lemma dl_demo_reach : dl_reach dl_demo.
Proof.
  unfold dl_demo. repeat apply dl_with_reach; try (apply (bool_decide_unpack _); by vm_compute).
  by apply dl_start with 1000.
Qed.

Lemma deadline_consistent_witness :
  deadline_inv dl_demo ∧ rd (sort_list (edata dl_demo)) = [1; 0]%nat ∧
  ∃ b q', deadline_dispatch_requests dl_demo = Some (b, q').
Proof.
  destruct (deadline_consistent dl_demo dl_demo_reach) as (Hinv & Hd & _).
  split; [exact Hinv|]. split; [by vm_compute|exact Hd].
Defined.

Lemma deadline_decides_witness :
  pick dl_demo = Some (0%nat, 1, 1) ∧
  ∃ q', deadline_dispatch_requests dl_demo = Some (true, q') ∧ queue_head q' = [0%nat].
Proof.
  assert (pick dl_demo = Some (0%nat, 1, 1)) as Hp by (by vm_compute).
  pose proof (deadline_decides dl_demo (dl_reach_inv _ dl_demo_reach)) as H.
  rewrite Hp in H. destruct H as (q' & E & _ & Hq & _). split; [exact Hp|].
  exists q'. split; [exact E|exact Hq].
Defined.


(** The read at 50 is the oldest one; the batch goes on to the one at 100. *)
Definition dl_sweep : rqueue deadline_data := dl_with 0 (dl_with 1 dl_empty).

Lemma dl_sweep_reach : dl_reach dl_sweep.
Proof.
  unfold dl_sweep. repeat apply dl_with_reach; try (apply (bool_decide_unpack _); by vm_compute).
  by apply dl_start with 1000.
Qed.

Definition dl_swept : rqueue deadline_data := default dl_sweep (dispatch_n 1 dl_sweep).

Lemma batch_ascending_witness :
  deadline_dispatch_requests dl_sweep = Some (true, dl_swept) ∧ batch_next dl_swept = Some 0%nat ∧
  er_pos (rq_of dl_sweep 1) < er_pos (rq_of dl_sweep 0).
Proof.
  assert (deadline_dispatch_requests dl_sweep = Some (true, dl_swept)) as Hd by (by vm_compute).
  assert (batch_next dl_swept = Some 0%nat) as Hb by (by vm_compute).
  destruct (batch_ascending dl_sweep dl_swept 1 1 0 0) as (_ & Hlt & _).
  - apply dl_reach_inv, dl_sweep_reach.
  - by vm_compute.
  - exact Hd.
  - exact Hb.
  - split; [exact Hd|]. split; [exact Hb|exact Hlt].
Defined.
