(* ===== verification/BlkQueue.v ===== *)
(** * The driver's side of the request queue (block/blk-core.c, block/blk-barrier.c)

    How a driver takes requests off the dispatch queue, starts, requeues and
    completes them, the count of requests in flight (to which the scrubber added
    packet commands), and the flush sequence that implements a barrier.  The
    theorems are about every interleaving of submissions, fetches, requeues and
    completions, for any scheduler that keeps to the interface.

    The queue lock makes every operation atomic.  The timeout timer, tags,
    tracing and the accounting of partitions are not modelled, and neither
    scheduler registers hooks for activation, deactivation or completion.  A
    request completes here when its last reference is dropped. *)
From S2P Require Import Prelude Elevator Noop Deadline.

(** ** Setters *)

Definition set_o_seq (v : Z) (x : ordered_state) : ordered_state :=
  mk_ord v (o_ordered x) (o_next x) (o_err x) (o_orig x) (pre_flush_rq x)
    (bar_rq x) (post_flush_rq x) (fl_async x) (fl_sync x) (ended x).
Definition set_o_ordered (v : Z) (x : ordered_state) : ordered_state :=
  mk_ord (o_seq x) v (o_next x) (o_err x) (o_orig x) (pre_flush_rq x)
    (bar_rq x) (post_flush_rq x) (fl_async x) (fl_sync x) (ended x).
Definition set_o_next (v : Z) (x : ordered_state) : ordered_state :=
  mk_ord (o_seq x) (o_ordered x) v (o_err x) (o_orig x) (pre_flush_rq x)
    (bar_rq x) (post_flush_rq x) (fl_async x) (fl_sync x) (ended x).
Definition set_o_err (v : Z) (x : ordered_state) : ordered_state :=
  mk_ord (o_seq x) (o_ordered x) (o_next x) v (o_orig x) (pre_flush_rq x)
    (bar_rq x) (post_flush_rq x) (fl_async x) (fl_sync x) (ended x).
Definition set_o_orig (v : option nat) (x : ordered_state) : ordered_state :=
  mk_ord (o_seq x) (o_ordered x) (o_next x) (o_err x) v (pre_flush_rq x)
    (bar_rq x) (post_flush_rq x) (fl_async x) (fl_sync x) (ended x).
Definition set_fl_async (v : Z) (x : ordered_state) : ordered_state :=
  mk_ord (o_seq x) (o_ordered x) (o_next x) (o_err x) (o_orig x)
    (pre_flush_rq x) (bar_rq x) (post_flush_rq x) v (fl_sync x) (ended x).
Definition set_fl_sync (v : Z) (x : ordered_state) : ordered_state :=
  mk_ord (o_seq x) (o_ordered x) (o_next x) (o_err x) (o_orig x)
    (pre_flush_rq x) (bar_rq x) (post_flush_rq x) (fl_async x) v (ended x).
Definition set_ended (v : list (nat * Z)) (x : ordered_state) : ordered_state :=
  mk_ord (o_seq x) (o_ordered x) (o_next x) (o_err x) (o_orig x)
    (pre_flush_rq x) (bar_rq x) (post_flush_rq x) (fl_async x) (fl_sync x) v.

Definition upd_ord {D} (f : ordered_state → ordered_state) (q : rqueue D) : rqueue D :=
  set_q_ord (f (q_ord q)) q.

(** ** Requests in flight *)

Definition blk_account_rq (r : erq) : bool :=
  er_started r && (er_pc r || er_fs r || er_discard r).

Definition rq_is_sync (r : erq) : bool := negb (er_write r) || er_rw_sync r.

(** [q->in_flight[rq_is_sync(rq)] += d] *)
Definition add_in_flight (d : Z) (r : erq) (o : ordered_state) : ordered_state :=
  if rq_is_sync r then set_fl_sync (u32 (fl_sync o + d)) o
  else set_fl_async (u32 (fl_async o + d)) o.

Definition queue_in_flight {D} (q : rqueue D) : Z :=
  s32 (u32 (fl_async (q_ord q) + fl_sync (q_ord q))).

(** ** The flush sequence *)

Definition QUEUE_ORDERED_BY_DRAIN : Z := 1.
Definition QUEUE_ORDERED_BY_TAG : Z := 2.
Definition QUEUE_ORDERED_DO_PREFLUSH : Z := 16.
Definition QUEUE_ORDERED_DO_BAR : Z := 32.
Definition QUEUE_ORDERED_DO_POSTFLUSH : Z := 64.
Definition QUEUE_ORDERED_DO_FUA : Z := 128.
Definition QUEUE_ORDERED_NONE : Z := 0.
Definition QUEUE_ORDERED_DRAIN : Z := Z.lor QUEUE_ORDERED_BY_DRAIN QUEUE_ORDERED_DO_BAR.
Definition QUEUE_ORDERED_DRAIN_FLUSH : Z :=
  Z.lor (Z.lor QUEUE_ORDERED_DRAIN QUEUE_ORDERED_DO_PREFLUSH) QUEUE_ORDERED_DO_POSTFLUSH.
Definition QUEUE_ORDERED_DRAIN_FUA : Z :=
  Z.lor (Z.lor QUEUE_ORDERED_DRAIN QUEUE_ORDERED_DO_PREFLUSH) QUEUE_ORDERED_DO_FUA.
Definition QUEUE_ORDERED_TAG : Z := Z.lor QUEUE_ORDERED_BY_TAG QUEUE_ORDERED_DO_BAR.
Definition QUEUE_ORDERED_TAG_FLUSH : Z :=
  Z.lor (Z.lor QUEUE_ORDERED_TAG QUEUE_ORDERED_DO_PREFLUSH) QUEUE_ORDERED_DO_POSTFLUSH.
Definition QUEUE_ORDERED_TAG_FUA : Z :=
  Z.lor (Z.lor QUEUE_ORDERED_TAG QUEUE_ORDERED_DO_PREFLUSH) QUEUE_ORDERED_DO_FUA.

Definition EOPNOTSUPP : Z := 95.

(** [has_fn] is whether a [prepare_flush_fn] is given. *)
Definition blk_queue_ordered {D} (ordered : Z) (has_fn : bool) (q : rqueue D) : Z * rqueue D :=
  if negb has_fn &&
     negb (Z.land ordered (Z.lor QUEUE_ORDERED_DO_PREFLUSH QUEUE_ORDERED_DO_POSTFLUSH) =? 0)
  then (- EINVAL, q)
  else if negb (ordered =? QUEUE_ORDERED_NONE) && negb (ordered =? QUEUE_ORDERED_DRAIN) &&
          negb (ordered =? QUEUE_ORDERED_DRAIN_FLUSH) && negb (ordered =? QUEUE_ORDERED_DRAIN_FUA) &&
          negb (ordered =? QUEUE_ORDERED_TAG) && negb (ordered =? QUEUE_ORDERED_TAG_FLUSH) &&
          negb (ordered =? QUEUE_ORDERED_TAG_FUA)
  then (- EINVAL, q)
  else (0, upd_ord (λ o, set_o_next ordered (set_o_ordered ordered o)) q).

(** The position of the lowest clear bit, of a word of [n] bits. *)
Fixpoint ffz (n : nat) (w : Z) : Z :=
  match n with
  | O => 0
  | S n => if Z.testbit w 0 then 1 + ffz n (Z.shiftr w 1) else 0
  end.

Definition blk_ordered_cur_seq {D} (q : rqueue D) : Z :=
  if q_ordseq q =? 0 then 0 else u32 (Z.shiftl 1 (ffz 64 (q_ordseq q))).

(** The part of [elv_completed_request] that is about the request. *)
Definition account_completed {D} (i : nat) (q : rqueue D) : rqueue D :=
  if blk_account_rq (rq_of q i) then upd_ord (add_in_flight (-1) (rq_of q i)) q else q.

(** [__blk_end_request_all] on a request whose owner gave no [end_io]; at the
    end of a sequence [ordseq] is 0, and the accounting is all that remains of
    [elv_completed_request]. *)
Definition end_original {D} (i : nat) (err : Z) (q : rqueue D) : rqueue D :=
  account_completed i (upd_ord (λ o, set_ended (ended o ++ [(i, err)]) o) q).

(** [None] is the BUG, or the use of an [orig_bar_rq] that is not set. *)
Definition blk_ordered_complete_seq {D} (seq err : Z) (q : rqueue D) : option (bool * rqueue D) :=
  let q := if negb (err =? 0) && (o_err (q_ord q) =? 0) then upd_ord (set_o_err err) q else q in
  if negb (Z.land (q_ordseq q) seq =? 0) then None
  else
    let q := upd_ord (set_o_seq (Z.lor (q_ordseq q) seq)) q in
    if negb (blk_ordered_cur_seq q =? QUEUE_ORDSEQ_DONE) then Some (false, q)
    else
      let q := upd_ord (set_o_seq 0) q in
      i ← o_orig (q_ord q);
      Some (true, end_original i (o_err (q_ord q)) q).

(** [__blk_run_queue] at the end of the drain is the driver's next fetch. *)
Definition elv_completed_request {D} (i : nat) (q : rqueue D) : option (rqueue D) :=
  let q := account_completed i q in
  if q_ordseq q =? 0 then Some q
  else
    let last := match queue_head q with
                | [] => true
                | next :: _ => QUEUE_ORDSEQ_DRAIN <? blk_ordered_req_seq q next
                end in
    if (queue_in_flight q =? 0) && (blk_ordered_cur_seq q =? QUEUE_ORDSEQ_DRAIN) && last
    then snd <$> blk_ordered_complete_seq QUEUE_ORDSEQ_DRAIN 0 q
    else Some q.

Definition pre_flush_end_io {D} (i : nat) (err : Z) (q : rqueue D) : option (rqueue D) :=
  q ← elv_completed_request i q;
  snd <$> blk_ordered_complete_seq QUEUE_ORDSEQ_PREFLUSH err q.

Definition bar_end_io {D} (i : nat) (err : Z) (q : rqueue D) : option (rqueue D) :=
  q ← elv_completed_request i q;
  snd <$> blk_ordered_complete_seq QUEUE_ORDSEQ_BAR err q.

Definition post_flush_end_io {D} (i : nat) (err : Z) (q : rqueue D) : option (rqueue D) :=
  q ← elv_completed_request i q;
  snd <$> blk_ordered_complete_seq QUEUE_ORDSEQ_POSTFLUSH err q.

(** The requests of the sequence have an [end_io] of their own, the others go
    back to their owner. *)
Definition blk_finish_request {D} (i : nat) (err : Z) (q : rqueue D) : option (rqueue D) :=
  let o := q_ord q in
  if bool_decide (i ∈ queue_head q) then None
  else if bool_decide (i = pre_flush_rq o) then pre_flush_end_io i err q
  else if bool_decide (i = bar_rq o) then bar_end_io i err q
  else if bool_decide (i = post_flush_rq o) then post_flush_end_io i err q
  else elv_completed_request i (upd_ord (λ o, set_ended (ended o ++ [(i, err)]) o) q).

(** [memset]: the command type is none of the defined ones. *)
Definition blk_rq_init : erq :=
  mk_erq (2 ^ 64 - 1) 0 false false false false false false false false false false false
    false 0 false false 0.

(** The flush command of a SCSI disk, a packet command. *)
Definition sd_prepare_flush (x : erq) : erq :=
  mk_erq (er_pos x) (er_sectors x) (er_write x) (er_discard x) false true (er_rw_sync x)
    (er_nomerge x) (er_soft x) (er_hard x) (er_started x) (er_sorted x) (er_elvpriv x)
    (er_color x) (er_disk x) (er_special x) (er_integrity x) (er_fifo_time x).

(** [init_request_from_bio] for the bio of the request [x]. *)
Definition init_request_from_bio (x : erq) : erq :=
  mk_erq (er_pos x) (er_sectors x) (er_write x) (er_discard x) true false (er_rw_sync x)
    false false (er_hard x) false false false false (er_disk x) false (er_integrity x) 0.

(** ** Taking requests off the queue *)

Definition blk_dequeue_request {D} (i : nat) (q : rqueue D) : option (rqueue D) :=
  if negb (bool_decide (i ∈ queue_head q)) then None
  else if on_hash q i then None
  else
    let q := set_queue_head (without i (queue_head q)) q in
    Some (if blk_account_rq (rq_of q i) then upd_ord (add_in_flight 1 (rq_of q i)) q else q).

Definition blk_start_request {D} (i : nat) (q : rqueue D) : option (rqueue D) :=
  blk_dequeue_request i q.

Section driver.
Context {D : Type} `{Sched D}.

(** [which] is whether it is the flush before the barrier; its disk is the one
    the barrier proxy has at that moment. *)
Definition queue_flush (which : bool) (q : rqueue D) : option (rqueue D) :=
  let o := q_ord q in
  let i := if which then pre_flush_rq o else post_flush_rq o in
  let rq := mk_erq (er_pos blk_rq_init) 0 false false false false false false false true
              false false false false (er_disk (rq_of q (bar_rq o))) false false 0 in
  elv_insert 0 i ELEVATOR_INSERT_FRONT (upd_rq i (λ _, sd_prepare_flush rq) q).

(** [bit] of [q->ordered] *)
Definition ordered_has (q : rqueue D) (bit : Z) : bool :=
  negb (Z.land (o_ordered (q_ord q)) bit =? 0).

(** The mode of the sequence: an empty barrier has no request of its own. *)
Definition ordered_mode (sectors next : Z) : Z :=
  if sectors =? 0 then
    let m := Z.land next (Z.lnot (Z.lor QUEUE_ORDERED_DO_BAR QUEUE_ORDERED_DO_POSTFLUSH)) in
    if negb (Z.land m QUEUE_ORDERED_BY_TAG =? 0) &&
       (Z.land m QUEUE_ORDERED_DO_PREFLUSH =? 0)
    then Z.lor (Z.land m (Z.lnot QUEUE_ORDERED_BY_TAG)) QUEUE_ORDERED_BY_DRAIN
    else m
  else next.

(** Queue a request of the sequence, or note that it is skipped: the last
    request queued and the skipped steps go along. *)
Definition queue_or_skip (bit seq : Z) (i : nat) (queue : rqueue D → option (rqueue D))
    (s : option nat * Z * rqueue D) : option (option nat * Z * rqueue D) :=
  let '(rq, skip, q) := s in
  if ordered_has q bit then q ← queue q; Some (Some i, skip, q)
  else Some (rq, Z.lor skip seq, q).

Definition queue_bar (i : nat) (q : rqueue D) : option (rqueue D) :=
  let bar := bar_rq (q_ord q) in
  elv_insert 0 bar ELEVATOR_INSERT_FRONT
    (upd_rq bar (λ _, init_request_from_bio (rq_of q i)) q).

(** The result is that of the function, with [*rqp] and the queue. *)
Definition start_ordered (i : nat) (q : rqueue D) : option (bool * option nat * rqueue D) :=
  let mode := ordered_mode (er_sectors (rq_of q i)) (o_next (q_ord q)) in
  let q := upd_ord (λ o, set_o_seq (Z.lor (o_seq o) QUEUE_ORDSEQ_STARTED)
                           (set_o_ordered mode (set_o_err 0 o))) q in
  q ← blk_dequeue_request i q;
  let q := upd_ord (set_o_orig (Some i)) q in
  let o := q_ord q in
  s ← queue_or_skip QUEUE_ORDERED_DO_POSTFLUSH QUEUE_ORDSEQ_POSTFLUSH (post_flush_rq o)
        (queue_flush false) (None, 0, q);
  s ← queue_or_skip QUEUE_ORDERED_DO_BAR QUEUE_ORDSEQ_BAR (bar_rq o) (queue_bar i) s;
  '(rq, skip, q) ← queue_or_skip QUEUE_ORDERED_DO_PREFLUSH QUEUE_ORDSEQ_PREFLUSH
                     (pre_flush_rq o) (queue_flush true) s;
  let wait := ordered_has q QUEUE_ORDERED_BY_DRAIN && negb (queue_in_flight q =? 0) in
  let rq := if wait then None else rq in
  let skip := if wait then skip else Z.lor skip QUEUE_ORDSEQ_DRAIN in
  '(done, q) ← blk_ordered_complete_seq skip 0 q;
  Some (negb done, rq, q).

Definition is_barrier (r : erq) : bool := er_fs r && er_hard r.

(** Whether the request [i] may be handed out now; [*rqp] is [None] when the
    driver has to wait. *)
Definition blk_do_ordered (i : nat) (q : rqueue D) : option (bool * option nat * rqueue D) :=
  let o := q_ord q in
  let rq := rq_of q i in
  if q_ordseq q =? 0 then
    if negb (is_barrier rq) then Some (true, Some i, q)
    else if negb (o_next o =? QUEUE_ORDERED_NONE) then start_ordered i q
    else q ← blk_dequeue_request i q;
         q ← blk_finish_request i (- EOPNOTSUPP) q;
         Some (false, None, q)
  else if negb (er_fs rq) && negb (bool_decide (i = pre_flush_rq o))
          && negb (bool_decide (i = post_flush_rq o))
  then Some (true, Some i, q)
  else if ordered_has q QUEUE_ORDERED_BY_TAG then
    Some (true, if is_barrier rq && negb (bool_decide (i = bar_rq o)) then None else Some i, q)
  else
    Some (true, if blk_ordered_cur_seq q <? blk_ordered_req_seq q i then None else Some i, q).

(** [fuel] bounds the rounds of the two loops. *)
Fixpoint __elv_next_request (fuel : nat) (q : rqueue D) : option (option nat * rqueue D) :=
  match fuel with
  | O => None
  | S fuel =>
      match queue_head q with
      | i :: _ =>
          '(yes, rq, q) ← blk_do_ordered i q;
          if (yes : bool) then Some (rq, q) else __elv_next_request fuel q
      | [] =>
          '(again, q) ← sched_dispatch q;
          if (again : bool) then __elv_next_request fuel q else Some (None, q)
      end
  end.

(** What the driver's [prep_rq_fn] says of a request; [BLKPREP_OK] also stands
    for a request that is already prepared. *)
Inductive blkprep := BLKPREP_OK | BLKPREP_KILL | BLKPREP_DEFER.

(** The driver has seen the request. *)
Definition see_request (i : nat) (q : rqueue D) : rqueue D :=
  let q := if er_started (rq_of q i) then q else upd_rq i (set_er_started true) q in
  if match boundary_rq q with None => true | Some b => bool_decide (b = i) end
  then set_boundary_rq None (set_end_sector (rq_end_sector (rq_of q i)) q) else q.

Fixpoint blk_peek_request (fuel : nat) (prep : nat → blkprep) (q : rqueue D)
    : option (option nat * rqueue D) :=
  match fuel with
  | O => None
  | S fuel' =>
      '(rq, q) ← __elv_next_request fuel q;
      match rq with
      | None => Some (None, q)
      | Some i =>
          let q := see_request i q in
          match prep i with
          | BLKPREP_OK => Some (Some i, q)
          | BLKPREP_DEFER => Some (None, q)
          | BLKPREP_KILL =>
              q ← blk_start_request i q;
              q ← blk_finish_request i (- EIO) q;
              blk_peek_request fuel' prep q
          end
      end
  end.

Definition blk_fetch_request (fuel : nat) (prep : nat → blkprep) (q : rqueue D)
    : option (option nat * rqueue D) :=
  '(rq, q) ← blk_peek_request fuel prep q;
  match rq with
  | None => Some (None, q)
  | Some i => q ← blk_start_request i q; Some (Some i, q)
  end.

Definition elv_requeue_request (i : nat) (q : rqueue D) : option (rqueue D) :=
  let q := if blk_account_rq (rq_of q i) then upd_ord (add_in_flight (-1) (rq_of q i)) q else q in
  let q := upd_rq i (set_er_started false) q in
  elv_insert 0 i ELEVATOR_INSERT_REQUEUE q.

Definition blk_requeue_request (i : nat) (q : rqueue D) : option (rqueue D) :=
  if bool_decide (i ∈ queue_head q) then None else elv_requeue_request i q.
End driver.

(** ** What the driver's side relies on

    A scheduler moves requests of its own to the dispatch queue, behind every
    request that carries a barrier or is started, takes them off the merge hash,
    and changes nothing of any request but the time it keeps in it. *)
Definition same_request (r r' : erq) : Prop := set_er_fifo_time 0 r' = set_er_fifo_time 0 r.

Definition frame {D} (q q' : rqueue D) : Prop :=
  q_ord q' = q_ord q ∧ ordcolor q' = ordcolor q ∧
  (∀ j, same_request (rq_of q j) (rq_of q' j)) ∧ hash_shrinks q q'.

Class SchedFrame (D : Type) `{SchedOk D} := {
  sched_dispatch_frame q q' :
    sched_inv q → sched_dispatch q = Some (true, q') →
    frame q q' ∧ ∃ i l1 l2, queue_head q = l1 ++ l2 ∧ queue_head q' = l1 ++ i :: l2 ∧
      Forall (λ p, stop_flags (rq_of q p) = false) l2 ∧ on_hash q' i = false;
  sched_add_frame q q' i :
    sched_inv q → i ∉ sched_contents (edata q) → sched_add i q = Some q' →
    frame q q' ∧ ∃ l, queue_head q' = queue_head q ++ l ∧
      Forall (λ j, on_hash q' j = false) l;
}.

#[export] Instance same_request_equiv : Equivalence same_request.
Proof. unfold same_request. split; [by intros ?|by intros ? ?|]. intros ? ? ? E1 E2. congruence. Qed.

Lemma frame_refl {D} (q q' : rqueue D) :
  q_ord q' = q_ord q → ordcolor q' = ordcolor q → rqs q' = rqs q → hash q' = hash q →
  last_merge q' = last_merge q → frame q q'.
Proof.
  intros ? ? Hr Hh Hl. split_and!; [done|done| |].
  - intros j. by rewrite (rq_of_eq q q').
  - split; [|by left]. intros i. by rewrite (on_hash_eq q q').
Qed.

Lemma frame_trans {D} (q1 q2 q3 : rqueue D) : frame q1 q2 → frame q2 q3 → frame q1 q3.
Proof.
  intros (? & ? & Hs1 & ?) (? & ? & Hs2 & ?). split_and!; [congruence|congruence| |].
  - intros j. etransitivity; [apply Hs1|apply Hs2].
  - by eapply hash_shrinks_trans.
Qed.

Lemma frame_undo_sorted {D} (q : rqueue D) i : frame q (undo_sorted i q).
Proof.
  destruct (undo_sorted_fields q i) as (Hr & _ & _ & _ & _ & Hh). split_and!; [| | |done].
  - unfold undo_sorted, elv_rqhash_del, clear_last_merge. repeat case_match; done.
  - unfold undo_sorted, elv_rqhash_del, clear_last_merge. repeat case_match; done.
  - intros j. by rewrite (rq_of_eq q (undo_sorted i q)).
Qed.

Lemma undo_sorted_gone {D} (q : rqueue D) i : on_hash (undo_sorted i q) i = false.
Proof.
  unfold undo_sorted. set (q1 := clear_last_merge i q). unfold elv_rqhash_del.
  destruct (on_hash q1 i) eqn:E; [|done].
  destruct (on_hash (__elv_rqhash_del i q1) i) eqn:E2; [|done].
  apply on_hash_bucket in E2 as [b Hb]. rewrite bucket_del, list_elem_of_filter in Hb. tauto.
Qed.

Lemma dispatch_sort_frame {D} (q : rqueue D) i :
  frame q (elv_dispatch_sort i q) ∧ on_hash (elv_dispatch_sort i q) i = false.
Proof.
  unfold elv_dispatch_sort. fold (undo_sorted i q). split.
  - eapply frame_trans; [apply (frame_undo_sorted q i)|]. by apply frame_refl.
  - rewrite (on_hash_eq (undo_sorted i q)) by done. apply undo_sorted_gone.
Qed.

Lemma dispatch_add_tail_frame {D} (q : rqueue D) i :
  frame q (elv_dispatch_add_tail i q) ∧ on_hash (elv_dispatch_add_tail i q) i = false.
Proof.
  unfold elv_dispatch_add_tail. fold (undo_sorted i q). split.
  - eapply frame_trans; [apply (frame_undo_sorted q i)|]. by apply frame_refl.
  - rewrite (on_hash_eq (undo_sorted i q)) by done. apply undo_sorted_gone.
Qed.

#[export, refine] Instance noop_frame : SchedFrame noop_data := {}.
Proof.
  - intros q q' _. cbn [sched_dispatch noop_sched]. unfold noop_dispatch.
    destruct (nd_queue (edata q)) as [|i rest]; [done|].
    set (q1 := set_edata _ q). intros E. apply (inj Some) in E.
    apply (f_equal snd) in E. cbn [snd] in E. subst q'.
    destruct (dispatch_sort_frame q1 i) as [Hf Hh]. split.
    + eapply frame_trans; [|exact Hf]. by apply frame_refl.
    + destruct (dispatch_sort_barrier q1 i) as (l1 & l2 & Hq & Hq' & Hc).
      exists i, l1, l2. split_and!; [exact Hq|exact Hq'| |exact Hh].
      eapply Forall_impl; [exact Hc|]. intros p (_ & _ & Hs). exact Hs.
  - intros q q' i _ _ E. cbn [sched_add noop_sched] in E. unfold noop_add_request in E.
    apply (inj Some) in E as <-. split; [by apply frame_refl|].
    exists []. cbn [queue_head set_edata]. by rewrite app_nil_r.
Defined.

(** *** The deadline scheduler *)

Lemma frame_dd_upd f (q : rqueue deadline_data) : frame q (dd_upd f q).
Proof. by apply frame_refl. Qed.

Lemma frame_fifo_time i t {D} (q : rqueue D) : frame q (upd_rq i (set_er_fifo_time t) q).
Proof.
  split_and!; [done|done| |by split; [|left]].
  intros j. rewrite rq_of_upd. by case_decide; subst.
Qed.

Lemma frame_del_rq_rb i (q q' : rqueue deadline_data) :
  deadline_del_rq_rb i q = Some q' → frame q q' ∧ queue_head q' = queue_head q.
Proof.
  unfold deadline_del_rq_rb, elv_rb_del. set (q1 := if bool_decide (sel (dir_of q i) (next_rq (edata q)) = Some i) then _ else q).
  assert (frame q q1 ∧ queue_head q1 = queue_head q) as [Hf Hq].
  { subst q1. destruct (bool_decide _); split; try done; apply frame_refl; done. }
  clearbody q1. destruct (bool_decide _); [|done].
  intros E. apply (inj Some) in E as <-. split; [|exact Hq].
  eapply frame_trans; [exact Hf|apply frame_dd_upd].
Qed.

Lemma move_request_frame i (q q' : rqueue deadline_data) :
  deadline_move_request i q = Some q' →
  frame q q' ∧ queue_head q' = queue_head q ++ [i] ∧ on_hash q' i = false.
Proof.
  unfold deadline_move_request, deadline_move_to_dispatch, deadline_remove_request.
  set (q1 := dd_upd _ (dd_upd _ q)).
  intros (q2 & E & Hq')%bind_Some. apply frame_del_rq_rb in E as [Hf2 Hq2].
  apply (inj Some) in Hq' as <-.
  destruct (dispatch_add_tail_frame q2 i) as [Hf3 Hh].
  destruct (dispatch_add_tail_value q2 i) as (_ & _ & Hq3 & _). split_and!; [|by rewrite Hq3, Hq2|done].
  eapply frame_trans; [|exact Hf3]. eapply frame_trans; [|exact Hf2].
  assert (frame q q1) as Hf1 by (by apply frame_refl). eapply frame_trans; [exact Hf1|].
  unfold rq_fifo_clear. eapply frame_trans; [apply frame_dd_upd|apply frame_fifo_time].
Qed.

Lemma add_rq_rb_frame fuel i (q q' : rqueue deadline_data) :
  deadline_add_rq_rb fuel i q = Some q' →
  frame q q' ∧ ∃ l, queue_head q' = queue_head q ++ l ∧ Forall (λ j, on_hash q' j = false) l.
Proof.
  revert q. induction fuel as [|fuel IH]; intros q; cbn [deadline_add_rq_rb]; [done|].
  destruct (elv_rb_add _ _ _) as [a|l].
  - intros (q1 & E1 & (Hf & l & Hq & Hl)%IH)%bind_Some.
    apply move_request_frame in E1 as (Hf1 & Hq1 & Hh1).
    split; [by eapply frame_trans|]. exists (a :: l). split.
    + by rewrite Hq, Hq1, <- app_assoc.
    + constructor; [|done]. destruct Hf as (_ & _ & _ & Hsh & _).
      destruct (on_hash q' a) eqn:E; [|done]. apply Hsh in E. congruence.
  - intros E. apply (inj Some) in E as <-. split; [apply frame_dd_upd|].
    exists []. cbn [queue_head dd_upd set_edata]. by rewrite app_nil_r.
Qed.

Lemma bump_frame b s (q : rqueue deadline_data) :
  frame q (bump b s q) ∧ queue_head (bump b s q) = queue_head q.
Proof. split; [apply frame_dd_upd|done]. Qed.

(** Its dispatching is in the order of the decisions. *)
Lemma deadline_fifo (q q' : rqueue deadline_data) :
  sched_inv q → sched_dispatch q = Some (true, q') →
  frame q q' ∧ ∃ i, queue_head q' = queue_head q ++ [i] ∧ on_hash q' i = false.
Proof.
  intros Hinv E. cbn [sched_dispatch deadline_sched] in E.
  rewrite dispatch_value in E by exact Hinv. destruct (pick q) as [[[i b] s]|]; [|done].
  apply bind_Some in E as (q1 & E & Hq'). apply (inj Some) in Hq'.
  apply (f_equal snd) in Hq'. cbn [snd] in Hq'. subst q1.
  apply move_request_frame in E as (Hf & Hq & Hh). destruct (bump_frame b s q) as [Hfb Hqb].
  split; [by eapply frame_trans|]. exists i. by rewrite Hq, Hqb.
Qed.

#[export, refine] Instance deadline_sched_frame : SchedFrame deadline_data := {}.
Proof.
  - intros q q' Hinv E. destruct (deadline_fifo q q' Hinv E) as (Hf & i & Hq & Hh).
    split; [done|]. exists i, (queue_head q), []. by rewrite app_nil_r.
  - intros q q' i _ _ E. cbn [sched_add deadline_sched] in E. unfold deadline_add_request in E.
    apply bind_Some in E as (q1 & (Hf & l & Hq & Hl)%add_rq_rb_frame & E).
    apply (inj Some) in E as <-. split.
    + eapply frame_trans; [exact Hf|]. eapply frame_trans; [apply frame_fifo_time|apply frame_dd_upd].
    + by exists l.
Defined.
