(* ===== verification/BarrierInv.v ===== *)
(** * The invariant of the driver's side of the queue

    The count of requests in flight and the flush sequence of a barrier, as an
    invariant on the parts of the queue, and the lemmas that move one request:
    dispatching, queueing, starting, completing.  [Barrier] lifts them to the
    operations of [BlkQueue] and to runs of the whole. *)
From stdpp Require Import sorting.
From S2P Require Import Prelude Elevator BlkQueue.

(** ** The invariant

    It is stated on the parts of the queue: the state of the sequence [o], the
    requests [g], the colour of new requests [oc], the dispatch queue [hd], the
    requests with the scheduler [cs] and those with the driver [drv]. *)

Definition proxy (o : ordered_state) (i : nat) : bool :=
  bool_decide (i = pre_flush_rq o) || bool_decide (i = bar_rq o)
  || bool_decide (i = post_flush_rq o).

(** The colour of a file system request of the users of the queue, and whether
    it is a barrier. *)
Definition hue (o : ordered_state) (g : nat → erq) (i : nat) : option (bool * bool) :=
  if er_fs (g i) && negb (proxy o i) then Some (er_color (g i), er_hard (g i)) else None.

(** The colours of a list of requests match, from the colour [c]; every barrier
    changes the colour of the requests behind it. *)
Fixpoint coloured (f : nat → option (bool * bool)) (c : bool) (l : list nat) : option bool :=
  match l with
  | [] => Some c
  | i :: l =>
      match f i with
      | None => coloured f c l
      | Some (k, h) => if eqb k c then coloured f (if h then negb c else c) l else None
      end
  end.

(** [blk_ordered_req_seq], on the parts of the queue. *)
Definition req_seq (o : ordered_state) (g : nat → erq) (i : nat) : Z :=
  if bool_decide (i = pre_flush_rq o) then QUEUE_ORDSEQ_PREFLUSH
  else if bool_decide (i = bar_rq o) then QUEUE_ORDSEQ_BAR
  else if bool_decide (i = post_flush_rq o) then QUEUE_ORDSEQ_POSTFLUSH
  else if negb (er_fs (g i)) then QUEUE_ORDSEQ_DRAIN
  else if eqb (er_color (g i)) (er_color (default blank_rq (g <$> o_orig o)))
  then QUEUE_ORDSEQ_DRAIN else QUEUE_ORDSEQ_DONE.

Definition seq_val (d p b t : bool) : Z :=
  1 + 2 * Z.b2z d + 4 * Z.b2z p + 8 * Z.b2z b + 16 * Z.b2z t.

(** The first step that is not done. *)
Definition cur_of (d p b t : bool) : Z :=
  if d then if p then if b then if t then 32 else 16 else 8 else 4 else 2.

Definition located (hd drv : list nat) (i : nat) (flag : bool) : Prop :=
  if flag then (i ∉ hd) ∧ (i ∉ drv) else i ∈ hd ∨ i ∈ drv.

(** No sequence in progress: the requests up to the first barrier have the
    colour [e]. *)
Record idle (o : ordered_state) (g : nat → erq) (oc : bool) (hd drv : list nat) (e : bool)
    : Prop := {
  id_seq : o_seq o = 0;
  id_out i : proxy o i = true → (i ∉ hd) ∧ (i ∉ drv);
  id_hue : coloured (hue o g) e hd = Some oc;
  id_drv i : i ∈ drv → hue o g i = None ∨ hue o g i = Some (e, false);
}.

(** A sequence in progress, with its steps done: the requests of the steps that
    remain are queued or with the driver, the driver has at most the one of the
    present step, and the requests older than the barrier are with the driver,
    or requeued at the front of the queue, until the drain is over. *)
Record busy (o : ordered_state) (g : nat → erq) (oc : bool) (hd cs drv : list nat)
    (d p b t : bool) (orig : nat) : Prop := {
  bz_seq : o_seq o = seq_val d p b t;
  bz_orig : o_orig o = Some orig;
  bz_away : (orig ∉ hd) ∧ (orig ∉ cs) ∧ (orig ∉ drv) ∧ proxy o orig = false;
  bz_fresh : er_started (g orig) = false;
  bz_drain : Z.land (o_ordered o) QUEUE_ORDERED_BY_TAG = 0;
  bz_pre : located hd drv (pre_flush_rq o) p;
  bz_bar : located hd drv (bar_rq o) b;
  bz_post : located hd drv (post_flush_rq o) t;
  bz_order l1 x l2 : hd = l1 ++ x :: l2 → proxy o x = true →
    Forall (λ y, req_seq o g y < req_seq o g x) l1;
  bz_gate i : i ∈ drv → proxy o i = true → req_seq o g i = cur_of d p b t;
  bz_hue : ∃ old l, hd = old ++ l ∧
    coloured (hue o g) (negb (er_color (g orig))) l = Some oc ∧
    Forall (λ i, proxy o i = false ∧
      (hue o g i = None ∨
       hue o g i = Some (er_color (g orig), false) ∧ er_soft (g i) = true)) old ∧
    (d = true → old = []);
  bz_drv i : i ∈ drv →
    hue o g i = None ∨ (d = false ∧ hue o g i = Some (er_color (g orig), false));
}.

Inductive phase (o : ordered_state) (g : nat → erq) (oc : bool) (hd cs drv : list nat) : Prop :=
| phase_idle e : idle o g oc hd drv e → phase o g oc hd cs drv
| phase_busy d p b t orig : d && p && b && t = false →
    busy o g oc hd cs drv d p b t orig → phase o g oc hd cs drv.

(** The modes of a SCSI disk. *)
Definition drain_mode (m : Z) : Prop :=
  m = QUEUE_ORDERED_DRAIN ∨ m = QUEUE_ORDERED_DRAIN_FLUSH ∨ m = QUEUE_ORDERED_DRAIN_FUA.

Record gen (o : ordered_state) (g : nat → erq) (oc : bool) (hd cs drv : list nat) : Prop := {
  g_mode : drain_mode (o_next o);
  g_names : NoDup [pre_flush_rq o; bar_rq o; post_flush_rq o];
  g_nodup : NoDup (hd ++ cs ++ drv);
  g_sched i : i ∈ cs → proxy o i = false ∧ (hue o g i = None ∨ hue o g i = Some (oc, false));
  g_kind i : i ∈ hd ++ drv → proxy o i = true → er_fs (g i) = bool_decide (i = bar_rq o);
  g_soft i : i ∈ hd → proxy o i = true ∨ (∃ c, hue o g i = Some (c, true)) →
    er_soft (g i) = true;
  g_fresh i c : i ∈ hd → hue o g i = Some (c, true) → er_started (g i) = false;
}.

Definition ord (o : ordered_state) (g : nat → erq) (oc : bool) (hd cs drv : list nat) : Prop :=
  gen o g oc hd cs drv ∧ phase o g oc hd cs drv.

(** The requests in flight. *)
Fixpoint count (f : nat → bool) (l : list nat) : Z :=
  match l with [] => 0 | i :: l => Z.b2z (f i) + count f l end.

Definition accounted (g : nat → erq) (sync : bool) (i : nat) : bool :=
  blk_account_rq (g i) && eqb (rq_is_sync (g i)) sync.

Record acct (o : ordered_state) (g : nat → erq) (drv : list nat) : Prop := {
  ac_started : Forall (λ i, er_started (g i) = true) drv;
  ac_few : Z.of_nat (length drv) < 2 ^ 32;
  ac_sync : fl_sync o = u32 (count (accounted g true) drv);
  ac_async : fl_async o = u32 (count (accounted g false) drv);
}.

(** [oc] is the colour of the requests the scheduler holds. *)
Record invc {D} `{SchedOk D} (oc : bool) (q : rqueue D) (drv : list nat) : Prop := {
  in_sched : sched_inv q;
  in_sorted : sorted_ok q;
  in_hash i : i ∈ queue_head q ++ drv ∨ proxy (q_ord q) i = true → on_hash q i = false;
  in_acct : acct (q_ord q) (rq_of q) drv;
  in_ord : ord (q_ord q) (rq_of q) oc (queue_head q) (sched_contents (edata q)) drv;
}.

Definition inv {D} `{SchedOk D} (q : rqueue D) (drv : list nat) : Prop :=
  invc (ordcolor q) q drv.

(** *** Counting *)

Lemma count_perm f l l' : l ≡ₚ l' → count f l = count f l'.
Proof. induction 1; cbn [count]; lia. Qed.

Lemma count_ext f f' l : (∀ i, i ∈ l → f i = f' i) → count f l = count f' l.
Proof.
  induction l as [|i l IH]; intros Hf; cbn [count]; [done|].
  rewrite (Hf i) by left. rewrite IH; [done|]. intros. apply Hf. by right.
Qed.

Lemma count_bounds f l : 0 ≤ count f l ≤ Z.of_nat (length l).
Proof. induction l as [|i l IH]; cbn [count length]; [lia|]. destruct (f i); cbn; lia. Qed.

Lemma count_zero f l i : count f l = 0 → i ∈ l → f i = false.
Proof.
  induction l as [|j l IH]; [by intros _ ?%elem_of_nil|]. cbn [count].
  pose proof (count_bounds f l). intros Hz [->|Hi]%elem_of_cons.
  - destruct (f j); cbn in *; [lia|done].
  - apply IH; [|done]. destruct (f j); cbn in *; lia.
Qed.

Lemma count_or f f' f'' l :
  (∀ i, i ∈ l → Z.b2z (f i) + Z.b2z (f' i) = Z.b2z (f'' i)) → count f l + count f' l = count f'' l.
Proof.
  induction l as [|i l IH]; intros Hf; cbn [count]; [done|].
  assert (count f l + count f' l = count f'' l) by (apply IH; intros; apply Hf; by right).
  specialize (Hf i ltac:(left)). lia.
Qed.

(** *** Colours *)

Lemma coloured_app f c l1 l2 :
  coloured f c (l1 ++ l2) = coloured f c l1 ≫= λ c', coloured f c' l2.
Proof.
  revert c. induction l1 as [|i l1 IH]; intros c; cbn [coloured app]; [done|].
  destruct (f i) as [[k h]|]; [|apply IH]. destruct (eqb k c); [apply IH|done].
Qed.

Lemma coloured_ext f f' c l : (∀ i, i ∈ l → f i = f' i) → coloured f c l = coloured f' c l.
Proof.
  revert c. induction l as [|i l IH]; intros c Hf; cbn [coloured]; [done|].
  rewrite (Hf i) by left.
  assert (∀ c, coloured f c l = coloured f' c l) as IH' by (intros; apply IH; intros; apply Hf; by right).
  destruct (f' i) as [[k h]|]; [|done]. by rewrite IH'.
Qed.

(** Without a barrier the colour stays. *)
Lemma coloured_plain f c l c' :
  (∀ i k, i ∈ l → f i ≠ Some (k, true)) → coloured f c l = Some c' → c' = c.
Proof.
  revert c. induction l as [|i l IH]; intros c Hf; cbn [coloured]; [by intros [=]|].
  assert (∀ j k, j ∈ l → f j ≠ Some (k, true)) as Hf' by (intros; apply Hf; by right).
  destruct (f i) as [[k []]|] eqn:E; [| |by apply IH].
  - exfalso. eapply (Hf i k); [left|done].
  - destruct (eqb k c); [by apply IH|done].
Qed.

Lemma coloured_insert f c l1 i l2 c' :
  coloured f c (l1 ++ l2) = Some c' → (∀ j k, j ∈ l2 → f j ≠ Some (k, true)) →
  f i = None ∨ f i = Some (c', false) → coloured f c (l1 ++ i :: l2) = Some c'.
Proof.
  rewrite !coloured_app. intros (c1 & E1 & E2)%bind_Some Hno Hi. rewrite E1. cbn [mbind option_bind].
  cbn [coloured]. destruct Hi as [-> | ->]; [done|].
  apply coloured_plain in E2 as E3; [|done]. subst c'. by rewrite eqb_reflx.
Qed.

Lemma coloured_skip f c l1 i l2 :
  f i = None → coloured f c (l1 ++ i :: l2) = coloured f c (l1 ++ l2).
Proof. intros Hi. rewrite !coloured_app. cbn [coloured]. by rewrite Hi. Qed.

Lemma coloured_none f c l : (∀ i, i ∈ l → f i = None) → coloured f c l = Some c.
Proof.
  induction l as [|i l IH]; intros Hf; cbn [coloured]; [done|]. rewrite Hf by left.
  apply IH. intros. apply Hf. by right.
Qed.

Lemma coloured_head f c i l c' k h :
  coloured f c (i :: l) = Some c' → f i = Some (k, h) →
  k = c ∧ coloured f (if h then negb c else c) l = Some c'.
Proof.
  cbn [coloured]. intros E Hi. rewrite Hi in E. destruct (eqb k c) eqn:Ek; [|done].
  by apply eqb_prop in Ek.
Qed.

(** *** Steps of the sequence *)

Lemma proxy_spec o i :
  proxy o i = true ↔ i = pre_flush_rq o ∨ i = bar_rq o ∨ i = post_flush_rq o.
Proof. unfold proxy. rewrite !orb_true_iff, !bool_decide_eq_true. tauto. Qed.

Lemma hue_proxy o g i : proxy o i = true → hue o g i = None.
Proof. unfold hue. intros ->. by rewrite andb_false_r. Qed.

Lemma req_seq_proxy o g i : proxy o i = true →
  i = pre_flush_rq o ∧ req_seq o g i = 4 ∨ i = bar_rq o ∧ i ≠ pre_flush_rq o ∧ req_seq o g i = 8 ∨
  i = post_flush_rq o ∧ i ≠ pre_flush_rq o ∧ i ≠ bar_rq o ∧ req_seq o g i = 16.
Proof.
  intros Hp%proxy_spec. unfold req_seq. repeat case_bool_decide;
    destruct Hp as [?|[?|?]]; subst; try done; auto 6.
Qed.

Lemma req_seq_hue o g i orig : o_orig o = Some orig → proxy o i = false →
  req_seq o g i = match hue o g i with
                  | Some (c, _) => if eqb c (er_color (g orig)) then 2 else 32
                  | None => 2
                  end.
Proof.
  intros Ho Hp. unfold req_seq, hue. rewrite Hp, Ho. unfold proxy in Hp.
  repeat (case_bool_decide; [done|]). cbn [negb default fmap option_fmap option_map].
  rewrite andb_true_r. by destruct (er_fs (g i)).
Qed.

Lemma cur_seq_val {D} (q : rqueue D) d p b t :
  o_seq (q_ord q) = seq_val d p b t → blk_ordered_cur_seq q = cur_of d p b t.
Proof.
  unfold blk_ordered_cur_seq, q_ordseq. intros ->. by destruct d, p, b, t; vm_compute.
Qed.

Lemma seq_val_busy d p b t : seq_val d p b t ≠ 0.
Proof. by destruct d, p, b, t. Qed.

(** *** The invariant depends on little of the queue *)

Lemma same_fields r r' : same_request r r' →
  er_fs r' = er_fs r ∧ er_color r' = er_color r ∧ er_hard r' = er_hard r ∧
  er_soft r' = er_soft r ∧ er_started r' = er_started r ∧
  blk_account_rq r' = blk_account_rq r ∧ rq_is_sync r' = rq_is_sync r ∧
  stop_flags r' = stop_flags r.
Proof.
  destruct r, r'. unfold same_request, set_er_fifo_time. cbn. intros [=]. subst.
  split_and!; reflexivity.
Qed.

Definition same_ord (o o' : ordered_state) : Prop :=
  o_seq o' = o_seq o ∧ o_orig o' = o_orig o ∧ o_ordered o' = o_ordered o ∧ o_next o' = o_next o ∧
  pre_flush_rq o' = pre_flush_rq o ∧ bar_rq o' = bar_rq o ∧ post_flush_rq o' = post_flush_rq o.

Lemma same_ord_refl o : same_ord o o.
Proof. by split_and!. Qed.

Lemma proxy_ext o o' i : same_ord o o' → proxy o' i = proxy o i.
Proof. intros (_ & _ & _ & _ & E1 & E2 & E3). unfold proxy. by rewrite E1, E2, E3. Qed.

Lemma hue_ext o o' g g' i :
  same_ord o o' → same_request (g i) (g' i) → hue o' g' i = hue o g i.
Proof.
  intros Ho (Hf & Hc & Hh & _)%same_fields. unfold hue. by rewrite (proxy_ext o o'), Hf, Hc, Hh.
Qed.

Lemma req_seq_ext o o' g g' i :
  same_ord o o' → same_request (g i) (g' i) →
  (∀ orig, o_orig o = Some orig → same_request (g orig) (g' orig)) →
  req_seq o' g' i = req_seq o g i.
Proof.
  intros (_ & Eo & _ & _ & E1 & E2 & E3) (Hf & Hc & _)%same_fields Horig. unfold req_seq.
  rewrite E1, E2, E3, Hf, Hc, Eo. destruct (o_orig o) as [orig|]; [|done].
  destruct (same_fields _ _ (Horig orig eq_refl)) as (_ & Hco & _).
  simpl. by rewrite Hco.
Qed.

Section ext.
Context (o o' : ordered_state) (g g' : nat → erq) (oc : bool) (hd cs drv : list nat).
Context (Ho : same_ord o o').
Context (Hg : ∀ i, i ∈ hd ++ cs ++ drv → same_request (g i) (g' i)).
Context (Hgo : o_seq o ≠ 0 → ∀ orig, o_orig o = Some orig → same_request (g orig) (g' orig)).

Lemma ext_hd i : i ∈ hd → same_request (g i) (g' i).
Proof. intros ?. apply Hg. rewrite !elem_of_app. auto. Qed.

Lemma ext_cs i : i ∈ cs → same_request (g i) (g' i).
Proof. intros ?. apply Hg. rewrite !elem_of_app. auto. Qed.

Lemma ext_drv i : i ∈ drv → same_request (g i) (g' i).
Proof. intros ?. apply Hg. rewrite !elem_of_app. auto. Qed.

Lemma gen_ext : gen o g oc hd cs drv → gen o' g' oc hd cs drv.
Proof.
  pose proof Ho as (E1 & E2 & E3 & E4 & E5 & E6 & E7). intros [].
  split; rewrite ?E4, ?E5, ?E6, ?E7; try assumption.
  - intros i Hi. rewrite (proxy_ext o o'), (hue_ext o o' g g') by (try done; by apply ext_cs). auto.
  - intros i Hi. rewrite (proxy_ext o o') by done.
    assert (same_request (g i) (g' i)) as (-> & _)%same_fields; [|auto].
    apply Hg. rewrite !elem_of_app in *. tauto.
  - intros i Hi. pose proof (ext_hd i Hi) as Hs. rewrite (proxy_ext o o'), (hue_ext o o' g g') by done.
    apply same_fields in Hs as (_ & _ & _ & -> & _). auto.
  - intros i c Hi. pose proof (ext_hd i Hi) as Hs. rewrite (hue_ext o o' g g') by done.
    apply same_fields in Hs as (_ & _ & _ & _ & -> & _). eauto.
Qed.

Lemma idle_ext e : idle o g oc hd drv e → idle o' g' oc hd drv e.
Proof.
  pose proof Ho as (E1 & E2 & E3 & E4 & E5 & E6 & E7). intros []. split.
  - congruence.
  - intros i. rewrite (proxy_ext o o') by done. auto.
  - rewrite (coloured_ext _ (hue o g)); [done|]. intros. apply hue_ext; [done|by apply ext_hd].
  - intros i Hi. rewrite (hue_ext o o' g g') by (try done; by apply ext_drv). auto.
Qed.

Lemma busy_ext d p b t orig :
  busy o g oc hd cs drv d p b t orig → busy o' g' oc hd cs drv d p b t orig.
Proof.
  pose proof Ho as (E1 & E2 & E3 & E4 & E5 & E6 & E7). intros B.
  assert (o_seq o ≠ 0) as Hs by (rewrite (bz_seq _ _ _ _ _ _ _ _ _ _ _ B); apply seq_val_busy).
  assert (∀ k, o_orig o = Some k → same_request (g k) (g' k)) as Hgk by (by apply Hgo).
  pose proof (Hgk orig (bz_orig _ _ _ _ _ _ _ _ _ _ _ B)) as (_ & Hco & _ & _ & Hso & _)%same_fields.
  assert (∀ i, i ∈ hd → req_seq o' g' i = req_seq o g i) as Hrh.
  { intros. apply req_seq_ext; [done|by apply ext_hd|done]. }
  assert (∀ i, i ∈ hd → hue o' g' i = hue o g i) as Hhh.
  { intros. apply hue_ext; [done|by apply ext_hd]. }
  destruct B. split; rewrite ?E1, ?E2, ?E3, ?E5, ?E6, ?E7, ?Hso; try assumption.
  - by rewrite (proxy_ext o o').
  - intros l1 x l2 E. rewrite (proxy_ext o o') by done. intros Hx.
    eapply Forall_impl; [apply Forall_and; split; [by eapply bz_order0|]|].
    { apply (Forall_forall (λ y, y ∈ hd)). intros y Hy. rewrite E. apply elem_of_app. by left. }
    cbn. intros y [Hy Hin]. rewrite !Hrh; [done| |done]. rewrite E. apply elem_of_app. right. left.
  - intros i Hi. rewrite (proxy_ext o o') by done. rewrite (req_seq_ext o o' g g'); auto. by apply ext_drv.
  - rewrite Hco. destruct bz_hue0 as (old & l & E & Hc & Hold & Hd). exists old, l. split_and!; [done| | |done].
    + rewrite (coloured_ext _ (hue o g)); [done|]. intros. apply Hhh. rewrite E. apply elem_of_app. by right.
    + apply Forall_forall. intros i Hi.
      assert (i ∈ hd) as Hih by (rewrite E; apply elem_of_app; by left).
      rewrite (proxy_ext o o'), Hhh by done.
      destruct (same_fields _ _ (ext_hd i Hih)) as (_ & _ & _ & -> & _).
      by apply (proj1 (Forall_forall _ _) Hold).
  - rewrite Hco. intros i Hi. rewrite (hue_ext o o' g g') by (try done; by apply ext_drv). auto.
Qed.

Lemma ord_ext : ord o g oc hd cs drv → ord o' g' oc hd cs drv.
Proof.
  intros [Hgen [e Hi|d p b t orig Hop Hb]]; (split; [by apply gen_ext|]).
  - by eapply phase_idle, idle_ext.
  - eapply phase_busy; [exact Hop|]. by apply busy_ext.
Qed.
End ext.

Lemma acct_flags o g g' drv :
  (∀ i, i ∈ drv → er_started (g' i) = er_started (g i) ∧
     blk_account_rq (g' i) = blk_account_rq (g i) ∧ rq_is_sync (g' i) = rq_is_sync (g i)) →
  acct o g drv → acct o g' drv.
Proof.
  intros Hg [Hst Hf Hs Ha].
  assert (∀ s i, i ∈ drv → accounted g s i = accounted g' s i) as Hacc.
  { intros s i Hi. unfold accounted. by destruct (Hg i Hi) as (_ & -> & ->). }
  split; [|done|rewrite Hs; f_equal; by apply count_ext, Hacc
               |rewrite Ha; f_equal; by apply count_ext, Hacc].
  apply Forall_forall. intros i Hi. destruct (Hg i Hi) as (-> & _).
  by apply (proj1 (Forall_forall _ _) Hst).
Qed.

Lemma acct_ext o o' g g' drv :
  fl_sync o' = fl_sync o → fl_async o' = fl_async o →
  (∀ i, i ∈ drv → same_request (g i) (g' i)) → acct o g drv → acct o' g' drv.
Proof.
  intros E1 E2 Hg Ha. apply (acct_flags _ g).
  - intros i Hi. by apply Hg, same_fields in Hi as (_ & _ & _ & _ & ? & ? & ? & _).
  - destruct Ha. split; congruence || done.
Qed.

(** *** Moves of requests *)

Lemma split_left {A} (l m k1 k2 : list A) x :
  l ++ m = k1 ++ x :: k2 → x ∉ m → ∃ k3, l = k1 ++ x :: k3 ∧ k2 = k3 ++ m.
Proof.
  revert k1. induction l as [|y l IH]; intros k1 E Hx.
  - exfalso. cbn in E. subst m. apply Hx, elem_of_app. right. left.
  - destruct k1 as [|z k1]; cbn in E; injection E as E1 E2; subst.
    + by exists l.
    + destruct (IH k1 E2 Hx) as (k3 & -> & ->). by exists k3.
Qed.

Lemma split_app {A} (l1 l2 k1 k2 : list A) :
  l1 ++ l2 = k1 ++ k2 → (∃ m, l1 = k1 ++ m ∧ k2 = m ++ l2) ∨ (∃ m, k1 = l1 ++ m ∧ l2 = m ++ k2).
Proof.
  revert k1. induction l1 as [|x l1 IH]; intros k1 E.
  - right. by exists k1.
  - destruct k1 as [|y k1]; [left; by exists (x :: l1)|]. cbn in E. injection E as -> E.
    destruct (IH k1 E) as [(m & -> & ->)|(m & -> & ->)]; [left|right]; by exists m.
Qed.

Lemma located_ext hd hd' drv drv' i b :
  (i ∈ hd ∨ i ∈ drv ↔ i ∈ hd' ∨ i ∈ drv') → located hd drv i b → located hd' drv' i b.
Proof. unfold located. destruct b; tauto. Qed.

Lemma proxy_names o :
  proxy o (pre_flush_rq o) = true ∧ proxy o (bar_rq o) = true ∧ proxy o (post_flush_rq o) = true.
Proof. rewrite !proxy_spec. tauto. Qed.

Lemma proxy_ne o i j : proxy o i = true → proxy o j = false → i ≠ j.
Proof. congruence. Qed.

(** The three requests of the sequence keep their places. *)
Lemma bz_ext o g oc oc' hd hd' cs cs' drv drv' d p b t orig :
  busy o g oc hd cs drv d p b t orig →
  (∀ i, proxy o i = true → i ∈ hd ∨ i ∈ drv ↔ i ∈ hd' ∨ i ∈ drv') →
  (orig ∉ hd') ∧ (orig ∉ cs') ∧ (orig ∉ drv') →
  (∀ l1 x l2, hd' = l1 ++ x :: l2 → proxy o x = true →
     Forall (λ y, req_seq o g y < req_seq o g x) l1) →
  (∀ i, i ∈ drv' → proxy o i = true → req_seq o g i = cur_of d p b t) →
  (∃ old l, hd' = old ++ l ∧
    coloured (hue o g) (negb (er_color (g orig))) l = Some oc' ∧
    Forall (λ i, proxy o i = false ∧
      (hue o g i = None ∨
       hue o g i = Some (er_color (g orig), false) ∧ er_soft (g i) = true)) old ∧
    (d = true → old = [])) →
  (∀ i, i ∈ drv' →
    hue o g i = None ∨ (d = false ∧ hue o g i = Some (er_color (g orig), false))) →
  busy o g oc' hd' cs' drv' d p b t orig.
Proof.
  intros [] Hloc (? & ? & ?) Hord Hgate Hhue Hdrv. destruct (proxy_names o) as (N1 & N2 & N3).
  split; try assumption.
  - destruct bz_away0 as (_ & _ & _ & ?). by split_and!.
  - eapply located_ext; [|exact bz_pre0]. auto.
  - eapply located_ext; [|exact bz_bar0]. auto.
  - eapply located_ext; [|exact bz_post0]. auto.
Qed.

(** A request the scheduler dispatches. *)
Section move.
Context (o : ordered_state) (g : nat → erq) (oc : bool) (l1 l2 : list nat) (i : nat).
Context (cs cs' drv : list nat).
Context (Hgen : gen o g oc (l1 ++ l2) cs drv).
Context (Hcs : cs ≡ₚ i :: cs').
Context (Hstop : Forall (λ p, stop_flags (g p) = false) l2).

Lemma move_i : proxy o i = false ∧ (hue o g i = None ∨ hue o g i = Some (oc, false)).
Proof. apply (g_sched _ _ _ _ _ _ Hgen). rewrite Hcs. left. Qed.

Lemma move_l2 j : j ∈ l2 → proxy o j = false ∧ er_soft (g j) = false ∧ ∀ k, hue o g j ≠ Some (k, true).
Proof.
  intros Hj. assert (er_soft (g j) = false) as Hs.
  { pose proof (proj1 (Forall_forall _ _) Hstop j Hj) as E. cbn in E. unfold stop_flags in E.
    by destruct (er_soft (g j)). }
  pose proof (g_soft _ _ _ _ _ _ Hgen j) as Hsoft.
  rewrite elem_of_app in Hsoft. specialize (Hsoft (or_intror Hj)). split_and!; [|done|].
  - destruct (proxy o j); [|done]. rewrite Hsoft in Hs; [done|by left].
  - intros k E. rewrite Hsoft in Hs; [done|right; by exists k].
Qed.

Lemma gen_move : gen o g oc (l1 ++ i :: l2) cs' drv.
Proof.
  destruct move_i as [Hp Hh].
  assert (∀ j, j ∈ l1 ++ i :: l2 → j = i ∨ j ∈ l1 ++ l2) as Hin.
  { intros j. rewrite !elem_of_app, elem_of_cons. tauto. }
  pose proof Hgen as []. split; try assumption.
  - assert ((l1 ++ i :: l2) ++ cs' ++ drv ≡ₚ (l1 ++ l2) ++ cs ++ drv) as ->; [|done].
    rewrite Hcs, <- !app_assoc. cbn [app]. by rewrite <- !Permutation_middle.
  - intros j Hj. apply g_sched0. rewrite Hcs. by right.
  - intros j Hj. apply elem_of_app in Hj as [[->|Hj]%Hin|Hj].
    + by rewrite Hp.
    + apply g_kind0. apply elem_of_app. by left.
    + apply g_kind0. apply elem_of_app. by right.
  - intros j [->|Hj]%Hin; [|by apply g_soft0]. rewrite Hp. intros [?|[c E]]; [done|].
    destruct Hh; congruence.
  - intros j c [->|Hj]%Hin; [|by apply g_fresh0]. intros E. destruct Hh; congruence.
Qed.

Lemma idle_move e : idle o g oc (l1 ++ l2) drv e → idle o g oc (l1 ++ i :: l2) drv e.
Proof.
  destruct move_i as [Hp Hh]. intros []. split; try assumption.
  - intros j Hj. destruct (id_out0 j Hj) as [Hn ?]. split; [|done].
    rewrite elem_of_app, elem_of_cons in *. intros [?|[->|?]]; [tauto|congruence|tauto].
  - apply coloured_insert; [done| |done]. intros j k Hj. by apply move_l2.
Qed.

Lemma busy_move d p b t orig :
  busy o g oc (l1 ++ l2) cs drv d p b t orig → busy o g oc (l1 ++ i :: l2) cs' drv d p b t orig.
Proof.
  destruct move_i as [Hp Hh]. intros B. pose proof B as [].
  eapply bz_ext; [exact B|..].
  - intros j Hj. rewrite !elem_of_app, elem_of_cons. pose proof (proxy_ne _ _ _ Hj Hp). tauto.
  - destruct bz_away0 as (A1 & A2 & A3 & _). rewrite Hcs in A2. rewrite elem_of_cons in A2.
    rewrite elem_of_app in *. rewrite elem_of_cons. tauto.
  - intros k1 x k2 E Hx. apply split_left in E as (k3 & -> & _).
    + eapply bz_order0; [|done]. by rewrite <- app_assoc.
    + rewrite elem_of_cons. intros [->|Hx2]; [congruence|]. apply move_l2 in Hx2 as [? _]. congruence.
  - assumption.
  - destruct bz_hue0 as (old & l & E & Hc & Hold & Hd).
    destruct (split_app _ _ _ _ E) as [(m & E1 & E2)|(m & E1 & E2)].
    + exists old, (m ++ i :: l2). rewrite E1, <- app_assoc. rewrite E2 in Hc. split_and!; try done.
      apply coloured_insert; [done| |done]. intros j k Hj. by apply move_l2.
    + assert (∀ j, j ∈ m → hue o g j = None) as Hm.
      { intros j Hj. destruct (proj1 (Forall_forall _ _) Hold j) as [_ [?|[_ Hs]]];
          [rewrite E1; apply elem_of_app; by right|done|].
        destruct (move_l2 j) as (_ & ? & _); [rewrite E2; apply elem_of_app; by left|congruence]. }
      assert (coloured (hue o g) (negb (er_color (g orig))) l2 = Some oc) as Hc'.
      { rewrite E2, coloured_app, coloured_none by done. exact Hc. }
      exists l1, (i :: l2). rewrite E1 in Hold, Hd.
      split_and!; [done| |by apply Forall_app in Hold as [? _]|].
      * apply (coloured_insert _ _ [] i l2); [done| |done]. intros j k Hj. by apply move_l2.
      * intros E'. specialize (Hd E'). by apply app_eq_nil in Hd as [-> _].
  - assumption.
Qed.
End move.

Lemma ord_move o g oc l1 l2 i cs cs' drv :
  ord o g oc (l1 ++ l2) cs drv → cs ≡ₚ i :: cs' →
  Forall (λ p, stop_flags (g p) = false) l2 → ord o g oc (l1 ++ i :: l2) cs' drv.
Proof.
  intros [Hgen [e Hi|d p b t orig Hop Hb]] Hcs Hs; (split; [by eapply gen_move|]).
  - eapply phase_idle, idle_move; done.
  - eapply phase_busy; [exact Hop|]. eapply busy_move; done.
Qed.

(** The order of the requests with the scheduler or the driver is irrelevant. *)
Lemma ord_perm o g oc hd cs cs' drv drv' :
  cs ≡ₚ cs' → drv ≡ₚ drv' → ord o g oc hd cs drv → ord o g oc hd cs' drv'.
Proof.
  intros Hc Hd [[] Hph]. split.
  - split; try assumption.
    + by rewrite <- Hc, <- Hd.
    + intros i. rewrite <- Hc. auto.
    + intros i. rewrite <- Hd. auto.
  - destruct Hph as [e []|d p b t orig Hop B]; [apply (phase_idle _ _ _ _ _ _ e); split|eapply phase_busy; [exact Hop|eapply bz_ext; [exact B|..]]];
      try assumption.
    + intros i. rewrite <- Hd. auto.
    + intros i. rewrite <- Hd. auto.
    + intros i _. by rewrite Hd.
    + rewrite <- Hc, <- Hd. destruct B as [? ? (? & ? & ? & _)]. by split_and!.
    + apply B.
    + intros i. rewrite <- Hd. apply B.
    + apply B.
    + intros i. rewrite <- Hd. apply B.
Qed.

(** A new request the driver has at once. *)
Lemma ord_enter o g oc hd cs drv i :
  ord o g oc hd cs drv → i ∉ hd ++ cs ++ drv → proxy o i = false →
  (o_seq o ≠ 0 → o_orig o ≠ Some i) → hue o g i = None → ord o g oc hd cs (i :: drv).
Proof.
  intros [[] Hph] Hi Hp Horig Hh. split.
  - split; try assumption.
    + rewrite (app_assoc hd), <- Permutation_middle, <- app_assoc. by constructor.
    + intros j Hj Hpj. apply g_kind0; [|done]. rewrite elem_of_app, elem_of_cons in *.
      destruct Hj as [?|[->|?]]; [by left|congruence|by right].
  - destruct Hph as [e []|d p b t orig Hop B].
    + apply (phase_idle _ _ _ _ _ _ e); split; try assumption.
      * intros j Hj. destruct (id_out0 j Hj). split; [done|]. rewrite elem_of_cons.
        intros [->|?]; [congruence|done].
      * intros j [->|?]%elem_of_cons; auto.
    + eapply phase_busy; [exact Hop|eapply bz_ext; [exact B|..]]; pose proof B as []; try assumption.
      * intros j Hj. rewrite elem_of_cons. pose proof (proxy_ne _ _ _ Hj Hp). tauto.
      * destruct bz_away0 as (? & ? & ? & _). split_and!; try done. rewrite elem_of_cons.
        intros [->|?]; [|done]. apply Horig; [|done]. rewrite bz_seq0. apply seq_val_busy.
      * intros j [->|?]%elem_of_cons; [congruence|auto].
      * intros j [->|?]%elem_of_cons; auto.
Qed.

(** A request of the driver that goes to the front of the queue. *)
Lemma ord_push o g oc hd cs drv i :
  ord o g oc hd cs (i :: drv) → proxy o i = false → er_soft (g i) = true →
  ord o g oc (i :: hd) cs drv.
Proof.
  intros [[] Hph] Hp Hs.
  assert (hue o g i = None ∨ ∃ c, hue o g i = Some (c, false)) as Hni.
  { destruct Hph as [e []|d p b t orig Hop []].
    - destruct (id_drv0 i) as [?|?]; [left|by left|right; eauto].
    - destruct (bz_drv0 i) as [?|[_ ?]]; [left|by left|right; eauto]. }
  split.
  - split; try assumption.
    + revert g_nodup0. rewrite (app_assoc hd), <- Permutation_middle, <- app_assoc. done.
    + intros j Hj. apply g_kind0. rewrite elem_of_app, !elem_of_cons in *. tauto.
    + intros j [->|Hj]%elem_of_cons; auto.
    + intros j c [->|Hj]%elem_of_cons; [|eauto]. intros E. destruct Hni as [?|[? ?]]; congruence.
  - destruct Hph as [e []|d p b t orig Hop B].
    + apply (phase_idle _ _ _ _ _ _ e); split; try assumption.
      * intros j Hj. destruct (id_out0 j Hj) as [? Hn]. rewrite elem_of_cons in *. tauto.
      * cbn [coloured]. destruct (id_drv0 i) as [-> | ->]; [left|done|]. by rewrite eqb_reflx.
      * intros j Hj. apply id_drv0. by right.
    + eapply phase_busy; [exact Hop|eapply bz_ext; [exact B|..]]; pose proof B as [].
      * intros j Hj. rewrite !elem_of_cons. tauto.
      * rewrite elem_of_cons in *. destruct bz_away0 as (? & ? & ? & _). tauto.
      * intros l1 x l2 E Hx. destruct l1 as [|y l1]; [constructor|].
        injection E as <- ->. constructor; [|by eapply bz_order0].
        rewrite (req_seq_hue _ _ i orig) by done.
        destruct (req_seq_proxy o g x Hx) as [[_ ->]|[(_ & _ & ->)|(_ & _ & _ & ->)]];
          (destruct (bz_drv0 i) as [-> |[_ ->]]; [left|lia|rewrite eqb_reflx; lia]).
      * intros j Hj. apply bz_gate0. by right.
      * destruct bz_hue0 as (old & l & -> & Hc & Hold & Hd). destruct d.
        -- exists [], (i :: l). rewrite Hd by done. split_and!; try done.
           cbn [coloured]. by destruct (bz_drv0 i) as [-> |[? _]]; [left|done|done].
        -- exists (i :: old), l. split_and!; try done. constructor; [|done]. split; [done|].
           destruct (bz_drv0 i) as [? |[_ ?]]; [left|by left|by right].
      * intros j Hj. apply bz_drv0. by right.
Qed.

Lemma elem_snoc {A} (x y : A) l : x ∈ l ++ [y] ↔ x ∈ l ∨ x = y.
Proof. by rewrite elem_of_app, list_elem_of_singleton. Qed.

(** A new request at the end of the queue; a barrier changes the colour of the
    requests to come. *)
Lemma ord_back o g oc hd drv i oc' :
  ord o g oc hd [] drv → i ∉ hd ++ drv → proxy o i = false →
  (o_seq o ≠ 0 → o_orig o ≠ Some i) → er_soft (g i) = true → er_started (g i) = false →
  hue o g i = None ∧ oc' = oc ∨
    (∃ h : bool, hue o g i = Some (oc, h) ∧ oc' = if h then negb oc else oc) →
  ord o g oc' (hd ++ [i]) [] drv.
Proof.
  intros [[] Hph] Hi Hp Horig Hs Hst Hh.
  assert (∀ c l, coloured (hue o g) c l = Some oc → coloured (hue o g) c (l ++ [i]) = Some oc') as Hc'.
  { intros c l E. rewrite coloured_app, E. cbn.
    destruct Hh as [[-> ->]|(h & -> & ->)]; [done|]. by rewrite eqb_reflx. }
  split.
  - split; try assumption.
    + assert ((hd ++ [i]) ++ [] ++ drv ≡ₚ i :: hd ++ [] ++ drv) as ->.
      { rewrite <- app_assoc. cbn [app]. by rewrite <- Permutation_middle. }
      by constructor.
    + by intros j ?%elem_of_nil.
    + intros j. rewrite elem_of_app, elem_snoc. intros [[?| ->]|?] Hpj; [|congruence|];
        (apply g_kind0; [apply elem_of_app; auto|done]).
    + intros j [?| ->]%elem_snoc; auto.
    + intros j c [?| ->]%elem_snoc; eauto.
  - rewrite elem_of_app in Hi. destruct Hph as [e []|d p b t orig Hop B].
    + apply (phase_idle _ _ _ _ _ _ e); split; try assumption; [|by apply Hc'].
      intros j Hj. destruct (id_out0 j Hj). rewrite elem_snoc. split; [|done].
      intros [?| ->]; [done|congruence].
    + eapply phase_busy; [exact Hop|eapply bz_ext; [exact B|..]]; pose proof B as []; try assumption.
      * intros j Hj. rewrite elem_snoc. pose proof (proxy_ne _ _ _ Hj Hp). tauto.
      * destruct bz_away0 as (? & ? & ? & _). split_and!; try done. rewrite elem_snoc.
        intros [?| ->]; [done|]. apply Horig; [|done]. rewrite bz_seq0. apply seq_val_busy.
      * intros l1 x l2 E Hx. apply split_left in E as (k3 & -> & _); [by eapply bz_order0|].
        intros ->%list_elem_of_singleton. congruence.
      * destruct bz_hue0 as (old & l & -> & Hc & Hold & Hd). exists old, (l ++ [i]).
        rewrite <- app_assoc. split_and!; try done. by apply Hc'.
Qed.

(** A new request with the scheduler. *)
Lemma ord_sched o g oc hd cs drv i :
  ord o g oc hd cs drv → i ∉ hd ++ cs ++ drv → proxy o i = false →
  (o_seq o ≠ 0 → o_orig o ≠ Some i) → hue o g i = None ∨ hue o g i = Some (oc, false) →
  ord o g oc hd (i :: cs) drv.
Proof.
  intros [[] Hph] Hi Hp Horig Hh. split.
  - split; try assumption.
    + cbn [app]. rewrite <- Permutation_middle. by constructor.
    + intros j [->|?]%elem_of_cons; auto.
  - destruct Hph as [e []|d p b t orig Hop B]; [by eapply phase_idle|].
    eapply phase_busy; [exact Hop|eapply bz_ext; [exact B|..]]; pose proof B as []; try assumption; [done|].
    destruct bz_away0 as (? & ? & ? & _). split_and!; try done. rewrite elem_of_cons.
    intros [->|?]; [|done]. apply Horig; [|done]. rewrite bz_seq0. apply seq_val_busy.
Qed.

(** The driver is done with a request of a user. *)
Lemma ord_drop o g oc hd cs drv i :
  ord o g oc hd cs (i :: drv) → proxy o i = false → ord o g oc hd cs drv.
Proof.
  intros [[] Hph] Hp. split.
  - split; try assumption.
    + revert g_nodup0. rewrite (app_assoc hd), <- Permutation_middle, <- app_assoc.
      by intros [_ ?]%NoDup_cons.
    + intros j Hj. apply g_kind0. rewrite elem_of_app, elem_of_cons in *. tauto.
  - destruct Hph as [e []|d p b t orig Hop B].
    + apply (phase_idle _ _ _ _ _ _ e); split; try assumption.
      * intros j Hj. destruct (id_out0 j Hj) as [? Hn]. rewrite elem_of_cons in Hn. tauto.
      * intros j Hj. apply id_drv0. by right.
    + eapply phase_busy; [exact Hop|eapply bz_ext; [exact B|..]]; pose proof B as []; try assumption.
      * intros j Hj. rewrite elem_of_cons. pose proof (proxy_ne _ _ _ Hj Hp). tauto.
      * rewrite elem_of_cons in bz_away0. tauto.
      * intros j Hj. apply bz_gate0. by right.
      * intros j Hj. apply bz_drv0. by right.
Qed.

(** Whether the request at the front may be started. *)
Definition may_start (o : ordered_state) (g : nat → erq) (i : nat) : Prop :=
  (∀ e, o_seq o = 0 → hue o g i ≠ Some (e, true)) ∧
  ∀ d p b t orig, o_seq o = seq_val d p b t → o_orig o = Some orig →
    (proxy o i = true → req_seq o g i ≤ cur_of d p b t) ∧
    (∀ c h, hue o g i = Some (c, h) → c = er_color (g orig)).

(** A request of the sequence that is not done is not before the present step. *)
Lemma busy_cur_le o g oc hd cs drv d p b t orig i :
  busy o g oc hd cs drv d p b t orig → proxy o i = true → i ∈ hd ∨ i ∈ drv →
  cur_of d p b t ≤ req_seq o g i ∧ (req_seq o g i = cur_of d p b t → d = true).
Proof.
  intros [] Hp Hi. unfold located in *.
  destruct (req_seq_proxy o g i Hp) as [[-> ->]|[(-> & _ & ->)|(-> & _ & _ & ->)]];
    destruct d, p, b, t; cbn in *; try lia; try done; tauto.
Qed.

Lemma ord_dequeue o g oc hd cs drv i :
  ord o g oc (i :: hd) cs drv → may_start o g i → ord o g oc hd cs (i :: drv).
Proof.
  intros [[] Hph] [Hm1 Hm2]. split.
  - split; try assumption.
    + revert g_nodup0. rewrite (app_assoc hd), <- Permutation_middle, <- app_assoc. done.
    + intros j Hj. apply g_kind0. rewrite elem_of_app, !elem_of_cons in *. tauto.
    + intros j Hj. apply g_soft0. by right.
    + intros j c Hj. apply g_fresh0. by right.
  - destruct Hph as [e []|d p b t orig Hop B].
    + specialize (Hm1 e id_seq0).
      assert (coloured (hue o g) e hd = Some oc ∧
        (hue o g i = None ∨ hue o g i = Some (e, false))) as [Hc Hi].
      { destruct (hue o g i) as [[k h]|] eqn:E; [|cbn in id_hue0; rewrite E in id_hue0; auto].
        destruct (coloured_head _ _ _ _ _ _ _ id_hue0 E) as [-> Hc]. destruct h; [done|]. auto. }
      apply (phase_idle _ _ _ _ _ _ e); split; try assumption.
      * intros j Hj. destruct (id_out0 j Hj) as [Hn ?]. rewrite elem_of_cons in *. tauto.
      * intros j [->|?]%elem_of_cons; auto.
    + pose proof B as []. destruct (Hm2 d p b t orig bz_seq0 bz_orig0) as [Hm3 Hm4].
      eapply phase_busy; [exact Hop|eapply bz_ext; [exact B|..]].
      * intros j Hj. rewrite !elem_of_cons. tauto.
      * rewrite elem_of_cons in *. destruct bz_away0 as (? & ? & ? & _). tauto.
      * intros l1 x l2 -> Hx. specialize (bz_order0 (i :: l1) x l2 eq_refl Hx).
        by apply Forall_cons in bz_order0 as [_ ?].
      * intros j [->|Hj]%elem_of_cons Hpj; [|auto].
        destruct (busy_cur_le _ _ _ _ _ _ _ _ _ _ _ i B Hpj) as [? _]; [left; left|].
        specialize (Hm3 Hpj). lia.
      * destruct bz_hue0 as ([|j old] & l & E & Hc & Hold & Hd); cbn [app] in E.
        -- subst l. exists [], hd. split_and!; try done.
           destruct (hue o g i) as [[k h]|] eqn:E; [|cbn in Hc; by rewrite E in Hc].
           destruct (coloured_head _ _ _ _ _ _ _ Hc E) as [-> _]. specialize (Hm4 _ _ eq_refl).
           by destruct (er_color (g orig)).
        -- injection E as <- ->. apply Forall_cons in Hold as [_ Hold].
           exists old, l. split_and!; try done. intros ->. by specialize (Hd eq_refl).
      * intros j [->|?]%elem_of_cons; [|auto].
        destruct (hue o g i) as [[k h]|] eqn:E; [right|by left].
        destruct bz_hue0 as ([|j old] & l & El & Hc & Hold & Hd); cbn [app] in El.
        -- subst l. destruct (coloured_head _ _ _ _ _ _ _ Hc E) as [-> _].
           specialize (Hm4 _ _ eq_refl). by destruct (er_color (g orig)).
        -- injection El as <- ->. apply Forall_cons in Hold as [[_ Ho] _].
           destruct d; [by specialize (Hd eq_refl)|]. split; [done|].
           destruct Ho as [?|[? _]]; congruence.
Qed.

(** *** Requests in flight *)

Lemma acct_total o g drv : acct o g drv →
  fl_async o + fl_sync o = count (λ i, blk_account_rq (g i)) drv.
Proof.
  intros [_ Hf Hs Ha].
  pose proof (count_bounds (accounted g true) drv). pose proof (count_bounds (accounted g false) drv).
  rewrite Hs, Ha, !u32_small by (unfold in_u32; lia). apply count_or.
  intros i _. unfold accounted. by destruct (blk_account_rq (g i)), (rq_is_sync (g i)).
Qed.

Lemma in_flight_zero {D} (q : rqueue D) drv :
  acct (q_ord q) (rq_of q) drv → queue_in_flight q = 0 ↔
  ∀ i, i ∈ drv → blk_account_rq (rq_of q i) = false.
Proof.
  intros Ha. unfold queue_in_flight. rewrite (acct_total _ _ _ Ha).
  set (f := λ i, blk_account_rq (rq_of q i)). pose proof (count_bounds f drv) as Hb.
  pose proof (ac_few _ _ _ Ha). rewrite u32_small by (unfold in_u32; lia). split.
  - intros Hz i Hi. apply (count_zero f drv); [|done]. unfold s32 in Hz. cbv zeta in Hz.
    rewrite u32_small in Hz by (unfold in_u32; lia). zcase_in Hz; zbool; lia.
  - intros Hz. assert (count f drv = 0) as ->; [|done]. clear -Hz.
    induction drv as [|i drv IH]; cbn [count]; [done|]. unfold f at 1. rewrite Hz by left.
    cbn [Z.b2z]. rewrite IH; [done|]. intros. apply Hz. by right.
Qed.

(** With nothing in flight the driver has no file system request. *)
Lemma drained_hue {D} (q : rqueue D) o drv j :
  acct (q_ord q) (rq_of q) drv → queue_in_flight q = 0 → j ∈ drv → hue o (rq_of q) j = None.
Proof.
  intros Ha Hz Hj. pose proof (proj1 (in_flight_zero q drv Ha) Hz j Hj) as Hacc.
  pose proof (proj1 (Forall_forall _ _) (ac_started _ _ _ Ha) j Hj) as Hst. cbn in Hst.
  unfold blk_account_rq in Hacc. rewrite Hst in Hacc. unfold hue.
  destruct (er_fs (rq_of q j)); [|done]. by rewrite orb_true_r in Hacc.
Qed.

(** Changing the counts for one request. *)
Lemma add_in_flight_fields d r o :
  same_ord o (add_in_flight d r o) ∧ ended (add_in_flight d r o) = ended o ∧
  o_err (add_in_flight d r o) = o_err o ∧
  fl_sync (add_in_flight d r o) = (if rq_is_sync r then u32 (fl_sync o + d) else fl_sync o) ∧
  fl_async (add_in_flight d r o) = (if rq_is_sync r then fl_async o else u32 (fl_async o + d)).
Proof. unfold add_in_flight. by destruct (rq_is_sync r). Qed.

Lemma u32_add_l x y : u32 (u32 x + y) = u32 (x + y).
Proof. unfold u32. apply Zplus_mod_idemp_l. Qed.

(** The state after a request has been handed over or given back. *)
Definition flight (d : Z) (r : erq) (o : ordered_state) : ordered_state :=
  if blk_account_rq r then add_in_flight d r o else o.

Lemma flight_fields d r o :
  same_ord o (flight d r o) ∧ ended (flight d r o) = ended o ∧ o_err (flight d r o) = o_err o.
Proof.
  unfold flight. destruct (add_in_flight_fields d r o) as (? & ? & ? & _).
  by destruct (blk_account_rq r).
Qed.

Lemma acct_start o g drv i :
  acct o g drv → er_started (g i) = true → Z.of_nat (length drv) + 1 < 2 ^ 32 →
  acct (flight 1 (g i) o) g (i :: drv).
Proof.
  intros [Hst Hf Hs Ha] Hi Hl. split; [by constructor|cbn [length]; lia|..]; cbn [count];
    unfold flight, accounted at 1; destruct (blk_account_rq (g i)); cbn [andb Z.b2z].
  - destruct (add_in_flight_fields 1 (g i) o) as (_ & _ & _ & -> & _). rewrite Hs.
    destruct (rq_is_sync (g i)); cbn; rewrite ?u32_add_l; f_equal; lia.
  - done.
  - destruct (add_in_flight_fields 1 (g i) o) as (_ & _ & _ & _ & ->). rewrite Ha.
    destruct (rq_is_sync (g i)); cbn; rewrite ?u32_add_l; f_equal; lia.
  - done.
Qed.

Lemma acct_end o g drv i :
  acct o g (i :: drv) → acct (flight (-1) (g i) o) g drv.
Proof.
  intros [Hst Hf Hs Ha]. apply Forall_cons in Hst as [Hi Hst]. cbn [length count] in *.
  unfold accounted at 1 in Hs. unfold accounted at 1 in Ha.
  split; [done|lia|..]; unfold flight; destruct (blk_account_rq (g i)); cbn [andb Z.b2z] in *.
  - destruct (add_in_flight_fields (-1) (g i) o) as (_ & _ & _ & -> & _). rewrite Hs.
    destruct (rq_is_sync (g i)); cbn; rewrite ?u32_add_l; f_equal; lia.
  - done.
  - destruct (add_in_flight_fields (-1) (g i) o) as (_ & _ & _ & _ & ->). rewrite Ha.
    destruct (rq_is_sync (g i)); cbn; rewrite ?u32_add_l; f_equal; lia.
  - done.
Qed.

Lemma acct_perm o g drv drv' : drv ≡ₚ drv' → acct o g drv → acct o g drv'.
Proof.
  intros Hp []. split; [by rewrite <- Hp|by rewrite <- Hp|..];
    by rewrite <- (count_perm _ drv drv' Hp).
Qed.

(** *** Completing a step *)

(** [o'] is [o] with a new [ordseq]; the counts are the same. *)
Definition seq_to (s : Z) (o o' : ordered_state) : Prop :=
  same_ord (set_o_seq s o) o' ∧ fl_sync o' = fl_sync o ∧ fl_async o' = fl_async o.

Lemma seq_to_names s o o' : seq_to s o o' →
  o_seq o' = s ∧ o_orig o' = o_orig o ∧ o_next o' = o_next o ∧ o_ordered o' = o_ordered o ∧
  (∀ i, proxy o' i = proxy o i) ∧ (∀ g i, hue o' g i = hue o g i) ∧
  (∀ g i, req_seq o' g i = req_seq o g i) ∧
  pre_flush_rq o' = pre_flush_rq o ∧ bar_rq o' = bar_rq o ∧ post_flush_rq o' = post_flush_rq o.
Proof.
  intros [(E1 & E2 & E3 & E4 & E5 & E6 & E7) _].
  cbn [o_seq o_orig o_ordered o_next pre_flush_rq bar_rq post_flush_rq set_o_seq] in *.
  assert (∀ i, proxy o' i = proxy o i) as Hp by (intros; unfold proxy; by rewrite E5, E6, E7).
  split_and!; try done.
  - intros g i. unfold hue. by rewrite Hp.
  - intros g i. unfold req_seq. by rewrite E2, E5, E6, E7.
Qed.

Lemma land_seq d p b t d' p' b' t' :
  Z.land (seq_val d p b t) (seq_val d' p' b' t' - 1) = 0 ↔
  d && d' = false ∧ p && p' = false ∧ b && b' = false ∧ t && t' = false.
Proof. destruct d, p, b, t, d', p', b', t'; vm_compute; split; try done; intros (? & ? & ? & ?); done. Qed.

Lemma lor_seq d p b t d' p' b' t' :
  Z.lor (seq_val d p b t) (seq_val d' p' b' t' - 1) = seq_val (d || d') (p || p') (b || b') (t || t').
Proof. by destruct d, p, b, t, d', p', b', t'. Qed.

Lemma cur_done d p b t : (cur_of d p b t =? QUEUE_ORDSEQ_DONE) = d && p && b && t.
Proof. by destruct d, p, b, t. Qed.

(** Completing the steps [d'], [p'], [b'] and [t'], none of them done: the last
    one ends the sequence, with the original request. *)
Lemma complete_seq_spec {D} (q : rqueue D) d p b t d' p' b' t' orig err :
  let all := (d || d') && (p || p') && (b || b') && (t || t') in
  o_seq (q_ord q) = seq_val d p b t → o_orig (q_ord q) = Some orig →
  er_started (rq_of q orig) = false →
  d && d' = false → p && p' = false → b && b' = false → t && t' = false →
  ∃ o', blk_ordered_complete_seq (seq_val d' p' b' t' - 1) err q = Some (all, set_q_ord o' q) ∧
    seq_to (if all then 0 else seq_val (d || d') (p || p') (b || b') (t || t')) (q_ord q) o' ∧
    ended o' = ended (q_ord q) ++ (if all then [(orig, o_err o')] else []) ∧
    o_err o' = (if negb (err =? 0) && (o_err (q_ord q) =? 0) then err else o_err (q_ord q)).
Proof.
  intros all Hseq Horig Hst Hd Hp Hb Ht. unfold blk_ordered_complete_seq.
  set (o1 := if negb (err =? 0) && (o_err (q_ord q) =? 0) then set_o_err err (q_ord q) else q_ord q).
  replace (if negb (err =? 0) && (o_err (q_ord q) =? 0) then upd_ord (set_o_err err) q else q)
    with (set_q_ord o1 q) by (subst o1; destruct (negb _ && _); [done|by destruct q]).
  assert (same_ord (q_ord q) o1 ∧ fl_sync o1 = fl_sync (q_ord q) ∧
    fl_async o1 = fl_async (q_ord q) ∧ ended o1 = ended (q_ord q)) as (Ho1 & Hs1 & Ha1 & He1)
    by (subst o1; by destruct (negb _ && _)).
  assert (o_err o1 = if negb (err =? 0) && (o_err (q_ord q) =? 0) then err else o_err (q_ord q)) as Her
    by (subst o1; by destruct (negb _ && _)).
  rewrite <- Her. clear Her. clearbody o1.
  pose proof Ho1 as (E1 & E2 & E3 & E4 & E5 & E6 & E7).
  unfold q_ordseq at 1. cbn [q_ord set_q_ord]. rewrite E1, Hseq.
  rewrite (proj2 (Z.eqb_eq _ _)) by (by apply land_seq). cbn [negb].
  unfold q_ordseq. cbn [q_ord set_q_ord]. rewrite E1, Hseq, lor_seq.
  set (q1 := upd_ord _ _).
  rewrite (cur_seq_val q1 (d || d') (p || p') (b || b') (t || t')), cur_done by done.
  subst all. destruct ((d || d') && (p || p') && (b || b') && (t || t')) eqn:Eall; cbn [negb].
  - cbn [q_ord upd_ord set_q_ord set_o_seq o_orig q1]. rewrite E2, Horig. cbn [mbind option_bind].
    unfold end_original, account_completed.
    rewrite (rq_of_eq q (upd_ord _ _)) by done.
    unfold blk_account_rq. rewrite Hst. cbn [andb].
    eexists. split; [reflexivity|]. split; [by split_and!|]. split; [|reflexivity].
    cbn. by rewrite He1.
  - eexists. split; [reflexivity|]. split; [by split_and!|]. split; [|reflexivity].
    cbn. by rewrite He1, app_nil_r.
Qed.

(** While the queue is drained for a barrier, the driver has a request, or the
    one at the front is let through. *)
Definition wait_ok (o : ordered_state) (g : nat → erq) (hd drv : list nat) : Prop :=
  ∀ p b t, o_seq o = seq_val false p b t →
    drv ≠ [] ∨ ∃ x l, hd = x :: l ∧ req_seq o g x ≤ 2.

Lemma seq_val_inj d p b t d' p' b' t' :
  seq_val d p b t = seq_val d' p' b' t' → d = d' ∧ p = p' ∧ b = b' ∧ t = t'.
Proof. by destruct d, p, b, t, d', p', b', t'. Qed.

(** Only the step has changed. *)
Lemma gen_seq s o o' g oc hd cs drv : seq_to s o o' → gen o g oc hd cs drv → gen o' g oc hd cs drv.
Proof.
  intros (_ & _ & En & _ & Hp & Hh & _ & E1 & E2 & E3)%seq_to_names [].
  split; rewrite ?En, ?E1, ?E2, ?E3; try assumption.
  - intros i. rewrite Hp, Hh. auto.
  - intros i. rewrite Hp. auto.
  - intros i. rewrite Hp, Hh. auto.
  - intros i c. rewrite Hh. eauto.
Qed.

(** The last step is done. *)
Lemma busy_end o o' g oc hd cs drv orig :
  busy o g oc hd cs drv true true true true orig → seq_to 0 o o' →
  idle o' g oc hd drv (negb (er_color (g orig))).
Proof.
  intros [] (E0 & _ & _ & _ & Hp & Hh & _)%seq_to_names. unfold located in *. split.
  - done.
  - intros i. rewrite Hp, proxy_spec. intros [->|[->| ->]]; done.
  - destruct bz_hue0 as (old & l & -> & Hc & _ & Hd). rewrite Hd by done. cbn [app].
    rewrite (coloured_ext _ (hue o g)); auto.
  - intros i Hi. rewrite Hh. destruct (bz_drv0 i Hi) as [?|[? _]]; [by left|done].
Qed.

(** A new step, or the end of the sequence. *)
Lemma ord_advance o o' g oc hd cs drv d p b t orig :
  let o1 := set_o_seq (seq_val d p b t) o in
  gen o g oc hd cs drv → busy o1 g oc hd cs drv d p b t orig →
  seq_to (if d && p && b && t then 0 else seq_val d p b t) o o' → ord o' g oc hd cs drv.
Proof.
  intros o1 Hg Hb Hs. split; [by eapply gen_seq|].
  destruct (d && p && b && t) eqn:E.
  - apply andb_true_iff in E as [[[-> ->]%andb_true_iff ->]%andb_true_iff ->].
    eapply phase_idle, busy_end; [exact Hb|exact Hs].
  - eapply phase_busy; [exact E|]. destruct Hs as [Hs _].
    eapply busy_ext; [exact Hs| |intros; reflexivity|exact Hb]. intros; reflexivity.
Qed.

Section advance.
Context (o : ordered_state) (g : nat → erq) (oc : bool) (hd cs drv : list nat).
Context (p b t : bool) (orig : nat).

(** The drain is over. *)
Lemma busy_drained :
  busy o g oc hd cs drv false p b t orig → (∀ i, i ∈ drv → hue o g i = None) →
  match hd with [] => True | x :: _ => 2 < req_seq o g x end →
  busy (set_o_seq (seq_val true p b t) o) g oc hd cs drv true p b t orig.
Proof.
  intros [] Hdrv Hhd. split; try assumption; try done.
  - intros i Hi Hp. exfalso. specialize (bz_gate0 i Hi Hp). cbn in bz_gate0.
    destruct (req_seq_proxy o g i Hp) as [[_ E]|[(_ & _ & E)|(_ & _ & _ & E)]];
      rewrite E in bz_gate0; done.
  - destruct bz_hue0 as (old & l & -> & Hc & Hold & _). exists [], l.
    destruct old as [|x old]; [by split_and!|]. exfalso. cbn [app] in Hhd.
    apply Forall_cons in Hold as [[Hp Hx] _]. rewrite (req_seq_hue _ _ _ orig) in Hhd by done.
    destruct Hx as [Hx|[Hx _]]; rewrite Hx in Hhd; [lia|]. rewrite eqb_reflx in Hhd. lia.
  - intros i Hi. left. by apply Hdrv.
Qed.

(** The driver is done with the request of the present step. *)
Lemma busy_proxy_done d i :
  gen o g oc hd cs (i :: drv) → busy o g oc hd cs (i :: drv) d p b t orig → proxy o i = true →
  let p' := p || bool_decide (i = pre_flush_rq o) in
  let b' := b || bool_decide (i = bar_rq o) in
  let t' := t || bool_decide (i = post_flush_rq o) in
  busy (set_o_seq (seq_val d p' b' t') o) g oc hd cs drv d p' b' t' orig.
Proof.
  intros [] B Hp p' b' t'. pose proof B as [].
  assert ((i ∉ hd) ∧ (i ∉ drv)) as [Hhd Hdrv].
  { rewrite (app_assoc hd), <- Permutation_middle in g_nodup0. apply NoDup_cons in g_nodup0 as [Hn _].
    rewrite !elem_of_app in Hn. tauto. }
  destruct (busy_cur_le _ _ _ _ _ _ _ _ _ _ _ i B Hp) as [_ Hd]; [right; left|].
  pose proof (bz_gate0 i ltac:(left) Hp) as Hi. specialize (Hd Hi). subst d.
  assert (∀ j f, located hd (i :: drv) j f → located hd drv j (f || bool_decide (i = j))) as Hloc.
  { intros j f. unfold located. destruct f; cbn [orb]; rewrite elem_of_cons; [tauto|].
    case_bool_decide as E; subst; [tauto|]. intros [?|[?|?]]; [by left|congruence|by right]. }
  assert (∀ j, j ∈ drv → proxy o j = true → False) as Hno.
  { intros j Hj Hpj. pose proof (bz_gate0 j ltac:(by right) Hpj) as Ej. rewrite <- Hi in Ej.
    assert (j = i) as ->; [|done].
    destruct (req_seq_proxy o g i Hp) as [[? E1]|[(? & ? & E1)|(? & ? & ? & E1)]],
      (req_seq_proxy o g j Hpj) as [[? E2]|[(? & ? & E2)|(? & ? & ? & E2)]];
      rewrite E1, E2 in Ej; congruence. }
  split; try assumption; try done.
  - rewrite elem_of_cons in bz_away0. cbn. tauto.
  - cbn. apply Hloc. done.
  - cbn. apply Hloc. done.
  - cbn. apply Hloc. done.
  - intros j Hj Hpj. exfalso. by eapply Hno.
  - intros j Hj. destruct (bz_drv0 j) as [?|[? _]]; [by right|by left|done].
Qed.
End advance.

(** ** The operations keep the invariant *)

Section ops.
Context {D : Type}.
Implicit Types q : rqueue D.

Lemma set_ord_same q : set_q_ord (q_ord q) q = q.
Proof. by destruct q. Qed.

Lemma account_completed_value i q :
  account_completed i q = set_q_ord (flight (-1) (rq_of q i) (q_ord q)) q.
Proof.
  unfold account_completed, flight. destruct (blk_account_rq (rq_of q i)); [done|].
  by rewrite set_ord_same.
Qed.

(** The request is released, and the drain may be over. *)
Lemma completed_user q oc hd cs drv i :
  queue_head q = hd → acct (q_ord q) (rq_of q) (i :: drv) →
  ord (q_ord q) (rq_of q) oc hd cs (i :: drv) → proxy (q_ord q) i = false →
  ∃ o', elv_completed_request i q = Some (set_q_ord o' q) ∧ acct o' (rq_of q) drv ∧
    ord o' (rq_of q) oc hd cs drv ∧ wait_ok o' (rq_of q) hd drv ∧
    (∀ j, proxy o' j = proxy (q_ord q) j).
Proof.
  intros Hq Ha%acct_end Hord Hp. apply ord_drop in Hord; [|done]. unfold elv_completed_request.
  rewrite account_completed_value. set (o1 := flight _ _ _) in *.
  assert (same_ord (q_ord q) o1) as Ho1 by (apply flight_fields).
  apply (ord_ext (q_ord q) o1 (rq_of q) (rq_of q)) in Hord; [|done|intros; reflexivity|intros; reflexivity].
  set (q1 := set_q_ord o1 q). change (queue_head q1) with (queue_head q). rewrite Hq.
  assert (acct (q_ord q1) (rq_of q1) drv) as Ha1 by exact Ha.
  destruct Hord as [Hg Hph].
  destruct Hph as [e Hi|d p b t orig Hop B].
  { change (q_ordseq q1) with (o_seq o1). rewrite (id_seq _ _ _ _ _ _ Hi). exists o1.
    split_and!; [done|done|by split; [|eapply phase_idle]| |by intros; apply proxy_ext].
    intros p b t E. rewrite (id_seq _ _ _ _ _ _ Hi) in E. by apply eq_sym, seq_val_busy in E. }
  pose proof (bz_seq _ _ _ _ _ _ _ _ _ _ _ B) as Hseq.
  change (q_ordseq q1) with (o_seq o1). rewrite Hseq.
  rewrite (proj2 (Z.eqb_neq _ _)) by apply seq_val_busy. rewrite (cur_seq_val q1 d p b t) by done.
  set (last := match hd with [] => true | _ => _ end).
  destruct ((queue_in_flight q1 =? 0) && (cur_of d p b t =? QUEUE_ORDSEQ_DRAIN) && last) eqn:Ew.
  - apply andb_true_iff in Ew as [[Hz Hcur]%andb_true_iff Hlast].
    assert (d = false) as -> by (by destruct d, p, b, t).
    destruct (complete_seq_spec q1 false p b t true false false false orig 0)
      as (o' & E & Hs & _); [done|apply B|apply B|by destruct p, b, t..|].
    cbn [seq_val Z.b2z] in E. change (_ - 1) with QUEUE_ORDSEQ_DRAIN in E. rewrite E. clear E.
    cbn [orb] in Hs. rewrite !orb_false_r in Hs. cbn [fmap option_fmap option_map snd].
    exists o'. split; [done|]. split; [|split; [|split]].
    + destruct Hs as (_ & Es & Ea). by eapply (acct_ext o1).
    + eapply (ord_advance o1 o' _ _ _ _ _ true p b t orig); [done| |exact Hs].
      apply busy_drained; [done| |].
      * intros j Hj. apply (drained_hue q1 o1 drv); [exact Ha1|by apply Z.eqb_eq|exact Hj].
      * subst last. destruct hd as [|x l]; [done|]. by apply Z.ltb_lt in Hlast.
    + apply seq_to_names in Hs as (Hs & _). intros p' b' t' E. rewrite Hs in E.
      destruct (true && p && b && t); [by apply eq_sym, seq_val_busy in E|].
      by apply seq_val_inj in E as [? _].
    + intros j. apply seq_to_names in Hs as (_ & _ & _ & _ & -> & _). by apply proxy_ext.
  - exists o1. split_and!; [done|done|by split; [|eapply phase_busy]| |by intros; apply proxy_ext].
    intros p' b' t' E. rewrite Hseq in E. apply seq_val_inj in E as (-> & _).
    cbn [cur_of] in Ew. change (2 =? QUEUE_ORDSEQ_DRAIN) with true in Ew. rewrite andb_true_r in Ew.
    apply andb_false_iff in Ew as [Hz|Hlast].
    + left. intros ->. apply Z.eqb_neq in Hz. apply Hz.
      apply (in_flight_zero q1 [] Ha1). by intros i' ?%elem_of_nil.
    + right. subst last. destruct hd as [|x l]; [done|]. exists x, l. split; [done|].
      apply Z.ltb_ge in Hlast. exact Hlast.
Qed.

(** The [end_io] of the requests of the sequence. *)
Lemma finish_proxy_eq q i err :
  (i ∉ queue_head q) → NoDup [pre_flush_rq (q_ord q); bar_rq (q_ord q); post_flush_rq (q_ord q)] →
  proxy (q_ord q) i = true →
  blk_finish_request i err q =
    (q1 ← elv_completed_request i q;
     snd <$> blk_ordered_complete_seq
       (seq_val false (bool_decide (i = pre_flush_rq (q_ord q))) (bool_decide (i = bar_rq (q_ord q)))
          (bool_decide (i = post_flush_rq (q_ord q))) - 1) err q1).
Proof.
  intros Hi Hnd Hp. unfold blk_finish_request. rewrite bool_decide_false by done.
  rewrite !NoDup_cons, !elem_of_cons in Hnd. destruct Hnd as (N1 & N2 & _).
  assert (pre_flush_rq (q_ord q) ≠ bar_rq (q_ord q)) by tauto.
  assert (pre_flush_rq (q_ord q) ≠ post_flush_rq (q_ord q)) by tauto.
  assert (bar_rq (q_ord q) ≠ post_flush_rq (q_ord q)) by tauto.
  apply proxy_spec in Hp as [->|[->| ->]]; repeat case_bool_decide; congruence || done.
Qed.

Lemma finish_proxy q oc hd cs drv i err :
  queue_head q = hd → acct (q_ord q) (rq_of q) (i :: drv) →
  ord (q_ord q) (rq_of q) oc hd cs (i :: drv) → proxy (q_ord q) i = true →
  ∃ o', blk_finish_request i err q = Some (set_q_ord o' q) ∧ acct o' (rq_of q) drv ∧
    ord o' (rq_of q) oc hd cs drv ∧ wait_ok o' (rq_of q) hd drv ∧
    (∀ j, proxy o' j = proxy (q_ord q) j).
Proof.
  intros Hq Ha%acct_end Hord Hp. set (o1 := flight _ _ _) in *.
  assert (same_ord (q_ord q) o1) as Ho1 by (apply flight_fields).
  apply (ord_ext (q_ord q) o1 (rq_of q) (rq_of q)) in Hord;
    [|done|intros; reflexivity|intros; reflexivity].
  assert (i ∉ queue_head q) as Hni.
  { rewrite Hq. destruct Hord as [[] _]. rewrite (app_assoc hd), <- Permutation_middle in g_nodup0.
    apply NoDup_cons in g_nodup0 as [Hn _]. rewrite !elem_of_app in Hn. tauto. }
  pose proof Ho1 as (_ & _ & _ & _ & E1 & E2 & E3).
  rewrite finish_proxy_eq; [|done| |done].
  2:{ rewrite <- E1, <- E2, <- E3. apply Hord. }
  rewrite <- E1, <- E2, <- E3. rewrite <- (proxy_ext _ o1) in Hp by done.
  destruct Hord as [Hg [e Hi|d p b t orig Hop B]].
  { exfalso. destruct (id_out _ _ _ _ _ _ Hi i Hp) as [_ Hn]. apply Hn. left. }
  unfold elv_completed_request. rewrite account_completed_value. fold o1. set (q1 := set_q_ord o1 q).
  pose proof (bz_seq _ _ _ _ _ _ _ _ _ _ _ B) as Hseq.
  change (q_ordseq q1) with (o_seq o1). rewrite Hseq.
  rewrite (proj2 (Z.eqb_neq _ _)) by apply seq_val_busy. rewrite (cur_seq_val q1 d p b t) by done.
  destruct (busy_cur_le _ _ _ _ _ _ _ _ _ _ _ i B Hp) as [_ Hd]; [right; left|].
  pose proof (bz_gate _ _ _ _ _ _ _ _ _ _ _ B i ltac:(left) Hp) as Hi. specialize (Hd Hi). subst d.
  replace (cur_of true p b t =? QUEUE_ORDSEQ_DRAIN) with false by (by destruct p, b, t).
  rewrite andb_false_r, andb_false_l. cbn [mbind option_bind].
  set (fp := bool_decide (i = pre_flush_rq o1)). set (fb := bool_decide (i = bar_rq o1)).
  set (ft := bool_decide (i = post_flush_rq o1)).
  assert (∀ j f, located hd (i :: drv) j f → f && bool_decide (i = j) = false) as Hloc.
  { intros j f. unfold located. destruct f; [|done]. cbn [andb]. case_bool_decide; [|done].
    subst. intros [_ Hn]. exfalso. apply Hn. left. }
  destruct (complete_seq_spec q1 true p b t false fp fb ft orig err) as (o' & E & Hs & _);
    [done|apply B|apply B|done|apply Hloc, B..|]. rewrite E. clear E. cbn [orb] in Hs.
  cbn [fmap option_fmap option_map snd]. exists o'. split; [done|]. split; [|split; [|split]].
  - destruct Hs as (_ & Es & Ea). eapply (acct_ext o1); [done|done|intros; reflexivity|done].
  - eapply (ord_advance o1 o'); [|by apply busy_proxy_done|exact Hs].
    destruct Hg. split; try assumption.
    + rewrite (app_assoc hd), <- Permutation_middle, <- app_assoc in g_nodup0.
      by apply NoDup_cons in g_nodup0 as [_ ?].
    + intros j Hj. apply g_kind0. rewrite elem_of_app, elem_of_cons in *. tauto.
  - apply seq_to_names in Hs as (Hs & _). intros p' b' t' E. rewrite Hs in E.
    destruct (true && (p || fp) && (b || fb) && (t || ft)); [by apply eq_sym, seq_val_busy in E|].
    by apply seq_val_inj in E as [? _].
  - intros j. apply seq_to_names in Hs as (_ & _ & _ & _ & -> & _). by apply proxy_ext.
Qed.

(** Completion of any request the driver has. *)
Lemma finish_spec q oc hd cs drv i err :
  queue_head q = hd → acct (q_ord q) (rq_of q) (i :: drv) →
  ord (q_ord q) (rq_of q) oc hd cs (i :: drv) →
  ∃ o', blk_finish_request i err q = Some (set_q_ord o' q) ∧ acct o' (rq_of q) drv ∧
    ord o' (rq_of q) oc hd cs drv ∧ wait_ok o' (rq_of q) hd drv ∧
    (∀ j, proxy o' j = proxy (q_ord q) j).
Proof.
  intros Hq Ha Hord. destruct (proxy (q_ord q) i) eqn:Hp; [by apply finish_proxy|].
  unfold blk_finish_request. rewrite bool_decide_false.
  2:{ rewrite Hq. destruct Hord as [[] _]. rewrite (app_assoc hd), <- Permutation_middle in g_nodup0.
      apply NoDup_cons in g_nodup0 as [Hn _]. rewrite !elem_of_app in Hn. tauto. }
  pose proof Hp as Hp'. unfold proxy in Hp'. repeat (case_bool_decide; [done|]).
  set (q1 := upd_ord _ q). destruct (completed_user q1 oc hd cs drv i) as (o' & E & Ha' & Ho' & Hw & Hn);
    [done| | |done|].
  { eapply (acct_ext (q_ord q)); [done|done|intros; reflexivity|exact Ha]. }
  { eapply ord_ext; [| | |exact Hord]; [by split_and!|intros; reflexivity|intros; reflexivity]. }
  exists o'. rewrite E. by split_and!.
Qed.
End ops.

(** *** Handing out *)

Section handing.
Context {D : Type}.
Implicit Types q : rqueue D.

Lemma dequeue_value q i hd :
  queue_head q = i :: hd → (i ∉ hd) → on_hash q i = false →
  blk_dequeue_request i q =
    Some (set_q_ord (flight 1 (rq_of q i) (q_ord q)) (set_queue_head hd q)).
Proof.
  intros Hq Hn Hh. unfold blk_dequeue_request.
  rewrite bool_decide_true by (rewrite Hq; left). cbn [negb]. rewrite Hh, Hq.
  assert (without i (i :: hd) = hd) as ->.
  { unfold without. rewrite filter_cons_False by (by intros []). by apply without_notin. }
  unfold flight. rewrite (rq_of_eq q (set_queue_head hd q)) by done.
  f_equal. by destruct (blk_account_rq (rq_of q i)).
Qed.

(** What [see_request] and the insertion of the requests of the sequence leave
    alone. *)
Definition same_rest q q' : Prop :=
  edata q' = edata q ∧ hash q' = hash q ∧ last_merge q' = last_merge q ∧
  ordcolor q' = ordcolor q ∧ nr_sorted q' = nr_sorted q ∧ q_ord q' = q_ord q.

Lemma see_value q i :
  same_rest q (see_request i q) ∧ queue_head (see_request i q) = queue_head q ∧
  ∀ j, rq_of (see_request i q) j =
    if decide (i = j) then set_er_started true (rq_of q i) else rq_of q j.
Proof.
  unfold see_request. set (q1 := if er_started _ then _ else _).
  assert (same_rest q q1 ∧ queue_head q1 = queue_head q) as [Hr Hq].
  { subst q1. by destruct (er_started _). }
  assert (∀ j, rq_of q1 j =
    if decide (i = j) then set_er_started true (rq_of q i) else rq_of q j) as Hg.
  { intros j. subst q1. destruct (er_started (rq_of q i)) eqn:E; [|apply rq_of_upd].
    case_decide; [subst|done]. destruct (rq_of q j). cbn in *. by rewrite E. }
  clearbody q1. destruct (match boundary_rq q1 with None => true | Some _ => _ end); [|done].
  destruct Hr as (? & ? & ? & ? & ? & ?). split_and!; done.
Qed.

(** Flags other than the kind, the colour and the barrier may change, as long
    as barriers in the queue stay barriers that are not started. *)
Lemma hue_flags o (g g' : nat → erq) j :
  er_fs (g' j) = er_fs (g j) → er_color (g' j) = er_color (g j) →
  er_hard (g' j) = er_hard (g j) → hue o g' j = hue o g j.
Proof. unfold hue. by intros -> -> ->. Qed.

Lemma req_seq_flags o (g g' : nat → erq) j :
  (∀ j, er_fs (g' j) = er_fs (g j) ∧ er_color (g' j) = er_color (g j)) →
  req_seq o g' j = req_seq o g j.
Proof.
  intros Hf. unfold req_seq. destruct (Hf j) as (-> & ->).
  destruct (o_orig o) as [k|]; [|done]. simpl. by destruct (Hf k) as (_ & ->).
Qed.

Lemma ord_flags o (g g' : nat → erq) oc hd cs drv :
  (∀ j, er_fs (g' j) = er_fs (g j) ∧ er_color (g' j) = er_color (g j) ∧
     er_hard (g' j) = er_hard (g j)) →
  (∀ j, j ∈ hd → er_soft (g j) = true → er_soft (g' j) = true) →
  (∀ j c, j ∈ hd → hue o g j = Some (c, true) → er_started (g' j) = er_started (g j)) →
  (∀ j, j ∉ hd → j ∉ drv → er_started (g' j) = er_started (g j)) →
  ord o g oc hd cs drv → ord o g' oc hd cs drv.
Proof.
  intros Hf Hsoft Hst Hout Hord.
  assert (∀ j, hue o g' j = hue o g j) as Hh.
  { intros j. destruct (Hf j) as (? & ? & ?). by apply hue_flags. }
  assert (∀ j, req_seq o g' j = req_seq o g j) as Hs.
  { intros j. apply req_seq_flags. intros k. by destruct (Hf k) as (? & ? & _). }
  destruct Hord as [[] Hph]. split.
  - split; try assumption.
    + intros j. rewrite Hh. auto.
    + intros j. destruct (Hf j) as (-> & _). auto.
    + intros j. rewrite Hh. auto.
    + intros j c Hj. rewrite Hh. intros Hc. rewrite (Hst j c) by done. by eapply g_fresh0.
  - destruct Hph as [e []|d p b t orig Hop []];
      [apply (phase_idle _ _ _ _ _ _ e); split|apply (phase_busy _ _ _ _ _ _ d p b t orig Hop); split];
      try assumption.
    + rewrite (coloured_ext _ (hue o g)); [exact id_hue0|]. auto.
    + intros j. rewrite Hh. auto.
    + destruct bz_away0 as (? & _ & ? & _). by rewrite Hout.
    + intros l1 x l2 E Hx. rewrite Hs. eapply Forall_impl; [by eapply bz_order0|].
      cbn. intros y. by rewrite Hs.
    + intros j. rewrite Hs. auto.
    + destruct (Hf orig) as (_ & -> & _). destruct bz_hue0 as (old & l & El & Hc & Hold & Hd).
      exists old, l. split_and!; [done| | |done].
      * rewrite (coloured_ext _ (hue o g)); auto.
      * apply Forall_forall. intros j Hj. rewrite Hh.
        destruct (proj1 (Forall_forall _ _) Hold j Hj) as [? [?|[? ?]]]; [by auto|].
        split; [done|]. right. split; [done|]. apply Hsoft; [|done]. rewrite El. apply elem_of_app. by left.
    + intros j. rewrite Hh. destruct (Hf orig) as (_ & -> & _). auto.
Qed.

(** A request that may start is not a barrier. *)
Lemma may_start_plain o (g : nat → erq) oc i hd cs drv c :
  ord o g oc (i :: hd) cs drv → may_start o g i → hue o g i ≠ Some (c, true).
Proof.
  intros [_ Hph] [Hm1 Hm2] Hc. destruct Hph as [e []|d p b t orig Hop []]; [by eapply Hm1|].
  destruct (Hm2 d p b t orig bz_seq0 bz_orig0) as [_ Hm4]. specialize (Hm4 _ _ Hc) as ->.
  destruct bz_hue0 as ([|k old] & l & El & Hcl & Hold & _).
  - cbn in El. subst l. destruct (coloured_head _ _ _ _ _ _ _ Hcl Hc) as [E _].
    by destruct (er_color (g orig)).
  - injection El as <- _. apply Forall_cons in Hold as [[_ [?|[? _]]] _]; congruence.
Qed.

(** Marking as started a request that may start. *)
Lemma ord_started o (g g' : nat → erq) oc i hd cs drv :
  (∀ j, g' j = if decide (i = j) then set_er_started true (g i) else g j) →
  ord o g oc (i :: hd) cs drv → may_start o g i →
  ord o g' oc (i :: hd) cs drv ∧ may_start o g' i.
Proof.
  intros Hg Hord Hm.
  assert (∀ j, er_fs (g' j) = er_fs (g j) ∧ er_color (g' j) = er_color (g j) ∧
    er_hard (g' j) = er_hard (g j) ∧ er_soft (g' j) = er_soft (g j)) as Hf.
  { intros j. rewrite Hg. case_decide; by subst. }
  split.
  - eapply ord_flags; [..|exact Hord].
    + intros j. by destruct (Hf j) as (? & ? & ? & _).
    + intros j _. by destruct (Hf j) as (_ & _ & _ & ->).
    + intros j c Hj Hc. rewrite Hg. case_decide; [subst|done]. by eapply may_start_plain in Hc.
    + intros j Hj _. rewrite Hg. rewrite decide_False; [done|]. intros ->. apply Hj. left.
  - destruct Hm as [Hm1 Hm2].
    assert (hue o g' i = hue o g i) as Hh by (destruct (Hf i) as (? & ? & ? & _); by apply hue_flags).
    split; [intros e; rewrite Hh; apply Hm1|]. intros d p b t orig E1 E2.
    rewrite Hh, (req_seq_flags o g g'); [|intros k; by destruct (Hf k) as (? & ? & _)].
    destruct (Hf orig) as (_ & -> & _). by apply Hm2.
Qed.

(** The decision on the request at the front, while a sequence is in progress. *)
Lemma do_ordered_busy `{Sched D} q oc i hd cs drv d p b t orig :
  gen (q_ord q) (rq_of q) oc (i :: hd) cs drv →
  busy (q_ord q) (rq_of q) oc (i :: hd) cs drv d p b t orig → d && p && b && t = false →
  blk_do_ordered i q =
    Some (true, if cur_of d p b t <? req_seq (q_ord q) (rq_of q) i then None else Some i, q).
Proof.
  intros Hg B Hop. pose proof B as []. unfold blk_do_ordered. unfold q_ordseq. rewrite bz_seq0.
  rewrite (proj2 (Z.eqb_neq _ _)) by apply seq_val_busy.
  assert (ordered_has q QUEUE_ORDERED_BY_TAG = false) as ->
    by (unfold ordered_has; by rewrite bz_drain0).
  rewrite (cur_seq_val q d p b t) by done.
  change (blk_ordered_req_seq q i) with (req_seq (q_ord q) (rq_of q) i).
  destruct (proxy (q_ord q) i) eqn:Hp.
  - assert (er_fs (rq_of q i) = bool_decide (i = bar_rq (q_ord q))) as ->.
    { apply Hg; [|done]. apply elem_of_app. left. left. }
    destruct (negb (bool_decide (i = bar_rq (q_ord q))) && _ && _) eqn:E; [|done].
    exfalso. apply proxy_spec in Hp. apply andb_true_iff in E as [[E1 E2]%andb_true_iff E3].
    apply negb_true_iff, bool_decide_eq_false in E1, E2, E3. tauto.
  - rewrite (req_seq_hue _ _ i orig) by done. unfold hue. rewrite Hp. cbn [negb]. rewrite andb_true_r.
    pose proof Hp as Hp'. unfold proxy in Hp'. destruct (er_fs (rq_of q i)); cbn [negb andb].
    + done.
    + do 3 (case_bool_decide; [done|]). cbn [negb andb].
      replace (cur_of d p b t <? 2) with false by (by destruct d, p, b, t). done.
Qed.

Lemma may_start_busy o g oc i hd cs drv d p b t orig :
  busy o g oc (i :: hd) cs drv d p b t orig → d && p && b && t = false →
  req_seq o g i ≤ cur_of d p b t → may_start o g i.
Proof.
  intros [] Hop Hle. split; [intros e E; exfalso; rewrite bz_seq0 in E; by apply seq_val_busy in E|].
  intros d' p' b' t' orig' E1 E2. rewrite bz_seq0 in E1. apply seq_val_inj in E1 as (-> & -> & -> & ->).
  rewrite bz_orig0 in E2. injection E2 as <-. split; [done|].
  intros c h Hh. destruct (proxy o i) eqn:Hp; [by rewrite hue_proxy in Hh|].
  rewrite (req_seq_hue _ _ i orig), Hh in Hle by done.
  destruct (eqb c (er_color (g orig))) eqn:Ec; [by apply eqb_prop in Ec|].
  destruct d', p', b', t'; cbn in Hle; try lia; done.
Qed.
End handing.

(** *** Starting a sequence *)

Section start.
Context {D : Type} `{Sched D}.
Implicit Types q : rqueue D.

(** [q'] is [q] with the requests [l] of the sequence at the front. *)
Definition pushes (l : list nat) q q' : Prop :=
  same_rest q q' ∧ queue_head q' = l ++ queue_head q ∧
  (∀ j, j ∈ l → er_soft (rq_of q' j) = true ∧
     er_fs (rq_of q' j) = bool_decide (j = bar_rq (q_ord q))) ∧
  (∀ j, j ∉ l → rq_of q' j = rq_of q j).

Lemma pushes_nil q : pushes [] q q.
Proof. split_and!; [done|done|..]; [by intros j ?%elem_of_nil|done]. Qed.

Lemma pushes_app l1 l2 q q1 q2 :
  pushes l1 q q1 → pushes l2 q1 q2 → pushes (l2 ++ l1) q q2.
Proof.
  intros ((? & ? & ? & ? & ? & E1) & Hq1 & Hk1 & Hs1) ((? & ? & ? & ? & ? & E2) & Hq2 & Hk2 & Hs2).
  split_and!.
  - split_and!; congruence.
  - by rewrite Hq2, Hq1, app_assoc.
  - intros j Hj. destruct (decide (j ∈ l2)) as [Hj2|Hj2].
    + destruct (Hk2 j Hj2) as [? Hb]. rewrite E1 in Hb. done.
    + rewrite elem_of_app in Hj. rewrite (Hs2 j Hj2). apply Hk1. tauto.
  - intros j Hj. rewrite elem_of_app in Hj. rewrite Hs2, Hs1; tauto.
Qed.

(** Inserting a request at the front with new contents. *)
Lemma pushes_front q i r :
  er_fs r = bool_decide (i = bar_rq (q_ord q)) →
  ∃ q', elv_insert 0 i ELEVATOR_INSERT_FRONT (upd_rq i (λ _, r) q) = Some q' ∧ pushes [i] q q'.
Proof.
  intros Hr. eexists. split; [reflexivity|]. set (q1 := upd_rq i (λ _, r) q).
  assert (∀ j, rq_of (set_queue_head (i :: queue_head (upd_rq i (set_er_soft true) q1))
      (upd_rq i (set_er_soft true) q1)) j =
    if decide (i = j) then set_er_soft true r else rq_of q j) as Hg.
  { intros j. rewrite (rq_of_eq (upd_rq i (set_er_soft true) q1)), rq_of_upd by done.
    unfold q1. destruct (decide (i = j)) as [<-|Hne]; [by rewrite rq_of_upd, decide_True by done|].
    by rewrite rq_of_upd, decide_False by done. }
  split_and!.
  - by split_and!.
  - done.
  - intros j ->%list_elem_of_singleton. rewrite Hg, decide_True by done. done.
  - intros j Hj. rewrite Hg, decide_False; [done|]. intros ->. apply Hj. by apply list_elem_of_singleton.
Qed.

Lemma queue_flush_spec q (w : bool) :
  let i := if w then pre_flush_rq (q_ord q) else post_flush_rq (q_ord q) in
  i ≠ bar_rq (q_ord q) → ∃ q', queue_flush w q = Some q' ∧ pushes [i] q q'.
Proof.
  intros i Hi. unfold queue_flush. fold i. apply pushes_front. symmetry. by apply bool_decide_eq_false.
Qed.

Lemma queue_bar_spec q i :
  ∃ q', queue_bar i q = Some q' ∧ pushes [bar_rq (q_ord q)] q q'.
Proof. unfold queue_bar. apply pushes_front. by rewrite bool_decide_true. Qed.

Definition opt_list (b : bool) (i : nat) : list nat := if b then [i] else [].

Lemma queue_or_skip_spec q0 l q bit seq i f rq skip :
  pushes l q0 q → (∃ q', f q = Some q' ∧ pushes [i] q q') →
  let h := ordered_has q0 bit in
  ∃ q', queue_or_skip bit seq i f (rq, skip, q) =
      Some (if h then Some i else rq, if h then skip else Z.lor skip seq, q') ∧
    pushes (opt_list h i ++ l) q0 q'.
Proof.
  intros Hp (q' & Ef & Hq') h. unfold queue_or_skip, opt_list.
  assert (ordered_has q bit = h) as ->.
  { subst h. unfold ordered_has. destruct Hp as ((_ & _ & _ & _ & _ & ->) & _). done. }
  destruct h; [rewrite Ef; exists q'|by exists q].
  split; [done|]. by eapply pushes_app.
Qed.

(** The requests of a sequence, in the order of its steps. *)
Definition steps_of (o : ordered_state) (hp hb ht : bool) : list nat :=
  opt_list hp (pre_flush_rq o) ++ opt_list hb (bar_rq o) ++ opt_list ht (post_flush_rq o).

Lemma steps_elem o hp hb ht j : j ∈ steps_of o hp hb ht ↔
  hp = true ∧ j = pre_flush_rq o ∨ hb = true ∧ j = bar_rq o ∨ ht = true ∧ j = post_flush_rq o.
Proof.
  unfold steps_of, opt_list. destruct hp, hb, ht; cbn [app];
    rewrite ?elem_of_cons, ?elem_of_nil; intuition congruence.
Qed.

(** The first step queued is the current one when nothing is waited for. *)
Lemma first_step_le o o' g hp hb ht j l :
  steps_of o hp hb ht = j :: l →
  NoDup [pre_flush_rq o; bar_rq o; post_flush_rq o] →
  pre_flush_rq o' = pre_flush_rq o → bar_rq o' = bar_rq o → post_flush_rq o' = post_flush_rq o →
  req_seq o' g j ≤ cur_of true (negb hp) (negb hb) (negb ht).
Proof.
  intros El Hnm E1 E2 E3. rewrite !NoDup_cons, !elem_of_cons in Hnm. destruct Hnm as (N1 & N2 & _).
  unfold req_seq. rewrite E1, E2, E3. unfold steps_of, opt_list in El.
  destruct hp; [injection El as <- _; by rewrite bool_decide_true by done|].
  destruct hb.
  { injection El as <- _. by rewrite bool_decide_false, bool_decide_true by (try done; intros E; rewrite E in *; tauto). }
  destruct ht; [injection El as <- _|done].
  do 2 rewrite bool_decide_false by (intros E; rewrite E in *; tauto). by rewrite bool_decide_true.
Qed.

Lemma steps_proxy o hp hb ht j : j ∈ steps_of o hp hb ht → proxy o j = true.
Proof. rewrite steps_elem, proxy_spec. tauto. Qed.

Lemma steps_sorted o g hp hb ht :
  NoDup [pre_flush_rq o; bar_rq o; post_flush_rq o] →
  StronglySorted (λ a b, req_seq o g a < req_seq o g b) (steps_of o hp hb ht).
Proof.
  rewrite !NoDup_cons, !elem_of_cons. intros (N1 & N2 & _).
  assert (req_seq o g (pre_flush_rq o) = 4) as E1 by (unfold req_seq; by rewrite bool_decide_true).
  assert (req_seq o g (bar_rq o) = 8) as E2.
  { unfold req_seq. rewrite bool_decide_false, bool_decide_true by (try done; intros E; rewrite E in *; tauto).
    done. }
  assert (req_seq o g (post_flush_rq o) = 16) as E3.
  { unfold req_seq. do 2 rewrite bool_decide_false by (intros E; rewrite E in *; tauto).
    by rewrite bool_decide_true. }
  unfold steps_of, opt_list. destruct hp, hb, ht; cbn [app];
    repeat first [constructor | rewrite ?E1, ?E2, ?E3; lia].
Qed.

(** The mode of a sequence of a SCSI disk drains the queue. *)
Lemma drain_mode_bits sectors m : drain_mode m →
  Z.land (ordered_mode sectors m) QUEUE_ORDERED_BY_TAG = 0 ∧
  (Z.land (ordered_mode sectors m) QUEUE_ORDERED_BY_DRAIN =? 0) = false.
Proof.
  unfold ordered_mode. destruct (sectors =? 0); intros [->|[->| ->]]; by vm_compute.
Qed.

Lemma skip_value (w hp hb ht : bool) :
  let s := if ht then 0 else Z.lor 0 QUEUE_ORDSEQ_POSTFLUSH in
  let s := if hb then s else Z.lor s QUEUE_ORDSEQ_BAR in
  let s := if hp then s else Z.lor s QUEUE_ORDSEQ_PREFLUSH in
  (if w then s else Z.lor s QUEUE_ORDSEQ_DRAIN) =
    seq_val (negb w) (negb hp) (negb hb) (negb ht) - 1.
Proof. by destruct w, hp, hb, ht. Qed.

(** Queueing the steps, the last one first. *)
Lemma queue_steps q0 i :
  let o := q_ord q0 in
  NoDup [pre_flush_rq o; bar_rq o; post_flush_rq o] →
  let hp := ordered_has q0 QUEUE_ORDERED_DO_PREFLUSH in
  let hb := ordered_has q0 QUEUE_ORDERED_DO_BAR in
  let ht := ordered_has q0 QUEUE_ORDERED_DO_POSTFLUSH in
  let sk := if ht then 0 else Z.lor 0 QUEUE_ORDSEQ_POSTFLUSH in
  let sk := if hb then sk else Z.lor sk QUEUE_ORDSEQ_BAR in
  let sk := if hp then sk else Z.lor sk QUEUE_ORDSEQ_PREFLUSH in
  ∃ s1 s2 q1,
    queue_or_skip QUEUE_ORDERED_DO_POSTFLUSH QUEUE_ORDSEQ_POSTFLUSH (post_flush_rq o)
      (queue_flush false) (None, 0, q0) = Some s1 ∧
    queue_or_skip QUEUE_ORDERED_DO_BAR QUEUE_ORDSEQ_BAR (bar_rq o) (queue_bar i) s1 = Some s2 ∧
    queue_or_skip QUEUE_ORDERED_DO_PREFLUSH QUEUE_ORDSEQ_PREFLUSH
      (pre_flush_rq o) (queue_flush true) s2 = Some (head (steps_of o hp hb ht), sk, q1) ∧
    pushes (steps_of o hp hb ht) q0 q1 ∧ q_ord q1 = o.
Proof.
  intros o Hnd hp hb ht. rewrite !NoDup_cons, !elem_of_cons in Hnd. destruct Hnd as (N1 & N2 & _).
  assert (∀ l q', pushes l q0 q' → q_ord q' = o) as Hqo by (by intros l q' ((_ & _ & _ & _ & _ & ->) & _)).
  destruct (queue_or_skip_spec q0 [] q0 QUEUE_ORDERED_DO_POSTFLUSH QUEUE_ORDSEQ_POSTFLUSH
    (post_flush_rq o) (queue_flush false) None 0) as (q2 & E2 & Hp2); [apply pushes_nil| |].
  { apply (queue_flush_spec q0 false). cbn. intros E. apply N2. left. by symmetry. }
  destruct (queue_or_skip_spec q0 _ q2 QUEUE_ORDERED_DO_BAR QUEUE_ORDSEQ_BAR
    (bar_rq o) (queue_bar i) (if ht then Some (post_flush_rq o) else None)
    (if ht then 0 else Z.lor 0 QUEUE_ORDSEQ_POSTFLUSH) Hp2) as (q3 & E3 & Hp3).
  { rewrite <- (Hqo _ _ Hp2). apply queue_bar_spec. }
  match type of E3 with _ = Some (?rq, ?sk, _) =>
    destruct (queue_or_skip_spec q0 _ q3 QUEUE_ORDERED_DO_PREFLUSH QUEUE_ORDSEQ_PREFLUSH
      (pre_flush_rq o) (queue_flush true) rq sk Hp3) as (q4 & E4 & Hp4) end.
  { rewrite <- (Hqo _ _ Hp3). apply (queue_flush_spec q3 true). rewrite (Hqo _ _ Hp3). cbn. tauto. }
  eexists _, _, q4. split; [exact E2|]. split; [exact E3|]. rewrite E4.
  rewrite app_nil_r in Hp4. split; [|split; [exact Hp4|by eapply Hqo]].
  f_equal. f_equal. f_equal. subst hp hb ht. unfold steps_of, opt_list. by repeat case_match.
Qed.

(** The whole of [start_ordered], up to the requests it queues. *)
Lemma start_ordered_value q i hd :
  queue_head q = i :: hd → (i ∉ hd) → on_hash q i = false → er_started (rq_of q i) = false →
  o_seq (q_ord q) = 0 → drain_mode (o_next (q_ord q)) →
  NoDup [pre_flush_rq (q_ord q); bar_rq (q_ord q); post_flush_rq (q_ord q)] →
  proxy (q_ord q) i = false →
  let mode := ordered_mode (er_sectors (rq_of q i)) (o_next (q_ord q)) in
  let has bit := negb (Z.land mode bit =? 0) in
  let hp := has QUEUE_ORDERED_DO_PREFLUSH in
  let hb := has QUEUE_ORDERED_DO_BAR in
  let ht := has QUEUE_ORDERED_DO_POSTFLUSH in
  let wait := negb (queue_in_flight q =? 0) in
  let all := negb wait && negb hp && negb hb && negb ht in
  let o1 := set_o_orig (Some i) (set_o_seq 1 (set_o_ordered mode (set_o_err 0 (q_ord q)))) in
  ∃ q1 o', start_ordered i q =
      Some (negb all, if wait then None else head (steps_of (q_ord q) hp hb ht), set_q_ord o' q1) ∧
    pushes (steps_of (q_ord q) hp hb ht) (set_q_ord o1 (set_queue_head hd q)) q1 ∧
    seq_to (if all then 0 else seq_val (negb wait) (negb hp) (negb hb) (negb ht)) o1 o'.
Proof.
  intros Hq Hn Hh Hst Hseq Hm Hnd Hp mode has hp hb ht wait all o1. unfold start_ordered.
  fold mode. set (o0 := set_o_seq 1 (set_o_ordered mode (set_o_err 0 (q_ord q)))).
  assert (upd_ord (λ o, set_o_seq (Z.lor (o_seq o) QUEUE_ORDSEQ_STARTED)
    (set_o_ordered mode (set_o_err 0 o))) q = set_q_ord o0 q) as ->.
  { unfold upd_ord. by rewrite Hseq. }
  rewrite (dequeue_value _ i hd) by done. cbn [mbind option_bind].
  assert (flight 1 (rq_of (set_q_ord o0 q) i) (q_ord (set_q_ord o0 q)) = o0) as ->.
  { unfold flight, blk_account_rq. rewrite (rq_of_eq q (set_q_ord o0 q)), Hst by done. done. }
  set (q0 := set_q_ord o1 (set_queue_head hd q)).
  match goal with |- context [upd_ord (set_o_orig (Some i)) ?x] =>
    change (upd_ord (set_o_orig (Some i)) x) with q0 end.
  destruct (queue_steps q0 i Hnd) as (s1 & s2 & q4 & E1 & E2 & E3 & Hp4 & Ho4).
  change (q_ord q0) with o1 in E1, E2, E3, Ho4 |- *. rewrite E1. cbn [mbind option_bind].
  rewrite E2. cbn [mbind option_bind]. rewrite E3. cbn [mbind option_bind]. clear E1 E2 E3.
  change (ordered_has q0 QUEUE_ORDERED_DO_POSTFLUSH) with ht in *.
  change (ordered_has q0 QUEUE_ORDERED_DO_BAR) with hb in *.
  change (ordered_has q0 QUEUE_ORDERED_DO_PREFLUSH) with hp in *.
  assert (ordered_has q4 QUEUE_ORDERED_BY_DRAIN && negb (queue_in_flight q4 =? 0) = wait) as ->.
  { unfold ordered_has, queue_in_flight. rewrite Ho4. cbn.
    destruct (drain_mode_bits (er_sectors (rq_of q i)) _ Hm) as [_ E].
    change (ordered_mode _ _) with mode in E. rewrite E. done. }
  rewrite (skip_value wait hp hb ht). change (steps_of o1 hp hb ht) with (steps_of (q_ord q) hp hb ht).
  destruct (complete_seq_spec q4 false false false false (negb wait) (negb hp) (negb hb) (negb ht) i 0)
    as (o' & -> & Hs & _).
  { by rewrite Ho4. }
  { by rewrite Ho4. }
  { destruct Hp4 as (_ & _ & _ & Hsame). rewrite Hsame; [exact Hst|].
    intros Hin%steps_proxy. change (proxy (q_ord q) i = true) in Hin. congruence. }
  1-4: done.
  cbn [mbind option_bind orb]. rewrite Ho4 in Hs. exists q4, o'. split; [done|by split].
Qed.
End start.

(** The state a sequence starts in. *)
Section started.
Context (o o1 : ordered_state) (g g' : nat → erq) (oc : bool) (i : nat) (hd cs drv : list nat).
Context (e hp hb ht w : bool).
Context (Hgen : gen o g oc (i :: hd) cs drv) (Hidle : idle o g oc (i :: hd) drv e).
Context (Hbar : is_barrier (g i) = true).
Context (Hnext : o_next o1 = o_next o) (Horig : o_orig o1 = Some i).
Context (Hdrain : Z.land (o_ordered o1) QUEUE_ORDERED_BY_TAG = 0).
Context (Hpre : pre_flush_rq o1 = pre_flush_rq o) (Hbr : bar_rq o1 = bar_rq o).
Context (Hpost : post_flush_rq o1 = post_flush_rq o).
Context (Hsoft : ∀ j, j ∈ steps_of o hp hb ht →
  er_soft (g' j) = true ∧ er_fs (g' j) = bool_decide (j = bar_rq o)).
Context (Hsame : ∀ j, j ∉ steps_of o hp hb ht → g' j = g j).

Lemma st_proxy j : proxy o1 j = proxy o j.
Proof. unfold proxy. by rewrite Hpre, Hbr, Hpost. Qed.

Lemma st_other j : proxy o j = false → g' j = g j.
Proof. intros Hj. apply Hsame. intros Hin%steps_proxy. congruence. Qed.

Lemma st_hue j : hue o1 g' j = hue o g j.
Proof.
  unfold hue. rewrite st_proxy. destruct (proxy o j) eqn:Hj; [by rewrite !andb_false_r|].
  by rewrite st_other.
Qed.

Lemma st_in j : j ∈ hd ∨ j ∈ drv → proxy o j = false.
Proof.
  intros Hj. destruct (proxy o j) eqn:E; [|done]. exfalso.
  destruct (id_out _ _ _ _ _ _ Hidle j E) as [Hn1 Hn2]. rewrite elem_of_cons in Hn1. tauto.
Qed.

Lemma st_i : proxy o i = false ∧ hue o g i = Some (e, true) ∧
  coloured (hue o g) (negb e) hd = Some oc ∧ er_color (g i) = e ∧ er_started (g i) = false ∧
  (i ∉ hd) ∧ (i ∉ cs) ∧ i ∉ drv.
Proof.
  assert (proxy o i = false) as Hp.
  { destruct (proxy o i) eqn:E; [|done]. exfalso.
    destruct (id_out _ _ _ _ _ _ Hidle i E) as [Hn _]. apply Hn. left. }
  unfold is_barrier in Hbar. apply andb_true_iff in Hbar as [Hf Hh].
  assert (hue o g i = Some (er_color (g i), true)) as Ei by (unfold hue; by rewrite Hf, Hp, Hh).
  destruct (coloured_head _ _ _ _ _ _ _ (id_hue _ _ _ _ _ _ Hidle) Ei) as [Ee Hc].
  pose proof (g_nodup _ _ _ _ _ _ Hgen) as Hnd. cbn [app] in Hnd.
  apply NoDup_cons in Hnd as [Hn _]. rewrite !elem_of_app in Hn.
  split_and!; [done|by rewrite Ei, Ee|done|done| |tauto..].
  eapply (g_fresh _ _ _ _ _ _ Hgen); [left|done].
Qed.

Lemma gen_start : gen o1 g' oc (steps_of o hp hb ht ++ hd) cs drv.
Proof.
  pose proof Hgen as []. pose proof st_i as (Hpi & _).
  split; rewrite ?Hnext, ?Hpre, ?Hbr, ?Hpost; try assumption.
  - rewrite <- app_assoc. apply NoDup_app. split_and!.
    + unfold steps_of, opt_list. rewrite !NoDup_cons, !elem_of_cons in g_names0.
      destruct g_names0 as (N1 & N2 & _).
      destruct hp, hb, ht; cbn [app]; rewrite ?NoDup_cons, ?elem_of_cons, ?elem_of_nil;
        split_and?; try apply NoDup_nil_2; tauto.
    + intros j Hj%steps_proxy. rewrite !elem_of_app. intros [?|[Hc|?]].
      * rewrite st_in in Hj; [done|by left].
      * apply g_sched0 in Hc as [? _]. congruence.
      * rewrite st_in in Hj; [done|by right].
    + cbn [app] in g_nodup0. by apply NoDup_cons in g_nodup0 as [_ ?].
  - intros j. rewrite st_proxy, st_hue. auto.
  - intros j Hj. rewrite st_proxy. intros Hpj. rewrite <- app_assoc in Hj.
    apply elem_of_app in Hj as [Hj|Hj]; [by apply Hsoft|].
    apply elem_of_app in Hj. rewrite st_in in Hpj; done.
  - intros j Hj. rewrite st_proxy, st_hue. apply elem_of_app in Hj as [Hj|Hj]; [by intros; apply Hsoft|].
    rewrite st_other by (apply st_in; by left). apply g_soft0. by right.
  - intros j c Hj. rewrite st_hue. intros E.
    assert (proxy o j = false) as Hpj by (destruct (proxy o j) eqn:?; [by rewrite hue_proxy in E|done]).
    rewrite st_other by done. apply elem_of_app in Hj as [Hj%steps_proxy|Hj]; [congruence|].
    eapply g_fresh0; [by right|done].
Qed.

Lemma busy_start :
  (w = false → ∀ j, j ∈ drv → hue o g j = None) →
  let s := seq_val (negb w) (negb hp) (negb hb) (negb ht) in
  busy (set_o_seq s o1) g' oc (steps_of o hp hb ht ++ hd) cs drv
    (negb w) (negb hp) (negb hb) (negb ht) i.
Proof.
  intros Hw s. pose proof st_i as (Hpi & Hhi & Hc & Hci & Hst & Hn1 & Hn2 & Hn3).
  assert (∀ j, hue (set_o_seq s o1) g' j = hue o g j) as Hhue by (intros; apply st_hue).
  assert (∀ j, proxy (set_o_seq s o1) j = proxy o j) as Hprx by (intros; apply st_proxy).
  assert (∀ h x, proxy o x = true → (x ∈ steps_of o hp hb ht ↔ h = true) →
    located (steps_of o hp hb ht ++ hd) drv x (negb h)) as Hloc.
  { intros h x Hx Hh. unfold located.
    assert ((x ∉ hd) ∧ (x ∉ drv)) as [Hx1 Hx2].
    { split; intros Hin; (rewrite st_in in Hx; [done|auto]). }
    destruct h; cbn [negb]; rewrite elem_of_app; [left; left; by apply Hh|].
    split; [|done]. intros [Hin%Hh|?]; done. }
  pose proof (g_names _ _ _ _ _ _ Hgen) as Hnames. rewrite !NoDup_cons, !elem_of_cons in Hnames.
  destruct (proxy_names o) as (P1 & P2 & P3).
  split; try done.
  - rewrite elem_of_app, Hprx. split_and!; try done. intros [Hin%steps_proxy|?]; [congruence|done].
  - by rewrite st_other.
  - change (pre_flush_rq (set_o_seq s o1)) with (pre_flush_rq o1). rewrite Hpre. apply Hloc; [done|].
    rewrite steps_elem. intuition congruence.
  - change (bar_rq (set_o_seq s o1)) with (bar_rq o1). rewrite Hbr. apply Hloc; [done|].
    rewrite steps_elem. intuition congruence.
  - change (post_flush_rq (set_o_seq s o1)) with (post_flush_rq o1). rewrite Hpost. apply Hloc; [done|].
    rewrite steps_elem. intuition congruence.
  - intros l1 x l2 E Hx. rewrite Hprx in Hx. apply split_left in E as (k3 & E & _).
    + assert (StronglySorted (λ a b, req_seq (set_o_seq s o1) g' a < req_seq (set_o_seq s o1) g' b)
        (steps_of o hp hb ht)) as Hs.
      { pose proof (steps_sorted (set_o_seq s o1) g' hp hb ht) as Hs. unfold steps_of in *.
        cbn [pre_flush_rq bar_rq post_flush_rq set_o_seq] in Hs. rewrite Hpre, Hbr, Hpost in Hs.
        apply Hs. apply Hgen. }
      rewrite E in Hs. apply StronglySorted_app in Hs as [Hs _]. apply Forall_forall.
      intros y Hy. apply Hs; [done|left].
    + intros Hin. rewrite st_in in Hx; [done|auto].
  - intros j Hj Hpj. exfalso. rewrite Hprx in Hpj. rewrite st_in in Hpj; [done|auto].
  - exists [], (steps_of o hp hb ht ++ hd). split_and!; try done.
    rewrite st_other, Hci by done. rewrite coloured_app.
    assert (coloured (hue (set_o_seq s o1) g') (negb e) (steps_of o hp hb ht) = Some (negb e)) as ->.
    { apply coloured_none. intros j Hj%steps_proxy. rewrite Hhue. by apply hue_proxy. }
    cbn [mbind option_bind]. rewrite (coloured_ext _ (hue o g)); auto.
  - intros j Hj. rewrite Hhue, (st_other i), Hci by done.
    destruct (id_drv _ _ _ _ _ _ Hidle j Hj) as [?|Hh]; [by left|].
    destruct w; [by right|]. left. by apply Hw.
Qed.
End started.

(** *** Requeueing *)

Lemma req_seq_ge o g i : 2 ≤ req_seq o g i.
Proof. unfold req_seq. repeat case_match; done. Qed.

(** Nothing comes before the requests older than the barrier. *)
Lemma older_front o g oc hd cs drv i d p b t orig l :
  busy o g oc hd cs (i :: drv) d p b t orig → proxy o i = false →
  req_seq o g i = 2 ∧ (Forall (λ y, req_seq o g y < req_seq o g i) l → l = []).
Proof.
  intros [] Hp. assert (req_seq o g i = 2) as Hi.
  { rewrite (req_seq_hue _ _ i orig) by done.
    destruct (bz_drv0 i) as [-> |[_ ->]]; [left|done|by rewrite eqb_reflx]. }
  split; [done|]. destruct l as [|y l]; [done|]. rewrite Hi. intros [Hy _]%Forall_cons.
  pose proof (req_seq_ge o g y). lia.
Qed.

(** The request of the present step goes back to its place. *)
Lemma ord_push_proxy o g oc l1 l2 cs drv i :
  ord o g oc (l1 ++ l2) cs (i :: drv) → proxy o i = true → er_soft (g i) = true →
  Forall (λ y, req_seq o g y < req_seq o g i) l1 →
  ord o g oc (l1 ++ i :: l2) cs drv ∧ ∀ p b t, o_seq o ≠ seq_val false p b t.
Proof.
  intros [[] Hph] Hp Hs Hl.
  destruct Hph as [e []|d p b t orig Hop B].
  { exfalso. destruct (id_out0 i Hp) as [_ Hn]. apply Hn. left. }
  pose proof B as []. pose proof (bz_gate0 i ltac:(left) Hp) as Hcur.
  destruct (busy_cur_le _ _ _ _ _ _ _ _ _ _ _ i B Hp) as [_ Hd]; [right; left|].
  specialize (Hd Hcur). subst d.
  assert (∀ j, j ∈ l1 ++ i :: l2 ↔ j = i ∨ j ∈ l1 ++ l2) as Hin.
  { intros j. rewrite !elem_of_app, elem_of_cons. tauto. }
  split; [|intros p' b' t' E; rewrite bz_seq0 in E; by apply seq_val_inj in E as [? _]].
  split.
  - split; try assumption.
    + assert ((l1 ++ i :: l2) ++ cs ++ drv ≡ₚ (l1 ++ l2) ++ cs ++ i :: drv) as ->; [|done].
      rewrite <- !app_assoc. cbn [app]. rewrite <- (Permutation_middle cs), <- (Permutation_middle l2).
      done.
    + intros j. rewrite elem_of_app, Hin. intros Hj. apply g_kind0. rewrite elem_of_app, elem_of_cons. tauto.
    + intros j [->|?]%Hin; auto.
    + intros j c [->|?]%Hin; [by rewrite hue_proxy|eauto].
  - eapply phase_busy; [exact Hop|]. eapply bz_ext; [exact B|..].
    + intros j _. rewrite Hin, elem_of_cons. tauto.
    + rewrite Hin. rewrite elem_of_cons in bz_away0. destruct bz_away0 as (? & ? & ? & Hpo).
      tauto.
    + intros k1 x k2 E Hx. destruct (split_app _ _ _ _ E) as [(m & -> & Em)|(m & -> & Em)].
      * destruct m as [|y m]; cbn [app] in Em.
        -- injection Em as <- <-. rewrite app_nil_r in Hl. done.
        -- injection Em as <- ->. eapply bz_order0; [by rewrite <- app_assoc|done].
      * destruct m as [|y m]; cbn [app] in Em.
        -- injection Em as <- <-. by rewrite app_nil_r.
        -- injection Em as <- ->. specialize (bz_order0 (l1 ++ m) x k2 ltac:(by rewrite <- app_assoc) Hx).
           apply Forall_app in bz_order0 as [Ho1 Ho2]. apply Forall_app. split; [done|].
           constructor; [|done].
           destruct (busy_cur_le _ _ _ _ _ _ _ _ _ _ _ x B Hx) as [Hle _].
           { left. rewrite !elem_of_app, elem_of_cons. tauto. }
           destruct (decide (req_seq o g x = req_seq o g i)) as [Exi|?]; [|lia]. exfalso.
           assert (x = i) as ->.
           { destruct (req_seq_proxy o g i Hp) as [[? E1]|[(? & ? & E1)|(? & ? & ? & E1)]],
               (req_seq_proxy o g x Hx) as [[? E2]|[(? & ? & E2)|(? & ? & ? & E2)]];
               rewrite E1, E2 in Exi; congruence. }
           rewrite (app_assoc _ cs), <- (Permutation_middle (_ ++ cs)) in g_nodup0.
           apply NoDup_cons in g_nodup0 as [Hn _]. apply Hn.
           rewrite !elem_of_app, elem_of_cons. tauto.
    + intros j Hj. apply bz_gate0. by right.
    + destruct bz_hue0 as (old & l & E & Hc & Hold & Hd). rewrite Hd in E by done. cbn [app] in E. subst l.
      exists [], (l1 ++ i :: l2). split_and!; try done. by rewrite coloured_skip by (by apply hue_proxy).
    + intros j Hj. apply bz_drv0. by right.
Qed.

(** The present step's request, while the queue is not drained for it. *)
Lemma current_step o g oc hd cs drv d p b t orig :
  busy o g oc hd cs drv d p b t orig → d && p && b && t = false → d = true → drv = [] →
  ∃ x l, hd = x :: l ∧ req_seq o g x ≤ cur_of d p b t.
Proof.
  intros B Hop -> ->. pose proof B as [].
  assert (∃ x, proxy o x = true ∧ x ∈ hd ∧ req_seq o g x ≤ cur_of true p b t) as (x & Hp & Hx & Hle).
  { destruct (proxy_names o) as (N1 & N2 & N3). unfold located in *.
    assert (req_seq o g (pre_flush_rq o) = 4 ∧ req_seq o g (bar_rq o) ≤ 8 ∧
      req_seq o g (post_flush_rq o) ≤ 16) as (E1 & E2 & E3).
    { unfold req_seq. repeat case_bool_decide; try done; congruence. }
    destruct p; [destruct b; [destruct t; [done|]|]|].
    - exists (post_flush_rq o). split_and!; [done| |done]. destruct bz_post0 as [?|?%elem_of_nil]; done.
    - exists (bar_rq o). split_and!; [done| |done]. destruct bz_bar0 as [?|?%elem_of_nil]; done.
    - exists (pre_flush_rq o). split_and!; [done| |by rewrite E1]. destruct bz_pre0 as [?|?%elem_of_nil]; done. }
  apply list_elem_of_split in Hx as (l1 & l2 & ->). destruct l1 as [|y l1]; [by exists x, l2|].
  exists y, (l1 ++ x :: l2). split; [done|].
  pose proof (bz_order0 (y :: l1) x l2 eq_refl Hp) as [Hy _]%Forall_cons. cbn in Hy. lia.
Qed.
