(* ===== verification/Barrier.v ===== *)
(** * Requests in flight and barriers, in every interleaving

    The operations of [BlkQueue] keep the invariant of [BarrierInv]; a system of
    submitters, queue and driver, as an executable function of events; and the
    theorems on all its runs: the count of requests in flight is exact, a barrier
    is ordered, it never wedges the queue, and the driver's side never runs into
    a BUG. *)
From stdpp Require Import sorting.
From S2P Require Import Prelude Elevator Noop Deadline BlkQueue BarrierInv.

(** *** The operations on the queue *)

Section queue.
Context {D : Type} `{SchedFrame D}.
Implicit Types q : rqueue D.

Definition waits q (drv : list nat) : Prop := wait_ok (q_ord q) (rq_of q) (queue_head q) drv.

(** Operations that do not concern the scheduler. *)
Lemma inv_same q q' drv drv' :
  inv q drv → edata q' = edata q → nr_sorted q' = nr_sorted q → hash q' = hash q →
  (∀ j, j ∈ sched_contents (edata q) → same_place (rq_of q j) (rq_of q' j)) →
  (∀ j, proxy (q_ord q') j = proxy (q_ord q) j) →
  (∀ j, j ∈ queue_head q' ++ drv' →
     j ∈ queue_head q ++ drv ∨ proxy (q_ord q) j = true ∨ on_hash q j = false) →
  acct (q_ord q') (rq_of q') drv' →
  ord (q_ord q') (rq_of q') (ordcolor q') (queue_head q') (sched_contents (edata q')) drv' →
  inv q' drv'.
Proof.
  intros [] He Hn Hh Hpl Hp Hin Ha Ho. split; try done.
  - by eapply sched_inv_frame.
  - unfold sorted_ok. by rewrite Hn, He.
  - intros j Hj. rewrite (on_hash_eq q q' j Hh). rewrite Hp in Hj.
    destruct Hj as [[?|[?|?]]%Hin|?]; auto.
Qed.

Lemma inv_set_ord q o' drv drv' :
  inv q drv → (∀ j, proxy o' j = proxy (q_ord q) j) → drv' ⊆ drv → acct o' (rq_of q) drv' →
  ord o' (rq_of q) (ordcolor q) (queue_head q) (sched_contents (edata q)) drv' →
  inv (set_q_ord o' q) drv'.
Proof.
  intros Hinv Hp Hsub Ha Ho. eapply inv_same; [exact Hinv|done|done|done| |exact Hp| |exact Ha|exact Ho].
  - intros j _. apply (proj2 (proj2 (same_flags_equiv.(Equivalence_Reflexive) _))).
  - intros j. cbn [queue_head set_q_ord]. rewrite !elem_of_app. intros [?|?%Hsub]; auto.
Qed.

Lemma same_place_of r r' : same_request r r' → same_place r r'.
Proof.
  destruct r, r'. unfold same_request, set_er_fifo_time. cbn. intros [=]. subst. by split_and!.
Qed.

Lemma dispatch_inv oc q q' drv :
  invc oc q drv → sched_dispatch q = Some (true, q') →
  invc oc q' drv ∧ frame q q' ∧
  ∃ i l1 l2, queue_head q = l1 ++ l2 ∧ queue_head q' = l1 ++ i :: l2 ∧
    length (sched_contents (edata q)) = S (length (sched_contents (edata q'))).
Proof.
  intros Hinv E. pose proof Hinv as [].
  destruct (sched_dispatch_frame q q' in_sched E) 
    as (Hfr & i & l1 & l2 & E1 & E2 & Hst & Hi).
  pose proof Hfr as (Eo & _ & Hg & Hsh & _).
  destruct (sched_dispatch_ok q in_sched) as (b & q1 & E' & Hinv' & Hp & _ & Hb).
  rewrite E in E'. injection E' as <- <-. destruct Hb as [Hlen Hn].
  assert (sched_contents (edata q) ≡ₚ i :: sched_contents (edata q')) as Hcs.
  { unfold queued in Hp. rewrite E1, E2 in Hp. rewrite <- !app_assoc in Hp. cbn [app] in Hp.
    apply Permutation_app_inv_l in Hp. rewrite Permutation_middle in Hp.
    by apply Permutation_app_inv_l in Hp. }
  split; [|split; [done|by exists i, l1, l2]].
  split; [done| | | |].
  - unfold sorted_ok in *. rewrite Hn, in_sorted, Hlen. unfold u32.
    rewrite Zminus_mod_idemp_l. f_equal. lia.
  - intros j Hj. rewrite Eo in Hj. destruct (decide (j = i)) as [->|Hne]; [done|].
    destruct (on_hash q' j) eqn:Ej; [|done]. apply Hsh in Ej. rewrite in_hash in Ej; [done|].
    rewrite E1. rewrite E2 in Hj. rewrite !elem_of_app, elem_of_cons in Hj. rewrite !elem_of_app. tauto.
  - rewrite Eo. eapply acct_ext; [done|done| |exact in_acct]. intros j _. apply Hg.
  - rewrite Eo, E2. rewrite E1 in in_ord. eapply ord_ext; [apply same_ord_refl| | |].
    + intros j _. apply Hg.
    + intros _ j _. apply Hg.
    + by eapply ord_move.
Qed.

Lemma not_barrier_hue q i c : is_barrier (rq_of q i) = false → hue (q_ord q) (rq_of q) i ≠ Some (c, true).
Proof.
  unfold is_barrier, hue. intros Hb E. destruct (er_fs (rq_of q i)); [|done]. cbn in *.
  rewrite Hb in E. by destruct (negb _).
Qed.

(** The barrier at the front of the queue starts a sequence. *)
Lemma start_ordered_inv q drv i hd e :
  inv q drv → queue_head q = i :: hd →
  idle (q_ord q) (rq_of q) (ordcolor q) (i :: hd) drv e → is_barrier (rq_of q i) = true →
  ∃ yes rq q', start_ordered i q = Some (yes, rq, q') ∧ inv q' drv ∧ waits q' drv ∧
    edata q' = edata q ∧
    (yes = false → queue_head q' = hd) ∧
    (∀ j, yes = true → rq = Some j →
       ∃ l, queue_head q' = j :: l ∧ may_start (q_ord q') (rq_of q') j).
Proof.
  intros Hinv Hq Hidle Hbar. pose proof Hinv as []. rewrite Hq in in_ord. destruct in_ord as [Hgen _].
  destruct (st_i _ _ _ _ _ _ _ e Hgen Hidle Hbar) as (Hpi & Hhi & _ & Hci & Hst & Hn1 & Hn2 & Hn3).
  destruct (start_ordered_value q i hd) as (q1 & o' & -> & Hpush & Hs);
    [done|done|apply in_hash; rewrite Hq; left; by left|done|apply Hidle|apply Hgen|apply Hgen|done|].
  set (mode := ordered_mode _ _) in *.
  set (hp := negb (Z.land mode QUEUE_ORDERED_DO_PREFLUSH =? 0)) in *.
  set (hb := negb (Z.land mode QUEUE_ORDERED_DO_BAR =? 0)) in *.
  set (ht := negb (Z.land mode QUEUE_ORDERED_DO_POSTFLUSH =? 0)) in *.
  set (w := negb (queue_in_flight q =? 0)) in *.
  set (all := negb w && negb hp && negb hb && negb ht) in *.
  set (o1 := set_o_orig _ _) in *. set (l := steps_of (q_ord q) hp hb ht) in *.
  destruct Hpush as ((He & Hh & _ & Hc & Hn & _) & Hqh & Hkind & Hsame).
  cbn [edata hash ordcolor nr_sorted queue_head set_q_ord set_queue_head] in *.
  assert (∀ j, rq_of (set_q_ord o1 (set_queue_head hd q)) j = rq_of q j) as Hrq by done.
  destruct (drain_mode_bits (er_sectors (rq_of q i)) (o_next (q_ord q)) ltac:(apply Hgen)) as [Htag _].
  pose proof (seq_to_names _ _ _ Hs) as (Es & _ & _ & _ & Ep & _).
  assert (gen o1 (rq_of q1) (ordcolor q) (l ++ hd) (sched_contents (edata q)) drv) as Hg1.
  { eapply (gen_start (q_ord q) o1 (rq_of q) (rq_of q1)); first [exact Hgen|exact Hidle|exact Hkind|exact Hsame|done]. }
  assert (busy (set_o_seq (seq_val (negb w) (negb hp) (negb hb) (negb ht)) o1) (rq_of q1) (ordcolor q)
    (l ++ hd) (sched_contents (edata q)) drv (negb w) (negb hp) (negb hb) (negb ht) i) as Hb1.
  { eapply (busy_start (q_ord q) o1 (rq_of q) (rq_of q1)); try first [exact Hgen|exact Hidle|exact Hkind|exact Hsame|done].
    intros Hw j Hj. apply (drained_hue q _ drv); [exact in_acct| |exact Hj].
    by apply negb_false_iff, Z.eqb_eq in Hw. }
  assert (ord o' (rq_of q1) (ordcolor q) (l ++ hd) (sched_contents (edata q)) drv) as Hord1.
  { eapply (ord_advance o1 o'); [exact Hg1|exact Hb1|exact Hs]. }
  eexists _, _, _. split; [reflexivity|]. split; [|split; [|split; [done|split]]].
  - eapply inv_same; [exact Hinv|exact He|exact Hn|exact Hh| | | | |].
    + intros j Hj. assert (rq_of (set_q_ord o' q1) j = rq_of q j) as ->; [|done].
      apply Hsame. intros Hin%steps_proxy. apply Hgen in Hj as [? _]. congruence.
    + intros j. apply Ep.
    + intros j. cbn [queue_head set_q_ord]. rewrite Hqh, <- app_assoc.
      intros [Hin%steps_proxy|?]%elem_of_app; [auto|]. left. rewrite Hq. by right.
    + destruct Hs as (_ & E1 & E2). eapply (acct_ext (q_ord q)); [exact E1|exact E2| |done].
      intros j Hj. assert (rq_of (set_q_ord o' q1) j = rq_of q j) as ->; [|done].
      apply Hsame. intros Hin%steps_proxy. destruct (id_out _ _ _ _ _ _ Hidle j Hin). done.
    + cbn [queue_head set_q_ord edata q_ord ordcolor]. rewrite Hqh, He, Hc. exact Hord1.
  - intros p b t E. cbn [q_ord set_q_ord] in E. rewrite Es in E.
    destruct all; [by apply eq_sym, seq_val_busy in E|]. apply seq_val_inj in E as (Ew & _).
    left. intros ->. subst w. apply negb_false_iff in Ew. apply negb_true_iff, Z.eqb_neq in Ew.
    apply Ew, (in_flight_zero q []); [done|]. by intros j ?%elem_of_nil.
  - intros Eall. apply negb_false_iff in Eall. subst all.
    apply andb_true_iff in Eall as [[[_ E1]%andb_true_iff E2]%andb_true_iff E3].
    apply negb_true_iff in E1, E2, E3. cbn [queue_head set_q_ord]. rewrite Hqh. subst l. by rewrite E1, E2, E3.
  - intros j Eall Ej. apply negb_true_iff in Eall. destruct w eqn:Ew; [done|].
    cbn [queue_head set_q_ord]. rewrite Hqh. destruct l as [|j' l'] eqn:El; [done|].
    injection Ej as <-. exists (l' ++ hd). split; [done|].
    rewrite Eall in Hs.
    assert (busy o' (rq_of q1) (ordcolor q) (j' :: l' ++ hd) (sched_contents (edata q)) drv
      (negb false) (negb hp) (negb hb) (negb ht) i) as Hb2.
    { eapply busy_ext; [|intros; reflexivity|intros; reflexivity|exact Hb1]. apply Hs. }
    change (q_ord (set_q_ord o' q1)) with o'. change (rq_of (set_q_ord o' q1)) with (rq_of q1).
    eapply may_start_busy; [exact Hb2|exact Eall|].
    apply seq_to_names in Hs as (_ & _ & _ & _ & _ & _ & _ & Ea1 & Ea2 & Ea3).
    exact (first_step_le (q_ord q) o' _ hp hb ht _ _ El ltac:(apply Hgen) Ea1 Ea2 Ea3).
Qed.

(** The decision on the request at the front. *)
Lemma do_ordered_inv q drv i hd :
  inv q drv → queue_head q = i :: hd →
  ∃ yes rq q', blk_do_ordered i q = Some (yes, rq, q') ∧ inv q' drv ∧ (waits q drv → waits q' drv) ∧
    edata q' = edata q ∧ (yes = false → queue_head q' = hd) ∧
    (∀ j, yes = true → rq = Some j →
       ∃ l, queue_head q' = j :: l ∧ may_start (q_ord q') (rq_of q') j).
Proof.
  intros Hinv Hq. pose proof (in_ord _ _ _ Hinv) as [Hgen Hph]. rewrite Hq in Hgen, Hph.
  destruct Hph as [e Hi|d p b t orig Hop B].
  - unfold blk_do_ordered. unfold q_ordseq. rewrite (id_seq _ _ _ _ _ _ Hi). cbn [Z.eqb].
    destruct (is_barrier (rq_of q i)) eqn:Hb; cbn [negb].
    + replace (o_next (q_ord q) =? QUEUE_ORDERED_NONE) with false
        by (by destruct (g_mode _ _ _ _ _ _ Hgen) as [->|[->| ->]]).
      cbn [negb].
      destruct (start_ordered_inv q drv i hd e Hinv Hq Hi Hb) as (yes & rq & q' & ? & ? & ? & ?).
      by exists yes, rq, q'.
    + exists true, (Some i), q. split_and!; try done. intros j _ [= <-]. exists hd. split; [done|].
      split; [by intros c _; apply not_barrier_hue|]. intros d p b t orig E _.
      rewrite (id_seq _ _ _ _ _ _ Hi) in E. by apply eq_sym, seq_val_busy in E.
  - rewrite (do_ordered_busy q _ i hd _ _ d p b t orig Hgen B Hop).
    eexists _, _, _. split; [reflexivity|]. split_and!; try done.
    intros j _ Ej. destruct (cur_of d p b t <? req_seq (q_ord q) (rq_of q) i) eqn:Elt; [done|].
    injection Ej as <-. exists hd. split; [done|].
    eapply may_start_busy; [exact B|done|]. by apply Z.ltb_ge in Elt.
Qed.

(** A bound on the rounds of [__elv_next_request]. *)
Definition rounds q : nat := 2 * length (sched_contents (edata q)) + length (queue_head q).

Lemma next_request_inv fuel q drv :
  inv q drv → (rounds q < fuel)%nat →
  ∃ rq q', __elv_next_request fuel q = Some (rq, q') ∧ inv q' drv ∧ (waits q drv → waits q' drv) ∧
    (∀ j, rq = Some j → ∃ l, queue_head q' = j :: l ∧ may_start (q_ord q') (rq_of q') j).
Proof.
  revert q. induction fuel as [|fuel IH]; intros q Hinv Hf; [lia|]. cbn [__elv_next_request].
  destruct (queue_head q) as [|i hd] eqn:Hq.
  - destruct (sched_dispatch_ok q (in_sched _ _ _ Hinv)) as (b & q1 & E & _ & _ & _ & Hb).
    rewrite E. cbn [mbind option_bind]. destruct b.
    + destruct (dispatch_inv _ q q1 drv Hinv E) 
        as (Hinv1 & (Eo & Ec & _) & i & l1 & l2 & E1 & E2 & Hlen).
      destruct (IH q1) as (rq & q' & E' & ? & Hw' & ?).
      * by unfold inv; rewrite Ec.
      * unfold rounds in *. rewrite Hq in *. symmetry in E1. apply app_eq_nil in E1 as [-> ->].
        rewrite E2. cbn [length app] in *. lia.
      * exists rq, q'. split_and!; try done. intros Hw. apply Hw'. intros p b t. rewrite Eo. intros Hs. left.
        destruct (Hw p b t Hs) as [?|(x & l & Ex & _)]; [done|congruence].
    + destruct Hb as [-> _]. exists None, q. by split_and!.
  - destruct (do_ordered_inv q drv i hd Hinv Hq) as (yes & rq & q1 & -> & Hinv1 & Hw1 & He & Hno & Hyes).
    cbn [mbind option_bind]. destruct yes.
    + exists rq, q1. split_and!; try done. intros j. by apply Hyes.
    + destruct (IH q1) as (rq' & q' & E' & ? & Hw' & ?); [done| |exists rq', q'; split_and!; auto].
      unfold rounds in *. rewrite He, Hno by done. rewrite Hq in Hf. cbn [length] in Hf. lia.
Qed.

Lemma see_inv q drv i l :
  inv q drv → queue_head q = i :: l → may_start (q_ord q) (rq_of q) i →
  let q' := see_request i q in
  inv q' drv ∧ (waits q drv → waits q' drv) ∧ queue_head q' = i :: l ∧ may_start (q_ord q') (rq_of q') i ∧
  er_started (rq_of q' i) = true.
Proof.
  intros Hinv Hq Hm q'. destruct (see_value q i) as ((He & Hh & _ & Hc & Hn & Ho) & Hqh & Hg).
  fold q' in He, Hh, Hc, Hn, Ho, Hqh, Hg. pose proof Hinv as []. rewrite Hq in in_ord.
  destruct (ord_started (q_ord q) (rq_of q) (rq_of q') (ordcolor q) i l _ drv Hg in_ord Hm) as [Hord Hm'].
  assert (i ∉ drv) as Hid.
  { destruct Hord as [[] _]. cbn [app] in g_nodup. apply NoDup_cons in g_nodup as [Hn' _].
    rewrite !elem_of_app in Hn'. tauto. }
  split_and!.
  - eapply inv_same; [exact Hinv|done..| | | | |].
    + intros j _. rewrite Hg. case_decide; by subst.
    + by rewrite Ho.
    + rewrite Hqh. auto.
    + rewrite Ho. eapply acct_ext; [done|done| |exact in_acct]. intros j Hj. rewrite Hg.
      rewrite decide_False; [done|]. by intros ->.
    + by rewrite Ho, Hc, Hqh, He, Hq.
  - intros Hw p b t. rewrite Ho, Hqh. intros Hs. destruct (Hw p b t Hs) as [?|(x & k & ? & Hx)]; [by left|].
    right. exists x, k. split; [done|]. rewrite (req_seq_flags _ (rq_of q)); [done|].
    intros k'. rewrite Hg. case_decide; by subst.
  - by rewrite Hqh.
  - by rewrite Ho.
  - rewrite Hg. by rewrite decide_True.
Qed.

Lemma start_inv q drv i l :
  inv q drv → queue_head q = i :: l → may_start (q_ord q) (rq_of q) i →
  er_started (rq_of q i) = true → Z.of_nat (length drv) + 1 < 2 ^ 32 →
  ∃ q', blk_start_request i q = Some q' ∧ inv q' (i :: drv) ∧ waits q' (i :: drv).
Proof.
  intros Hinv Hq Hm Hst Hlen. pose proof Hinv as []. rewrite Hq in in_ord.
  unfold blk_start_request. rewrite (dequeue_value q i l); [|done| |apply in_hash; rewrite Hq; left; by left].
  2:{ destruct in_ord as [[] _]. cbn [app] in g_nodup. apply NoDup_cons in g_nodup as [Hn' _].
      rewrite !elem_of_app in Hn'. tauto. }
  set (o' := flight 1 (rq_of q i) (q_ord q)). set (q1 := set_queue_head l q).
  assert (same_ord (q_ord q) o') as Ho' by (apply flight_fields).
  exists (set_q_ord o' q1). split; [done|]. split; [|by intros p b t _; left].
  eapply inv_same; [exact Hinv|done..| | | | |].
  - done.
  - intros j. by apply proxy_ext.
  - intros j. cbn [queue_head set_q_ord q1 set_queue_head]. rewrite Hq, !elem_of_app, !elem_of_cons. tauto.
  - by apply acct_start.
  - eapply ord_ext; [exact Ho'|intros; reflexivity|intros; reflexivity|]. by apply ord_dequeue.
Qed.

Lemma finish_inv q drv i err :
  inv q (i :: drv) →
  ∃ q', blk_finish_request i err q = Some q' ∧ inv q' drv ∧ waits q' drv ∧ rqs q' = rqs q ∧
    queue_head q' = queue_head q ∧ edata q' = edata q.
Proof.
  intros Hinv. pose proof Hinv as [].
  destruct (finish_spec q _ _ _ drv i err eq_refl in_acct in_ord) as (o' & E & Ha & Ho & Hw & Hn).
  exists (set_q_ord o' q). split_and!; [done| |done|done|done|done].
  eapply inv_set_ord; [exact Hinv|exact Hn|by intros j ?; right|exact Ha|exact Ho].
Qed.

Lemma inv_perm q drv drv' : drv ≡ₚ drv' → inv q drv → inv q drv'.
Proof.
  intros Hp []. split; try done; [|by eapply acct_perm|by eapply ord_perm].
  intros i. rewrite <- Hp. auto.
Qed.

Lemma next_mono fuel fuel' q r :
  __elv_next_request fuel q = Some r → (fuel ≤ fuel')%nat → __elv_next_request fuel' q = Some r.
Proof.
  revert fuel' q. induction fuel as [|fuel IH]; intros [|fuel'] q E Hf; [done|done|lia|].
  cbn [__elv_next_request] in *. destruct (queue_head q).
  - apply bind_Some in E as ([b q1] & E1 & E). rewrite E1. cbn [mbind option_bind].
    destruct b; [|done]. apply IH; [done|lia].
  - apply bind_Some in E as ([[b rq] q1] & E1 & E). rewrite E1. cbn [mbind option_bind].
    destruct b; [done|]. apply IH; [done|lia].
Qed.

Lemma next_request_keeps fuel q drv rq q' :
  inv q drv → __elv_next_request fuel q = Some (rq, q') →
  inv q' drv ∧ (waits q drv → waits q' drv) ∧
  (∀ j, rq = Some j → ∃ l, queue_head q' = j :: l ∧ may_start (q_ord q') (rq_of q') j).
Proof.
  intros Hinv E.
  destruct (next_request_inv (fuel + S (rounds q)) q drv) as (rq1 & q1 & E1 & ?); [done|lia|].
  apply (next_mono _ (fuel + S (rounds q))) in E; [|lia]. rewrite E1 in E. by injection E as <- <-.
Qed.

Lemma peek_keeps fuel prep q drv rq q' :
  inv q drv → Z.of_nat (length drv) + 1 < 2 ^ 32 →
  blk_peek_request fuel prep q = Some (rq, q') →
  inv q' drv ∧ (waits q drv → waits q' drv) ∧
  (∀ j, rq = Some j → ∃ l, queue_head q' = j :: l ∧ may_start (q_ord q') (rq_of q') j ∧
     er_started (rq_of q' j) = true).
Proof.
  intros Hinv Hlen. revert q Hinv. induction fuel as [|fuel IH]; intros q Hinv; [done|].
  cbn [blk_peek_request]. intros ([rq1 q1] & E1 & E)%bind_Some.
  destruct (next_request_keeps _ _ _ _ _ Hinv E1) as (Hinv1 & Hw1 & Hj).
  destruct rq1 as [i|]; [|injection E as <- <-; by split_and!].
  destruct (Hj i eq_refl) as (l & Hq1 & Hm).
  destruct (see_inv q1 drv i l Hinv1 Hq1 Hm) as (Hinv2 & Hw2 & Hq2 & Hm2 & Hst).
  destruct (prep i).
  - injection E as <- <-. split_and!; [done|auto|]. intros j [= <-]. by exists l.
  - destruct (start_inv _ drv i l Hinv2 Hq2 Hm2 Hst Hlen) as (q3 & E3 & Hinv3 & _).
    rewrite E3 in E. cbn [mbind option_bind] in E.
    destruct (finish_inv q3 drv i (- EIO) Hinv3) as (q4 & E4 & Hinv4 & Hw4 & _).
    rewrite E4 in E. cbn [mbind option_bind] in E.
    destruct (IH q4 Hinv4 E) as (? & ? & ?). by split_and!; auto.
  - injection E as <- <-. by split_and!; auto.
Qed.

(** *** Requeueing *)

Lemma insert_by_seq_spec q i l :
  ∃ l1 l2, l = l1 ++ l2 ∧ insert_by_seq q i l = l1 ++ i :: l2 ∧
    Forall (λ y, blk_ordered_req_seq q y < blk_ordered_req_seq q i) l1.
Proof.
  induction l as [|p l IH]; cbn [insert_by_seq]; [by exists [], []|].
  destruct (blk_ordered_req_seq q i <=? blk_ordered_req_seq q p) eqn:E; [by exists [], (p :: l)|].
  apply Z.leb_gt in E. destruct IH as (l1 & l2 & -> & -> & Hl). exists (p :: l1), l2.
  split_and!; [done|done|by constructor].
Qed.

(** Where a requeued request goes: a step of the sequence to its place, any
    other to the front. *)
Lemma requeue_place q drv i :
  ord (q_ord q) (rq_of q) (ordcolor q) (queue_head q) (sched_contents (edata q)) (i :: drv) →
  er_soft (rq_of q i) = true →
  let l := if q_ordseq q =? 0 then i :: queue_head q else insert_by_seq q i (queue_head q) in
  l ≡ₚ i :: queue_head q ∧
  ord (q_ord q) (rq_of q) (ordcolor q) l (sched_contents (edata q)) drv ∧
  wait_ok (q_ord q) (rq_of q) l drv.
Proof.
  intros Hord Hsoft l. unfold q_ordseq in l.
  destruct (insert_by_seq_spec q i (queue_head q)) as (l1 & l2 & Hl & Hins & Hlt).
  assert (insert_by_seq q i (queue_head q) ≡ₚ i :: queue_head q) as Hperm.
  { rewrite Hins, Hl. by rewrite <- Permutation_middle. }
  destruct (proxy (q_ord q) i) eqn:Hp.
  - assert (o_seq (q_ord q) ≠ 0) as Hne%Z.eqb_neq.
    { intros E. destruct Hord as [_ [e []|d p b t orig _ []]].
      - destruct (id_out i Hp) as [_ Hn]. apply Hn. left.
      - rewrite bz_seq in E. by apply seq_val_busy in E. }
    subst l. rewrite Hne. split; [done|]. rewrite Hins. rewrite Hl in Hord.
    destruct (ord_push_proxy _ _ _ l1 l2 _ _ i Hord Hp Hsoft Hlt) as [Hord' Hno].
    split; [done|]. intros p b t E. by apply Hno in E.
  - pose proof Hord as [_ [e Hi|d p b t orig _ B]].
    + subst l. rewrite (id_seq _ _ _ _ _ _ Hi). split; [done|]. split; [by apply ord_push|].
      intros p b t E. rewrite (id_seq _ _ _ _ _ _ Hi) in E. by apply eq_sym, seq_val_busy in E.
    + destruct (older_front _ _ _ _ _ _ _ _ _ _ _ _ l1 B Hp) as [Hs Hnil].
      rewrite (Hnil Hlt) in *. cbn [app] in *.
      assert (l = i :: queue_head q) as -> by (subst l; rewrite Hins, Hl; by destruct (_ =? 0)).
      split; [done|]. split; [by apply ord_push|].
      intros p' b' t' _. right. exists i, (queue_head q). split; [done|]. by rewrite Hs.
Qed.

Lemma requeue_inv q drv i :
  inv q (i :: drv) →
  ∃ q', blk_requeue_request i q = Some q' ∧ inv q' drv ∧ waits q' drv.
Proof.
  intros Hinv. pose proof Hinv as [].
  assert ((i ∉ queue_head q) ∧ (i ∉ sched_contents (edata q)) ∧ (i ∉ drv)) as (Hn1 & Hn2 & Hn3).
  { destruct in_ord as [[] _]. rewrite app_assoc, <- Permutation_middle in g_nodup.
    apply NoDup_cons in g_nodup as [Hn _]. rewrite !elem_of_app in Hn. tauto. }
  unfold blk_requeue_request. rewrite bool_decide_false by done. unfold elv_requeue_request.
  change (if blk_account_rq (rq_of q i) then upd_ord (add_in_flight (-1) (rq_of q i)) q else q)
    with (account_completed i q). rewrite account_completed_value.
  set (o1 := flight (-1) (rq_of q i) (q_ord q)).
  assert (same_ord (q_ord q) o1) as Ho1 by apply flight_fields.
  unfold elv_insert. set (q3 := upd_rq i (set_er_soft true) _).
  assert (∀ j, rq_of q3 j = if decide (i = j) then set_er_soft true (set_er_started false (rq_of q i))
                            else rq_of q j) as Hg.
  { intros j. unfold q3. rewrite rq_of_upd. destruct (decide (i = j)) as [<-|Hne].
    - by rewrite rq_of_upd, decide_True.
    - rewrite rq_of_upd. by rewrite decide_False. }
  assert (∀ j, er_fs (rq_of q3 j) = er_fs (rq_of q j) ∧ er_color (rq_of q3 j) = er_color (rq_of q j) ∧
    er_hard (rq_of q3 j) = er_hard (rq_of q j)) as Hf by (intros j; rewrite Hg; case_decide; by subst).
  assert (ord o1 (rq_of q3) (ordcolor q) (queue_head q) (sched_contents (edata q)) (i :: drv)) as Hord.
  { eapply ord_ext; [exact Ho1|intros; reflexivity|intros; reflexivity|].
    eapply ord_flags; [exact Hf|..|exact in_ord].
    - intros j Hj. rewrite Hg, decide_False by (by intros ->). done.
    - intros j c Hj _. by rewrite Hg, decide_False by (by intros ->).
    - intros j _ Hj. rewrite Hg, decide_False; [done|]. intros ->. apply Hj. left. }
  assert (er_soft (rq_of q3 i) = true) as Hsoft by (by rewrite Hg, decide_True).
  assert (∀ l, l ≡ₚ i :: queue_head q →
    ord o1 (rq_of q3) (ordcolor q) l (sched_contents (edata q)) drv → inv (set_queue_head l q3) drv) as Hend.
  { intros l Hl Hol. eapply inv_same; [exact Hinv|done..| | | | |].
    - intros j _. change (rq_of (set_queue_head l q3) j) with (rq_of q3 j). rewrite Hg.
      case_decide; by subst.
    - intros j. by apply proxy_ext.
    - intros j. cbn [queue_head set_queue_head]. rewrite Hl, !elem_of_app, !elem_of_cons. tauto.
    - eapply (acct_ext o1); [done|done| |by apply acct_end].
      intros j Hj. change (rq_of (set_queue_head l q3) j) with (rq_of q3 j).
      rewrite Hg, decide_False by (by intros ->). done.
    - exact Hol. }
  destruct (requeue_place q3 drv i Hord Hsoft) as (Hl & Hord' & Hw).
  set (l := if q_ordseq q3 =? 0 then _ else _) in *.
  exists (set_queue_head l q3). split; [subst l; by destruct (q_ordseq q3 =? 0)|].
  split; [|exact Hw]. apply Hend; [exact Hl|exact Hord'].
Qed.

(** *** Submission *)

(** A scheduler that dispatches in the order of its decisions. *)
Definition in_order : Prop :=
  ∀ q q', sched_inv q → sched_dispatch q = Some (true, q') →
    ∃ a, queue_head q' = queue_head q ++ [a].

Lemma drain_inv oc fuel q q' drv :
  invc oc q drv → elv_drain_elevator fuel q = Some q' →
  invc oc q' drv ∧ frame q q' ∧ sched_contents (edata q') = [] ∧ queued q' ≡ₚ queued q ∧
  (in_order → ∃ l, queue_head q' = queue_head q ++ l).
Proof.
  revert q. induction fuel as [|fuel IH]; intros q Hinv; cbn [elv_drain_elevator]; [done|].
  destruct (sched_dispatch_ok q (in_sched _ _ _ Hinv)) as (b & q1 & E & _ & Hp & _ & Hb).
  rewrite E. cbn [mbind option_bind]. destruct b.
  - intros E'. destruct (dispatch_inv _ q q1 drv Hinv E) as (Hinv1 & Hf1 & _).
    destruct (IH q1 Hinv1 E') as (Hinv' & Hf' & Hc & Hp' & Hl).
    split_and!; [done|by eapply frame_trans|done|by rewrite Hp'|].
    intros Hord. destruct (Hl Hord) as [l ->]. destruct (Hord q q1 (in_sched _ _ _ Hinv) E) as [a ->].
    exists (a :: l). by rewrite <- app_assoc.
  - intros E'. injection E' as <-. destruct Hb as [-> Hc]. split_and!; [done|by apply frame_refl|done|done|].
    intros _. exists []. by rewrite app_nil_r.
Qed.

(** A name that no list holds. *)
Record unused q (drv : list nat) (i : nat) : Prop := {
  un_out : i ∉ queue_head q ++ sched_contents (edata q) ++ drv;
  un_proxy : proxy (q_ord q) i = false;
  un_orig : o_seq (q_ord q) ≠ 0 → o_orig (q_ord q) ≠ Some i;
  un_hash : on_hash q i = false;
}.

(** The contents of such a request are irrelevant. *)
Lemma inv_unused oc q q' drv i :
  invc oc q drv → unused q drv i → edata q' = edata q → nr_sorted q' = nr_sorted q →
  hash q' = hash q → queue_head q' = queue_head q → q_ord q' = q_ord q →
  (∀ j, j ≠ i → rq_of q' j = rq_of q j) → invc oc q' drv ∧ unused q' drv i.
Proof.
  intros [] [] He Hn Hh Hq Ho Hg.
  assert (∀ j, j ∈ queue_head q ++ sched_contents (edata q) ++ drv → rq_of q' j = rq_of q j) as Hm.
  { intros j Hj. apply Hg. by intros ->. }
  split; [split|split]; rewrite ?Ho, ?Hq, ?He; try done.
  - eapply sched_inv_frame; [exact in_sched|done|]. intros j Hj. rewrite Hm; [done|].
    rewrite !elem_of_app. auto.
  - unfold sorted_ok. by rewrite Hn, He.
  - intros j Hj. rewrite (on_hash_eq q q' j Hh). auto.
  - eapply acct_ext; [done|done| |exact in_acct]. intros j Hj. rewrite Hm; [done|].
    rewrite !elem_of_app. auto.
  - eapply ord_ext; [apply same_ord_refl| | |exact in_ord].
    + intros j Hj. by rewrite Hm.
    + intros Hs j Hj. rewrite Hg; [done|]. intros ->. by apply un_orig0.
  - by rewrite (on_hash_eq q q' i Hh).
Qed.

Lemma waits_same q q' drv l :
  waits q drv → q_ord q' = q_ord q → queue_head q' = queue_head q ++ l →
  (∀ j, j ∈ queue_head q → er_fs (rq_of q' j) = er_fs (rq_of q j) ∧
     er_color (rq_of q' j) = er_color (rq_of q j)) →
  (∀ j, o_seq (q_ord q) ≠ 0 → o_orig (q_ord q) = Some j →
     er_color (rq_of q' j) = er_color (rq_of q j)) →
  waits q' drv.
Proof.
  intros Hw Ho Hq Hg Horig p b t. rewrite Ho. intros Hs.
  destruct (Hw p b t Hs) as [?|(x & k & Hx & Hle)]; [by left|]. right. exists x, (k ++ l).
  split; [by rewrite Hq, Hx|]. revert Hle. unfold req_seq.
  destruct (Hg x) as [-> ->]; [rewrite Hx; left|].
  destruct (o_orig (q_ord q)) as [j|] eqn:Ej; [|done]. simpl.
  rewrite (Horig j); [done| |done]. rewrite Hs. apply seq_val_busy.
Qed.

(** The kinds of requests [elv_insert] gets. *)
Definition kind_ok (oc : bool) q (i : nat) (w : insert_where) : Prop :=
  er_started (rq_of q i) = false ∧
  match w with
  | ELEVATOR_INSERT_FRONT | ELEVATOR_INSERT_VERIFY => hue (q_ord q) (rq_of q) i = None
  | ELEVATOR_INSERT_BACK =>
      hue (q_ord q) (rq_of q) i = None ∨ ∃ h, hue (q_ord q) (rq_of q) i = Some (oc, h)
  | ELEVATOR_INSERT_SORT =>
      hue (q_ord q) (rq_of q) i = None ∨ hue (q_ord q) (rq_of q) i = Some (oc, false)
  | ELEVATOR_INSERT_REQUEUE => False
  end.

(** The colour after the request. *)
Definition next_colour (oc : bool) q (i : nat) : bool :=
  match hue (q_ord q) (rq_of q) i with Some (_, true) => negb oc | _ => oc end.

Lemma rq_soft q i j :
  rq_of (upd_rq i (set_er_soft true) q) j =
    if decide (i = j) then set_er_soft true (rq_of q i) else rq_of q j.
Proof. apply rq_of_upd. Qed.

Lemma sched_head l q : sched_inv q → sched_inv (set_queue_head l q).
Proof. intros Hs. by eapply sched_inv_frame. Qed.

Lemma insert_front_inv oc fuel q q' drv i :
  invc oc q drv → unused q drv i → kind_ok oc q i ELEVATOR_INSERT_FRONT →
  elv_insert fuel i ELEVATOR_INSERT_FRONT q = Some q' →
  invc oc q' drv ∧ ordcolor q' = ordcolor q ∧ (waits q drv → waits q' drv).
Proof.
  intros Hinv Hun [Hst Hk] E. cbn [elv_insert] in E. injection E as <-.
  set (q1 := upd_rq i (set_er_soft true) q).
  destruct (inv_unused oc q q1 drv i Hinv Hun) as [[] []]; try done.
  { intros j Hj. unfold q1. rewrite rq_soft. by rewrite decide_False. }
  assert (hue (q_ord q) (rq_of q1) i = None) as Hh.
  { rewrite <- Hk. apply hue_flags; unfold q1; rewrite rq_soft, decide_True by done; done. }
  split; [|split; [done|]].
  - split; [by apply sched_head|done| |done|].
    + intros j [[[->|?]%elem_of_cons|?]%elem_of_app|?]; [done|..]; apply in_hash; auto;
        left; apply elem_of_app; auto.
    + apply ord_push; [|done|].
      * apply ord_enter; done.
      * change (er_soft (rq_of q1 i) = true). unfold q1. by rewrite rq_soft, decide_True.
  - intros Hw p b t Hs. right. exists i, (queue_head q). split; [done|].
    change (req_seq (q_ord q) (rq_of q1) i ≤ 2).
    change (q_ord q1) with (q_ord q) in *.
    destruct in_ord as [_ [e []|d p' b' t' orig _ []]].
    + change (o_seq (q_ord q) = seq_val false p b t) in Hs. rewrite id_seq in Hs.
      by apply eq_sym, seq_val_busy in Hs.
    + rewrite (req_seq_hue _ _ i orig), Hh by done. done.
Qed.

Lemma insert_back_inv oc fuel q q' drv i :
  invc oc q drv → unused q drv i → kind_ok oc q i ELEVATOR_INSERT_BACK →
  elv_insert fuel i ELEVATOR_INSERT_BACK q = Some q' →
  invc (next_colour oc q i) q' drv ∧ ordcolor q' = ordcolor q ∧
  (in_order → waits q drv → waits q' drv).
Proof.
  intros Hinv Hun [Hst Hk] E. cbn [elv_insert] in E. apply bind_Some in E as (q2 & E & Eq').
  injection Eq' as <-. set (q1 := upd_rq i (set_er_soft true) q) in *.
  destruct (inv_unused oc q q1 drv i Hinv Hun) as [Hinv1 Hun1]; try done.
  { intros j Hj. unfold q1. rewrite rq_soft. by rewrite decide_False. }
  destruct (drain_inv oc fuel q1 q2 drv Hinv1 E) as (Hinv2 & (Ho & Hc & Hg & Hsh & _) & Hcs & Hp & Hl).
  change (q_ord q1) with (q_ord q) in Ho.
  assert (∀ j, rq_of q1 j = if decide (i = j) then set_er_soft true (rq_of q i) else rq_of q j) as Hg1
    by (intros; apply rq_soft).
  assert (∀ j, er_fs (rq_of q2 j) = er_fs (rq_of q j) ∧ er_color (rq_of q2 j) = er_color (rq_of q j) ∧
    er_hard (rq_of q2 j) = er_hard (rq_of q j) ∧ er_started (rq_of q2 j) = er_started (rq_of q j)) as Hf.
  { intros j. destruct (same_fields _ _ (Hg j)) as (-> & -> & -> & _ & -> & _). rewrite Hg1.
    case_decide; by subst. }
  assert (hue (q_ord q) (rq_of q2) i = hue (q_ord q) (rq_of q) i) as Hh.
  { destruct (Hf i) as (? & ? & ? & _). by apply hue_flags. }
  assert (er_soft (rq_of q2 i) = true) as Hsoft.
  { destruct (same_fields _ _ (Hg i)) as (_ & _ & _ & -> & _). by rewrite Hg1, decide_True. }
  destruct Hun1. pose proof Hinv2 as []. rewrite Hcs, Ho in in_ord.
  split; [|split; [exact Hc|]].
  - split; [by apply sched_head|done| |done|].
    + intros j Hj. change (on_hash q2 j = false).
      destruct (decide (j = i)) as [->|Hne].
      * destruct (on_hash q2 i) eqn:Eh; [|done]. apply Hsh in Eh. congruence.
      * apply in_hash. destruct Hj as [Hj|?]; [left|by right].
        cbn [queue_head set_queue_head] in Hj. rewrite !elem_of_app in *.
        rewrite list_elem_of_singleton in Hj. tauto.
    + cbn [queue_head set_queue_head q_ord edata]. rewrite Hcs, Ho. eapply ord_back; [exact in_ord|..].
      * rewrite app_assoc, elem_of_app in un_out0. rewrite elem_of_app.
        unfold queued in Hp. rewrite Hcs, app_nil_r in Hp. rewrite Hp. exact un_out0.
      * done.
      * done.
      * done.
      * destruct (Hf i) as (_ & _ & _ & E'). change (er_started (rq_of q2 i) = false). congruence.
      * change (rq_of (set_queue_head _ q2)) with (rq_of q2). rewrite Hh. unfold next_colour.
        destruct Hk as [->|[h ->]]; [by left|]. right. exists h. split; [done|]. by destruct h.
  - intros Hord Hw. destruct (Hl Hord) as [l El]. eapply (waits_same q _ _ (l ++ [i])); [exact Hw|exact Ho| | |].
    + cbn [queue_head set_queue_head]. rewrite El. by rewrite <- app_assoc.
    + intros j _. by destruct (Hf j) as (? & ? & _).
    + intros j _ _. by destruct (Hf j) as (_ & ? & _).
Qed.

(** The scheduler takes the request. *)
Lemma ord_moves o g oc hd cs cs' drv l :
  ord o g oc hd cs drv → cs ≡ₚ l ++ cs' → ord o g oc (hd ++ l) cs' drv.
Proof.
  revert hd cs. induction l as [|a l IH]; intros hd cs Hord Hp.
  - rewrite app_nil_r. by eapply ord_perm.
  - rewrite <- (app_nil_r hd) in Hord. cbn [app] in Hp.
    apply (ord_move _ _ _ _ _ a cs (l ++ cs')) in Hord; [|done|constructor].
    replace (hd ++ a :: l) with ((hd ++ [a]) ++ l) by (by rewrite <- app_assoc). by eapply IH.
Qed.

Lemma insert_sched_inv oc q q2 q' drv i :
  invc oc q drv → unused q drv i →
  hue (q_ord q) (rq_of q) i = None ∨ hue (q_ord q) (rq_of q) i = Some (oc, false) →
  edata q2 = edata q → queue_head q2 = queue_head q → q_ord q2 = q_ord q →
  ordcolor q2 = ordcolor q → nr_sorted q2 = u32 (nr_sorted q + 1) →
  (∀ j, rq_of q2 j = if decide (i = j) then set_er_sorted true (rq_of q i) else rq_of q j) →
  (∀ j, on_hash q2 j = true → j = i ∨ on_hash q j = true) →
  sched_add i q2 = Some q' →
  invc oc q' drv ∧ ordcolor q' = ordcolor q ∧ (waits q drv → waits q' drv).
Proof.
  intros [] [] Hk He Hq Ho Hc Hn Hg Hha E.
  assert (i ∉ queued q) as Hiq.
  { unfold queued. rewrite !elem_of_app in *. tauto. }
  assert (i ∉ sched_contents (edata q)) as Hic by (rewrite !elem_of_app in un_out0; tauto).
  assert (∀ j, same_place (rq_of q j) (rq_of q2 j)) as Hpl
    by (intros j; rewrite Hg; case_decide; by subst).
  destruct (insert_sched q q2 i) as (q1 & E1 & Hs1 & Hp1 & Hso1 & Hin1 & _ & _); try done.
  rewrite E in E1. injection E1 as <-.
  destruct (sched_add_frame q2 q' i) as ((Ho' & Hc' & Hg' & Hsh & _) & l & Hq' & Hl); [|by rewrite He|done|].
  { eapply sched_inv_frame; [exact in_sched|done|]. intros j _. apply Hpl. }
  assert (∀ j, er_fs (rq_of q' j) = er_fs (rq_of q j) ∧ er_color (rq_of q' j) = er_color (rq_of q j) ∧
    er_hard (rq_of q' j) = er_hard (rq_of q j) ∧ er_soft (rq_of q' j) = er_soft (rq_of q j) ∧
    er_started (rq_of q' j) = er_started (rq_of q j) ∧
    blk_account_rq (rq_of q' j) = blk_account_rq (rq_of q j) ∧
    rq_is_sync (rq_of q' j) = rq_is_sync (rq_of q j)) as Hf.
  { intros j. destruct (same_fields _ _ (Hg' j)) as (-> & -> & -> & -> & -> & -> & -> & _). rewrite Hg.
    case_decide; by subst. }
  rewrite Ho in Ho'. rewrite Hq in Hq'. rewrite Hc in Hc'.
  assert (i :: sched_contents (edata q) ≡ₚ l ++ sched_contents (edata q')) as Hcs.
  { unfold queued in Hp1. rewrite Hq', <- app_assoc, (Permutation_middle (queue_head q)) in Hp1.
    by apply Permutation_app_inv_l in Hp1. }
  split; [|split; [done|]].
  - split; [done|done| |rewrite Ho'; eapply acct_flags; [|exact in_acct]|].
    + intros j Hj. rewrite Ho' in Hj. destruct (on_hash q' j) eqn:Ej; [|done].
      exfalso. rewrite Hq', !elem_of_app in Hj.
      destruct Hj as [[[Hj|Hj]|Hj]|Hj].
      * apply Hsh, Hha in Ej as [->|Ej]; [by apply Hiq; apply elem_of_app; left|].
        rewrite in_hash in Ej; [done|]. left. apply elem_of_app. by left.
      * pose proof (proj1 (Forall_forall _ _) Hl j Hj) as Ej'. cbn in Ej'. congruence.
      * apply Hsh, Hha in Ej as [->|Ej]; [by apply un_out0; rewrite !elem_of_app; right; right|].
        rewrite in_hash in Ej; [done|]. left. apply elem_of_app. by right.
      * apply Hsh, Hha in Ej as [->|Ej]; [congruence|]. rewrite in_hash in Ej; [done|by right].
    + intros j _. by destruct (Hf j) as (_ & _ & _ & _ & ? & ? & ?).
    + rewrite Ho', Hq'. eapply ord_moves; [|exact Hcs].
      eapply (ord_flags _ (rq_of q)).
      * intros j. by destruct (Hf j) as (? & ? & ? & _).
      * intros j _. by destruct (Hf j) as (_ & _ & _ & -> & _).
      * intros j c _ _. by destruct (Hf j) as (_ & _ & _ & _ & -> & _).
      * intros j _ _. by destruct (Hf j) as (_ & _ & _ & _ & -> & _).
      * by apply ord_sched.
  - intros Hw. eapply (waits_same q); [exact Hw|exact Ho'|exact Hq'| |].
    + intros j _. by destruct (Hf j) as (? & ? & _).
    + intros j _ _. by destruct (Hf j) as (_ & ? & _).
Qed.

Lemma elv_insert_inv oc fuel q q' drv i w :
  invc oc q drv → unused q drv i → kind_ok oc q i w → elv_insert fuel i w q = Some q' →
  invc (next_colour oc q i) q' drv ∧ ordcolor q' = ordcolor q ∧
  (in_order → waits q drv → waits q' drv).
Proof.
  intros Hinv Hun Hk E. pose proof Hk as [Hst Hkw].
  assert (∀ j, rq_of (upd_rq i (set_er_sorted true) q) j =
    if decide (i = j) then set_er_sorted true (rq_of q i) else rq_of q j) as Hg by (intros; apply rq_of_upd).
  destruct w.
  - destruct (insert_front_inv oc fuel q q' drv i Hinv Hun Hk E) as (? & ? & ?).
    unfold next_colour. rewrite Hkw. by split_and!; auto.
  - by eapply insert_back_inv.
  - cbn [elv_insert] in E. unfold next_colour. rewrite Hkw.
    set (q2 := set_nr_sorted _ _) in E.
    destruct (insert_sched_inv oc q q2 q' drv i Hinv Hun (or_introl Hkw)) as (? & ? & ?); try done.
    by right.
  - cbn [elv_insert] in E. destruct (negb _ && negb _); [done|]. apply bind_Some in E as (q2 & E2 & E).
    set (q1 := set_nr_sorted _ _) in E2.
    assert (next_colour oc q i = oc) as ->.
    { unfold next_colour. by destruct Hkw as [-> | ->]. }
    assert (edata q2 = edata q1 ∧ queue_head q2 = queue_head q1 ∧ q_ord q2 = q_ord q1 ∧
      ordcolor q2 = ordcolor q1 ∧ nr_sorted q2 = nr_sorted q1 ∧ rqs q2 = rqs q1 ∧
      ∀ j, on_hash q2 j = true → j = i ∨ on_hash q1 j = true) as (? & ? & ? & ? & ? & Hr & Hha).
    { destruct (rq_mergeable (rq_of q1 i)); [|injection E2 as <-; split_and!; auto].
      apply bind_Some in E2 as (q3 & E3 & E2). unfold elv_rqhash_add in E3.
      destruct (on_hash q1 i) eqn:Hh; [done|]. 
      assert (∀ j, on_hash q3 j = true → j = i ∨ on_hash q1 j = true) as Hha.
      { intros j. rewrite !on_hash_bucket. intros [b Hb].
        rewrite (bucket_add q1 q3 i b) in Hb by (unfold elv_rqhash_add; by rewrite Hh).
        case_decide; [|right; by exists b]. apply elem_of_cons in Hb as [->|Hb]; [by left|].
        right. by exists b. }
      apply (inj Some) in E3. assert (rqs q3 = rqs q1 ∧ edata q3 = edata q1 ∧
        queue_head q3 = queue_head q1 ∧ q_ord q3 = q_ord q1 ∧ ordcolor q3 = ordcolor q1 ∧
        nr_sorted q3 = nr_sorted q1) as (? & ? & ? & ? & ? & ?)
        by (rewrite <- E3; split_and!; reflexivity).
      clear E3. destruct (last_merge q3); apply (inj Some) in E2 as <-; split_and!;
        first [assumption|exact Hha]. }
    destruct (insert_sched_inv oc q q2 q' drv i Hinv Hun Hkw) as (? & ? & ?); try done.
    intros j. rewrite (rq_of_eq q1 q2) by done. apply Hg.
  - done.
Qed.

(** What a caller of [__elv_add_request] hands over: a request [r] under a name
    that is not in use, whose flags are those of a new request.  Only file
    system requests carry a barrier; none of them is inserted at the front or
    the way of the scrubber. *)
Record submit q (drv : list nat) (i : nat) (r : erq) (w : insert_where) : Prop := {
  sb_unused : unused q drv i;
  sb_clear : er_started r = false ∧ er_color r = false;
  sb_hard : er_hard r = true → er_fs r = true;
  sb_kind : match w with
            | ELEVATOR_INSERT_FRONT | ELEVATOR_INSERT_VERIFY => er_fs r = false
            | ELEVATOR_INSERT_BACK | ELEVATOR_INSERT_SORT => True
            | ELEVATOR_INSERT_REQUEUE => False
            end;
}.

(** The queue [__elv_add_request] hands to [elv_insert]. *)
Lemma add_request_prepared fuel q i r w :
  er_color r = false →
  let r1 := if ordcolor q then set_er_color true r else r in
  ∃ q2, __elv_add_request fuel i w (upd_rq i (λ _, r) q) =
      elv_insert fuel i (if er_soft r || er_hard r || negb (er_elvpriv r)
                         then match w with ELEVATOR_INSERT_SORT => ELEVATOR_INSERT_BACK | w => w end
                         else w) q2 ∧
    edata q2 = edata q ∧ nr_sorted q2 = nr_sorted q ∧ hash q2 = hash q ∧
    queue_head q2 = queue_head q ∧ q_ord q2 = q_ord q ∧
    ordcolor q2 = (if er_hard r then negb (ordcolor q) else ordcolor q) ∧
    rq_of q2 i = r1 ∧ (∀ j, j ≠ i → rq_of q2 j = rq_of q j) ∧
    er_color r1 = ordcolor q ∧ er_fs r1 = er_fs r ∧ er_hard r1 = er_hard r ∧
    er_started r1 = er_started r.
Proof.
  intros Hcol r1. unfold __elv_add_request. cbn [ordcolor upd_rq set_rqs].
  set (q0 := upd_rq i (λ _, r) q). set (q1 := if ordcolor q then _ else q0).
  assert (rq_of q0 i = r) as Hi0 by (unfold q0; by rewrite rq_of_upd, decide_True).
  assert (rq_of q1 i = r1) as Hi1.
  { unfold q1, r1. destruct (ordcolor q); [|done]. by rewrite rq_of_upd, decide_True, Hi0. }
  assert (∀ j, j ≠ i → rq_of q1 j = rq_of q j) as Hj1.
  { intros j Hj. unfold q1. destruct (ordcolor q); unfold q0; rewrite ?rq_of_upd;
      repeat (rewrite decide_False by done); done. }
  assert (edata q1 = edata q ∧ nr_sorted q1 = nr_sorted q ∧ hash q1 = hash q ∧
    queue_head q1 = queue_head q ∧ q_ord q1 = q_ord q ∧ ordcolor q1 = ordcolor q)
    as (? & ? & ? & ? & ? & Hoc)
    by (unfold q1; destruct (ordcolor q) eqn:Eo; split_and!; first [reflexivity|exact Eo]).
  assert (er_color r1 = ordcolor q ∧ er_fs r1 = er_fs r ∧ er_hard r1 = er_hard r ∧
    er_started r1 = er_started r ∧ er_soft r1 = er_soft r ∧ er_elvpriv r1 = er_elvpriv r)
    as (? & ? & Hh & ? & Hs & He) by (unfold r1; by destruct (ordcolor q)).
  clearbody q1 r1. rewrite Hi1, Hs, Hh, He.
  destruct (er_soft r || er_hard r) eqn:Esh; cbn [orb].
  - eexists. split; [reflexivity|].
    destruct (er_hard r), (er_fs r1 || er_discard r1); cbn; rewrite ?Hoc; by split_and!.
  - apply orb_false_iff in Esh as [_ Eh]. rewrite Eh.
    destruct (er_elvpriv r); cbn [negb]; exists q1; by split_and!.
Qed.

Lemma add_inv fuel q q' drv i r w :
  inv q drv → submit q drv i r w →
  __elv_add_request fuel i w (upd_rq i (λ _, r) q) = Some q' →
  inv q' drv ∧ (in_order → waits q drv → waits q' drv).
Proof.
  intros Hinv [Hun [Hst Hcol] Hhard Hkind] E.
  destruct (add_request_prepared fuel q i r w Hcol)
    as (q2 & E2 & He & Hn & Hh & Hq & Ho & Hoc & Hi & Hj & Hc1 & Hf1 & Hh1 & Hs1).
  rewrite E2 in E. clear E2.
  destruct (inv_unused _ q q2 drv i Hinv Hun He Hn Hh Hq Ho Hj) as [Hinv2 Hun2].
  assert (hue (q_ord q2) (rq_of q2) i = if er_fs r then Some (ordcolor q, er_hard r) else None) as Hhue.
  { unfold hue. rewrite (un_proxy _ _ _ Hun2), Hi, Hf1, Hc1, Hh1. by destruct (er_fs r). }
  match type of E with elv_insert _ _ ?w' _ = _ => set (w1 := w') in E end.
  assert (kind_ok (ordcolor q) q2 i w1) as Hk.
  { split; [by rewrite Hi, Hs1|]. rewrite Hhue. subst w1.
    destruct (er_hard r) eqn:Eh; [rewrite (Hhard eq_refl) in *|];
      destruct w, (er_soft r), (er_elvpriv r), (er_fs r); cbn [orb negb]; try done; eauto. }
  destruct (elv_insert_inv (ordcolor q) fuel q2 q' drv i w1 Hinv2 Hun2 Hk E) as (Hinv' & Hoc' & Hw).
  split.
  - unfold inv. rewrite Hoc', Hoc. unfold next_colour in Hinv'. rewrite Hhue in Hinv'.
    destruct (er_hard r); [by rewrite (Hhard eq_refl) in Hinv'|]. by destruct (er_fs r).
  - intros Hord Hw0. apply Hw; [done|]. eapply (waits_same q _ _ []); [exact Hw0|done| | |].
    + by rewrite app_nil_r.
    + intros j Hjin. rewrite Hj; [done|]. intros ->. apply (un_out _ _ _ Hun).
      apply elem_of_app. by left.
    + intros j Hs Hor. rewrite Hj; [done|]. intros ->. by apply (un_orig _ _ _ Hun).
Qed.
End queue.

(** ** Any interleaving of submissions, fetches, requeues and completions *)

Record system (D : Type) := mk_sys { sq : rqueue D; with_driver : list nat }.
Arguments mk_sys {D} _ _.
Arguments sq {D} _.
Arguments with_driver {D} _.

Inductive event :=
| EvSubmit (i : nat) (r : erq) (w : insert_where)
| EvPeek (prep : nat → blkprep)
| EvFetch (prep : nat → blkprep)
| EvComplete (i : nat) (err : Z)
| EvRequeue (i : nat).

Section events.
Context {D : Type} `{Sched D}.

(** [submit], as a test. *)
Definition submit_ok (q : rqueue D) (drv : list nat) (i : nat) (r : erq) (w : insert_where) : bool :=
  negb (bool_decide (i ∈ queue_head q ++ sched_contents (edata q) ++ drv))
  && negb (proxy (q_ord q) i)
  && ((o_seq (q_ord q) =? 0) || negb (bool_decide (o_orig (q_ord q) = Some i)))
  && negb (on_hash q i) && negb (er_started r) && negb (er_color r)
  && (negb (er_hard r) || er_fs r)
  && match w with
     | ELEVATOR_INSERT_FRONT | ELEVATOR_INSERT_VERIFY => negb (er_fs r)
     | ELEVATOR_INSERT_BACK | ELEVATOR_INSERT_SORT => true
     | ELEVATOR_INSERT_REQUEUE => false
     end.

(** The driver has room: it holds fewer requests than its counters can count. *)
Definition has_room (drv : list nat) : bool := Z.of_nat (length drv) + 1 <? 2 ^ 32.

(** [None]: the event is not possible, or the kernel crashes. *)
Definition do_event (fuel : nat) (e : event) (s : system D) : option (system D) :=
  let q := sq s in
  let drv := with_driver s in
  match e with
  | EvSubmit i r w =>
      if submit_ok q drv i r w then
        q ← __elv_add_request fuel i w (upd_rq i (λ _, r) q); Some (mk_sys q drv)
      else None
  | EvPeek prep =>
      if has_room drv then '(_, q) ← blk_peek_request fuel prep q; Some (mk_sys q drv) else None
  | EvFetch prep =>
      if has_room drv then
        '(rq, q) ← blk_fetch_request fuel prep q;
        Some (mk_sys q (match rq with Some i => i :: drv | None => drv end))
      else None
  | EvComplete i err =>
      if bool_decide (i ∈ drv) then
        q ← blk_finish_request i err q; Some (mk_sys q (without i drv))
      else None
  | EvRequeue i =>
      if bool_decide (i ∈ drv) then
        q ← blk_requeue_request i q; Some (mk_sys q (without i drv))
      else None
  end.

Fixpoint run (fuel : nat) (es : list event) (s : system D) : option (system D) :=
  match es with
  | [] => Some s
  | e :: es => s ← do_event fuel e s; run fuel es s
  end.

(** A new queue of a SCSI disk that supports barriers. *)
Definition fresh_system `{!SchedOk D} (s : system D) : Prop :=
  let q := sq s in
  with_driver s = [] ∧ queue_head q = [] ∧ sched_contents (edata q) = [] ∧ sched_inv q ∧
  nr_sorted q = 0 ∧ hash q = ∅ ∧ o_seq (q_ord q) = 0 ∧ fl_sync (q_ord q) = 0 ∧
  fl_async (q_ord q) = 0 ∧ drain_mode (o_next (q_ord q)) ∧
  NoDup [pre_flush_rq (q_ord q); bar_rq (q_ord q); post_flush_rq (q_ord q)].
End events.

Section reachable.
Context {D : Type} `{SchedFrame D}.
Implicit Types (q : rqueue D) (s : system D).

Lemma submit_ok_spec q drv i r w : submit_ok q drv i r w = true → submit q drv i r w.
Proof.
  unfold submit_ok. rewrite !andb_true_iff, !orb_true_iff, !negb_true_iff, !bool_decide_eq_false.
  intros [[[[[[[H1' H2'] H3'] H4'] H5'] H6'] H7'] H8']. split; [split| | |].
  - done.
  - done.
  - intros Hs. destruct H3' as [E%Z.eqb_eq|?]; done.
  - done.
  - done.
  - intros E. rewrite E in H7'. by destruct H7'.
  - destruct w; try done; by apply negb_true_iff.
Qed.

Lemma without_drv q drv i : inv q drv → i ∈ drv → drv ≡ₚ i :: without i drv.
Proof.
  intros [] Hi. apply without_perm; [|done]. destruct in_ord as [[] _].
  apply NoDup_app in g_nodup as (_ & _ & Hn). by apply NoDup_app in Hn as (_ & _ & ?).
Qed.

Lemma peek_fetch fuel prep q drv i q' :
  inv q drv → Z.of_nat (length drv) + 1 < 2 ^ 32 →
  blk_fetch_request fuel prep q = Some (Some i, q') → inv q' (i :: drv) ∧ waits q' (i :: drv).
Proof.
  intros Hinv Hlen. unfold blk_fetch_request. intros ([rq q1] & E1 & E)%bind_Some.
  destruct (peek_keeps _ _ _ _ _ _ Hinv Hlen E1) as (Hinv1 & _ & Hj).
  destruct rq as [j|]; [|done]. apply bind_Some in E as (q2 & E2 & E).
  apply (inj Some) in E. pose proof (f_equal fst E) as Ej. apply (f_equal snd) in E.
  cbn in Ej, E. injection Ej as ->. subst q2.
  destruct (Hj i eq_refl) as (l & Hq & Hm & Hst).
  destruct (start_inv q1 drv i l Hinv1 Hq Hm Hst Hlen) as (q3 & E3 & ? & ?). rewrite E2 in E3.
  apply (inj Some) in E3 as ->. done.
Qed.

(** Every event keeps the invariant. *)
Lemma event_inv fuel e s s' :
  inv (sq s) (with_driver s) → do_event fuel e s = Some s' →
  inv (sq s') (with_driver s') ∧
  (in_order (D:=D) → waits (sq s) (with_driver s) → waits (sq s') (with_driver s')).
Proof.
  intros Hinv. destruct s as [q drv]. cbn [sq with_driver] in *.
  assert (has_room drv = true → Z.of_nat (length drv) + 1 < 2 ^ 32) as Hroom by apply Z.ltb_lt.
  destruct e as [i r w|prep|prep|i err|i]; cbn [do_event sq with_driver].
  - destruct (submit_ok q drv i r w) eqn:Es; [|done]. intros (q1 & E1 & E)%bind_Some.
    apply (inj Some) in E as <-. eapply add_inv; [done|by apply submit_ok_spec|done].
  - destruct (has_room drv); [|done]. intros ([rq q1] & E1 & E)%bind_Some.
    apply (inj Some) in E as <-. destruct (peek_keeps _ _ _ _ _ _ Hinv (Hroom eq_refl) E1) as (? & ? & _).
    split; [done|by intros _].
  - destruct (has_room drv); [|done]. intros ([rq q1] & E1 & E)%bind_Some.
    apply (inj Some) in E as <-. destruct rq as [i|].
    + destruct (peek_fetch _ _ _ _ _ _ Hinv (Hroom eq_refl) E1). by split.
    + unfold blk_fetch_request in E1. apply bind_Some in E1 as ([rq q2] & E2 & E1).
      destruct (peek_keeps _ _ _ _ _ _ Hinv (Hroom eq_refl) E2) as (? & ? & _).
      destruct rq; [by apply bind_Some in E1 as (? & _ & ?)|]. apply (inj Some) in E1.
      apply (f_equal snd) in E1. cbn in E1. subst q2. split; [done|by intros _].
  - case_bool_decide as Hi; [|done]. intros (q1 & E1 & E)%bind_Some. apply (inj Some) in E as <-.
    apply (inv_perm _ _ _ (without_drv q drv i Hinv Hi)) in Hinv.
    destruct (finish_inv q _ i err Hinv) as (q2 & E2 & ? & ? & _). rewrite E1 in E2.
    apply (inj Some) in E2 as <-. by split.
  - case_bool_decide as Hi; [|done]. intros (q1 & E1 & E)%bind_Some. apply (inj Some) in E as <-.
    apply (inv_perm _ _ _ (without_drv q drv i Hinv Hi)) in Hinv.
    destruct (requeue_inv q _ i Hinv) as (q2 & E2 & ? & ?). rewrite E1 in E2.
    apply (inj Some) in E2 as <-. by split.
Qed.

Lemma fresh_inv s :
  fresh_system s → inv (sq s) (with_driver s) ∧ waits (sq s) (with_driver s).
Proof.
  intros (Hd & Hq & Hc & Hs & Hn & Hh & Hseq & Hfs & Hfa & Hm & Hnm). destruct s as [q drv].
  cbn [sq with_driver] in *. subst drv. split.
  - split; [done| | | |].
    + unfold sorted_ok. by rewrite Hn, Hc.
    + intros i _. destruct (on_hash q i) eqn:E; [|done]. apply on_hash_bucket in E as [b Hb].
      unfold bucket in Hb. rewrite Hh, lookup_empty in Hb. by apply elem_of_nil in Hb.
    + split; [constructor|done|by rewrite Hfs|by rewrite Hfa].
    + rewrite Hq, Hc. split.
      * split; try done; try (by intros i ?%elem_of_nil); [constructor|by intros i c ?%elem_of_nil].
      * apply (phase_idle _ _ _ _ _ _ (ordcolor q)). split; [done| |done|by intros i ?%elem_of_nil].
        intros i _. split; apply not_elem_of_nil.
  - intros p b t E. rewrite Hseq in E. by apply eq_sym, seq_val_busy in E.
Qed.

Lemma run_inv fuel es s s' :
  inv (sq s) (with_driver s) → run fuel es s = Some s' →
  inv (sq s') (with_driver s') ∧
  (in_order (D:=D) → waits (sq s) (with_driver s) → waits (sq s') (with_driver s')).
Proof.
  revert s. induction es as [|e es IH]; intros s Hinv; cbn [run].
  - intros E. apply (inj Some) in E as <-. by split.
  - intros (s1 & E1 & E)%bind_Some. destruct (event_inv fuel e s s1 Hinv E1) as [Hinv1 Hw1].
    destruct (IH s1 Hinv1 E) as [Hinv' Hw']. split; auto.
Qed.


Lemma accounted_started (g : nat → erq) drv b :
  Forall (λ i, er_started (g i) = true) drv →
  count (accounted g b) drv =
    count (λ i, (er_pc (g i) || er_fs (g i) || er_discard (g i)) && eqb (rq_is_sync (g i)) b) drv.
Proof.
  intros Hst. apply count_ext. intros i Hi. unfold accounted, blk_account_rq.
  by rewrite (proj1 (Forall_forall _ _) Hst i Hi).
Qed.

(** C10: The count of requests in flight is exact, with the packet commands
    the scrubber added to it: after any interleaving of submissions, fetches,
    requeues and completions, for any scheduler, barriers included, every
    request with the driver is started and [in_flight] holds, for each class,
    the number of those that are packet commands, file system requests or
    discards; it is 0 exactly when there are none. *)
Theorem in_flight_accurate fuel es (s0 s : system D) :
  fresh_system s0 → run fuel es s0 = Some s →
  let o := q_ord (sq s) in
  let g := rq_of (sq s) in
  let kind i := er_pc (g i) || er_fs (g i) || er_discard (g i) in
  Forall (λ i, er_started (g i) = true) (with_driver s) ∧
  fl_sync o = count (λ i, kind i && eqb (rq_is_sync (g i)) true) (with_driver s) ∧
  fl_async o = count (λ i, kind i && eqb (rq_is_sync (g i)) false) (with_driver s) ∧
  (queue_in_flight (sq s) = 0 ↔ ∀ i, i ∈ with_driver s → kind i = false).
Proof.
  intros Hf Hr o g kind. destruct (fresh_inv s0 Hf) as [Hinv _].
  destruct (run_inv _ _ _ _ Hinv Hr) as [[] _]. pose proof in_acct as [Hst Hfew Hs Ha].
  rewrite (accounted_started g) in Hs, Ha by done.
  split_and!; [done| | |].
  - unfold o. rewrite Hs. apply u32_small.
    match goal with |- in_u32 (count ?f ?l) => pose proof (count_bounds f l) end. unfold in_u32. lia.
  - unfold o. rewrite Ha. apply u32_small.
    match goal with |- in_u32 (count ?f ?l) => pose proof (count_bounds f l) end. unfold in_u32. lia.
  - rewrite (in_flight_zero _ _ in_acct). unfold blk_account_rq, kind.
    split; intros Hk i Hi; pose proof (proj1 (Forall_forall _ _) Hst i Hi) as Hi'; cbn in Hi';
      specialize (Hk i Hi); [rewrite Hi' in Hk; exact Hk|].
    apply andb_false_iff. right. exact Hk.
Qed.

(** C8: A barrier is ordered, in the draining modes of a SCSI disk: while its
    flush sequence is in progress, no file system request submitted after it
    is with the driver (those there have the colour of the barrier), and when
    one of the requests of the sequence is with the driver, every file system
    request submitted before the barrier has completed, the earlier steps are
    complete and the later ones have not started. *)
Theorem barrier_order fuel es (s0 s : system D) :
  fresh_system s0 → run fuel es s0 = Some s → q_ordseq (sq s) ≠ 0 →
  let o := q_ord (sq s) in
  let g := rq_of (sq s) in
  ∃ orig, o_orig o = Some orig ∧
    (∀ i, i ∈ with_driver s → er_fs (g i) = true → i ≠ bar_rq o →
       er_color (g i) = er_color (g orig) ∧ er_hard (g i) = false) ∧
    (∀ x, x ∈ with_driver s → proxy o x = true →
       (∀ i, i ∈ with_driver s → er_fs (g i) = true → i = bar_rq o) ∧
       (∀ y, proxy o y = true → y ≠ x → y ∈ queue_head (sq s) ++ with_driver s →
          blk_ordered_req_seq (sq s) x < blk_ordered_req_seq (sq s) y ∧ (y ∉ with_driver s))).
Proof.
  intros Hf Hr Hseq o g. destruct (fresh_inv s0 Hf) as [Hinv _].
  destruct (run_inv _ _ _ _ Hinv Hr) as [[] _]. destruct in_ord as [Hg [e Hi|d p b t orig Hop B]].
  { exfalso. apply Hseq, Hi. }
  pose proof B as []. exists orig. split; [done|].
  assert (∀ i, i ∈ with_driver s → er_fs (g i) = true → i ≠ bar_rq o →
    hue o g i = Some (er_color (g i), er_hard (g i))) as Hhue.
  { intros i Hi Hfs Hb. unfold hue. rewrite Hfs. destruct (proxy o i) eqn:Hp; [|done].
    pose proof (g_kind _ _ _ _ _ _ Hg i ltac:(apply elem_of_app; by right) Hp) as E.
    unfold g in Hfs. rewrite Hfs in E. by apply eq_sym, bool_decide_eq_true in E. }
  split.
  - intros i Hi Hfs Hb. specialize (Hhue i Hi Hfs Hb). destruct (bz_drv i Hi) as [E|[_ E]];
      fold o g in E; rewrite Hhue in E; [done|]. by injection E as -> ->.
  - intros x Hx Hp. pose proof (bz_gate x Hx Hp) as Hcur.
    destruct (busy_cur_le _ _ _ _ _ _ _ _ _ _ _ x B Hp) as [_ Hd]; [by right|].
    specialize (Hd Hcur). subst d. split.
    + intros i Hi Hfs. destruct (decide (i = bar_rq o)) as [|Hb]; [done|].
      specialize (Hhue i Hi Hfs Hb). destruct (bz_drv i Hi) as [E|[E _]]; [|done].
      fold o g in E. by rewrite Hhue in E.
    + intros y Hpy Hne Hy%elem_of_app.
      change (req_seq o g x < req_seq o g y ∧ (y ∉ with_driver s)).
      assert (req_seq o g x ≠ req_seq o g y) as Hxy.
      { intros E. apply Hne.
        destruct (req_seq_proxy o g x Hp) as [[? E1]|[(? & ? & E1)|(? & ? & ? & E1)]],
          (req_seq_proxy o g y Hpy) as [[? E2]|[(? & ? & E2)|(? & ? & ? & E2)]];
          rewrite E1, E2 in E; congruence. }
      destruct (busy_cur_le _ _ _ _ _ _ _ _ _ _ _ y B Hpy Hy) as [Hle _]. fold o g in Hle, Hcur. split.
      * rewrite <- Hcur in Hle. lia.
      * intros Hyd. apply Hxy. rewrite Hcur. symmetry. by apply bz_gate.
Qed.

(** C9: A barrier never wedges the queue, for a scheduler that dispatches in
    the order of its decisions, as deadline does: while a flush sequence is in
    progress the driver holds a request whose completion moves it on, or the
    next fetch hands one out. *)
Theorem barrier_progress fuel es (s0 s : system D) n :
  in_order (D:=D) → fresh_system s0 → run fuel es s0 = Some s → q_ordseq (sq s) ≠ 0 →
  with_driver s ≠ [] ∨
  ∃ i q', blk_fetch_request (S n) (λ _, BLKPREP_OK) (sq s) = Some (Some i, q').
Proof.
  intros Hord Hf Hr Hseq. destruct (fresh_inv s0 Hf) as [Hinv0 Hw0].
  destruct (run_inv _ _ _ _ Hinv0 Hr) as [Hinv Hw]. specialize (Hw Hord Hw0).
  destruct (with_driver s) as [|i0 drv] eqn:Ed; [right|by left].
  pose proof (in_ord _ _ _ Hinv) as [Hg [e Hi|d p b t orig Hop B]]; [by exfalso; apply Hseq, Hi|].
  assert (∃ x l, queue_head (sq s) = x :: l ∧
    req_seq (q_ord (sq s)) (rq_of (sq s)) x ≤ cur_of d p b t) as (x & l & Hq & Hle).
  { destruct d; [by eapply current_step|].
    destruct (Hw p b t (bz_seq _ _ _ _ _ _ _ _ _ _ _ B)) as [?|(x & l & ? & ?)]; [done|].
    by exists x, l. }
  rewrite Hq in Hg, B. unfold blk_fetch_request. cbn [blk_peek_request __elv_next_request].
  rewrite Hq, (do_ordered_busy (sq s) _ x l _ _ d p b t orig Hg B Hop).
  rewrite (proj2 (Z.ltb_ge _ _) Hle). cbn [mbind option_bind].
  destruct (see_inv (sq s) [] x l Hinv Hq) as (Hinv2 & _ & Hq2 & Hm2 & Hst); [by eapply may_start_busy|].
  destruct (start_inv _ [] x l Hinv2 Hq2 Hm2 Hst) as (q' & E & _); [done|].
  rewrite E. cbn [mbind option_bind]. by exists x, q'.
Qed.

(** C11: No BUG on the driver's side: after any interleaving, completing or
    requeueing any request the driver holds succeeds, and fetching succeeds in
    a bounded number of rounds when the driver rejects no request. *)
Theorem driver_never_bugs fuel es (s0 s : system D) prep n :
  fresh_system s0 → run fuel es s0 = Some s → (∀ i, prep i ≠ BLKPREP_KILL) →
  has_room (with_driver s) = true → (rounds (sq s) < n)%nat →
  is_Some (blk_fetch_request n prep (sq s)) ∧
  ∀ i err, i ∈ with_driver s →
    is_Some (blk_finish_request i err (sq s)) ∧ is_Some (blk_requeue_request i (sq s)).
Proof.
  intros Hf Hr Hprep Hroom%Z.ltb_lt Hn. destruct (fresh_inv s0 Hf) as [Hinv0 _].
  destruct (run_inv _ _ _ _ Hinv0 Hr) as [Hinv _]. split.
  - destruct (next_request_inv n _ _ Hinv Hn) as (rq & q1 & E1 & Hinv1 & _ & Hj).
    destruct n as [|n]; [lia|]. unfold blk_fetch_request. cbn [blk_peek_request]. rewrite E1.
    cbn [mbind option_bind]. destruct rq as [i|]; [|by eexists].
    destruct (Hj i eq_refl) as (l & Hq1 & Hm).
    destruct (see_inv q1 _ i l Hinv1 Hq1 Hm) as (Hinv2 & _ & Hq2 & Hm2 & Hst).
    specialize (Hprep i). destruct (prep i); [|done|by eexists].
    destruct (start_inv _ _ i l Hinv2 Hq2 Hm2 Hst Hroom) as (q' & E & _).
    cbn [mbind option_bind]. rewrite E. by eexists.
  - intros i err Hi.
    apply (inv_perm _ _ _ (without_drv _ _ i Hinv Hi)) in Hinv.
    destruct (finish_inv _ _ i err Hinv) as (q1 & -> & _).
    destruct (requeue_inv _ _ i Hinv) as (q2 & -> & _). split; by eexists.
Qed.
End reachable.

(** ** A concrete run

    A read, a packet command of the scrubber and a write barrier on a disk whose
    queue is drained and flushed for a barrier, with the deadline scheduler. *)
Definition demo_sys : system deadline_data :=
  mk_sys (set_q_ord (set_o_next QUEUE_ORDERED_DRAIN_FLUSH idle_ord) (set_rqs ∅ dl_empty)) [].

Definition demo_verify (pos : Z) : erq :=
  mk_erq pos 0 false false false true false false false false false false true false 0
    false false 0.

Definition demo_barrier (pos : Z) : erq :=
  mk_erq pos 8 true false true false false false false true false false true false 0
    false false 0.

Definition always_ok (_ : nat) : blkprep := BLKPREP_OK.

(** Up to the barrier: two requests are with the driver, a third one waits. *)
Definition demo_events : list event :=
  [EvSubmit 0 (demo_read 100) ELEVATOR_INSERT_SORT; EvFetch always_ok;
   EvSubmit 1 (demo_verify 500) ELEVATOR_INSERT_VERIFY; EvFetch always_ok;
   EvSubmit 2 (demo_barrier 200) ELEVATOR_INSERT_SORT;
   EvSubmit 3 (demo_read 40) ELEVATOR_INSERT_SORT; EvPeek always_ok].

(** The driver is done with them: the flush before the barrier can start. *)
Definition demo_drained : list event := demo_events ++ [EvComplete 0 0; EvComplete 1 0].

Definition demo_flush : list event :=
  demo_drained ++ [EvFetch always_ok; EvComplete 100 0; EvFetch always_ok].

Definition after_run (es : list event) : system deadline_data :=
  default demo_sys (run 20 es demo_sys).

Lemma run_events : run 20 demo_events demo_sys = Some (after_run demo_events).
Proof. vm_compute. reflexivity. Qed.

Lemma run_drained : run 20 demo_drained demo_sys = Some (after_run demo_drained).
Proof. vm_compute. reflexivity. Qed.

Lemma run_flush : run 20 demo_flush demo_sys = Some (after_run demo_flush).
Proof. vm_compute. reflexivity. Qed.

Lemma demo_fresh : fresh_system demo_sys.
Proof.
  unfold fresh_system. split_and!; try reflexivity.
  - intros d. split_and!.
    + split; destruct d; constructor.
    + by destruct d.
    + intros i E. by destruct d.
  - right. by left.
  - apply (bool_decide_unpack _). vm_compute. exact I.
Qed.

Lemma deadline_in_order : in_order (D:=deadline_data).
Proof. intros q q' Hs E. destruct (deadline_fifo q q' Hs E) as (_ & i & Hq & _). by exists i. Qed.

Lemma in_flight_accurate_witness :
  with_driver (after_run demo_events) = [1; 0]%nat ∧
  fl_sync (q_ord (sq (after_run demo_events))) = 2 ∧
  q_ordseq (sq (after_run demo_events)) = QUEUE_ORDSEQ_STARTED.
Proof.
  destruct (in_flight_accurate 20 demo_events demo_sys (after_run demo_events) demo_fresh run_events)
    as (_ & E & _). split; [by vm_compute|]. split; [|by vm_compute]. rewrite E. by vm_compute.
Defined.

Lemma barrier_order_witness :
  with_driver (after_run demo_flush) = [101]%nat ∧
  queue_head (sq (after_run demo_flush)) = [102]%nat ∧
  ∀ i, i ∈ with_driver (after_run demo_flush) →
    er_fs (rq_of (sq (after_run demo_flush)) i) = true → i = 101%nat.
Proof.
  assert (with_driver (after_run demo_flush) = [101]%nat) as Ed by (by vm_compute).
  split; [exact Ed|]. split; [by vm_compute|].
  destruct (barrier_order 20 demo_flush demo_sys (after_run demo_flush) demo_fresh run_flush)
    as (orig & _ & _ & Ho).
  - intros E. vm_compute in E. done.
  - destruct (Ho 101%nat) as [Hfs _]; [rewrite Ed; left|by vm_compute|].
    intros i Hi Hi'. rewrite (Hfs i Hi Hi'). by vm_compute.
Defined.

Lemma barrier_progress_witness :
  with_driver (after_run demo_drained) = [] ∧
  ∃ i q', blk_fetch_request 5 (λ _, BLKPREP_OK) (sq (after_run demo_drained)) = Some (Some i, q').
Proof.
  assert (with_driver (after_run demo_drained) = []) as Ed by (by vm_compute).
  split; [exact Ed|].
  destruct (barrier_progress 20 demo_drained demo_sys (after_run demo_drained) 4
    deadline_in_order demo_fresh run_drained) as [Hne|He].
  - intros E. vm_compute in E. done.
  - rewrite Ed in Hne. exfalso. exact (Hne eq_refl).
  - exact He.
Defined.

Lemma driver_never_bugs_witness :
  is_Some (blk_fetch_request 10 always_ok (sq (after_run demo_events))) ∧
  is_Some (blk_requeue_request 0 (sq (after_run demo_events))).
Proof.
  destruct (driver_never_bugs 20 demo_events demo_sys (after_run demo_events) always_ok 10
    demo_fresh run_events) as [H1 H2].
  - by intros i.
  - by vm_compute.
  - apply (bool_decide_unpack _). vm_compute. exact I.
  - split; [exact H1|]. apply (H2 0%nat 0). apply (bool_decide_unpack _). vm_compute. exact I.
Defined.
