(* ===== verification/ScsiPrep.v ===== *)
(** * Preparation of commands by the SCSI mid-layer (drivers/scsi/scsi_lib.c)

    What the mid-layer makes of a request the driver fetches: the check of the
    device's state and the setup of a packet command, with the two exceptions the
    scrubber added for VERIFY, a command that has a length but transfers no data.
    [None] is a BUG. *)
From S2P Require Import Prelude SgIo Elevator Noop Deadline BlkQueue BarrierInv Barrier.

(** The state of a device. *)
Inductive scsi_device_state :=
| SDEV_CREATED | SDEV_RUNNING | SDEV_CANCEL | SDEV_DEL
| SDEV_QUIESCE | SDEV_OFFLINE | SDEV_BLOCK | SDEV_CREATED_BLOCK.

#[export] Instance scsi_device_state_eq_dec : EqDecision scsi_device_state.
Proof. solve_decision. Defined.

Inductive dma_data_direction :=
| DMA_BIDIRECTIONAL | DMA_TO_DEVICE | DMA_FROM_DEVICE | DMA_NONE.

(** The members of struct scsi_cmnd that the setup fills. *)
Record scsi_cmnd := mk_cmnd {
  sc_cmnd : list Z;
  sc_cmd_len : Z;
  sc_data_direction : dma_data_direction;
  sc_transfersize : Z;
  sc_allowed : Z;
}.

Definition empty_cmnd : scsi_cmnd := mk_cmnd [] 0 DMA_BIDIRECTIONAL 0 0.

(** What the setup of a request depends on: the device's state, [REQ_PREEMPT],
    the command the request has from an earlier attempt, whether one can be
    allocated, and the number of segments of its bio, if it has one.  The
    mapping of data ([scsi_init_io]) is a parameter: no request of the scrubber
    has a bio. *)
Record prep_env := mk_prep_env {
  pe_state : scsi_device_state;
  pe_preempt : bool;
  pe_special : option scsi_cmnd;
  pe_alloc : bool;
  pe_bio : option Z;
  pe_init_io : blkprep;
}.

Definition scsi_prep_state_check (e : prep_env) : blkprep :=
  match pe_state e with
  | SDEV_RUNNING => BLKPREP_OK
  | SDEV_OFFLINE | SDEV_DEL => BLKPREP_KILL
  | SDEV_QUIESCE | SDEV_BLOCK | SDEV_CREATED_BLOCK =>
      if pe_preempt e then BLKPREP_OK else BLKPREP_DEFER
  | SDEV_CREATED | SDEV_CANCEL => if pe_preempt e then BLKPREP_OK else BLKPREP_KILL
  end.

Definition scsi_get_cmd_from_req (e : prep_env) (req : request) : option scsi_cmnd :=
  let fill c := mk_cmnd (rq_cmd req) (sc_cmd_len c) (sc_data_direction c)
                  (sc_transfersize c) (sc_allowed c) in
  match pe_special e with
  | Some c => Some (fill c)
  | None => if pe_alloc e then Some (fill empty_cmnd) else None
  end.

Definition is_verify (req : request) : bool :=
  match rq_cmd req with op :: _ => op =? 0x2f | [] => false end.

(** The part behind the handling of the data. *)
Definition fill_pc_cmnd (req : request) (c : scsi_cmnd) : scsi_cmnd :=
  mk_cmnd (sc_cmnd c) (rq_cmd_len req)
    (if (rq_data_len req =? 0) || is_verify req then DMA_NONE
     else if rq_write req then DMA_TO_DEVICE else DMA_FROM_DEVICE)
    (rq_data_len req) (rq_retries req).

Definition scsi_setup_blk_pc_cmnd (e : prep_env) (req : request)
    : option (blkprep * option scsi_cmnd) :=
  match scsi_prep_state_check e with
  | BLKPREP_OK =>
      match scsi_get_cmd_from_req e req with
      | None => Some (BLKPREP_DEFER, None)
      | Some c =>
          match pe_bio e with
          | Some segments =>
              if segments =? 0 then None
              else match pe_init_io e with
                   | BLKPREP_OK => Some (BLKPREP_OK, Some (fill_pc_cmnd req c))
                   | ret => Some (ret, Some c)
                   end
          | None =>
              if negb (is_verify req) && negb (rq_data_len req =? 0) then None
              else Some (BLKPREP_OK, Some (fill_pc_cmnd req c))
          end
      end
  | ret => Some (ret, pe_special e)
  end.

Definition DID_NO_CONNECT : Z := 1.

(** The request after its preparation: the command it has ([special]) and
    whether it has [REQ_DONTPREP] go along.  A killed request loses its command;
    a prepared one is not prepared again. *)
Record prepared := mk_prepared {
  pr_ret : blkprep;
  pr_special : option scsi_cmnd;
  pr_dontprep : bool;
  pr_req : request;
}.

Definition scsi_prep_return (ret : blkprep) (special : option scsi_cmnd) (req : request)
    : prepared :=
  match ret with
  | BLKPREP_KILL =>
      mk_prepared ret None false (set_rq_errors (Z.shiftl DID_NO_CONNECT 16) req)
  | BLKPREP_DEFER => mk_prepared ret special false req
  | BLKPREP_OK => mk_prepared ret special true req
  end.

Definition scsi_prep_fn (e : prep_env) (req : request) : option prepared :=
  if rq_block_pc req then
    '(ret, special) ← scsi_setup_blk_pc_cmnd e req;
    Some (scsi_prep_return ret special req)
  else Some (scsi_prep_return BLKPREP_KILL (pe_special e) req).

(** ** Theorems *)

Definition scrub_env (st : scsi_device_state) (alloc : bool) : prep_env :=
  mk_prep_env st false None alloc None BLKPREP_OK.

(** A VERIFY command of the scrubber, as [sg_kern_io] submits it, never trips
    the mid-layer whatever its length: on a running device it becomes a
    command without data transfer that carries the command block and the
    length and is not retried; without memory, or on a blocked device, it is
    put off; on a device that is gone it is ended, and only there, and the
    caller of [sg_kern_io] sees the host status [DID_NO_CONNECT]. *)
Theorem verify_prepared se hdr rest sector size st alloc :
  let c := 0x2f :: rest in
  let rq := submitted_rq se hdr c sector size in
  ∃ p, scsi_prep_fn (scrub_env st alloc) rq = Some p ∧
    (pr_ret p = BLKPREP_OK ↔ st = SDEV_RUNNING ∧ alloc = true) ∧
    (pr_ret p = BLKPREP_KILL ↔ st ∈ [SDEV_OFFLINE; SDEV_DEL; SDEV_CREATED; SDEV_CANCEL]) ∧
    (pr_ret p = BLKPREP_OK → pr_dontprep p = true ∧ pr_req p = rq ∧
       ∃ tail, pr_special p = Some (mk_cmnd (c ++ tail) (cmd_len hdr) DMA_NONE size 0)) ∧
    (pr_ret p = BLKPREP_KILL → host_status (fill_outputs (pr_req p) hdr) = DID_NO_CONNECT).
Proof.
  intros c rq. unfold scsi_prep_fn, scsi_setup_blk_pc_cmnd, scsi_get_cmd_from_req, is_verify.
  cbn [rq_block_pc rq submitted_rq scrub_env pe_special pe_alloc pe_bio].
  assert (∀ x : scsi_device_state, x ∈ [SDEV_OFFLINE; SDEV_DEL; SDEV_CREATED; SDEV_CANCEL] ↔
    x = SDEV_OFFLINE ∨ x = SDEV_DEL ∨ x = SDEV_CREATED ∨ x = SDEV_CANCEL) as Hin.
  { intros x. rewrite !elem_of_cons, elem_of_nil. tauto. }
  destruct st, alloc; cbn; eexists; (split; [reflexivity|]); cbn [pr_ret scsi_prep_return]; rewrite Hin;
    (split; [intuition congruence|]); (split; [intuition congruence|]); (split; intros E; try done).
  split; [done|]. split; [done|]. eexists. unfold fill_pc_cmnd, is_verify. cbn. by rewrite orb_true_r.
Qed.

(** Without the exception a command with a length and no data is a BUG: any
    other command given to the same path with a length in its bytes 7 and 8
    stops the kernel. *)
Theorem other_command_bugs se hdr op rest sector size :
  op ≠ 0x2f → size ≠ 0 →
  scsi_prep_fn (scrub_env SDEV_RUNNING true) (submitted_rq se hdr (op :: rest) sector size) = None.
Proof.
  intros Hop Hs. unfold scsi_prep_fn, scsi_setup_blk_pc_cmnd, is_verify. cbn.
  rewrite (proj2 (Z.eqb_neq _ _) Hop), (proj2 (Z.eqb_neq _ _) Hs). done.
Qed.

(** ** From the scrubber to the driver and back *)

(** The request of the scrubber, as the elevator sees it. *)
Definition erq_of (r : request) : erq :=
  mk_erq (rq_sector r) (Z.shiftr (rq_data_len r) 9) (rq_write r) false false (rq_block_pc r)
    false (rq_nomerge r) false false false false true false 0 false false 0.

Section flow.
Context {D : Type} `{SchedFrame D}.
Implicit Types q : rqueue D.

Lemma perm_one (l : list nat) i : l ≡ₚ [i] → l = [i].
Proof. intros Hp. by apply Permutation_length_1_inv. Qed.

(** On an empty queue the scheduler gets the request, and nothing else happens. *)
Lemma submit_empty q drv i r fuel :
  inv q drv → queued q = [] → submit_ok q drv i r ELEVATOR_INSERT_VERIFY = true →
  ∃ q', __elv_add_request fuel i ELEVATOR_INSERT_VERIFY (upd_rq i (λ _, r) q) = Some q' ∧
    inv q' drv ∧ queue_head q' = [] ∧ sched_contents (edata q') = [i] ∧ q_ord q' = q_ord q ∧
    er_fs (rq_of q' i) = false.
Proof.
  intros Hinv Hq Hs. apply submit_ok_spec in Hs as Hsub. pose proof Hsub as [Hun [_ Hcol] _ Hfs].
  destruct (add_request_prepared fuel q i r ELEVATOR_INSERT_VERIFY Hcol)
    as (q2 & E2 & He & Hn & Hh & Hqh & Ho & Hoc & Hi & Hj & _ & Hf1 & _).
  destruct (inv_unused _ q q2 drv i Hinv Hun He Hn Hh Hqh Ho Hj) as [Hinv2 Hun2].
  rewrite if_same in E2. cbn [elv_insert] in E2. set (q3 := set_nr_sorted _ _) in E2.
  assert (queued q2 = []) as Hq2 by (unfold queued in *; by rewrite Hqh, He).
  destruct (insert_sched q2 q3 i) as (q' & E3 & _ & Hp & _ & Hin & _);
    [apply Hinv2|apply Hinv2|rewrite Hq2; apply not_elem_of_nil|done|done| |done|].
  { intros j. apply (upd_rq_place q2 i _ j sorted_place). }
  rewrite E3 in E2. exists q'.
  destruct (add_inv _ _ _ _ _ _ _ Hinv Hsub E2) as [Hinv' _].
  rewrite Hq2 in Hp. apply perm_one in Hp. unfold queued in Hp.
  destruct (queue_head q') as [|j l] eqn:Eh.
  2:{ exfalso. injection Hp as _ Hnil. apply app_eq_nil in Hnil as [_ Hnil]. rewrite Hnil in Hin.
      by apply elem_of_nil in Hin. }
  destruct (sched_add_frame q3 q' i) as ((Ho' & _ & Hg' & _) & _); [| |done|].
  { eapply sched_inv_frame; [apply Hinv2|done|]. intros j _. apply (upd_rq_place q2 i _ j sorted_place). }
  { change (edata q3) with (edata q2). unfold queued in Hq2. apply app_eq_nil in Hq2 as [_ ->].
    apply not_elem_of_nil. }
  split_and!; [done|done|done|exact Hp|by rewrite Ho', <- Ho|].
  destruct (same_fields _ _ (Hg' i)) as (-> & _).
  change (rq_of q3 i) with (rq_of (upd_rq i (set_er_sorted true) q2) i).
  rewrite rq_of_upd, decide_True by done. cbn. by rewrite Hi, Hf1.
Qed.

(** The only request of the queue is fetched. *)
Lemma fetch_only q drv i fuel :
  inv q drv → queue_head q = [] → sched_contents (edata q) = [i] → o_seq (q_ord q) = 0 →
  er_fs (rq_of q i) = false → has_room drv = true →
  ∃ q', blk_fetch_request (S (S fuel)) (λ _, BLKPREP_OK) q = Some (Some i, q') ∧
    inv q' (i :: drv) ∧ queued q' = [] ∧ o_seq (q_ord q') = 0 ∧
    ended (q_ord q') = ended (q_ord q) ∧ proxy (q_ord q') i = false.
Proof.
  intros Hinv Hh Hc Ho Hfs Hroom%Z.ltb_lt.
  destruct (sched_dispatch_ok q (in_sched _ _ _ Hinv)) as (b & q1 & E & _ & Hp & _ & Hb).
  destruct b; [|by destruct Hb as [_ Hb]; rewrite Hc in Hb].
  destruct (dispatch_inv _ q q1 drv Hinv E) as (Hinv1 & (Eo & Ec & Hg & _) & j & l1 & l2 & E1 & E2 & Hlen).
  rewrite Hc in Hlen. injection Hlen as Hlen. symmetry in Hlen. apply length_zero_iff_nil in Hlen.
  unfold queued in Hp. rewrite Hh, Hc, Hlen, app_nil_r in Hp. apply perm_one in Hp.
  assert (er_fs (rq_of q1 i) = false) as Hfs1 by (by destruct (same_fields _ _ (Hg i)) as (-> & _)).
  assert (inv q1 drv) as Hinv1' by (unfold inv; by rewrite Ec).
  assert (proxy (q_ord q) i = false) as Hpi.
  { destruct (in_ord _ _ _ Hinv) as [[] _]. destruct (g_sched i) as [? _]; [rewrite Hc; left|done]. }
  unfold blk_fetch_request. cbn [blk_peek_request __elv_next_request]. rewrite Hh, E.
  cbn [mbind option_bind]. rewrite Hp.
  assert (blk_do_ordered i q1 = Some (true, Some i, q1)) as ->.
  { unfold blk_do_ordered, q_ordseq, is_barrier. by rewrite Eo, Ho, Hfs1. }
  cbn [mbind option_bind].
  destruct (see_inv q1 drv i [] Hinv1' Hp) as (Hinv2 & _ & Hq2 & Hm2 & Hst).
  { rewrite Eo. split; [intros e _; unfold hue; by rewrite Hfs1|].
    intros d p b t orig Hs _. rewrite Ho in Hs. by apply eq_sym, seq_val_busy in Hs. }
  destruct (see_value q1 i) as ((He2 & _ & _ & _ & _ & Ho2) & _).
  destruct (start_inv _ drv i [] Hinv2 Hq2 Hm2 Hst Hroom) as (q3 & E3 & Hinv3 & _).
  rewrite E3. cbn [mbind option_bind]. exists q3. split_and!; [done|done|..].
  all: unfold blk_start_request in E3; rewrite (dequeue_value _ i []) in E3;
    [|done|apply not_elem_of_nil|apply (in_hash _ _ _ Hinv2); left; rewrite Hq2; left];
    apply (inj Some) in E3 as <-; set (q4 := see_request i q1) in *;
    destruct (flight_fields 1 (rq_of q4 i) (q_ord q4)) as ((F1 & F2 & F3 & F4 & F5 & F6 & F7) & F8 & _).
  - unfold queued. cbn [queue_head edata set_q_ord set_queue_head app]. by rewrite He2.
  - cbn [q_ord set_q_ord]. by rewrite F1, Ho2, Eo.
  - cbn [q_ord set_q_ord]. by rewrite F8, Ho2, Eo.
  - cbn [q_ord set_q_ord]. rewrite <- Hpi, <- Eo, <- Ho2. by apply proxy_ext; split_and!.
Qed.

End flow.

(** A request of 258 sectors from sector 305419896, on the queue after the run
    of [Barrier], with the barrier complete. *)
Definition quiet_events : list event :=
  demo_flush ++ [EvComplete 101 0; EvFetch always_ok; EvComplete 102 0; EvFetch always_ok].

Lemma run_quiet : run 20 quiet_events demo_sys = Some (after_run quiet_events).
Proof. vm_compute. reflexivity. Qed.

