(* ===== verification/SgScrubber.v ===== *)
(** * The user-space scrubber (sg3_utils-1.28/src/sg_scrubber.c)

    The predecessor of the kernel scrubber: a program that opens a SCSI device
    and walks over it with VERIFY(10) commands.  [sg_ll_verify10] (sent
    command to result), the option parser of the C library and the system
    calls are parameters.  Messages are not modelled; sizes are those of
    amd64, where [off_t] has 64 bits. *)
From S2P Require Import Prelude.

Definition SEQLSCRUB : Z := 1.
Definition STAGSCRUB : Z := 2.
Definition BOTHSCRUB : Z := 3.

Definition SG_LIB_SYNTAX_ERROR : Z := 1.
Definition SG_LIB_FILE_ERROR : Z := 15.
Definition SG_LIB_CAT_INVALID_OP : Z := 9.
Definition SG_LIB_CAT_OTHER : Z := 99.

(** ** State

    The global variables, and the commands sent so far: address and number of
    blocks. *)
Record globals := mk_globals {
  segment_size : Z;
  region_size : Z;
  technique : Z;
  verbose : Z;
  debug : Z;
  lba : Z;
  dpo : Z;
  vrprotect : Z;
  count : Z;
  read_errs : Z;
  sent : list (Z * Z);
}.

Definition initial : globals :=
  mk_globals (2 * 1024 * 1024) (128 * 1024 * 1024) BOTHSCRUB 0 0 0 0 0 0 0 [].

Definition set_segment_size (v : Z) (x : globals) : globals :=
  mk_globals v (region_size x) (technique x) (verbose x) (debug x) (lba x) (dpo x) (vrprotect x)
    (count x) (read_errs x) (sent x).
Definition set_region_size (v : Z) (x : globals) : globals :=
  mk_globals (segment_size x) v (technique x) (verbose x) (debug x) (lba x) (dpo x) (vrprotect
    x) (count x) (read_errs x) (sent x).
Definition set_technique (v : Z) (x : globals) : globals :=
  mk_globals (segment_size x) (region_size x) v (verbose x) (debug x) (lba x) (dpo x) (vrprotect
    x) (count x) (read_errs x) (sent x).
Definition set_verbose (v : Z) (x : globals) : globals :=
  mk_globals (segment_size x) (region_size x) (technique x) v (debug x) (lba x) (dpo x)
    (vrprotect x) (count x) (read_errs x) (sent x).
Definition set_debug (v : Z) (x : globals) : globals :=
  mk_globals (segment_size x) (region_size x) (technique x) (verbose x) v (lba x) (dpo x)
    (vrprotect x) (count x) (read_errs x) (sent x).
Definition set_lba (v : Z) (x : globals) : globals :=
  mk_globals (segment_size x) (region_size x) (technique x) (verbose x) (debug x) v (dpo x)
    (vrprotect x) (count x) (read_errs x) (sent x).
Definition set_dpo (v : Z) (x : globals) : globals :=
  mk_globals (segment_size x) (region_size x) (technique x) (verbose x) (debug x) (lba x) v
    (vrprotect x) (count x) (read_errs x) (sent x).
Definition set_vrprotect (v : Z) (x : globals) : globals :=
  mk_globals (segment_size x) (region_size x) (technique x) (verbose x) (debug x) (lba x) (dpo
    x) v (count x) (read_errs x) (sent x).
Definition set_count (v : Z) (x : globals) : globals :=
  mk_globals (segment_size x) (region_size x) (technique x) (verbose x) (debug x) (lba x) (dpo
    x) (vrprotect x) v (read_errs x) (sent x).
Definition set_read_errs (v : Z) (x : globals) : globals :=
  mk_globals (segment_size x) (region_size x) (technique x) (verbose x) (debug x) (lba x) (dpo
    x) (vrprotect x) (count x) v (sent x).
Definition set_sent (v : list (Z * Z)) (x : globals) : globals :=
  mk_globals (segment_size x) (region_size x) (technique x) (verbose x) (debug x) (lba x) (dpo
    x) (vrprotect x) (count x) (read_errs x) v.

(** The result of the [n]-th command, for an address and a number of blocks. *)
Definition verify10 : Type := nat → Z → Z → Z.

(** ** Reading a segment

    One turn of the loop; the address given to the command is [pos]. *)
Definition segread_body (v : verify10) (pos num ret : Z) (g : globals) : Z * globals :=
  let res := v (length (sent g)) (u32 pos) num in
  let g := set_sent (sent g ++ [(u32 pos, num)]) g in
  if truthy res then (res, set_read_errs (s32 (read_errs g + 1)) g) else (ret, g).

(** [for (; count > 0; count -= 65535, lba += 65535)] *)
Fixpoint segread_loop (fuel : nat) (v : verify10) (pos cnt ret : Z) (g : globals)
    : option (Z * globals) :=
  match fuel with
  | O => None
  | S fuel =>
      if cnt >? 0 then
        let num := if cnt >? 65535 then 65535 else cnt in
        let '(ret, g) := segread_body v pos num ret g in
        segread_loop fuel v pos (cnt - 65535) ret (set_lba (u64 (lba g + 65535)) g)
      else Some (ret, g)
  end.

Definition segread (v : verify10) (pos cnt : Z) (g : globals) : option (Z * globals) :=
  segread_loop (S (S (Z.to_nat (cnt / 65535)))) v pos cnt 0 g.

(** [None] is the trap of a division by zero. *)
Definition lceil (whole part : Z) : option Z :=
  if part =? 0 then None
  else if Z.rem whole part =? 0 then Some (Z.quot whole part)
  else Some (1 + Z.quot whole part).

(** ** The techniques *)

(** The number of blocks to verify at [pos]. *)
Definition segment_num (g : globals) (pos capacity : Z) : Z :=
  if pos + segment_size g >? capacity then
    if segment_size g >? capacity then capacity else capacity - segment_size g
  else segment_size g.

(** [while (pos < capacity)]; the result is the return value. *)
Fixpoint seq_loop (fuel : nat) (v : verify10) (capacity pos : Z) (g : globals)
    : option (Z * globals) :=
  match fuel with
  | O => None
  | S fuel =>
      if pos <? capacity then
        let num := segment_num g pos capacity in
        '(ret, g) ← segread v pos num g;
        if ret =? SG_LIB_CAT_INVALID_OP then Some (- 1, g)
        else seq_loop fuel v capacity (pos + num) g
      else Some (0, g)
  end.

Definition seqscrub (fuel : nat) (v : verify10) (capacity : Z) (g : globals)
    : option (Z * globals) :=
  let pos := s64 (lba g) in
  let g := if truthy (count g) then g else set_count capacity g in
  seq_loop fuel v capacity pos g.

(** The loop over the regions, from region [r] on; [inr] is the early return. *)
Fixpoint stag_regions (n : nat) (v : verify10) (capacity s r : Z) (g : globals)
    : option (globals + Z * globals) :=
  match n with
  | O => Some (inl g)
  | S n =>
      let pos := s * segment_size g + r * region_size g in
      if pos >? capacity then Some (inl g)
      else
        '(ret, g) ← segread v pos (segment_num g pos capacity) g;
        if ret =? SG_LIB_CAT_INVALID_OP then Some (inr (- 1, g))
        else stag_regions n v capacity s (r + 1) g
  end.

Fixpoint stag_segments (n : nat) (v : verify10) (capacity regnum s : Z) (g : globals)
    : option (Z * globals) :=
  match n with
  | O => Some (0, g)
  | S n =>
      res ← stag_regions (Z.to_nat regnum) v capacity s 0 g;
      match res with
      | inl g => stag_segments n v capacity regnum (s + 1) g
      | inr r => Some r
      end
  end.

Definition stgscrub (v : verify10) (capacity : Z) (g : globals) : option (Z * globals) :=
  regnum ← lceil capacity (region_size g);
  segnum ← lceil (region_size g) (segment_size g);
  stag_segments (Z.to_nat segnum) v capacity regnum 0 g.

(** ** The device

    [stat_ret] and [blksize] come from [stat], [size] from [lseek]. *)
Definition scrubdev (fuel : nat) (v : verify10) (stat_ret blksize size : Z) (g : globals)
    : option (Z * globals) :=
  if truthy stat_ret then Some (stat_ret, g)
  else
    capacity ← lceil size blksize;
    reg ← lceil (region_size g) blksize;
    seg ← lceil (segment_size g) blksize;
    let g := set_segment_size seg (set_region_size reg g) in
    g ← (if (technique g =? SEQLSCRUB) || (technique g =? BOTHSCRUB) then
           '(_, g) ← seqscrub fuel v capacity (set_read_errs 0 g); Some g
         else Some g);
    g ← (if (technique g =? STAGSCRUB) || (technique g =? BOTHSCRUB) then
           '(_, g) ← stgscrub v capacity (set_read_errs 0 g); Some g
         else Some g);
    Some (stat_ret, g).

(** ** Options

    What [getopt_long] returns, numbers as [sg_get_llnum], [sg_get_num] and
    [atol] return them.  [Help] also stands for the ['?'] of an unknown option;
    [Unhandled] is the option [b], which the option string has and the switch
    has not. *)
Inductive opt :=
| Count (n : Z) | Dpo | Help | Lba (ll : Z) | Vrprotect (n : Z) | Region (n : Z)
| Segment (n : Z) | Technique (arg : string) | Debug | Verbose | Version | Unhandled.

Definition LONG_MAX : Z := 2 ^ 63 - 1.

(** The size in bytes of a size given in KB; an invalid one becomes 0. *)
Definition kb_size (n : Z) : Z :=
  s64 ((if (n <=? 0) || (n =? LONG_MAX) then 0 else n) * 1024).

Definition set_technique_arg (arg : string) (g : globals) : globals :=
  if streq arg "SEQL" || streq arg "0" then set_technique SEQLSCRUB g
  else if streq arg "STAG" || streq arg "1" then set_technique STAGSCRUB g
  else if streq arg "BOTH" || streq arg "2" then set_technique BOTHSCRUB g
  else g.

(** One turn of the option loop: [inl] is the exit status. *)
Definition option_step (o : opt) (g : globals) : Z + globals :=
  match o with
  | Count n => if n <? 0 then inl SG_LIB_SYNTAX_ERROR else inr (set_count n g)
  | Dpo => inr (set_dpo 1 g)
  | Help => inl 0
  | Lba ll => if ll =? - 1 then inl SG_LIB_SYNTAX_ERROR else inr (set_lba (u64 ll) g)
  | Vrprotect n =>
      if n =? - 1 then inl SG_LIB_SYNTAX_ERROR
      else if (n <? 0) || (n >? 7) then inl SG_LIB_SYNTAX_ERROR
      else inr (set_vrprotect n g)
  | Region n => inr (set_region_size (kb_size n) g)
  | Segment n => inr (set_segment_size (kb_size n) g)
  | Technique arg => inr (set_technique_arg arg g)
  | Debug => inr (set_debug 1 g)
  | Verbose => inr (set_verbose (s32 (verbose g + 1)) g)
  | Version => inl 0
  | Unhandled => inl SG_LIB_SYNTAX_ERROR
  end.

Fixpoint options (l : list opt) (g : globals) : Z + globals :=
  match l with
  | [] => inr g
  | o :: l => match option_step o g with inl e => inl e | inr g => options l g end
  end.

(** The surroundings of a run: [open_ret] and [close_ret] are the results of
    opening and closing the device. *)
Record env := mk_env {
  open_ret : Z;
  close_ret : Z;
  stat_ret : Z;
  st_blksize : Z;
  dev_size : Z;
}.

(** The exit status and the final state; [args] are the arguments behind the
    options. *)
Definition main (fuel : nat) (v : verify10) (e : env) (opts : list opt) (args : list string)
    : option (Z * globals) :=
  match options opts initial with
  | inl status => Some (status, initial)
  | inr g =>
      if (1 <? Z.of_nat (length args)) then Some (SG_LIB_SYNTAX_ERROR, g)
      else if lba g >? 0xffffffff then Some (SG_LIB_SYNTAX_ERROR, g)
      else match args with
           | [] => Some (SG_LIB_SYNTAX_ERROR, g)
           | _ =>
               if open_ret e <? 0 then Some (SG_LIB_FILE_ERROR, g)
               else
                 '(ret, g) ← scrubdev fuel v (stat_ret e) (st_blksize e) (dev_size e) g;
                 if (close_ret e <? 0) && (ret =? 0) then Some (SG_LIB_FILE_ERROR, g)
                 else Some (if ret >=? 0 then ret else SG_LIB_CAT_OTHER, g)
           end
  end.

(** ** Lemmas *)

(** The blocks of a command. *)
Definition cmd_blocks (c : Z * Z) : list Z := seqZ c.1 c.2.

(** The settings, which reading a segment leaves alone. *)
Definition same_config (g g' : globals) : Prop :=
  segment_size g' = segment_size g ∧ region_size g' = region_size g ∧
  technique g' = technique g ∧ verbose g' = verbose g ∧ debug g' = debug g ∧
  dpo g' = dpo g ∧ vrprotect g' = vrprotect g ∧ count g' = count g.

#[export] Instance same_config_equiv : Equivalence same_config.
Proof.
  unfold same_config. split; [done| |].
  - intros ? ? (? & ? & ? & ? & ? & ? & ? & ?). split_and!; congruence.
  - intros ? ? ? (? & ? & ? & ? & ? & ? & ? & ?) (? & ? & ? & ? & ? & ? & ? & ?).
    split_and!; congruence.
Qed.

Lemma segread_body_spec v pos num ret g :
  ∃ ret' g', segread_body v pos num ret g = (ret', g') ∧ same_config g g' ∧
    lba g' = lba g ∧ sent g' = sent g ++ [(u32 pos, num)] ∧
    (ret' = ret ∨ ret' = v (length (sent g)) (u32 pos) num).
Proof.
  unfold segread_body. destruct (truthy _); eexists _, _; (split; [reflexivity|]);
    (split_and!; [done|done|done|auto]).
Qed.

(** The commands of a segment: their number, and that all address [pos]. *)
Lemma segread_loop_spec fuel v pos cnt ret g :
  0 ≤ cnt → (Z.to_nat (cnt / 65535) < fuel)%nat → (cnt mod 65535 = 0 ∨ (S (Z.to_nat (cnt / 65535)) < fuel)%nat) →
  ∃ ret' g' cs, segread_loop fuel v pos cnt ret g = Some (ret', g') ∧ same_config g g' ∧
    sent g' = sent g ++ cs ∧
    Forall (λ c, c.1 = u32 pos ∧ 0 < c.2 ≤ Z.min cnt 65535) cs ∧
    (0 < cnt → head cs = Some (u32 pos, Z.min cnt 65535)) ∧ (cnt ≤ 0 → cs = [] ∧ g' = g) ∧
    (0 < cnt ≤ 65535 → cs = [(u32 pos, cnt)]) ∧
    (ret' = ret ∨ ∃ n a k, ret' = v n a k).
Proof.
  revert cnt ret g. induction fuel as [|fuel IH]; intros cnt ret g Hc Hf Hf'; [lia|].
  cbn [segread_loop]. destruct (cnt >? 0) eqn:E0; zbool.
  2:{ exists ret, g, []. rewrite app_nil_r. split_and!; try done; [lia|lia|auto]. }
  set (num := if cnt >? 65535 then 65535 else cnt).
  assert (0 < num ≤ Z.min cnt 65535) as Hnum by (subst num; zcase; lia).
  destruct (segread_body_spec v pos num ret g) as (r1 & g1 & -> & Hcf & _ & Hs & Hr).
  destruct (decide (cnt ≤ 65535)) as [Hle|Hgt].
  - assert (num = cnt) as -> by (subst num; zcase; lia). destruct fuel as [|fuel].
    { exfalso. assert (1 ≤ cnt / 65535 ∨ cnt < 65535) as [H|H] by dlia; [lia|].
      rewrite Z.mod_small in Hf' by lia. lia. }
    cbn [segread_loop]. destruct (cnt - 65535 >? 0) eqn:E1; zbool; [lia|].
    eexists r1, _, [(u32 pos, cnt)]. split; [reflexivity|]. split_and!.
    + exact Hcf.
    + exact Hs.
    + by constructor.
    + intros _. cbn. by rewrite Z.min_l by lia.
    + lia.
    + done.
    + destruct Hr as [->| ->]; [by left|right; eauto].
  - assert ((cnt - 65535) / 65535 = cnt / 65535 - 1) as Hd.
    { replace (cnt - 65535) with (cnt + -1 * 65535) by lia. rewrite Z.div_add by lia. lia. }
    assert ((cnt - 65535) mod 65535 = cnt mod 65535) as Hm.
    { replace (cnt - 65535) with (cnt + -1 * 65535) by lia. apply Z_mod_plus_full. }
    assert (1 ≤ cnt / 65535) by (apply Z.div_le_lower_bound; lia).
    destruct (IH (cnt - 65535) r1 (set_lba (u64 (lba g1 + 65535)) g1))
      as (r2 & g2 & cs & E & Hcf2 & Hs2 & Hall & _ & _ & _ & Hr2); [lia|lia|rewrite Hm; lia|].
    rewrite E. exists r2, g2, ((u32 pos, num) :: cs). split_and!; try done.
    + by transitivity g1.
    + rewrite Hs2. cbn [sent set_lba]. rewrite Hs. by rewrite <- app_assoc.
    + constructor; [done|]. eapply Forall_impl; [exact Hall|]. cbn. intros [a k]. cbn. lia.
    + intros _. cbn. subst num. destruct (_ >? _) eqn:?; zbool; do 2 f_equal; lia.
    + lia.
    + lia.
    + destruct Hr2 as [->|?]; [destruct Hr as [->| ->]|]; eauto.
Qed.

Lemma segread_spec v pos cnt g :
  0 ≤ cnt →
  ∃ ret g' cs, segread v pos cnt g = Some (ret, g') ∧ same_config g g' ∧
    sent g' = sent g ++ cs ∧
    Forall (λ c, c.1 = u32 pos ∧ 0 < c.2 ≤ Z.min cnt 65535) cs ∧
    (0 < cnt → head cs = Some (u32 pos, Z.min cnt 65535)) ∧ (cnt ≤ 0 → cs = [] ∧ g' = g) ∧
    (0 < cnt ≤ 65535 → cs = [(u32 pos, cnt)]) ∧
    (ret = 0 ∨ ∃ n a k, ret = v n a k).
Proof. intros Hc. apply segread_loop_spec; [done|lia|lia]. Qed.

(** A device that knows the command. *)
Definition supported (v : verify10) : Prop := ∀ n a k, v n a k ≠ SG_LIB_CAT_INVALID_OP.

(** Whole segments are read one after the other. *)
Lemma seq_loop_whole k fuel v capacity pos g :
  supported v → 0 < segment_size g ≤ 65535 → 0 ≤ pos →
  pos + Z.of_nat k * segment_size g ≤ capacity → capacity ≤ 2 ^ 32 →
  ∃ g' cs, seq_loop (k + fuel) v capacity pos g =
      seq_loop fuel v capacity (pos + Z.of_nat k * segment_size g) g' ∧ same_config g g' ∧
    sent g' = sent g ++ cs ∧
    concat (cmd_blocks <$> cs) = seqZ pos (Z.of_nat k * segment_size g).
Proof.
  intros Hv Hseg. revert pos g Hseg. induction k as [|k IH]; intros pos g Hseg Hp Hk Hc.
  { exists g, []. rewrite app_nil_r, Z.add_0_r. done. }
  cbn [seq_loop Nat.add]. destruct (pos <? capacity) eqn:E; zbool; [|lia].
  assert (segment_num g pos capacity = segment_size g) as ->.
  { unfold segment_num. destruct (_ >? _) eqn:?; zbool; [lia|done]. }
  destruct (segread_spec v pos (segment_size g) g)
    as (ret & g1 & cs & -> & Hcf & Hs & _ & _ & _ & Hone & Hr); [lia|].
  cbn [mbind option_bind]. rewrite (Hone Hseg) in Hs.
  destruct (ret =? SG_LIB_CAT_INVALID_OP) eqn:Er; zbool.
  { exfalso. destruct Hr as [->|(n & a & m & ->)]; [done|by apply (Hv n a m)]. }
  destruct Hcf as (Hseg1 & Hcf).
  destruct (IH (pos + segment_size g) g1) as (g2 & cs2 & -> & Hcf2 & Hs2 & Hcat);
    rewrite ?Hseg1; try lia.
  exists g2, ((u32 pos, segment_size g) :: cs2). split_and!.
  - f_equal. lia.
  - by transitivity g1.
  - rewrite Hs2, Hs. by rewrite <- app_assoc.
  - rewrite fmap_cons. cbn [concat]. rewrite Hcat, ?Hseg1. unfold cmd_blocks. cbn [fst snd].
    rewrite u32_small by (unfold in_u32; lia).
    replace (Z.of_nat (S k) * segment_size g)
      with (segment_size g + Z.of_nat k * segment_size g) by lia.
    rewrite seqZ_app by lia. done.
Qed.

Lemma seq_loop_exact k fuel v capacity pos g :
  supported v → 0 < segment_size g ≤ 65535 → 0 ≤ pos → capacity ≤ 2 ^ 32 →
  capacity - pos = Z.of_nat k * segment_size g → (k < fuel)%nat →
  ∃ g' cs, seq_loop fuel v capacity pos g = Some (0, g') ∧ same_config g g' ∧
    sent g' = sent g ++ cs ∧ concat (cmd_blocks <$> cs) = seqZ pos (capacity - pos).
Proof.
  intros Hv Hseg Hp Hc Hk Hf. replace fuel with (k + S (fuel - S k))%nat by lia.
  destruct (seq_loop_whole k (S (fuel - S k)) v capacity pos g) as (g' & cs & -> & ? & ? & Hcat);
    try done; try lia.
  exists g', cs. cbn [seq_loop]. destruct (_ <? capacity) eqn:E; zbool; [lia|].
  by rewrite Hk.
Qed.

Lemma lceil_exact a b : 0 < b → 0 ≤ a → lceil (a * b) b = Some a.
Proof.
  intros Hb Ha. unfold lceil. destruct (b =? 0) eqn:E; zbool; [lia|].
  rewrite Z.rem_mul, Z.quot_mul by lia. done.
Qed.

(** ** Theorems *)


(** The tail is misread: when a remainder is left after at least two whole
    segments, the last segment is read with the size of the device less a
    segment instead of the remainder, so that the program verifies blocks
    behind the end of the device. *)
Theorem user_overrun fuel v capacity g q r :
  supported v → 0 < segment_size g ≤ 65535 → capacity = q * segment_size g + r →
  0 < r < segment_size g → 2 ≤ q → capacity < 2 ^ 32 → lba g = 0 → (Z.to_nat q + 1 < fuel)%nat →
  ∃ g' c, seqscrub fuel v capacity g = Some (0, g') ∧ c ∈ sent g' ∧ capacity < c.1 + c.2.
Proof.
  intros Hv Hseg Hcap Hr Hq Hc Hl Hf. unfold seqscrub. rewrite Hl.
  change (s64 0) with 0. set (g1 := if truthy _ then _ else _).
  assert (segment_size g1 = segment_size g) as H1 by (subst g1; by destruct (truthy _)).
  replace fuel with (Z.to_nat q + S (S (fuel - Z.to_nat q - 2)))%nat by lia.
  destruct (seq_loop_whole (Z.to_nat q) (S (S (fuel - Z.to_nat q - 2))) v capacity 0 g1)
    as (g2 & cs & -> & Hcf & Hs & _); rewrite ?H1; try done; try nia.
  rewrite Z2Nat.id, Z.add_0_l by lia. destruct Hcf as (H2 & _). rewrite H1 in H2.
  set (pos := q * segment_size g). cbn [seq_loop].
  destruct (pos <? capacity) eqn:E; zbool; [|lia].
  assert (segment_num g2 pos capacity = capacity - segment_size g) as ->.
  { unfold segment_num. rewrite H2. destruct (_ >? _) eqn:?; zbool; [|lia].
    destruct (_ >? _) eqn:?; zbool; [nia|done]. }
  destruct (segread_spec v pos (capacity - segment_size g) g2)
    as (ret & g3 & cs3 & -> & Hcf3 & Hs3 & Hall & Hne & _ & Hone & Hret); [nia|].
  cbn [mbind option_bind]. destruct (ret =? SG_LIB_CAT_INVALID_OP) eqn:Er; zbool.
  { exfalso. destruct Hret as [->|(n & a & m & ->)]; [done|by apply (Hv n a m)]. }
  destruct (pos + (capacity - segment_size g) <? capacity) eqn:E2; zbool; [nia|].
  specialize (Hne ltac:(nia)). destruct cs3 as [|c cs3]; [done|]. injection Hne as ->.
  exists g3, (u32 pos, Z.min (capacity - segment_size g) 65535). split_and!; [done| |].
  - rewrite Hs3. apply elem_of_app. right. left.
  - cbn [fst snd]. rewrite u32_small by (unfold in_u32; nia). nia.
Qed.

Lemma segread_zero v pos g : segread v pos 0 g = Some (0, g).
Proof. done. Qed.

Lemma seq_loop_spins fuel v capacity pos g :
  pos < capacity → segment_num g pos capacity = 0 → seq_loop fuel v capacity pos g = None.
Proof.
  intros Hp Hn. induction fuel as [|fuel IH]; [done|]. cbn [seq_loop].
  destruct (pos <? capacity) eqn:E; zbool; [|lia]. rewrite Hn, segread_zero.
  cbn [mbind option_bind]. change (0 =? SG_LIB_CAT_INVALID_OP) with false. cbn iota.
  by rewrite Z.add_0_r.
Qed.

(** The scrub can run for ever: when the segment is as large as the device and
    scrubbing starts behind block 0, or when the segment size is 0 (which is
    what an invalid size becomes), nothing is left to read at a position
    before the end and the position never advances. *)
Theorem user_spins fuel v capacity g :
  0 ≤ lba g < 2 ^ 63 → lba g < capacity →
  segment_size g = 0 ∨ segment_size g = capacity ∧ 0 < lba g →
  seqscrub fuel v capacity g = None.
Proof.
  intros Hl Hc Hs. unfold seqscrub. rewrite s64_small by lia.
  apply seq_loop_spins; [done|].
  set (g1 := if truthy _ then _ else _).
  assert (segment_size g1 = segment_size g) as H1 by (subst g1; by destruct (truthy _)).
  unfold segment_num. rewrite H1. repeat zcase; lia.
Qed.

(** A segment of more than 65535 blocks is not verified: the address of the
    commands is not advanced, so every command of the segment reads the same
    first blocks, and no block from the 65536th on is read. *)
Theorem user_segread_same_address v pos cnt g :
  0 ≤ cnt → 0 ≤ pos < 2 ^ 32 →
  ∃ ret g' cs, segread v pos cnt g = Some (ret, g') ∧ sent g' = sent g ++ cs ∧
    Forall (λ c, c.1 = pos) cs ∧
    ∀ x, x ∈ concat (cmd_blocks <$> cs) → pos ≤ x < pos + 65535.
Proof.
  intros Hc Hp. destruct (segread_spec v pos cnt g Hc) as (ret & g' & cs & E & _ & Hs & Hall & _).
  rewrite u32_small in Hall by (unfold in_u32; lia).
  exists ret, g', cs. split_and!; [done|done| |].
  - eapply Forall_impl; [exact Hall|]. cbn. tauto.
  - intros x Hx. apply list_elem_of_In, in_concat in Hx as (l & Hl & Hx).
    apply list_elem_of_In, list_elem_of_fmap in Hl as (c & -> & Hin).
    apply list_elem_of_In in Hx. pose proof (proj1 (Forall_forall _ _) Hall c Hin) as [Ha Hn].
    unfold cmd_blocks in Hx. apply elem_of_seqZ in Hx. lia.
Qed.

(** *** The count option *)

Lemma segread_loop_count fuel v pos cnt ret g c :
  segread_loop fuel v pos cnt ret (set_count c g) =
  (λ p, (p.1, set_count c p.2)) <$> segread_loop fuel v pos cnt ret g.
Proof.
  revert cnt ret g. induction fuel as [|fuel IH]; intros cnt ret g; [done|]. cbn [segread_loop].
  destruct (cnt >? 0); [|done]. unfold segread_body. cbn [sent read_errs set_count set_sent].
  destruct (truthy (v _ _ _)).
  - rewrite <- IH. done.
  - rewrite <- IH. done.
Qed.

Lemma seq_loop_count fuel v capacity pos g c :
  seq_loop fuel v capacity pos (set_count c g) =
  (λ p, (p.1, set_count c p.2)) <$> seq_loop fuel v capacity pos g.
Proof.
  revert pos g. induction fuel as [|fuel IH]; intros pos g; [done|]. cbn [seq_loop].
  destruct (pos <? capacity); [|done].
  change (segment_num (set_count c g) pos capacity) with (segment_num g pos capacity).
  unfold segread. rewrite segread_loop_count.
  destruct (segread_loop _ _ _ _ _ g) as [[ret g1]|]; [|done]. cbn.
  destruct (ret =? SG_LIB_CAT_INVALID_OP); [done|]. apply IH.
Qed.

(** The option [--count] has no effect: the usage text promises to verify that
    many blocks, but whatever it is set to, the sequential scrub sends the
    same commands. *)
Theorem user_count_ignored fuel v capacity g c :
  (λ p, (p.1, sent p.2)) <$> seqscrub fuel v capacity (set_count c g) =
  (λ p, (p.1, sent p.2)) <$> seqscrub fuel v capacity g.
Proof.
  assert (∀ c' pos, (λ p : Z * globals, (p.1, sent p.2)) <$>
      seq_loop fuel v capacity pos (set_count c' g) =
    (λ p : Z * globals, (p.1, sent p.2)) <$> seq_loop fuel v capacity pos g) as H.
  { intros c' pos. rewrite seq_loop_count. by destruct (seq_loop _ _ _ _ g) as [[? ?]|]. }
  unfold seqscrub. cbn [count set_count lba].
  destruct (truthy c), (truthy (count g)); rewrite ?H; try done; apply H.
Qed.

(** *** Exit status *)

Lemma option_step_sent o g g' : option_step o g = inr g' → sent g' = sent g.
Proof.
  destruct o; cbn; unfold set_technique_arg; repeat case_match; try done;
    intros [= <-]; try done.
Qed.

Lemma options_sent l g g' : options l g = inr g' → sent g' = sent g.
Proof.
  revert g. induction l as [|o l IH]; cbn [options]; intros g E; [by injection E as <-|].
  destruct (option_step o g) as [|g1] eqn:Eo; [done|]. apply option_step_sent in Eo.
  rewrite <- Eo. by apply IH.
Qed.

(** Errors are found before anything is sent: with an invalid option, more or
    less than one device, a start beyond 32 bits or a device that does not
    open, the program sends no command and exits with the status of the error. *)
Theorem user_refuses fuel v e opts args :
  (∃ status, options opts initial = inl status ∧
     main fuel v e opts args = Some (status, initial)) ∨
  (∃ g, options opts initial = inr g ∧ sent g = [] ∧
     (length args ≠ 1%nat ∨ 2 ^ 32 ≤ lba g →
      main fuel v e opts args = Some (SG_LIB_SYNTAX_ERROR, g)) ∧
     (length args = 1%nat → lba g < 2 ^ 32 → open_ret e < 0 →
      main fuel v e opts args = Some (SG_LIB_FILE_ERROR, g))).
Proof.
  unfold main. destruct (options opts initial) as [st|g] eqn:E.
  - left. by exists st.
  - right. exists g. split; [done|]. split_and!.
    + by apply options_sent in E.
    + intros H. destruct (1 <? Z.of_nat (length args)) eqn:?; zbool; [done|].
      destruct (lba g >? 0xffffffff) eqn:?; zbool; [done|].
      destruct args; [done|]. cbn [length] in *. lia.
    + intros Ha Hl Ho. rewrite Ha. cbn [Z.of_nat Pos.of_succ_nat]. change (1 <? 1) with false. cbn iota.
      destruct (lba g >? 0xffffffff) eqn:?; zbool; [lia|]. destruct args; [done|].
      destruct (open_ret e <? 0) eqn:?; zbool; [done|lia].
Qed.

(** ** Concrete runs *)

(** 16 KB segments on a device with 4096-byte blocks. *)
Definition demo_globals : globals :=
  mk_globals 16384 65536 SEQLSCRUB 0 0 0 0 0 0 0 [].

Definition demo_good : verify10 := λ _ _ _, 0.

Lemma demo_good_supported : supported demo_good.
Proof. done. Qed.


(** Segments of 4 blocks on a device of 10: blocks 8 to 13 are read last. *)
Definition demo_blocks : globals := set_segment_size 4 demo_globals.

Lemma user_overrun_witness :
  ∃ g' c, seqscrub 10 demo_good 10 demo_blocks = Some (0, g') ∧ c ∈ sent g' ∧ 10 < c.1 + c.2.
Proof.
  apply (user_overrun 10 demo_good 10 demo_blocks 2 2);
    [exact demo_good_supported|cbn; lia|reflexivity|cbn; lia|lia|lia|reflexivity|cbn; lia].
Defined.

Lemma user_spins_witness :
  seqscrub 1000 demo_good 4 (set_lba 1 demo_blocks) = None.
Proof. apply user_spins; [cbn; lia|cbn; lia|]. right. split; [reflexivity|cbn; lia]. Defined.

Lemma user_segread_same_address_witness :
  ∃ ret g' cs, segread demo_good 100 200000 demo_blocks = Some (ret, g') ∧
    sent g' = cs ∧ Forall (λ c, c.1 = 100) cs.
Proof.
  destruct (user_segread_same_address demo_good 100 200000 demo_blocks)
    as (ret & g' & cs & E & Hs & Ha & _); [lia|lia|].
  exists ret, g', cs. split; [exact E|]. split; [exact Hs|exact Ha].
Defined.
