(* ===== verification/RequestPool.v ===== *)
(** * Allocation of requests (block/blk-core.c, block/blk-sysfs.c)

    A queue hands out a limited number of requests.  [get_request] counts them
    per side (synchronous or not), marks the queue congested and full, lets a
    process that found the queue full finish a batch, and denies the rest;
    [get_request_wait] sleeps until a request is freed.  The lock is dropped
    around the allocation itself, so other processes run in the middle: the
    operations here are the sections under the lock, and [step] interleaves
    them. *)
From S2P Require Import Prelude Vsprintf.
From S2P Require Deadline.

(** ** Data *)

(** An array indexed by [BLK_RW_ASYNC] and [BLK_RW_SYNC]. *)
Record sides (A : Type) := mk_sides { s_async : A; s_sync : A }.
Arguments mk_sides {A} _ _.
Arguments s_async {A} _.
Arguments s_sync {A} _.

Definition side {A} (s : bool) (x : sides A) : A := if s then s_sync x else s_async x.
Definition set_side {A} (s : bool) (v : A) (x : sides A) : sides A :=
  if s then mk_sides (s_async x) v else mk_sides v (s_sync x).

Record ioc := mk_ioc { nr_batch_requests : Z; last_waited : Z }.

(** [struct request_list] and the members of [struct request_queue] that go with
    it.  A process is named by a number, which also names its I/O context. *)
Record pool := mk_pool {
  count : sides Z;
  starved : sides Z;
  elvpriv : Z;
  wait : sides (list nat);   (** processes asleep, the first to be woken in front *)
  woken : sides (list nat);   (** processes that were woken and have not run yet *)
  full : sides bool;   (** [QUEUE_FLAG_SYNCFULL], [QUEUE_FLAG_ASYNCFULL] *)
  congested : sides bool;   (** the congestion bits of the backing device *)
  nr_requests : Z;
  nr_congestion_on : Z;
  nr_congestion_off : Z;
  nr_batching : Z;
  elvswitch : bool;   (** [QUEUE_FLAG_ELVSWITCH] *)
  iocs : gmap nat ioc;   (** the I/O contexts of the processes *)
  now : Z;   (** [jiffies] *)
}.

Definition set_count (v : sides Z) (p : pool) : pool :=
  mk_pool v (starved p) (elvpriv p) (wait p) (woken p) (full p) (congested p) (nr_requests p)
    (nr_congestion_on p) (nr_congestion_off p) (nr_batching p) (elvswitch p) (iocs p) (now p).
Definition set_starved (v : sides Z) (p : pool) : pool :=
  mk_pool (count p) v (elvpriv p) (wait p) (woken p) (full p) (congested p) (nr_requests p)
    (nr_congestion_on p) (nr_congestion_off p) (nr_batching p) (elvswitch p) (iocs p) (now p).
Definition set_elvpriv (v : Z) (p : pool) : pool :=
  mk_pool (count p) (starved p) v (wait p) (woken p) (full p) (congested p) (nr_requests p)
    (nr_congestion_on p) (nr_congestion_off p) (nr_batching p) (elvswitch p) (iocs p) (now p).
Definition set_wait (v : sides (list nat)) (p : pool) : pool :=
  mk_pool (count p) (starved p) (elvpriv p) v (woken p) (full p) (congested p) (nr_requests p)
    (nr_congestion_on p) (nr_congestion_off p) (nr_batching p) (elvswitch p) (iocs p) (now p).
Definition set_woken (v : sides (list nat)) (p : pool) : pool :=
  mk_pool (count p) (starved p) (elvpriv p) (wait p) v (full p) (congested p) (nr_requests p)
    (nr_congestion_on p) (nr_congestion_off p) (nr_batching p) (elvswitch p) (iocs p) (now p).
Definition set_full (v : sides bool) (p : pool) : pool :=
  mk_pool (count p) (starved p) (elvpriv p) (wait p) (woken p) v (congested p) (nr_requests p)
    (nr_congestion_on p) (nr_congestion_off p) (nr_batching p) (elvswitch p) (iocs p) (now p).
Definition set_congested (v : sides bool) (p : pool) : pool :=
  mk_pool (count p) (starved p) (elvpriv p) (wait p) (woken p) (full p) v (nr_requests p)
    (nr_congestion_on p) (nr_congestion_off p) (nr_batching p) (elvswitch p) (iocs p) (now p).
Definition set_nr_requests (v : Z) (p : pool) : pool :=
  mk_pool (count p) (starved p) (elvpriv p) (wait p) (woken p) (full p) (congested p) v
    (nr_congestion_on p) (nr_congestion_off p) (nr_batching p) (elvswitch p) (iocs p) (now p).
Definition set_nr_congestion_on (v : Z) (p : pool) : pool :=
  mk_pool (count p) (starved p) (elvpriv p) (wait p) (woken p) (full p) (congested p)
    (nr_requests p) v (nr_congestion_off p) (nr_batching p) (elvswitch p) (iocs p) (now p).
Definition set_nr_congestion_off (v : Z) (p : pool) : pool :=
  mk_pool (count p) (starved p) (elvpriv p) (wait p) (woken p) (full p) (congested p)
    (nr_requests p) (nr_congestion_on p) v (nr_batching p) (elvswitch p) (iocs p) (now p).
Definition set_nr_batching (v : Z) (p : pool) : pool :=
  mk_pool (count p) (starved p) (elvpriv p) (wait p) (woken p) (full p) (congested p)
    (nr_requests p) (nr_congestion_on p) (nr_congestion_off p) v (elvswitch p) (iocs p) (now p).
Definition set_elvswitch (v : bool) (p : pool) : pool :=
  mk_pool (count p) (starved p) (elvpriv p) (wait p) (woken p) (full p) (congested p)
    (nr_requests p) (nr_congestion_on p) (nr_congestion_off p) (nr_batching p) v (iocs p)
    (now p).
Definition set_iocs (v : gmap nat ioc) (p : pool) : pool :=
  mk_pool (count p) (starved p) (elvpriv p) (wait p) (woken p) (full p) (congested p)
    (nr_requests p) (nr_congestion_on p) (nr_congestion_off p) (nr_batching p) (elvswitch p) v
    (now p).
Definition set_now (v : Z) (p : pool) : pool :=
  mk_pool (count p) (starved p) (elvpriv p) (wait p) (woken p) (full p) (congested p)
    (nr_requests p) (nr_congestion_on p) (nr_congestion_off p) (nr_batching p) (elvswitch p)
    (iocs p) v.

(** ** Thresholds *)

Definition BLKDEV_MIN_RQ : Z := 4.
Definition BLK_BATCH_TIME : Z := 1000 / 50.

(** [nr] is an [int]; the number of requests is an [unsigned long]. *)
Definition blk_queue_congestion_threshold (p : pool) : pool :=
  let n := nr_requests p in
  let nr := s32 (u64 (n - n / 8 + 1)) in
  let nr := if n <? u64 nr then s32 n else nr in
  let p := set_nr_congestion_on (u32 nr) p in
  let nr := s32 (u64 (n - n / 8 - n / 16 - 1)) in
  let nr := if nr <? 1 then 1 else nr in
  set_nr_congestion_off (u32 nr) p.

Definition queue_congestion_on_threshold (p : pool) : Z := s32 (nr_congestion_on p).
Definition queue_congestion_off_threshold (p : pool) : Z := s32 (nr_congestion_off p).

(** ** Batches *)

Definition ioc_batching (p : pool) (c : option nat) : bool :=
  match c ≫= λ i, iocs p !! i with
  | None => false
  | Some io =>
      (u32 (nr_batch_requests io) =? nr_batching p)
      || ((0 <? nr_batch_requests io)
          && Deadline.time_before (now p) (u64 (last_waited io + BLK_BATCH_TIME)))
  end.

Definition ioc_set_batching (c : option nat) (p : pool) : pool :=
  match c with
  | None => p
  | Some i =>
      if ioc_batching p c then p
      else set_iocs (<[i := mk_ioc (s32 (nr_batching p)) (now p)]> (iocs p)) p
  end.

(** ** Freeing *)

(** [wake_up] of an exclusive waiter: the first one. *)
Definition wake_up (s : bool) (p : pool) : pool :=
  match side s (wait p) with
  | [] => p
  | i :: l =>
      set_woken (set_side s (side s (woken p) ++ [i]) (woken p))
        (set_wait (set_side s l (wait p)) p)
  end.

Definition __freed_request (s : bool) (p : pool) : pool :=
  let p := if side s (count p) <? queue_congestion_off_threshold p
           then set_congested (set_side s false (congested p)) p else p in
  if u64 (side s (count p) + 1) <=? nr_requests p then
    set_full (set_side s false (full p)) (wake_up s p)
  else p.

Definition freed_request (s priv : bool) (p : pool) : pool :=
  let p := set_count (set_side s (side s (count p) - 1) (count p)) p in
  let p := if priv then set_elvpriv (elvpriv p - 1) p else p in
  let p := __freed_request s p in
  if truthy (side (negb s) (starved p)) then __freed_request (negb s) p else p.

(** ** Getting a request *)

(** What [elv_may_queue] answers. *)
Inductive mqueue := ELV_MQUEUE_MAY | ELV_MQUEUE_NO | ELV_MQUEUE_MUST.

#[export] Instance mqueue_eq_dec : EqDecision mqueue.
Proof. solve_decision. Defined.

(** The label [rq_starved]. *)
Definition rq_starved (s : bool) (p : pool) : pool :=
  if side s (count p) =? 0 then set_starved (set_side s 1 (starved p)) p else p.

(** The tests on a queue near its limit: the I/O context to charge, or [None] when
    the process has to go out.  [c] is what [current_io_context] gives. *)
Definition near_limit (may_queue : mqueue) (s : bool) (c : option nat) (p : pool)
    : option (option nat * pool) :=
  if queue_congestion_on_threshold p <=? side s (count p) + 1 then
    '(c, p) ← (if nr_requests p <=? u64 (side s (count p) + 1) then
                 if negb (side s (full p)) then
                   Some (c, set_full (set_side s true (full p)) (ioc_set_batching c p))
                 else if bool_decide (may_queue ≠ ELV_MQUEUE_MUST) && negb (ioc_batching p c) then None
                 else Some (c, p)
               else Some (None, p));
    Some (c, set_congested (set_side s true (congested p)) p)
  else Some (None, p).

Inductive grant := Denied | Granted (priv : bool) (c : option nat).

(** [get_request] up to the allocation. *)
Definition get_request (may_queue : mqueue) (s : bool) (c : option nat) (p : pool) : grant * pool :=
  if bool_decide (may_queue = ELV_MQUEUE_NO) then (Denied, rq_starved s p) else
  match near_limit may_queue s c p with
  | None => (Denied, p)
  | Some (c, p) =>
      if u64 (3 * nr_requests p) / 2 <=? u64 (side s (count p)) then (Denied, p) else
      let p := set_count (set_side s (side s (count p) + 1) (count p)) p in
      let p := set_starved (set_side s 0 (starved p)) p in
      let priv := negb (elvswitch p) in
      (Granted priv c, if priv then set_elvpriv (elvpriv p + 1) p else p)
  end.

(** [get_request] from there: [ok] is whether [blk_alloc_request] gave one. *)
Definition got_request (ok : bool) (s priv : bool) (c : option nat) (p : pool) : pool :=
  if ok then
    match c ≫= λ i, iocs p !! i, c with
    | Some io, Some i =>
        if ioc_batching p c
        then set_iocs (<[i := mk_ioc (nr_batch_requests io - 1) (last_waited io)]> (iocs p)) p
        else p
    | _, _ => p
    end
  else rq_starved s (freed_request s priv p).

(** [prepare_to_wait_exclusive] in [get_request_wait], the lock still held *)
Definition sleep_on (s : bool) (i : nat) (p : pool) : pool :=
  set_wait (set_side s (side s (wait p) ++ [i]) (wait p)) p.

(** ** The limit *)

Definition set_pool_congested (s : bool) (p : pool) : pool :=
  if queue_congestion_on_threshold p <=? side s (count p) then
    set_congested (set_side s true (congested p)) p
  else if side s (count p) <? queue_congestion_off_threshold p then
    set_congested (set_side s false (congested p)) p
  else p.

Definition set_pool_full (s : bool) (p : pool) : pool :=
  if nr_requests p <=? u64 (side s (count p)) then set_full (set_side s true (full p)) p
  else if u64 (side s (count p) + 1) <=? nr_requests p then
    wake_up s (set_full (set_side s false (full p)) p)
  else p.

(** [request_fn] is whether the queue has a driver behind it. *)
Definition queue_requests_store (request_fn : bool) (page : string) (size : Z) (p : pool) : Z * pool :=
  if negb request_fn then (- EINVAL, p) else
  let nr := (simple_strtoul page 10).1 in
  let nr := if nr <? BLKDEV_MIN_RQ then BLKDEV_MIN_RQ else nr in
  let p := blk_queue_congestion_threshold (set_nr_requests nr p) in
  let p := set_pool_congested false (set_pool_congested true p) in
  (size, set_pool_full false (set_pool_full true p)).

(** ** Processes *)

(** A process between the two sections of [get_request], and a request in use. *)
Record claimant := mk_claimant {
  cl_pid : nat; cl_sync : bool; cl_priv : bool; cl_ioc : option nat; cl_waits : bool }.
Record live_rq := mk_live { lv_sync : bool; lv_priv : bool }.

Record world := mk_world { pl : pool; claims : list claimant; live : list live_rq }.

(** The list without its [n]-th element. *)
Definition removed {A} (n : nat) (l : list A) : list A := delete n l.

(** What happens under the lock, one at a time.  A process asks for a request and
    may be one that waits for it; a process that was woken asks again; an
    allocation ends; a request is put; the limit is written; the scheduler is being
    switched or no longer is; time passes. *)
Inductive event :=
| EAsk (pid : nat) (mq : mqueue) (sync : bool) (c : option nat) (waits : bool)
| EAgain (n : nat) (mq : mqueue) (sync : bool) (c : option nat)
| EAlloc (n : nat) (ok : bool)
| EPut (n : nat)
| EStore (page : string)
| ESwitch (on : bool)
| ETick.

(** One attempt; a process that is denied and waits goes to sleep.  An [int] that
    overflows has no meaning, so there is no step from the largest count. *)
Definition ask (pid : nat) (mq : mqueue) (s : bool) (c : option nat) (waits : bool) (w : world)
    : option world :=
  guard (side s (count (pl w)) < 2 ^ 31 - 1);;
  match get_request mq s c (pl w) with
  | (Denied, p) => Some (mk_world (if waits then sleep_on s pid p else p) (claims w) (live w))
  | (Granted priv c, p) => Some (mk_world p (mk_claimant pid s priv c waits :: claims w) (live w))
  end.

Definition step (e : event) (w : world) : option world :=
  match e with
  | EAsk pid mq s c waits => guard (c = None ∨ c = Some pid);; ask pid mq s c waits w
  | EAgain n mq s c =>
      pid ← side s (woken (pl w)) !! n;
      guard (c = None ∨ c = Some pid);;
      let p := set_woken (set_side s (removed n (side s (woken (pl w)))) (woken (pl w))) (pl w) in
      ask pid mq s c true (mk_world (ioc_set_batching c p) (claims w) (live w))
  | EAlloc n ok =>
      cl ← claims w !! n;
      let p := got_request ok (cl_sync cl) (cl_priv cl) (cl_ioc cl) (pl w) in
      Some (mk_world (if negb ok && cl_waits cl then sleep_on (cl_sync cl) (cl_pid cl) p else p)
              (removed n (claims w))
              (if ok then mk_live (cl_sync cl) (cl_priv cl) :: live w else live w))
  | EPut n =>
      r ← live w !! n;
      Some (mk_world (freed_request (lv_sync r) (lv_priv r) (pl w)) (claims w) (removed n (live w)))
  | EStore page => Some (mk_world (queue_requests_store true page 0 (pl w)).2 (claims w) (live w))
  | ESwitch on => Some (mk_world (set_elvswitch on (pl w)) (claims w) (live w))
  | ETick => Some (mk_world (set_now (u64 (now (pl w) + 1)) (pl w)) (claims w) (live w))
  end.

Fixpoint run (es : list event) (w : world) : option world :=
  match es with [] => Some w | e :: es => w ← step e w; run es w end.

(** [blk_init_free_list] and the defaults of [blk_queue_make_request] *)
Definition init_pool : pool :=
  blk_queue_congestion_threshold
    (mk_pool (mk_sides 0 0) (mk_sides 0 0) 0 (mk_sides [] []) (mk_sides [] [])
       (mk_sides false false) (mk_sides false false) 128 0 0 32 false ∅ 0).
Definition init_world : world := mk_world init_pool [] [].

(** ** Lemmas *)

Lemma side_set_eq {A} s (v : A) x : side s (set_side s v x) = v.
Proof. by destruct s. Qed.
Lemma side_set_ne {A} s t (v : A) x : s ≠ t → side t (set_side s v x) = side t x.
Proof. by destruct s, t. Qed.
Lemma side_set {A} s t (v : A) x : side t (set_side s v x) = if decide (s = t) then v else side t x.
Proof. case_decide; [subst; apply side_set_eq|by apply side_set_ne]. Qed.

(** The part of the pool that the invariant is about. *)
Definition core (p : pool) : sides Z * sides Z * Z * sides (list nat) * sides (list nat) * Z * bool :=
  (count p, starved p, elvpriv p, wait p, woken p, nr_requests p, elvswitch p).

Ltac core_eqs H :=
  unfold core in H; injection H as ?Hcount ?Hstarved ?Hpriv ?Hwait ?Hwoken ?Hnr ?Hswitch.

Lemma core_starved p p' : core p = core p' → starved p = starved p'.
Proof. unfold core. congruence. Qed.

Lemma ioc_set_batching_core c p : core (ioc_set_batching c p) = core p.
Proof. unfold ioc_set_batching. by repeat case_match. Qed.

Lemma core_congested v p : core (set_congested v p) = core p.
Proof. done. Qed.
Lemma core_full v p : core (set_full v p) = core p.
Proof. done. Qed.

Lemma near_limit_core mq s c p c' p' : near_limit mq s c p = Some (c', p') → core p' = core p.
Proof.
  unfold near_limit. intros E. repeat case_match; cbn [mbind option_bind] in E; simplify_eq;
    by rewrite ?core_congested, ?core_full, ?ioc_set_batching_core.
Qed.

Lemma threshold_core p : core (blk_queue_congestion_threshold p) = core p.
Proof. done. Qed.

Lemma set_pool_congested_core s p : core (set_pool_congested s p) = core p.
Proof. unfold set_pool_congested. by repeat case_match. Qed.

(** *** Counting *)

Definition tally {A} (f : A → bool) (l : list A) : Z := Z.of_nat (length (List.filter f l)).

Lemma tally_cons {A} (f : A → bool) x l : tally f (x :: l) = (if f x then 1 else 0) + tally f l.
Proof. unfold tally. cbn [List.filter]. destruct (f x); cbn [length]; lia. Qed.

Lemma tally_delete {A} (f : A → bool) l n x :
  l !! n = Some x → tally f l = (if f x then 1 else 0) + tally f (removed n l).
Proof.
  revert n. induction l as [|y l IH]; intros [|n] H; try done.
  - cbn in H. simplify_eq. apply tally_cons.
  - change (removed (S n) (y :: l)) with (y :: removed n l). rewrite !tally_cons, (IH n H). lia.
Qed.

Lemma tally_nonneg {A} (f : A → bool) l : 0 ≤ tally f l.
Proof. unfold tally. lia. Qed.

(** *** The invariant *)

(** Somebody will wake the sleepers of a side: a process that was woken already,
    the request that is freed next, or, when the side has none, the one that is
    freed on the other side. *)
Definition wait_ok (p : pool) (s : bool) : Prop :=
  side s (wait p) = [] ∨ side s (woken p) ≠ [] ∨ 0 < side s (count p) ∨ side s (starved p) ≠ 0.

Definition on_side (s : bool) (w : world) : Z :=
  tally (λ c, eqb (cl_sync c) s) (claims w) + tally (λ r, eqb (lv_sync r) s) (live w).
Definition with_priv (w : world) : Z := tally cl_priv (claims w) + tally lv_priv (live w).

Record pool_inv (w : world) : Prop := {
  inv_count s : side s (count (pl w)) = on_side s w;
  inv_small s : side s (count (pl w)) < 2 ^ 31;
  inv_priv : elvpriv (pl w) = with_priv w;
  inv_wait s : wait_ok (pl w) s;
  inv_nr : 4 ≤ nr_requests (pl w) ≤ 2 ^ 62 }.

Lemma on_side_mk s p cs ls :
  on_side s (mk_world p cs ls) = tally (λ c, eqb (cl_sync c) s) cs + tally (λ r, eqb (lv_sync r) s) ls.
Proof. done. Qed.
Lemma with_priv_mk p cs ls : with_priv (mk_world p cs ls) = tally cl_priv cs + tally lv_priv ls.
Proof. done. Qed.

Lemma on_side_nonneg s w : 0 ≤ on_side s w.
Proof. unfold on_side. pose proof (tally_nonneg (λ c, eqb (cl_sync c) s) (claims w)).
  pose proof (tally_nonneg (λ r, eqb (lv_sync r) s) (live w)). lia. Qed.

Lemma wake_up_ok s p : wait_ok (wake_up s p) s.
Proof.
  unfold wake_up. destruct (side s (wait p)) as [|i l] eqn:E; [by left|]. right. left. cbn.
  rewrite side_set_eq. by destruct (side s (woken p)).
Qed.

Lemma wake_up_other s t p : wait_ok p t → wait_ok (wake_up s p) t.
Proof.
  intros H. destruct (decide (s = t)) as [->|Hne]; [apply wake_up_ok|].
  unfold wake_up, wait_ok in *. case_match; [done|]. cbn. by rewrite !side_set_ne.
Qed.

Lemma wake_up_core s p :
  count (wake_up s p) = count p ∧ starved (wake_up s p) = starved p ∧
  elvpriv (wake_up s p) = elvpriv p ∧ nr_requests (wake_up s p) = nr_requests p ∧
  elvswitch (wake_up s p) = elvswitch p.
Proof. unfold wake_up. by case_match. Qed.

(** What freeing does to the counters. *)
Lemma __freed_core s p :
  count (__freed_request s p) = count p ∧ starved (__freed_request s p) = starved p ∧
  elvpriv (__freed_request s p) = elvpriv p ∧ nr_requests (__freed_request s p) = nr_requests p ∧
  elvswitch (__freed_request s p) = elvswitch p.
Proof.
  unfold __freed_request. set (p1 := if _ <? _ then _ else p).
  assert (core p1 = core p) as E by (unfold p1; by case_match). core_eqs E.
  destruct (wake_up_core s p1) as (? & ? & ? & ? & ?).
  destruct (_ <=? _); cbn; split_and!; congruence.
Qed.

Lemma wait_ok_full v p t : wait_ok (set_full v p) t ↔ wait_ok p t.
Proof. done. Qed.
Lemma wait_ok_congested v p t : wait_ok (set_congested v p) t ↔ wait_ok p t.
Proof. done. Qed.

Lemma __freed_wait s t p : wait_ok p t → wait_ok (__freed_request s p) t.
Proof.
  intros H. unfold __freed_request. destruct (_ <? _); (destruct (_ <=? _); [|done]).
  - by apply wait_ok_full, wake_up_other.
  - by apply wait_ok_full, wake_up_other.
Qed.

(** Whoever frees a request of a side leaves its sleepers in good hands. *)
Lemma __freed_ok s p :
  0 ≤ side s (count p) < 2 ^ 31 → 4 ≤ nr_requests p → wait_ok (__freed_request s p) s.
Proof.
  intros Hc Hn. destruct (decide (side s (count p) = 0)) as [E|Hne].
  - unfold __freed_request. destruct (_ <? _); cbn [count nr_requests set_congested]; rewrite E;
      (replace (u64 (0 + 1) <=? _)
        with true by (symmetry; apply Z.leb_le; change (u64 (0 + 1)) with 1; cbn; lia));
      apply wait_ok_full, wake_up_ok.
  - destruct (__freed_core s p) as (E & _). right. right. left. rewrite E. lia.
Qed.

Lemma freed_core s priv p :
  count (freed_request s priv p) = set_side s (side s (count p) - 1) (count p) ∧
  starved (freed_request s priv p) = starved p ∧
  elvpriv (freed_request s priv p) = elvpriv p - (if priv then 1 else 0) ∧
  nr_requests (freed_request s priv p) = nr_requests p ∧
  elvswitch (freed_request s priv p) = elvswitch p.
Proof.
  unfold freed_request. set (p1 := if priv then _ else _).
  assert (count p1 = set_side s (side s (count p) - 1) (count p) ∧ starved p1 = starved p ∧
    elvpriv p1 = elvpriv p - (if priv then 1 else 0) ∧ nr_requests p1 = nr_requests p ∧
    elvswitch p1 = elvswitch p) as (E1 & E2 & E3 & E4 & E5).
  { unfold p1. destruct priv; cbn; split_and!; try done; lia. }
  destruct (__freed_core s p1) as (F1 & F2 & F3 & F4 & F5).
  destruct (truthy _); [|by rewrite F1, F2, F3, F4, F5].
  destruct (__freed_core (negb s) (__freed_request s p1)) as (G1 & G2 & G3 & G4 & G5).
  by rewrite G1, G2, G3, G4, G5, F1, F2, F3, F4, F5.
Qed.

Lemma freed_wait s priv p :
  0 < side s (count p) < 2 ^ 31 → 4 ≤ nr_requests p → (∀ t, wait_ok p t) →
  ∀ t, wait_ok (freed_request s priv p) t.
Proof.
  intros Hc Hn Hw. unfold freed_request. set (p1 := if priv then _ else _).
  assert (count p1 = set_side s (side s (count p) - 1) (count p) ∧ nr_requests p1 = nr_requests p ∧
    wait p1 = wait p ∧ woken p1 = woken p ∧ starved p1 = starved p) as (E1 & E2 & E3 & E4 & E5).
  { unfold p1. by destruct priv. }
  assert (∀ t, wait_ok (__freed_request s p1) t) as H1.
  { intros t. destruct (decide (t = s)) as [->|Hne].
    - apply __freed_ok; rewrite ?E1, ?E2, ?side_set_eq; lia.
    - apply __freed_wait. pose proof (Hw t) as H. unfold wait_ok in *.
      rewrite E1, E3, E4, E5, side_set_ne by done. done. }
  intros t. destruct (truthy _); [|done]. by apply __freed_wait.
Qed.

(** *** Asking *)

Lemma limit_positive n : 4 ≤ n ≤ 2 ^ 62 → u64 (3 * n) / 2 = 3 * n / 2 ∧ 6 ≤ 3 * n / 2.
Proof. intros H. rewrite u64_small by (unfold in_u64; lia). split; [done|dlia]. Qed.

(** Nobody is denied a request while nothing could wake them. *)
Lemma denied_reason mq s c p p' :
  4 ≤ nr_requests p ≤ 2 ^ 62 → 0 ≤ side s (count p) < 2 ^ 31 - 1 →
  get_request mq s c p = (Denied, p') → 0 < side s (count p') ∨ side s (starved p') ≠ 0.
Proof.
  intros Hn Hc. unfold get_request. case_bool_decide.
  - intros [= <-]. unfold rq_starved. destruct (_ =? 0) eqn:E; zbool; [|left; lia].
    right. cbn. by rewrite side_set_eq.
  - destruct (near_limit mq s c p) as [[c' p1]|] eqn:E.
    + apply near_limit_core in E. core_eqs E. destruct (_ <=? _) eqn:El; [|done]. intros [= <-].
      zbool. left.
      destruct (limit_positive _ Hn) as [Hl ?]. rewrite Hnr, Hcount in *.
      rewrite Hl, u64_small in El by (unfold in_u64; lia). lia.
    + intros [= <-]. left. unfold near_limit in E. destruct (_ <=? _); [|done].
      destruct (nr_requests p <=? _) eqn:El; [|done]. zbool.
      rewrite u64_small in El by (unfold in_u64; lia). lia.
Qed.

Lemma denied_core mq s c p p' :
  get_request mq s c p = (Denied, p') →
  count p' = count p ∧ elvpriv p' = elvpriv p ∧ wait p' = wait p ∧ woken p' = woken p ∧
  nr_requests p' = nr_requests p ∧ elvswitch p' = elvswitch p ∧
  ∀ t, side t (starved p) ≠ 0 → side t (starved p') ≠ 0.
Proof.
  unfold get_request. case_bool_decide.
  - intros [= <-]. unfold rq_starved. destruct (_ =? 0); cbn; split_and!; try done.
    intros t. rewrite side_set. by case_decide.
  - destruct (near_limit mq s c p) as [[c' p1]|] eqn:E; [|by intros [= <-]].
    apply near_limit_core in E. core_eqs E. destruct (_ <=? _); [|done]. intros [= <-].
    rewrite Hcount, Hpriv, Hwait, Hwoken, Hnr, Hswitch, Hstarved. done.
Qed.

Lemma granted_core mq s c p priv c' p' :
  get_request mq s c p = (Granted priv c', p') →
  count p' = set_side s (side s (count p) + 1) (count p) ∧
  starved p' = set_side s 0 (starved p) ∧
  elvpriv p' = elvpriv p + (if priv then 1 else 0) ∧
  wait p' = wait p ∧ woken p' = woken p ∧ nr_requests p' = nr_requests p ∧
  elvswitch p' = elvswitch p ∧ priv = negb (elvswitch p) ∧
  u64 (side s (count p)) < u64 (3 * nr_requests p) / 2.
Proof.
  unfold get_request. case_bool_decide; [done|].
  destruct (near_limit mq s c p) as [[c1 p1]|] eqn:E; [|done].
  apply near_limit_core in E. core_eqs E. destruct (_ <=? _) eqn:El; [done|]. zbool.
  intros [= <- <- <-].
  destruct (elvswitch p1) eqn:Es; cbn; rewrite ?Hcount, ?Hpriv, ?Hwait, ?Hwoken, ?Hnr, ?Hstarved in *;
    split_and!; try done; try lia; by rewrite <- Hswitch.
Qed.

(** *** Preservation *)

Lemma eqb_ne s t : s ≠ t → eqb s t = false.
Proof. by destruct s, t. Qed.

Lemma ask_inv pid mq s c waits w w' :
  (∀ t, side t (count (pl w)) = on_side t w) → (∀ t, side t (count (pl w)) < 2 ^ 31) →
  elvpriv (pl w) = with_priv w → (∀ t, s ≠ t → wait_ok (pl w) t) → 4 ≤ nr_requests (pl w) ≤ 2 ^ 62 →
  ask pid mq s c waits w = Some w' → pool_inv w'.
Proof.
  intros Hc Hs Hp Hw Hn. unfold ask. case_guard as Hlt; [|done]. cbn.
  destruct (get_request mq s c (pl w)) as [[|priv c'] p'] eqn:E; intros [= <-].
  - pose proof (on_side_nonneg s w) as H0. rewrite <- Hc in H0.
    pose proof (denied_reason mq s c (pl w) p' Hn ltac:(lia) E) as Hr.
    apply denied_core in E as (Ec & Ep & Ew & Ek & En & _ & Hst).
    assert (∀ t, wait_ok p' t) as Hw'.
    { intros t. destruct (decide (s = t)) as [<-|Hne]; [unfold wait_ok; tauto|].
      specialize (Hw t Hne). unfold wait_ok in *. rewrite Ec, Ew, Ek. specialize (Hst t). tauto. }
    split; destruct waits; cbn; try (by intros; rewrite ?Ec, ?Ep, ?En; auto).
    intros t. destruct (decide (s = t)) as [<-|Hne]; [unfold wait_ok; cbn; tauto|].
    specialize (Hw' t). unfold wait_ok in *. cbn. by rewrite side_set_ne.
  - apply granted_core in E as (Ec & Es & Ep & Ew & Ek & En & _).
    split; cbn; rewrite ?Ec, ?Ep, ?En; try done.
    + intros t. unfold on_side in *. cbn. rewrite side_set, tally_cons, Hc. cbn.
      case_decide as Ht; [subst; rewrite eqb_reflx; lia|].
      rewrite eqb_ne by done. rewrite Hc. lia.
    + intros t. rewrite side_set. case_decide; [lia|apply Hs].
    + unfold with_priv in *. cbn. rewrite tally_cons. cbn. destruct priv; lia.
    + intros t. unfold wait_ok. rewrite Ec, Es, Ew, Ek, !side_set.
      case_decide as Ht; [|by apply Hw].
      right. right. left. rewrite Hc. pose proof (on_side_nonneg s w). lia.
Qed.

(** A request of the side [s] that went: [w'] is [w] without it. *)
Lemma freed_inv (s priv : bool) w cs ls :
  pool_inv w →
  (∀ t, on_side t (mk_world (pl w) cs ls) = on_side t w - if decide (s = t) then 1 else 0) →
  with_priv (mk_world (pl w) cs ls) = with_priv w - (if priv then 1 else 0) →
  pool_inv (mk_world (freed_request s priv (pl w)) cs ls).
Proof.
  intros [Hc Hs Hp Hw Hn] Ho Hpr. destruct (freed_core s priv (pl w)) as (Ec & Es & Ep & En & _).
  pose proof (Ho s) as Hos. rewrite decide_True in Hos by done.
  pose proof (on_side_nonneg s (mk_world (pl w) cs ls)) as H0.
  split; cbn [pl]; rewrite ?Ec, ?Ep, ?En; try done.
  - intros t. rewrite side_set, !Hc. pose proof (Ho t) as Ht. unfold on_side in *.
    cbn [claims live] in *.
    case_decide; [subst|]; lia.
  - intros t. rewrite side_set. case_decide; [subst|]; pose proof (Hs t); lia.
  - unfold with_priv in *. cbn [claims live] in *. lia.
  - apply freed_wait; [|lia|done]. rewrite Hc. pose proof (Hs s). rewrite Hc in *. lia.
Qed.

Lemma same_inv p w :
  core p = core (pl w) → pool_inv w → pool_inv (mk_world p (claims w) (live w)).
Proof.
  intros E [Hc Hs Hp Hw Hn]. core_eqs E. split; cbn; rewrite ?Hcount, ?Hpriv, ?Hnr; try done.
  intros s. unfold wait_ok. rewrite Hwait, Hwoken, Hcount, Hstarved. apply Hw.
Qed.

Lemma sleep_inv s pid w :
  0 < side s (count (pl w)) ∨ side s (starved (pl w)) ≠ 0 →
  pool_inv w → pool_inv (mk_world (sleep_on s pid (pl w)) (claims w) (live w)).
Proof.
  intros Hr [Hc Hs Hp Hw Hn]. split; cbn; try done. intros t. destruct (decide (s = t)) as [<-|Hne].
  - unfold wait_ok. cbn. tauto.
  - specialize (Hw t). unfold wait_ok in *. cbn. by rewrite side_set_ne.
Qed.

Lemma starved_inv s w :
  pool_inv w →
  pool_inv (mk_world (rq_starved s (pl w)) (claims w) (live w)) ∧
  (0 < side s (count (rq_starved s (pl w))) ∨ side s (starved (rq_starved s (pl w))) ≠ 0).
Proof.
  intros Hinv. pose proof Hinv as [Hc Hs Hp Hw Hn]. unfold rq_starved.
  destruct (_ =? 0) eqn:E; zbool.
  - split; [|right; cbn; by rewrite side_set_eq]. split; cbn; try done. intros t. unfold wait_ok.
    cbn.
    rewrite side_set. case_decide; [auto|apply Hw].
  - split; [by apply same_inv|]. left. pose proof (on_side_nonneg s w). rewrite Hc in *. lia.
Qed.

Lemma set_full_inv s p cs ls :
  pool_inv (mk_world p cs ls) → pool_inv (mk_world (set_pool_full s p) cs ls).
Proof.
  intros Hinv. unfold set_pool_full.
  destruct (_ <=? _); [by apply (same_inv _ (mk_world p cs ls))|].
  destruct (_ <=? _); [|done]. set (p1 := set_full _ p).
  assert (pool_inv (mk_world p1 cs ls)) as [Hc Hs Hp Hw Hn] by by apply (same_inv _ (mk_world p cs ls)).
  destruct (wake_up_core s p1) as (Ec & Es & Ep & En & _).
  split; cbn [pl] in *; rewrite ?Ec, ?Ep, ?En; try done. intros t. by apply wake_up_other.
Qed.

Lemma store_inv page w :
  (simple_strtoul page 10).1 ≤ 2 ^ 62 → pool_inv w →
  pool_inv (mk_world (queue_requests_store true page 0 (pl w)).2 (claims w) (live w)).
Proof.
  intros Hp Hinv. unfold queue_requests_store. cbn [negb snd]. set (nr := if _ <? _ then _ else _).
  assert (4 ≤ nr ≤ 2 ^ 62) as Hnr.
  { revert Hp nr. generalize (simple_strtoul page 10).1. intros v Hp. unfold BLKDEV_MIN_RQ.
    destruct (v <? 4) eqn:E; zbool; lia. }
  do 2 apply set_full_inv.
  apply (same_inv _ (mk_world (set_nr_requests nr (pl w)) (claims w) (live w))).
  - by rewrite !set_pool_congested_core, threshold_core.
  - destruct Hinv as [Hc Hs Hpr Hw Hn]. by split.
Qed.

Lemma got_core s priv c p : core (got_request true s priv c p) = core p.
Proof. unfold got_request. by repeat case_match. Qed.

Lemma put_inv n r w :
  live w !! n = Some r → pool_inv w →
  pool_inv (mk_world (freed_request (lv_sync r) (lv_priv r) (pl w)) (claims w) (removed n (live w))).
Proof.
  intros H Hinv. apply (freed_inv _ _ w); [done| |].
  - intros t. rewrite on_side_mk. unfold on_side. rewrite (tally_delete _ _ _ _ H).
    case_decide; [subst; rewrite eqb_reflx|rewrite eqb_ne by done]; lia.
  - rewrite with_priv_mk. unfold with_priv. rewrite (tally_delete _ _ _ _ H). lia.
Qed.

Lemma alloc_ok_inv n cl w :
  claims w !! n = Some cl → pool_inv w →
  pool_inv (mk_world (got_request true (cl_sync cl) (cl_priv cl) (cl_ioc cl) (pl w))
    (removed n (claims w)) (mk_live (cl_sync cl) (cl_priv cl) :: live w)).
Proof.
  intros H [Hc Hs Hp Hw Hn]. 
  apply (same_inv _ (mk_world (pl w) (removed n (claims w)) (mk_live (cl_sync cl) (cl_priv cl) :: live w)));
    [apply got_core|].
  split; try done.
  - intros s. change (pl (mk_world (pl w) _ _)) with (pl w). rewrite Hc, on_side_mk. unfold on_side.
    rewrite (tally_delete _ _ _ _ H), tally_cons.
    cbn [lv_sync]. lia.
  - change (pl (mk_world (pl w) _ _)) with (pl w). rewrite Hp, with_priv_mk. unfold with_priv.
    rewrite (tally_delete _ _ _ _ H), tally_cons.
    cbn [lv_priv]. lia.
Qed.

Lemma alloc_fail_inv n cl w :
  claims w !! n = Some cl → pool_inv w →
  let p := got_request false (cl_sync cl) (cl_priv cl) (cl_ioc cl) (pl w) in
  pool_inv (mk_world (if cl_waits cl then sleep_on (cl_sync cl) (cl_pid cl) p else p)
    (removed n (claims w)) (live w)).
Proof.
  intros H Hinv.
  assert (pool_inv (mk_world (freed_request (cl_sync cl) (cl_priv cl) (pl w)) (removed n (claims w)) (live w))) as Hf.
  { apply (freed_inv _ _ w); [done| |].
    - intros t. rewrite on_side_mk. unfold on_side. rewrite (tally_delete _ _ _ _ H).
      case_decide; [subst; rewrite eqb_reflx|rewrite eqb_ne by done]; lia.
    - rewrite with_priv_mk. unfold with_priv. rewrite (tally_delete _ _ _ _ H). lia. }
  apply (starved_inv (cl_sync cl)) in Hf as [Hf Hr]. destruct (cl_waits cl); [|exact Hf].
  by apply (sleep_inv (cl_sync cl) (cl_pid cl)) in Hf.
Qed.

(** The limits that are written stay far from the largest number. *)
Definition event_ok (e : event) : Prop :=
  match e with EStore page => (simple_strtoul page 10).1 ≤ 2 ^ 62 | _ => True end.

Lemma step_inv e w w' : event_ok e → pool_inv w → step e w = Some w' → pool_inv w'.
Proof.
  intros He Hinv E. pose proof Hinv as [Hc Hs Hp Hw Hn]. unfold step in E.
  destruct e as [pid mq s c ws|n mq s c|n ok|n|page|on|].
  - case_guard; [|done]. cbn [mbind option_bind] in E.
    eapply ask_inv; [exact Hc|exact Hs|exact Hp| |exact Hn|exact E]. auto.
  - apply bind_Some in E as (pid & _ & E). case_guard; [|done]. cbn [mbind option_bind] in E.
    set (p := set_woken _ (pl w)) in E. pose proof (ioc_set_batching_core c p) as Ec. core_eqs Ec.
    eapply ask_inv; [..|exact E]; cbn; rewrite ?Hcount, ?Hpriv, ?Hnr; try done.
    intros t Hne. specialize (Hw t). unfold wait_ok in *. rewrite Hwait, Hwoken, Hcount, Hstarved.
    unfold p. cbn.
    by rewrite side_set_ne.
  - apply bind_Some in E as (cl & H & E). apply (inj Some) in E as <-.
    destruct ok; [by apply alloc_ok_inv|by apply alloc_fail_inv].
  - apply bind_Some in E as (r & H & E). apply (inj Some) in E as <-. by apply put_inv.
  - apply (inj Some) in E as <-. by apply store_inv.
  - apply (inj Some) in E as <-. by split.
  - apply (inj Some) in E as <-. by split.
Qed.

Lemma pool_run_inv es w w' : Forall event_ok es → pool_inv w → run es w = Some w' → pool_inv w'.
Proof.
  intros Hes. revert w.
  induction Hes as [|e es He _ IH]; intros w Hw E; cbn [run] in E; [by simplify_eq|].
  apply bind_Some in E as (w1 & E1 & E). apply (IH w1); [by eapply step_inv|done].
Qed.

Lemma init_inv : pool_inv init_world.
Proof. split; try (intros [|]); try done; by left. Qed.

(** *** Progress *)

(** The events that finish what has begun: a woken process asks again, an
    allocation succeeds, a request is put. *)
Definition finishing (e : event) : Prop :=
  match e with EAgain _ ELV_MQUEUE_MAY _ _ | EAlloc _ true | EPut _ => True | _ => False end.

Definition finishes (w w' : world) : Prop := ∃ es, Forall finishing es ∧ run es w = Some w'.

Lemma run_app es1 es2 w : run (es1 ++ es2) w = run es1 w ≫= run es2.
Proof. revert w. induction es1 as [|e es1 IH]; intros w; cbn [run app]; [done|].
by destruct (step e w); cbn. Qed.

#[export] Instance finishes_preorder : PreOrder finishes.
Proof.
  split.
  - intros w. by exists [].
  - intros w1 w2 w3 (es1 & H1 & E1) (es2 & H2 & E2). exists (es1 ++ es2).
    split; [by apply Forall_app|]. by rewrite run_app, E1.
Qed.

Lemma finishes_step e w w' : finishing e → step e w = Some w' → finishes w w'.
Proof. intros He E. exists [e]. split; [by constructor|]. cbn [run]. by rewrite E. Qed.

Lemma finishes_inv w w' : finishes w w' → pool_inv w → pool_inv w'.
Proof.
  intros (es & Hes & E) Hw. eapply pool_run_inv; [|done|exact E].
  eapply Forall_impl; [exact Hes|]. by intros [].
Qed.

Definition not_starved (w : world) : Prop := ∀ s, side s (starved (pl w)) = 0.

Lemma drain w :
  not_starved w → ∃ w', finishes w w' ∧ not_starved w' ∧ claims w' = [] ∧ live w' = [].
Proof.
  remember (2 * length (claims w) + length (live w))%nat as n eqn:Hn. revert w Hn.
  induction (lt_wf n) as [n _ IH]. intros w -> Hw.
  destruct (claims w) as [|cl cs] eqn:Ec; [destruct (live w) as [|r ls] eqn:El|].
  - by exists w.
  - set (w1 := mk_world (freed_request (lv_sync r) (lv_priv r) (pl w)) [] ls).
    destruct (IH (length ls)) with (w := w1) as (w' & H1 & H2); [cbn; lia|cbn; lia| |].
    { intros s. unfold w1. cbn [pl].
      destruct (freed_core (lv_sync r) (lv_priv r) (pl w)) as (_ & -> & _). apply Hw. }
    exists w'. split; [|done]. transitivity w1; [|done]. apply (finishes_step (EPut 0)); [done|].
    cbn [step]. rewrite El, Ec. done.
  - set (w1 := mk_world (got_request true (cl_sync cl) (cl_priv cl) (cl_ioc cl) (pl w)) cs
      (mk_live (cl_sync cl) (cl_priv cl) :: live w)).
    destruct (IH (2 * length cs + S (length (live w)))%nat) with (w := w1) as (w' & H1 & H2);
      [cbn; lia|cbn; lia| |].
    { intros s. unfold w1. cbn [pl]. rewrite (core_starved _ (pl w)); [apply Hw|apply got_core]. }
    exists w'. split; [|done]. transitivity w1; [|done].
    apply (finishes_step (EAlloc 0 true)); [done|].
    cbn [step]. rewrite Ec. done.
Qed.

(** The processes that wait or were woken. *)
Definition pending (p : pool) : nat :=
  length (side true (wait p)) + length (side false (wait p)) +
  (length (side true (woken p)) + length (side false (woken p))).

Lemma wake_up_pending s p : pending (wake_up s p) = pending p.
Proof.
  unfold wake_up, pending. destruct (side s (wait p)) eqn:E; [done|]. cbn.
  destruct s; cbn in *; rewrite E, ?length_app; cbn; lia.
Qed.

Lemma __freed_pending s p : pending (__freed_request s p) = pending p.
Proof.
  unfold __freed_request. set (p1 := if _ <? _ then _ else p).
  assert (pending p1 = pending p) as E by (unfold p1; by case_match).
  destruct (_ <=? _); [|done]. change (pending (wake_up s p1) = pending p).
  by rewrite wake_up_pending.
Qed.

Lemma freed_pending s priv p : pending (freed_request s priv p) = pending p.
Proof.
  unfold freed_request. set (p1 := if priv then _ else _).
  assert (pending p1 = pending p) as E by (unfold p1; by destruct priv).
  destruct (truthy _); by rewrite !__freed_pending.
Qed.

Lemma empty_grants s c p :
  4 ≤ nr_requests p ≤ 2 ^ 62 → side s (count p) = 0 →
  ∃ priv c' p', get_request ELV_MQUEUE_MAY s c p = (Granted priv c', p').
Proof.
  intros Hn Hc. unfold get_request. rewrite bool_decide_false by done.
  destruct (near_limit ELV_MQUEUE_MAY s c p) as [[c' p1]|] eqn:E.
  - apply near_limit_core in E. core_eqs E. destruct (limit_positive _ Hn) as [Hl ?].
    destruct (_ <=? _) eqn:El; [|by eauto]. zbool. rewrite Hnr, Hcount, Hc, Hl in El.
    change (u64 0) with 0 in El. lia.
  - unfold near_limit in E. destruct (_ <=? _); [|done].
    destruct (nr_requests p <=? _) eqn:El; [|done].
    zbool. rewrite Hc in El. change (u64 (0 + 1)) with 1 in El. lia.
Qed.

Definition quiet (w : world) : Prop := claims w = [] ∧ live w = [].

(** One woken process gets a request and puts it. *)
Lemma serve_one w s pid l :
  pool_inv w → not_starved w → quiet w → side s (woken (pl w)) = pid :: l →
  ∃ w', finishes w w' ∧ not_starved w' ∧ quiet w' ∧ S (pending (pl w')) = pending (pl w).
Proof.
  intros Hinv Hst [Hcl Hlv] Hwk. pose proof Hinv as [Hc _ _ _ Hn].
  assert (side s (count (pl w)) = 0) as H0 by (rewrite Hc; unfold on_side; by rewrite Hcl, Hlv).
  set (p1 := set_woken (set_side s l (woken (pl w))) (pl w)).
  destruct (empty_grants s None p1) as (priv & c & p2 & Eg); [done|done|].
  set (p3 := got_request true s priv c p2). exists (mk_world (freed_request s priv p3) [] []).
  split_and!.
  - transitivity (mk_world p2 [mk_claimant pid s priv c true] []);
      [apply (finishes_step (EAgain 0 ELV_MQUEUE_MAY s None)); [done|]|
       transitivity (mk_world p3 [] [mk_live s priv]);
         [by apply (finishes_step (EAlloc 0 true))|by apply (finishes_step (EPut 0))]].
    unfold step. rewrite Hwk. cbn [lookup list_lookup mbind option_bind].
    rewrite option_guard_True by by left.
    cbn [mbind option_bind]. unfold ask. cbn [ioc_set_batching pl claims live].
    change (removed 0 (pid :: l)) with l. fold p1.
    rewrite option_guard_True by (unfold p1; cbn; lia).
    cbn [mbind option_bind]. by rewrite Eg, Hcl, Hlv.
  - apply granted_core in Eg as (_ & Es & _). intros t. cbn [pl].
    destruct (freed_core s priv p3) as (_ & -> & _). unfold p3.
    rewrite (core_starved _ p2) by apply got_core.
    rewrite Es, side_set. case_decide; [done|]. unfold p1. cbn. apply Hst.
  - done.
  - cbn [pl]. rewrite freed_pending. apply granted_core in Eg as (_ & _ & _ & Ew & Ek & _).
    pose proof (got_core s priv c p2) as E. fold p3 in E. core_eqs E. unfold pending.
    rewrite Hwait, Hwoken, Ew, Ek. unfold p1. cbn. destruct s; cbn in *; rewrite Hwk; cbn; lia.
Qed.

Lemma serve_all w :
  pool_inv w → not_starved w → quiet w → ∃ w', finishes w w' ∧ pending (pl w') = 0%nat.
Proof.
  remember (pending (pl w)) as n eqn:Hn. revert w Hn.
  induction n as [|n IH]; intros w Hn Hinv Hst Hq.
  - exists w. split; [reflexivity|done].
  - destruct (decide (side true (woken (pl w)) = [])) as [Et|Et];
      [destruct (decide (side false (woken (pl w)) = [])) as [Ef|Ef]|].
    + exfalso. pose proof Hinv as [Hc _ _ Hw _]. destruct Hq as [Hcl Hlv].
      assert (∀ s, side s (wait (pl w)) = []) as Hwait.
      { intros s. destruct (Hw s) as [?|[H|[H|H]]]; [done|by destruct s| |by specialize (Hst s)].
        rewrite Hc in H. unfold on_side in H. rewrite Hcl, Hlv in H. by cbn in H. }
      unfold pending in Hn. rewrite Et, Ef, !Hwait in Hn. done.
    + destruct (side false (woken (pl w))) as [|pid l] eqn:E; [done|].
      destruct (serve_one w false pid l) as (w1 & H1 & H2 & H3 & H4); [done..|].
      destruct (IH w1) as (w' & H5 & H6); [lia|by eapply finishes_inv|done|done|]. exists w'.
      by split; [transitivity w1|].
    + destruct (side true (woken (pl w))) as [|pid l] eqn:E; [done|].
      destruct (serve_one w true pid l) as (w1 & H1 & H2 & H3 & H4); [done..|].
      destruct (IH w1) as (w' & H5 & H6); [lia|by eapply finishes_inv|done|done|]. exists w'.
      by split; [transitivity w1|].
Qed.

Lemma set_pool_full_core s p :
  count (set_pool_full s p) = count p ∧ starved (set_pool_full s p) = starved p ∧
  nr_requests (set_pool_full s p) = nr_requests p.
Proof.
  unfold set_pool_full. destruct (_ <=? _); [done|]. destruct (_ <=? _); [|done].
  destruct (wake_up_core s (set_full (set_side s false (full p)) p)) as (-> & -> & _ & -> & _).
  done.
Qed.

Lemma store_core page size p nr :
  (if (simple_strtoul page 10).1 <? BLKDEV_MIN_RQ then BLKDEV_MIN_RQ else (simple_strtoul page 10).1) = nr →
  let p' := (queue_requests_store true page size p).2 in
  nr_requests p' = nr ∧ count p' = count p ∧ starved p' = starved p.
Proof.
  intros E. unfold queue_requests_store. rewrite E. cbn [negb snd].
  set (p1 := set_pool_congested _ _).
  assert (core p1 = core (set_nr_requests nr p))
    as E1 by (unfold p1; by rewrite !set_pool_congested_core).
  core_eqs E1. destruct (set_pool_full_core true p1) as (F1 & F2 & F3).
  destruct (set_pool_full_core false (set_pool_full true p1)) as (-> & -> & ->).
  by rewrite F1, F2, F3.
Qed.

(** ** Properties *)

(** C22: However the sections of the allocation, the releases and the writes
    of the limit interleave, the counters of a queue are exact: every side
    counts the requests in use and those being allocated, and [elvpriv] those
    of them that the I/O scheduler keeps data for. *)
Theorem requests_accounted es w :
  Forall event_ok es → run es init_world = Some w →
  (∀ s, side s (count (pl w)) = on_side s w) ∧ elvpriv (pl w) = with_priv w.
Proof. intros Hes E. by destruct (pool_run_inv es init_world w Hes init_inv E). Qed.


(** A granted request keeps its side within one and a half times the limit,
    and on a full side it goes to a process in its batch or to one that the
    I/O scheduler insists on. *)
Theorem request_limit mq s c p priv c' p' :
  4 ≤ nr_requests p ≤ 2 ^ 62 → 0 ≤ side s (count p) < 2 ^ 31 - 1 →
  get_request mq s c p = (Granted priv c', p') →
  side s (count p') ≤ 3 * nr_requests p / 2 ∧
  (nr_requests p ≤ side s (count p) + 1 → queue_congestion_on_threshold p ≤ side s (count p) + 1 →
   side s (full p) = true → mq = ELV_MQUEUE_MUST ∨ ioc_batching p c = true).
Proof.
  intros Hn Hc E. pose proof E as E'.
  apply granted_core in E' as (Ec & _ & _ & _ & _ & _ & _ & _ & Hl). split.
  - rewrite Ec, side_set_eq. destruct (limit_positive _ Hn) as [Hlim _].
    rewrite Hlim, u64_small in Hl by (unfold in_u64; lia). lia.
  - intros Hnr Hon Hfull. unfold get_request, near_limit in E. case_bool_decide; [done|].
    rewrite (proj2 (Z.leb_le _ _) Hon), u64_small, (proj2 (Z.leb_le _ _) Hnr),
      Hfull in E by (unfold in_u64; lia).
    cbn [negb] in E. destruct (bool_decide _ && negb _) eqn:Eb; [done|].
    apply andb_false_iff in Eb as [Eb|Eb]; [left|right; by destruct (ioc_batching p c)].
    by destruct mq.
Qed.

(** C40: The limit is written without an upper bound, and three times the
    limit is computed modulo [2 ^ 64]: after 12297829382473034411 has been
    written to nr_requests the queue denies every request, even when none is
    in use. *)
Theorem nr_requests_overflow p mq s c :
  side s (count p) = 0 → mq ≠ ELV_MQUEUE_NO →
  let p1 := (queue_requests_store true "12297829382473034411" 20 p).2 in
  let '(g, p2) := get_request mq s c p1 in
  g = Denied ∧ side s (count p2) = 0 ∧ starved p2 = starved p.
Proof.
  intros Hc Hm p1.
  assert (nr_requests p1 = 12297829382473034411 ∧ count p1 = count p ∧ starved p1 = starved p)
    as (En & Ec & Es).
  { apply (store_core "12297829382473034411" 20 p). by vm_compute. }
  clearbody p1. unfold get_request. rewrite bool_decide_false by done.
  destruct (near_limit mq s c p1) as [[c' p2]|] eqn:E; [|by rewrite Ec, Es].
  apply near_limit_core in E. core_eqs E.
  assert ((u64 (3 * nr_requests p2) / 2 <=? u64 (side s (count p2))) = true) as ->
    by (rewrite Hnr, Hcount, En, Ec, Hc; done).
  by rewrite Hcount, Ec, Hstarved, Es.
Qed.

(** The thresholds of congestion lie in the right order below the limit. *)
Lemma congestion_thresholds p :
  4 ≤ nr_requests p < 2 ^ 31 - 1 →
  let p' := blk_queue_congestion_threshold p in
  1 ≤ queue_congestion_off_threshold p' < queue_congestion_on_threshold p' ∧
  queue_congestion_on_threshold p' ≤ nr_requests p.
Proof.
  intros Hn. unfold queue_congestion_off_threshold, queue_congestion_on_threshold,
    blk_queue_congestion_threshold. cbn. set (n := nr_requests p) in *. clearbody n.
  assert (0 ≤ n / 8 ≤ n ∧ 0 ≤ n / 16 ≤ n / 8) as [? ?] by dlia.
  rewrite (u64_small (n - n / 8 + 1)), (u64_small (n - n / 8 - n / 16 - 1)) by (unfold in_u64; dlia).
  rewrite !(s32_small (n - n / 8 + 1)), !(s32_small (n - n / 8 - n / 16 - 1)),
    !(s32_small n) by (unfold in_s32; dlia).
  rewrite u64_small by (unfold in_u64; lia).
  destruct (n <? _) eqn:E1, (_ <? 1) eqn:E2; zbool; rewrite !u32_small by (unfold in_u32; dlia);
    rewrite !s32_small by (unfold in_s32; dlia); dlia.
Qed.

(** ** A history: the limit is lowered to 4, four processes get a request and
    a fifth has to wait. *)
Definition pool_history : list event :=
  [EStore "4"; EAsk 0 ELV_MQUEUE_MAY false (Some 0%nat) true;
    EAsk 1 ELV_MQUEUE_MAY false (Some 1%nat) true;
   EAsk 2 ELV_MQUEUE_MAY false (Some 2%nat) true; EAsk 3 ELV_MQUEUE_MAY false (Some 3%nat) true;
   EAlloc 0 true; EAlloc 0 true; EAsk 4 ELV_MQUEUE_MAY false (Some 4%nat) true].
Definition pool_demo : world := default init_world (run pool_history init_world).

Lemma pool_history_ok : Forall event_ok pool_history.
Proof. repeat constructor; by vm_compute. Qed.
Lemma pool_history_runs : run pool_history init_world = Some pool_demo.
Proof. by vm_compute. Qed.

Lemma requests_accounted_witness :
  side false (count (pl pool_demo)) = 4 ∧ on_side false pool_demo = 4.
Proof.
  destruct (requests_accounted pool_history pool_demo pool_history_ok pool_history_runs) as [H _].
  split; [rewrite H|]; by vm_compute.
Defined.


Definition must_demo : pool := (get_request ELV_MQUEUE_MUST false None (pl pool_demo)).2.

Lemma must_granted : get_request ELV_MQUEUE_MUST false None (pl pool_demo) = (Granted true None,
  must_demo).
Proof. by vm_compute. Qed.
Lemma must_room : 4 ≤ nr_requests (pl pool_demo) ≤ 2 ^ 62 ∧
  0 ≤ side false (count (pl pool_demo)) < 2 ^ 31 - 1.
Proof. by vm_compute. Qed.

Lemma request_limit_witness : side false (count must_demo) ≤ 3 * nr_requests (pl pool_demo) / 2.
Proof.
  destruct (request_limit _ _ _ _ _ _ _ (proj1 must_room) (proj2 must_room) must_granted) as [H _].
  exact H.
Defined.

Lemma nr_requests_overflow_witness :
  let p1 := (queue_requests_store true "12297829382473034411" 20 init_pool).2 in
  (get_request ELV_MQUEUE_MAY true None p1).1 = Denied.
Proof.
  intros p1.
  pose proof (nr_requests_overflow init_pool ELV_MQUEUE_MAY true None eq_refl ltac:(done)) as H.
  cbv zeta in H. fold p1 in H. by destruct (get_request ELV_MQUEUE_MAY true None p1), H.
Defined.
