(* ===== verification/HeapLogic.v ===== *)
(** * Programs on memory and a separation logic for them

    The kernel's intrusive data structures are linked through the memory of
    the objects that are on them.  Their code is modelled on a memory of 64-bit
    words: a program is a function of the memory, and an access to an address
    that is not mapped, the null pointer included, is the value [None].

    Assertions on memory form a separation logic in which Iris's proof mode
    works.  [wp e Φ] is total: from a memory that satisfies it the program [e]
    returns, its result and the memory it leaves satisfy [Φ], and the rest of
    the memory is untouched. *)
From iris.proofmode Require Export proofmode.
From iris.proofmode Require Export coq_tactics reduction.
From S2P Require Import Prelude.

(** ** Programs *)

Notation memory := (gmap Z Z).

Definition prog (A : Type) : Type := memory → option (A * memory).

#[export] Instance prog_ret : MRet prog := λ A a m, Some (a, m).
#[export] Instance prog_bind : MBind prog := λ A B k e m,
  match e m with Some (a, m') => k a m' | None => None end.

Definition load (a : Z) : prog Z := λ m, match m !! a with Some v => Some (v, m) | None => None end.
Definition store (a v : Z) : prog unit := λ m,
  match m !! a with Some _ => Some (tt, <[a := v]> m) | None => None end.

(** A loop that ran out of fuel. *)
Definition out_of_fuel {A} : prog A := λ _, None.

(** A failed [BUG_ON]. *)
Definition BUG {A} : prog A := λ _, None.

(** Fuel for a loop that visits no object twice. *)
Definition mem_fuel : prog nat := λ m, Some (S (S (size m)), m).

(** [if (p) ...] without an else branch *)
Definition when (b : bool) (e : prog unit) : prog unit := if b then e else mret tt.

(** ** Assertions

    An assertion does not speak of the whole memory: it stays true when more
    is mapped. *)

Record mprop := MProp {
  holds : memory → Prop;
  holds_mono m1 m2 : holds m1 → m1 ⊆ m2 → holds m2;
}.
#[global] Arguments holds : simpl never.
#[global] Bind Scope bi_scope with mprop.

Section ofe.
Inductive mprop_equiv' (P Q : mprop) : Prop := { mprop_in_equiv : ∀ m, holds P m ↔ holds Q m }.
#[local] Instance mprop_equiv : Equiv mprop := mprop_equiv'.
#[local] Instance mprop_equivalence : Equivalence (≡@{mprop}).
Proof.
  split.
  - by split.
  - intros P Q [E]. split. intros m. by rw E.
  - intros P Q R [E1] [E2]. split. intros m. by rw E1 E2.
Qed.
Canonical Structure mpropO := discreteO mprop.
End ofe.

Inductive mprop_entails (P Q : mprop) : Prop := { mprop_in_entails : ∀ m, holds P m → holds Q m }.

(** *** The connectives *)

Program Definition mprop_pure_def (φ : Prop) : mprop := {| holds _ := φ |}.
Next Obligation. done. Qed.

Program Definition mprop_and_def (P Q : mprop) : mprop := {| holds m := holds P m ∧ holds Q m |}.
Next Obligation. intros P Q m1 m2 [] ?. split; by eapply holds_mono. Qed.

Program Definition mprop_or_def (P Q : mprop) : mprop := {| holds m := holds P m ∨ holds Q m |}.
Next Obligation. intros P Q m1 m2 [] ?; [left|right]; by eapply holds_mono. Qed.

Program Definition mprop_impl_def (P Q : mprop) : mprop :=
  {| holds m := ∀ m', m ⊆ m' → holds P m' → holds Q m' |}.
Next Obligation. intros P Q m1 m2 H Hs m' ? ?. apply H; [|done]. by trans m2. Qed.

Program Definition mprop_forall_def {A} (Φ : A → mprop) : mprop := {| holds m := ∀ a, holds (Φ a) m |}.
Next Obligation. intros A Φ m1 m2 H ? a. by eapply holds_mono. Qed.

Program Definition mprop_exist_def {A} (Φ : A → mprop) : mprop := {| holds m := ∃ a, holds (Φ a) m |}.
Next Obligation. intros A Φ m1 m2 [a ?] ?. exists a. by eapply holds_mono. Qed.

Program Definition mprop_sep_def (P Q : mprop) : mprop :=
  {| holds m := ∃ m1 m2, m = m1 ∪ m2 ∧ m1 ##ₘ m2 ∧ holds P m1 ∧ holds Q m2 |}.
Next Obligation.
  intros P Q m1 m2 (n1 & n2 & -> & Hd & HP & HQ) Hs.
  exists n1, (m2 ∖ n1). split_and!.
  - symmetry. apply map_difference_union. etrans; [by apply map_union_subseteq_l|done].
  - by apply map_disjoint_difference_r1.
  - done.
  - eapply holds_mono; [done|]. apply map_subseteq_spec. intros a v Ha.
    apply lookup_difference_Some. split.
    + eapply lookup_weaken; [|done]. rw lookup_union_r; [done|]. by eapply map_disjoint_Some_r.
    + by eapply map_disjoint_Some_r.
Qed.

Program Definition mprop_wand_def (P Q : mprop) : mprop :=
  {| holds m := ∀ m', m ##ₘ m' → holds P m' → holds Q (m ∪ m') |}.
Next Obligation.
  intros P Q m1 m2 H Hs m' Hd HP. eapply holds_mono.
  - apply (H m'); [by eapply map_disjoint_weaken_l|done].
  - by apply map_union_mono_r.
Qed.

Definition mprop_emp_def : mprop := mprop_pure_def True.
Definition mprop_persistently_def (P : mprop) : mprop :=
  mprop_pure_def (mprop_entails mprop_emp_def P).

(** ** The laws of a logic of bunched implications *)

Lemma mprop_bi_mixin :
  BiMixin mprop_entails mprop_emp_def mprop_pure_def mprop_and_def mprop_or_def
    mprop_impl_def (@mprop_forall_def) (@mprop_exist_def) mprop_sep_def mprop_wand_def.
Proof.
  split.
  - split; [by split|]. intros P Q R [H1] [H2]. split. auto.
  - intros P Q. split.
    + intros [E]. split; split; intros m; apply E.
    + intros [[H1] [H2]]. split. split; auto.
  - intros n φ1 φ2 E. split. intros m. apply E.
  - intros n P1 P2 [E1] Q1 Q2 [E2]. split. intros m.
    change (holds P1 m ∧ holds Q1 m ↔ holds P2 m ∧ holds Q2 m). by rw E1 E2.
  - intros n P1 P2 [E1] Q1 Q2 [E2]. split. intros m.
    change (holds P1 m ∨ holds Q1 m ↔ holds P2 m ∨ holds Q2 m). by rw E1 E2.
  - intros n P1 P2 [E1] Q1 Q2 [E2]. split. intros m. apply forall_proper. intros m'. by rw E1 E2.
  - intros A n Φ1 Φ2 E. split. intros m. apply forall_proper. intros a. apply E.
  - intros A n Φ1 Φ2 E. split. intros m. apply exist_proper. intros a. apply E.
  - intros n P1 P2 [E1] Q1 Q2 [E2]. split. intros m.
    do 2 (apply exist_proper; intros ?). by rw E1 E2.
  - intros n P1 P2 [E1] Q1 Q2 [E2]. split. intros m. apply forall_proper. intros m'. by rw E1 E2.
  - intros φ P Hφ. by split.
  - intros φ P H. split. intros m Hm. by apply (H Hm).
  - intros P Q. split. by intros m [].
  - intros P Q. split. by intros m [].
  - intros P Q R [H1] [H2]. split. by split; auto.
  - intros P Q. split. by left.
  - intros P Q. split. by right.
  - intros P Q R [H1] [H2]. split. intros m []; auto.
  - intros P Q R [H]. split. intros m HP m' Hs HQ. apply H. split; [by eapply holds_mono|done].
  - intros P Q R [H]. split. intros m [HP HQ]. by apply (H m HP m).
  - intros A P Ψ H. split. intros m HP a. by apply H.
  - intros A Ψ a. split. by intros m H.
  - intros A Ψ a. split. intros m H. by exists a.
  - intros A Φ Q H. split. intros m [a HΦ]. by apply (H a).
  - intros P P' Q Q' [H1] [H2]. split. intros m (m1 & m2 & -> & Hd & ? & ?).
    exists m1, m2. split_and!; auto.
  - intros P. split. intros m HP. exists ∅, m. split_and!; [by rw left_id_L| |done|done].
    apply map_disjoint_empty_l.
  - intros P. split. intros m (m1 & m2 & -> & Hd & _ & HP). eapply holds_mono; [done|].
    by apply map_union_subseteq_r.
  - intros P Q. split. intros m (m1 & m2 & -> & Hd & HP & HQ). exists m2, m1.
    split_and!; [by apply map_union_comm|done..].
  - intros P Q R. split. intros m (m12 & m3 & -> & Hd & (m1 & m2 & -> & Hd' & ? & ?) & ?).
    apply map_disjoint_union_l in Hd as [Hd1 Hd2].
    exists m1, (m2 ∪ m3). split_and!; [by rw assoc_L| |done|by exists m2, m3].
    by apply map_disjoint_union_r.
  - intros P Q R [H]. split. intros m HP m' Hd HQ. apply H. by exists m, m'.
  - intros P Q R [H]. split. intros m (m1 & m2 & -> & Hd & HP & HQ). by apply H.
Qed.

Lemma mprop_bi_persistently_mixin :
  BiPersistentlyMixin mprop_entails mprop_emp_def mprop_and_def (@mprop_exist_def)
    mprop_sep_def mprop_persistently_def.
Proof.
  eapply bi_persistently_mixin_discrete, mprop_bi_mixin; [done| |done].
  intros A Φ [H]. destruct (H ∅ I) as [a Ha]. exists a. split. intros m _.
  eapply holds_mono; [exact Ha|]. apply map_empty_subseteq.
Qed.

Lemma mprop_bi_later_mixin :
  BiLaterMixin mprop_entails mprop_pure_def mprop_or_def mprop_impl_def
    (@mprop_forall_def) (@mprop_exist_def) mprop_sep_def mprop_persistently_def id.
Proof. by eapply bi_later_mixin_id, mprop_bi_mixin. Qed.

Canonical Structure mpropI : bi :=
  {| bi_ofe_mixin := ofe_mixin_of mprop;
     bi_bi_mixin := mprop_bi_mixin;
     bi_bi_persistently_mixin := mprop_bi_persistently_mixin;
     bi_bi_later_mixin := mprop_bi_later_mixin |}.

#[export] Instance mprop_pure_forall : BiPureForall mpropI.
Proof. intros A φ. by split. Qed.

#[export] Instance mprop_affine : BiAffine mpropI | 0.
Proof. intros P. by split. Qed.

(** ** Points-to assertions *)

Program Definition pointsto (a v : Z) : mprop := {| holds m := m !! a = Some v |}.
Next Obligation. intros a v m1 m2 H Hs. exact (lookup_weaken m1 m2 a v H Hs). Qed.

Notation "a ↦ v" := (pointsto a v) (at level 20, format "a  ↦  v") : bi_scope.

Lemma pointsto_ne a b v w : a ↦ v ∗ b ↦ w ⊢ ⌜a ≠ b⌝.
Proof.
  split. intros m (m1 & m2 & -> & Hd & H1 & H2) ->.
  exact (proj1 (map_disjoint_spec m1 m2) Hd b v w H1 H2).
Qed.

(** ** Weakest preconditions *)

Program Definition wp {A} (e : prog A) (Φ : A → mprop) : mprop :=
  {| holds m := ∀ mf, m ##ₘ mf →
       ∃ a m', e (m ∪ mf) = Some (a, m' ∪ mf) ∧ m' ##ₘ mf ∧ holds (Φ a) m' |}.
Next Obligation.
  intros A e Φ m1 m2 H Hs mf Hd.
  assert (m1 ##ₘ mf) as Hd1 by by eapply map_disjoint_weaken_l.
  assert (m2 ∖ m1 ##ₘ mf) as Hd2.
  { eapply map_disjoint_weaken_l; [exact Hd|]. by apply map_subseteq_difference_l. }
  destruct (H (m2 ∖ m1 ∪ mf)) as (a & m' & E & Hd' & HΦ).
  { apply map_disjoint_union_r. split; [by apply map_disjoint_difference_r1|done]. }
  apply map_disjoint_union_r in Hd' as [Hd3 Hd4].
  exists a, (m' ∪ (m2 ∖ m1)). split_and!.
  - rw assoc_L map_difference_union in E; [|done]. rw E. by rw assoc_L.
  - by apply map_disjoint_union_l.
  - eapply holds_mono; [exact HΦ|]. by apply map_union_subseteq_l.
Qed.
#[global] Arguments wp : simpl never.

Section wp.
Context {A : Type}.
Implicit Types Φ Ψ : A → mprop.

(** What a proof in the logic says about running the program. *)
Lemma wp_run (e : prog A) Φ P m mf :
  (P ⊢ wp e Φ) → holds P m → m ##ₘ mf →
  ∃ a m', e (m ∪ mf) = Some (a, m' ∪ mf) ∧ m' ##ₘ mf ∧ holds (Φ a) m'.
Proof. intros [H] HP Hd. exact (H m HP mf Hd). Qed.

Lemma wp_wand (e : prog A) Φ Ψ : wp e Φ ⊢ (∀ a, Φ a -∗ Ψ a) -∗ wp e Ψ.
Proof.
  apply bi.wand_intro_r. split. intros m (m1 & m2 & -> & Hd & H1 & H2) mf Hf.
  apply map_disjoint_union_l in Hf as [Hf1 Hf2].
  destruct (H1 (m2 ∪ mf)) as (a & m' & E & Hd' & HΦ); [by apply map_disjoint_union_r|].
  apply map_disjoint_union_r in Hd' as [Hd1 Hd2].
  exists a, (m2 ∪ m'). split_and!.
  - rw -assoc_L E. rw (map_union_comm m2 m'); [|done]. by rw assoc_L.
  - by apply map_disjoint_union_l.
  - by apply (H2 a).
Qed.

Lemma wp_ret (a : A) Φ : Φ a ⊢ wp (mret a) Φ.
Proof. split. intros m H mf Hf. by exists a, m. Qed.

Lemma wp_bind {B} (e : prog B) (k : B → prog A) Φ :
  wp e (λ b, wp (k b) Φ) ⊢ wp (e ≫= k) Φ.
Proof.
  split. intros m H mf Hf. destruct (H mf Hf) as (b & m' & E & Hd & H').
  destruct (H' mf Hd) as (a & m'' & E' & Hd' & HΦ). exists a, m''. split; [|done].
  unfold mbind, prog_bind. by rw E.
Qed.

Lemma wp_assoc {B C} (e : prog C) (f : C → prog B) (k : B → prog A) Φ :
  wp (c ← e; b ← f c; k b) Φ ⊢ wp (b ← (c ← e; f c); k b) Φ.
Proof.
  split. intros m H mf Hf. destruct (H mf Hf) as (a & m' & E & ?). exists a, m'. split; [|done].
  rw -E. unfold mbind, prog_bind. by destruct (e _) as [[]|].
Qed.

Lemma wp_load a v (k : Z → prog A) Φ :
  a ↦ v ⊢ (a ↦ v -∗ wp (k v) Φ) -∗ wp (load a ≫= k) Φ.
Proof.
  apply bi.wand_intro_r. split. intros m (m1 & m2 & -> & Hd & H1 & H2) mf Hf.
  destruct (H2 m1 ltac:(done) H1 mf) as (r & m' & E & ?).
  { by rw (map_union_comm m2). }
  exists r, m'. split; [|done]. rw -E. unfold mbind, prog_bind, load.
  rw (lookup_union_Some_l (m1 ∪ m2) _ _ v); [by rw (map_union_comm m2)|].
  by apply lookup_union_Some_l.
Qed.

Lemma wp_store a v w (k : unit → prog A) Φ :
  a ↦ v ⊢ (a ↦ w -∗ wp (k tt) Φ) -∗ wp (store a w ≫= k) Φ.
Proof.
  apply bi.wand_intro_r. split. intros m (m1 & m2 & -> & Hd & H1 & H2) mf Hf.
  change (m1 !! a = Some v) in H1.
  apply map_disjoint_union_l in Hf as [Hf1 Hf2].
  assert (<[a := w]> m1 ##ₘ m2) as Hd'.
  { apply map_disjoint_insert_l_2; [by eapply map_disjoint_Some_l|done]. }
  destruct (H2 (<[a := w]> m1)) with (mf := mf) as (r & m' & E & ?).
  - done.
  - apply lookup_insert_eq.
  - apply map_disjoint_union_l. split; [done|].
    apply map_disjoint_insert_l_2; [exact (map_disjoint_Some_l m1 mf a v Hf1 H1)|done].
  - exists r, m'. split; [|done]. rw -E. unfold mbind, prog_bind, store.
    rw (lookup_union_Some_l (m1 ∪ m2) _ _ v); [|by apply lookup_union_Some_l].
    by rw !insert_union_l (map_union_comm m2).
Qed.
End wp.

Section rules.
Context {A : Type}.
Implicit Types Φ : A → mprop.

Lemma wp_ret_bind {B} (b : B) (k : B → prog A) Φ : wp (k b) Φ ⊢ wp (mret b ≫= k) Φ.
Proof. by split. Qed.

(** The last step of a program, with its result returned. *)
Lemma wp_last (e : prog A) Φ : wp (e ≫= mret) Φ ⊢ wp e Φ.
Proof.
  split. intros m H mf Hf. destruct (H mf Hf) as (a & m' & E & ?). exists a, m'. split; [|done].
  unfold mbind, prog_bind in E. by destruct (e _) as [[]|].
Qed.

Lemma wp_when (b : bool) (e : prog unit) (k : unit → prog A) Φ :
  wp (if b then e ≫= k else k tt) Φ ⊢ wp (when b e ≫= k) Φ.
Proof. destruct b; [done|]. apply wp_ret_bind. Qed.
End rules.

(** *** The size of the memory that is owned *)

Program Definition owns (n : nat) : mprop := {| holds m := (n ≤ size m)%nat |}.
Next Obligation. cbn. intros n m1 m2 ? ?%map_subseteq_size. lia. Qed.

Lemma pointsto_owns a v : a ↦ v ⊢ owns 1.
Proof.
  split. intros m H. change (1 ≤ size m)%nat. destruct (decide (m = ∅)) as [->|Hne].
  - by apply lookup_empty_Some in H.
  - assert (size m ≠ 0%nat); [|lia]. by intros ?%map_size_empty_inv.
Qed.

Lemma owns_sep n1 n2 : owns n1 ∗ owns n2 ⊢ owns (n1 + n2).
Proof.
  split. intros m (m1 & m2 & -> & Hd & H1 & H2). change (n1 + n2 ≤ size (m1 ∪ m2))%nat.
  rw map_size_disj_union //. change (n1 ≤ size m1)%nat in H1. change (n2 ≤ size m2)%nat in H2. lia.
Qed.

Lemma owns_0 : ⊢ owns 0.
Proof. split. intros m _. change (0 ≤ size m)%nat. lia. Qed.

Lemma owns_le n1 n2 : (n2 ≤ n1)%nat → owns n1 ⊢ owns n2.
Proof. intros Hle. split. intros m H. change (n1 ≤ size m)%nat in H. change (n2 ≤ size m)%nat. lia.
Qed.

Lemma wp_mem_fuel {A} n (k : nat → prog A) Φ :
  owns n ∧ (∀ f, ⌜(n < f)%nat⌝ -∗ wp (k f) Φ) ⊢ wp (mem_fuel ≫= k) Φ.
Proof.
  split. intros m [Hn H] mf Hf. change (n ≤ size m)%nat in Hn.
  assert (n < S (S (size (m ∪ mf))))%nat as Hlt.
  { rw map_size_disj_union //. lia. }
  destruct (H _ ∅ (map_disjoint_empty_r m) Hlt mf) as (a & m' & E & ?).
  { by rw right_id_L. }
  exists a, m'. split; [|done]. rw right_id_L in E. exact E.
Qed.

(** *** Triples *)

(** From every memory whose part [m] satisfies [P] the program returns, what it
    returns and leaves behind satisfies [Φ], and the rest of memory is as it
    was. *)
Definition hoare {A} (P : mprop) (e : prog A) (Φ : A → mprop) : Prop :=
  ∀ m mf, holds P m → m ##ₘ mf →
    ∃ a m', e (m ∪ mf) = Some (a, m' ∪ mf) ∧ m' ##ₘ mf ∧ holds (Φ a) m'.

Lemma wp_hoare {A} P (e : prog A) Φ : (P ⊢ wp e Φ) → hoare P e Φ.
Proof. intros H m mf HP Hd. by eapply wp_run. Qed.

Lemma hoare_wp {A} P (e : prog A) Φ : hoare P e Φ → P ⊢ wp e Φ.
Proof. intros H. split. intros m HP mf Hd. by apply H. Qed.

Lemma hoare_at {A} P (e : prog A) Φ m :
  hoare P e Φ → holds P m → ∃ a m', e m = Some (a, m') ∧ holds (Φ a) m'.
Proof.
  intros H HP. destruct (H m ∅ HP) as (a & m' & E & _ & HΦ); [apply map_disjoint_empty_r|].
  rw !right_id_L in E. eauto.
Qed.

(** A memory given cell by cell. *)
Lemma holds_cells (l : list (Z * Z)) :
  NoDup l.*1 → holds ([∗ list] c ∈ l, c.1 ↦ c.2) (list_to_map l).
Proof.
  induction l as [|[a v] l IH]; cbn; [done|]. intros [Ha Hl]%NoDup_cons.
  exists {[a := v]}, (list_to_map l). split_and!.
  - by rw insert_union_singleton_l.
  - apply map_disjoint_singleton_l. by apply not_elem_of_list_to_map_1.
  - apply lookup_singleton_eq.
  - by apply IH.
Qed.

Lemma holds_entails P Q m : (P ⊢ Q) → holds P m → holds Q m.
Proof. intros [H]. apply H. Qed.

Lemma holds_pure_sep φ P m : holds (⌜φ⌝ ∗ P) m → φ ∧ holds P m.
Proof.
  intros H. split; [by destruct H as (m1 & m2 & _ & _ & Hφ & _)|].
  eapply holds_entails, H. iIntros "[_ $]".
Qed.

(** *** Proof mode *)

(** An operation that reads, or changes, what one assertion describes. *)
Definition reads {B} (P : mprop) (e : prog B) (v : B) : Prop := P ⊢ wp e (λ b, ⌜b = v⌝ ∗ P).
Definition writes (P : mprop) (e : prog unit) (Q : mprop) : Prop := P ⊢ wp e (λ _, Q).

Section tactics.
Context {A : Type}.
Implicit Types Φ : A → mprop.

Lemma tac_wp_load Δ i a v (k : Z → prog A) Φ :
  envs_lookup i Δ = Some (false, a ↦ v)%I →
  envs_entails Δ (wp (k v) Φ) → envs_entails Δ (wp (load a ≫= k) Φ).
Proof.
  rw envs_entails_unseal => Hi Hk. rw envs_lookup_split //. rw Hk /=.
  iIntros "[Ha Hk]". by iApply (wp_load with "Ha").
Qed.

Lemma tac_wp_store Δ Δ' i a v w (k : unit → prog A) Φ :
  envs_lookup i Δ = Some (false, a ↦ v)%I →
  envs_simple_replace i false (Esnoc Enil i (a ↦ w)%I) Δ = Some Δ' →
  envs_entails Δ' (wp (k tt) Φ) → envs_entails Δ (wp (store a w ≫= k) Φ).
Proof.
  rw envs_entails_unseal => Hi Hr Hk. rw envs_simple_replace_sound //. rw Hk /=.
  iIntros "[Ha Hk]". iApply (wp_store with "Ha"). iIntros "Ha". iApply "Hk". by iFrame.
Qed.

Lemma tac_wp_read {B} Δ i P (e : prog B) v (k : B → prog A) Φ :
  reads P e v → envs_lookup i Δ = Some (false, P) →
  envs_entails Δ (wp (k v) Φ) → envs_entails Δ (wp (e ≫= k) Φ).
Proof.
  rw envs_entails_unseal => He Hi Hk. rw envs_lookup_split //. rw Hk /=.
  iIntros "[HP Hk]". iApply wp_bind. iApply (wp_wand with "[HP]"); [by iApply He|].
  iIntros (b) "[-> HP]". by iApply "Hk".
Qed.

Lemma tac_wp_write Δ Δ' i P Q (e : prog unit) (k : unit → prog A) Φ :
  writes P e Q → envs_lookup i Δ = Some (false, P) →
  envs_simple_replace i false (Esnoc Enil i Q) Δ = Some Δ' →
  envs_entails Δ' (wp (k tt) Φ) → envs_entails Δ (wp (e ≫= k) Φ).
Proof.
  rw envs_entails_unseal => He Hi Hr Hk. rw envs_simple_replace_sound //. rw Hk /=.
  iIntros "[HP Hk]". iApply wp_bind. iApply (wp_wand with "[HP]"); [by iApply He|].
  iIntros ([]) "HQ". iApply "Hk". by iFrame.
Qed.
End tactics.

Ltac wp_read H := eapply (tac_wp_read _ _ _ _ _ _ _ H); [iAssumptionCore|cbv beta].
Ltac wp_write H :=
  eapply (tac_wp_write _ _ _ _ _ _ _ _ H); [iAssumptionCore|pm_reflexivity|pm_reduce; cbv beta].

(** One access to memory, its points-to assertion found in the context. *)
Ltac wp_load :=
  eapply tac_wp_load; [iAssumptionCore|cbv beta].
Ltac wp_store :=
  eapply tac_wp_store; [iAssumptionCore|pm_reflexivity|pm_reduce; cbv beta].

(** As many steps as are determined by the shape of the program. *)
Ltac wp_step :=
  lazymatch goal with
  | |- envs_entails _ (wp (mbind _ (load _)) _) => wp_load
  | |- envs_entails _ (wp (mbind _ (store _ _)) _) => wp_store
  | |- envs_entails _ (wp (mbind _ (mret _)) _) => iApply wp_ret_bind; cbv beta
  | |- envs_entails _ (wp (mbind _ (mbind _ _)) _) => iApply wp_assoc; cbv beta
  | |- envs_entails _ (wp (load _) _) => iApply wp_last
  | |- envs_entails _ (wp (store _ _) _) => iApply wp_last
  | |- envs_entails _ (wp (mret _) _) => iApply wp_ret; cbv beta
  end.
Ltac wp_steps := repeat wp_step.
