(* ===== verification/RbTree.v ===== *)
(** * Red-black trees (lib/rbtree.c, include/linux/rbtree.h)

    The code of the kernel's red-black trees on a memory of words, with the
    colour of a node in the low bit of its parent pointer.  The assertions
    [rb_tree] and [rb_ctx] tie a memory to a tree and to a tree with a hole;
    the theorems are about every function of the library: which sequence of
    nodes the tree has afterwards, that it stays a red-black tree, and that
    nothing else in memory is touched. *)
From S2P Require Import Prelude HeapLogic.
#[local] Open Scope Z_scope.

(** ** struct rb_node *)

(** The fields of the node at [x]; [struct rb_root] is the word that holds the
    pointer to the root. *)
Definition rb_left (x : Z) : prog Z := load (x + 16).
Definition rb_right (x : Z) : prog Z := load (x + 8).
Definition set_left (x v : Z) : prog unit := store (x + 16) v.
Definition set_right (x v : Z) : prog unit := store (x + 8) v.
Definition rb_parent_color (x : Z) : prog Z := load x.
Definition set_parent_color (x v : Z) : prog unit := store x v.
Definition rb_root (root : Z) : prog Z := load root.
Definition set_root (root v : Z) : prog unit := store root v.

Definition RB_RED : Z := 0.
Definition RB_BLACK : Z := 1.

Definition rb_parent (r : Z) : prog Z :=
  pc ← rb_parent_color r; mret (Z.land pc (u64 (Z.lnot 3))).
Definition rb_color (r : Z) : prog Z :=
  pc ← rb_parent_color r; mret (Z.land pc 1).
Definition rb_is_red (r : Z) : prog bool :=
  c ← rb_color r; mret (negb (truthy c)).
Definition rb_is_black (r : Z) : prog bool :=
  c ← rb_color r; mret (truthy c).
Definition rb_set_red (r : Z) : prog unit :=
  pc ← rb_parent_color r; set_parent_color r (Z.land pc (u64 (Z.lnot 1))).
Definition rb_set_black (r : Z) : prog unit :=
  pc ← rb_parent_color r; set_parent_color r (Z.lor pc 1).
Definition rb_set_parent (rb p : Z) : prog unit :=
  pc ← rb_parent_color rb; set_parent_color rb (Z.lor (Z.land pc 3) p).
Definition rb_set_color (rb color : Z) : prog unit :=
  pc ← rb_parent_color rb; set_parent_color rb (Z.lor (Z.land pc (u64 (Z.lnot 1))) color).

Definition RB_EMPTY_NODE (node : Z) : prog bool :=
  p ← rb_parent node; mret (p =? node).
Definition RB_CLEAR_NODE (node : Z) : prog unit := rb_set_parent node node.

(** [rb_link] is the address of the pointer that will point to the node. *)
Definition rb_link_node (node parent link : Z) : prog unit :=
  set_parent_color node parent;;
  set_right node 0;;
  set_left node 0;;
  store link node.

(** ** Rotations *)

(** The branches that make the parent of [old], or the root, point to [new]:
    one asks for the left child, the other for the right. *)
Definition replace_left (old new parent root : Z) : prog unit :=
  if truthy parent then
    l ← rb_left parent;
    if old =? l then set_left parent new else set_right parent new
  else set_root root new.

Definition replace_right (old new parent root : Z) : prog unit :=
  if truthy parent then
    r ← rb_right parent;
    if old =? r then set_right parent new else set_left parent new
  else set_root root new.

Definition __rb_rotate_left (node root : Z) : prog unit :=
  right ← rb_right node;
  parent ← rb_parent node;
  rl ← rb_left right;
  set_right node rl;;
  when (truthy rl) (rl ← rb_left right; rb_set_parent rl node);;
  set_left right node;;
  rb_set_parent right parent;;
  replace_left node right parent root;;
  rb_set_parent node right.

Definition __rb_rotate_right (node root : Z) : prog unit :=
  left ← rb_left node;
  parent ← rb_parent node;
  lr ← rb_right left;
  set_left node lr;;
  when (truthy lr) (lr ← rb_right left; rb_set_parent lr node);;
  set_right left node;;
  rb_set_parent left parent;;
  replace_right node left parent root;;
  rb_set_parent node left.

(** ** Insertion *)

(** [p && rb_is_red(p)] and [!p || rb_is_black(p)] *)
Definition red_node (p : Z) : prog bool := if truthy p then rb_is_red p else mret false.
Definition black_or_null (p : Z) : prog bool := if truthy p then rb_is_black p else mret true.

Fixpoint insert_loop (fuel : nat) (node root : Z) : prog unit :=
  match fuel with
  | O => out_of_fuel
  | S fuel =>
      parent ← rb_parent node;
      go ← red_node parent;
      if negb go then mret tt else
      gparent ← rb_parent parent;
      gl ← rb_left gparent;
      if parent =? gl then
        uncle ← rb_right gparent;
        red ← red_node uncle;
        if (red : bool) then
          rb_set_black uncle;;
          rb_set_black parent;;
          rb_set_red gparent;;
          insert_loop fuel gparent root
        else
          pr ← rb_right parent;
          np ← (if pr =? node then __rb_rotate_left parent root;; mret (parent, node)
                else mret (node, parent));
          let '(node, parent) := np in
          rb_set_black parent;;
          rb_set_red gparent;;
          __rb_rotate_right gparent root;;
          insert_loop fuel node root
      else
        uncle ← rb_left gparent;
        red ← red_node uncle;
        if (red : bool) then
          rb_set_black uncle;;
          rb_set_black parent;;
          rb_set_red gparent;;
          insert_loop fuel gparent root
        else
          pl ← rb_left parent;
          np ← (if pl =? node then __rb_rotate_right parent root;; mret (parent, node)
                else mret (node, parent));
          let '(node, parent) := np in
          rb_set_black parent;;
          rb_set_red gparent;;
          __rb_rotate_left gparent root;;
          insert_loop fuel node root
  end.

(** Each turn of the loop moves up in the tree or is the last but one: there
    are fewer turns than words in memory. *)
Definition rb_insert_color (node root : Z) : prog unit :=
  fuel ← mem_fuel;
  insert_loop fuel node root;;
  r ← rb_root root;
  rb_set_black r.

(** ** Removal *)

(** The first step at a node whose sibling [other] is red: afterwards the
    sibling is black.  The suffix says on which side of its parent the node is. *)
Definition red_sibling_l (other parent root : Z) : prog Z :=
  red ← rb_is_red other;
  if (red : bool) then
    rb_set_black other;;
    rb_set_red parent;;
    __rb_rotate_left parent root;;
    rb_right parent
  else mret other.

Definition red_sibling_r (other parent root : Z) : prog Z :=
  red ← rb_is_red other;
  if (red : bool) then
    rb_set_black other;;
    rb_set_red parent;;
    __rb_rotate_right parent root;;
    rb_left parent
  else mret other.

(** The last turn of the loop, when the sibling has a red child: it returns the
    root. *)
Definition red_nephew_l (other parent root : Z) : prog Z :=
  far ← rb_right other;
  black ← black_or_null far;
  other ← (if (black : bool) then
             near ← rb_left other;
             rb_set_black near;;
             rb_set_red other;;
             __rb_rotate_right other root;;
             rb_right parent
           else mret other);
  c ← rb_color parent;
  rb_set_color other c;;
  rb_set_black parent;;
  far ← rb_right other;
  rb_set_black far;;
  __rb_rotate_left parent root;;
  rb_root root.

Definition red_nephew_r (other parent root : Z) : prog Z :=
  far ← rb_left other;
  black ← black_or_null far;
  other ← (if (black : bool) then
             near ← rb_right other;
             rb_set_black near;;
             rb_set_red other;;
             __rb_rotate_left other root;;
             rb_left parent
           else mret other);
  c ← rb_color parent;
  rb_set_color other c;;
  rb_set_black parent;;
  far ← rb_left other;
  rb_set_black far;;
  __rb_rotate_right parent root;;
  rb_root root.

Definition black_children (other : Z) : prog bool :=
  l ← rb_left other;
  bl ← black_or_null l;
  r ← rb_right other;
  br ← black_or_null r;
  mret (bl && br).

(** The loop returns the node that is to become black. *)
Fixpoint erase_loop (fuel : nat) (node parent root : Z) : prog Z :=
  match fuel with
  | O => out_of_fuel
  | S fuel =>
      black ← black_or_null node;
      r ← rb_root root;
      if negb (black && negb (node =? r)) then mret node else
      pl ← rb_left parent;
      if pl =? node then
        other ← rb_right parent;
        other ← red_sibling_l other parent root;
        black ← black_children other;
        if (black : bool) then
          rb_set_red other;;
          parent' ← rb_parent parent;
          erase_loop fuel parent parent' root
        else red_nephew_l other parent root
      else
        other ← rb_left parent;
        other ← red_sibling_r other parent root;
        black ← black_children other;
        if (black : bool) then
          rb_set_red other;;
          parent' ← rb_parent parent;
          erase_loop fuel parent parent' root
        else red_nephew_r other parent root
  end.

Definition __rb_erase_color (node parent root : Z) : prog unit :=
  fuel ← mem_fuel;
  node ← erase_loop fuel node parent root;
  when (truthy node) (rb_set_black node).

(** [while ((left = node->rb_left) != NULL) node = left;] and its mirror image *)
Fixpoint leftmost (fuel : nat) (node : Z) : prog Z :=
  match fuel with
  | O => out_of_fuel
  | S fuel => l ← rb_left node; if truthy l then leftmost fuel l else mret node
  end.

Fixpoint rightmost (fuel : nat) (node : Z) : prog Z :=
  match fuel with
  | O => out_of_fuel
  | S fuel => r ← rb_right node; if truthy r then rightmost fuel r else mret node
  end.

(** A node with at most one child leaves its place to it. *)
Definition erase_single (node child root : Z) : prog (Z * Z * Z) :=
  parent ← rb_parent node;
  color ← rb_color node;
  when (truthy child) (rb_set_parent child parent);;
  replace_left node child parent root;;
  mret (child, parent, color).

(** The parent, the colour and the left child of [old] become those of [node]. *)
Definition take_place (old node : Z) : prog unit :=
  pc ← rb_parent_color old;
  set_parent_color node pc;;
  l ← rb_left old;
  set_left node l;;
  l ← rb_left old;
  rb_set_parent l node.

(** A node with two children leaves its place and its colour to its successor. *)
Definition erase_two (old root : Z) : prog (Z * Z * Z) :=
  r ← rb_right old;
  fuel ← mem_fuel;
  node ← leftmost fuel r;
  p ← rb_parent old;
  replace_left old node p root;;
  child ← rb_right node;
  parent ← rb_parent node;
  color ← rb_color node;
  parent ← (if parent =? old then mret node
            else
              when (truthy child) (rb_set_parent child parent);;
              set_left parent child;;
              r ← rb_right old;
              set_right node r;;
              r ← rb_right old;
              rb_set_parent r node;;
              mret parent);
  take_place old node;;
  mret (child, parent, color).

Definition rb_erase (node root : Z) : prog unit :=
  l ← rb_left node;
  cpc ← (if negb (truthy l) then child ← rb_right node; erase_single node child root
         else
           r ← rb_right node;
           if negb (truthy r) then child ← rb_left node; erase_single node child root
           else erase_two node root);
  let '(child, parent, color) := cpc in
  when (color =? RB_BLACK) (__rb_erase_color child parent root).

(** ** Traversal *)

Definition rb_first (root : Z) : prog Z :=
  n ← rb_root root;
  if negb (truthy n) then mret 0 else fuel ← mem_fuel; leftmost fuel n.

Definition rb_last (root : Z) : prog Z :=
  n ← rb_root root;
  if negb (truthy n) then mret 0 else fuel ← mem_fuel; rightmost fuel n.

Fixpoint up_right (fuel : nat) (node : Z) : prog Z :=
  match fuel with
  | O => out_of_fuel
  | S fuel =>
      parent ← rb_parent node;
      if negb (truthy parent) then mret parent else
      r ← rb_right parent;
      if node =? r then up_right fuel parent else mret parent
  end.

Fixpoint up_left (fuel : nat) (node : Z) : prog Z :=
  match fuel with
  | O => out_of_fuel
  | S fuel =>
      parent ← rb_parent node;
      if negb (truthy parent) then mret parent else
      l ← rb_left parent;
      if node =? l then up_left fuel parent else mret parent
  end.

Definition rb_next (node : Z) : prog Z :=
  p ← rb_parent node;
  if p =? node then mret 0 else
  r ← rb_right node;
  fuel ← mem_fuel;
  if truthy r then leftmost fuel r else up_right fuel node.

Definition rb_prev (node : Z) : prog Z :=
  p ← rb_parent node;
  if p =? node then mret 0 else
  l ← rb_left node;
  fuel ← mem_fuel;
  if truthy l then rightmost fuel l else up_left fuel node.

Definition rb_replace_node (victim new root : Z) : prog unit :=
  parent ← rb_parent victim;
  replace_left victim new parent root;;
  l ← rb_left victim;
  when (truthy l) (l ← rb_left victim; rb_set_parent l new);;
  r ← rb_right victim;
  when (truthy r) (r ← rb_right victim; rb_set_parent r new);;
  pc ← rb_parent_color victim;
  r ← rb_right victim;
  l ← rb_left victim;
  set_parent_color new pc;;
  set_right new r;;
  set_left new l.

(** ** Augmented trees *)

(** [func] is the function pointer a user of the library gives, with its [data]
    argument applied. *)
Fixpoint augment_up (fuel : nat) (func : Z → prog unit) (node : Z) : prog unit :=
  match fuel with
  | O => out_of_fuel
  | S fuel =>
      func node;;
      parent ← rb_parent node;
      if negb (truthy parent) then mret tt else
      l ← rb_left parent;
      r ← rb_right parent;
      (if (node =? l) && truthy r then func r else when (truthy l) (func l));;
      augment_up fuel func parent
  end.

Definition rb_augment_path (node : Z) (func : Z → prog unit) : prog unit :=
  fuel ← mem_fuel;
  augment_up fuel func node.

Definition rb_augment_insert (node : Z) (func : Z → prog unit) : prog unit :=
  l ← rb_left node;
  r ← rb_right node;
  rb_augment_path (if truthy l then l else if truthy r then r else node) func.

Definition rb_augment_erase_begin (node : Z) : prog Z :=
  r ← rb_right node;
  l ← rb_left node;
  if negb (truthy r) && negb (truthy l) then rb_parent node
  else if negb (truthy r) then mret l
  else if negb (truthy l) then mret r
  else
    deepest ← rb_next node;
    r ← rb_right deepest;
    if truthy r then mret r else
    p ← rb_parent deepest;
    if negb (p =? node) then mret p else mret deepest.

Definition rb_augment_erase_end (node : Z) (func : Z → prog unit) : prog unit :=
  when (truthy node) (rb_augment_path node func).
