(* ===== verification/RbLogic.v ===== *)
(** * Assertions about red-black trees in memory

    Trees and trees with a hole as data, the memory that represents them, and
    the specification of the accesses to one node and of the rotations. *)
From S2P Require Import Prelude HeapLogic RbTree.
#[local] Open Scope Z_scope.

(** ** Trees *)

Inductive color := Red | Black.
Inductive tree := E | T (c : color) (l : tree) (x : Z) (r : tree).

#[export] Instance color_eq_dec : EqDecision color.
Proof. solve_decision. Defined.

#[export] Instance tree_eq_dec : EqDecision tree.
Proof. solve_decision. Defined.

Definition root_of (t : tree) : Z := match t with E => 0 | T _ _ x _ => x end.

(** The nodes in order. *)
Fixpoint elements (t : tree) : list Z :=
  match t with E => [] | T _ l x r => elements l ++ x :: elements r end.

(** A node on the way down to the hole, which is its left or its right child. *)
Inductive frame := FL (c : color) (x : Z) (r : tree) | FR (c : color) (l : tree) (x : Z).

Definition ctx : Type := list frame.

Definition fill (f : frame) (t : tree) : tree :=
  match f with FL c x r => T c t x r | FR c l x => T c l x t end.
Fixpoint plug (c : ctx) (t : tree) : tree :=
  match c with [] => t | f :: c => plug c (fill f t) end.

Definition node_of (f : frame) : Z := match f with FL _ x _ | FR _ _ x => x end.
Definition parent_of (c : ctx) : Z := match c with [] => 0 | f :: _ => node_of f end.

(** The nodes before and behind the hole. *)
Fixpoint before (c : ctx) : list Z :=
  match c with
  | [] => []
  | FL _ _ _ :: c => before c
  | FR _ l x :: c => before c ++ elements l ++ [x]
  end.
Fixpoint behind (c : ctx) : list Z :=
  match c with
  | [] => []
  | FL _ x r :: c => x :: elements r ++ behind c
  | FR _ _ _ :: c => behind c
  end.

Lemma elements_plug c t : elements (plug c t) = before c ++ elements t ++ behind c.
Proof.
  revert t. induction c as [|[k x r|k l x] c IH]; intros t; cbn; rw ?IH ?right_id_L //=.
  all: by rw -?assoc_L /= -?assoc_L.
Qed.

(** ** Memory *)

(** Where a node can be: [struct rb_node] is aligned to the size of a word. *)
Definition addr (x : Z) : Prop := 0 < x < 2 ^ 64 ∧ x mod 8 = 0.
Definition ptr (p : Z) : Prop := 0 ≤ p < 2 ^ 64 ∧ p mod 8 = 0.

Definition col (c : color) : Z := match c with Red => RB_RED | Black => RB_BLACK end.
Definition is_red (c : color) : bool := match c with Red => true | Black => false end.

(** The word that holds both the parent and the colour. *)
Definition enc (p : Z) (c : color) : Z := p + col c.

Definition rb_node (x p : Z) (c : color) (l r : Z) : mprop :=
  ⌜addr x⌝ ∗ ⌜ptr p⌝ ∗ x ↦ enc p c ∗ (x + 8) ↦ r ∗ (x + 16) ↦ l.

(** The memory of a node that is on no tree. *)
Definition rb_free (x : Z) : mprop := ∃ pc l r, ⌜addr x⌝ ∗ x ↦ pc ∗ (x + 8) ↦ r ∗ (x + 16) ↦ l.

(** The subtree [t] below the node [p]. *)
Fixpoint rb_tree (p : Z) (t : tree) : mprop :=
  match t with
  | E => emp
  | T c l x r => rb_node x p c (root_of l) (root_of r) ∗ rb_tree x l ∗ rb_tree x r
  end.

(** The rest of the tree whose root is at [rt], with [h] in the place of the
    hole. *)
Fixpoint rb_ctx (rt h : Z) (c : ctx) : mprop :=
  match c with
  | [] => rt ↦ h
  | FL k x r :: c => rb_node x (parent_of c) k h (root_of r) ∗ rb_tree x r ∗ rb_ctx rt x c
  | FR k l x :: c => rb_node x (parent_of c) k (root_of l) h ∗ rb_tree x l ∗ rb_ctx rt x c
  end.

Definition rb_whole (rt : Z) (t : tree) : mprop := rt ↦ root_of t ∗ rb_tree 0 t.

Lemma rb_plug rt c t :
  rb_whole rt (plug c t) ⊣⊢ rb_ctx rt (root_of t) c ∗ rb_tree (parent_of c) t.
Proof.
  revert t. induction c as [|[k x r|k l x] c IH]; intros t; cbn; [done| |].
  all: rw IH; cbn; iSplit; iIntros; iFrame; repeat iDestruct select (_ ∗ _)%I as "[? ?]"; iFrame.
Qed.

(** *** The encoding *)

Lemma addr_ptr x : addr x → ptr x.
Proof. intros [? ?]. split; [lia|done]. Qed.

Lemma ptr_0 : ptr 0.
Proof. done. Qed.

Lemma land_high a k : 0 ≤ k → 0 ≤ a < 2 ^ 64 → Z.land a (u64 (Z.lnot (Z.ones k))) = a / 2 ^ k * 2 ^ k.
Proof.
  intros Hk Ha. rw -Z.shiftl_mul_pow2 // -Z.shiftr_div_pow2 // -Z.ldiff_ones_r //.
  apply Z.bits_inj'. intros i Hi. rw Z.land_spec Z.ldiff_spec. unfold u64.
  destruct (decide (i < 64)).
  - rw Z.mod_pow2_bits_low // Z.lnot_spec //.
  - rw Z.mod_pow2_bits_high; [|lia]. rw andb_false_r. symmetry.
    rw (Z.bits_above_log2 a i) //; [lia|]. destruct (decide (a = 0)) as [->|]; [cbn; lia|].
    apply Z.log2_lt_pow2; [lia|]. assert (2 ^ 64 ≤ 2 ^ i) by (apply Z.pow_le_mono_r; lia). lia.
Qed.

Lemma enc_range p c : ptr p → 0 ≤ enc p c < 2 ^ 64.
Proof. intros [? ?]. unfold enc, col, RB_RED, RB_BLACK. destruct c; dlia. Qed.

Lemma enc_parent p c : ptr p → Z.land (enc p c) (u64 (Z.lnot 3)) = p.
Proof.
  intros Hp. change 3 with (Z.ones 2). rw land_high //; [|by apply enc_range].
  destruct Hp as [? ?]. unfold enc, col, RB_RED, RB_BLACK. destruct c; dlia.
Qed.

Lemma enc_color p c : ptr p → Z.land (enc p c) 1 = col c.
Proof.
  intros [? ?]. change 1 with (Z.ones 1) at 1. rw Z.land_ones //.
  unfold enc, col, RB_RED, RB_BLACK. destruct c; dlia.
Qed.

Lemma enc_red p c : ptr p → Z.land (enc p c) (u64 (Z.lnot 1)) = enc p Red.
Proof.
  intros Hp. change 1 with (Z.ones 1) at 1. rw land_high //; [|by apply enc_range].
  destruct Hp as [? ?]. unfold enc, col, RB_RED, RB_BLACK. destruct c; dlia.
Qed.

Lemma lor_low a b : a mod 4 = 0 → 0 ≤ b < 4 → Z.lor b a = a + b.
Proof.
  intros Ha Hb. replace a with (a / 4 * 2 ^ 2) by dlia. rw Z.lor_comm. by apply lor_shift_add.
Qed.

Lemma enc_black p c : ptr p → Z.lor (enc p c) 1 = enc p Black.
Proof.
  intros [? ?]. unfold enc, col, RB_RED, RB_BLACK. destruct c.
  - rw Z.lor_comm lor_low //; dlia.
  - rw -(lor_low p 1); [by rw (Z.lor_comm 1 p) -Z.lor_assoc|dlia|lia].
Qed.

Lemma enc_set_parent p c p' : ptr p → ptr p' → Z.lor (Z.land (enc p c) 3) p' = enc p' c.
Proof.
  intros [? ?] [? ?]. change 3 with (Z.ones 2). rw Z.land_ones //.
  unfold enc, col, RB_RED, RB_BLACK. rw lor_low; [destruct c; dlia|dlia..].
Qed.

Lemma enc_set_color p c c' :
  ptr p → Z.lor (Z.land (enc p c) (u64 (Z.lnot 1))) (col c') = enc p c'.
Proof.
  intros Hp. rw enc_red //. destruct Hp as [? ?]. unfold enc, col, RB_RED, RB_BLACK.
  destruct c'; [by rw Z.lor_0_r|]. rw Z.lor_comm lor_low; dlia.
Qed.

Lemma truthy_addr x : addr x → truthy x = true.
Proof. intros [? ?]. unfold truthy. apply negb_true_iff, Z.eqb_neq. lia. Qed.

(** ** Accesses to a node *)

Section node.
Context (x p : Z) (c : color) (l r : Z).

Lemma reads_left : reads (rb_node x p c l r) (rb_left x) l.
Proof. unfold reads, rb_left. iIntros "(%&%&?&?&?)". wp_steps. by iFrame "∗%". Qed.
Lemma reads_right : reads (rb_node x p c l r) (rb_right x) r.
Proof. unfold reads, rb_right. iIntros "(%&%&?&?&?)". wp_steps. by iFrame "∗%". Qed.
Lemma reads_parent_color : reads (rb_node x p c l r) (rb_parent_color x) (enc p c).
Proof. unfold reads, rb_parent_color. iIntros "(%&%&?&?&?)". wp_steps. by iFrame "∗%". Qed.
Lemma reads_parent : reads (rb_node x p c l r) (rb_parent x) p.
Proof.
  unfold reads, rb_parent. iIntros "(%&%&?&?&?)". unfold rb_parent_color. wp_steps.
  rw enc_parent //. by iFrame "∗%".
Qed.
Lemma reads_color : reads (rb_node x p c l r) (rb_color x) (col c).
Proof.
  unfold reads, rb_color. iIntros "(%&%&?&?&?)". unfold rb_parent_color. wp_steps.
  rw enc_color //. by iFrame "∗%".
Qed.
Lemma reads_is_red : reads (rb_node x p c l r) (rb_is_red x) (is_red c).
Proof.
  unfold reads, rb_is_red. iIntros "H". wp_read reads_color. wp_steps. iFrame. by destruct c.
Qed.
Lemma reads_is_black : reads (rb_node x p c l r) (rb_is_black x) (negb (is_red c)).
Proof.
  unfold reads, rb_is_black. iIntros "H". wp_read reads_color. wp_steps. iFrame. by destruct c.
Qed.

Lemma reads_red_node : reads (rb_node x p c l r) (red_node x) (is_red c).
Proof.
  unfold reads, red_node. iIntros "(% & H)". rw truthy_addr //. iApply reads_is_red. by iFrame.
Qed.
Lemma reads_black_node : reads (rb_node x p c l r) (black_or_null x) (negb (is_red c)).
Proof.
  unfold reads, black_or_null. iIntros "(% & H)". rw truthy_addr //. iApply reads_is_black.
  by iFrame.
Qed.

Lemma writes_left v : writes (rb_node x p c l r) (set_left x v) (rb_node x p c v r).
Proof. unfold writes, set_left. iIntros "(%&%&?&?&?)". wp_steps. by iFrame "∗%". Qed.
Lemma writes_right v : writes (rb_node x p c l r) (set_right x v) (rb_node x p c l v).
Proof. unfold writes, set_right. iIntros "(%&%&?&?&?)". wp_steps. by iFrame "∗%". Qed.
Lemma writes_parent_color p' c' :
  ptr p' → writes (rb_node x p c l r) (set_parent_color x (enc p' c')) (rb_node x p' c' l r).
Proof. unfold writes, set_parent_color. iIntros (?) "(%&%&?&?&?)". wp_steps. by iFrame "∗%". Qed.
Lemma writes_red : writes (rb_node x p c l r) (rb_set_red x) (rb_node x p Red l r).
Proof.
  unfold writes, rb_set_red. iIntros "H". iDestruct "H" as "(%&%&?&?&?)".
  unfold rb_parent_color, set_parent_color. wp_steps. rw enc_red //. by iFrame "∗%".
Qed.
Lemma writes_black : writes (rb_node x p c l r) (rb_set_black x) (rb_node x p Black l r).
Proof.
  unfold writes, rb_set_black. iIntros "(%&%&?&?&?)".
  unfold rb_parent_color, set_parent_color. wp_steps. rw enc_black //. by iFrame "∗%".
Qed.
Lemma writes_parent p' :
  ptr p' → writes (rb_node x p c l r) (rb_set_parent x p') (rb_node x p' c l r).
Proof.
  unfold writes, rb_set_parent. iIntros (?) "(%&%&?&?&?)".
  unfold rb_parent_color, set_parent_color. wp_steps. rw enc_set_parent //. by iFrame "∗%".
Qed.
Lemma writes_color c' : writes (rb_node x p c l r) (rb_set_color x (col c')) (rb_node x p c' l r).
Proof.
  unfold writes, rb_set_color. iIntros "(%&%&?&?&?)".
  unfold rb_parent_color, set_parent_color. wp_steps. rw enc_set_color //. by iFrame "∗%".
Qed.
End node.

(** The next access, to a node in the context. *)
Ltac solve_ptr := first [assumption | apply addr_ptr; assumption | exact ptr_0].
Ltac rb_step :=
  lazymatch goal with
  | |- envs_entails _ (wp (mbind _ (rb_left _)) _) => eapply tac_wp_read;
    [apply reads_left|iAssumptionCore|]
  | |- envs_entails _ (wp (mbind _ (rb_right _)) _) => eapply tac_wp_read;
    [apply reads_right|iAssumptionCore|]
  | |- envs_entails _ (wp (mbind _ (rb_parent _)) _) => eapply tac_wp_read;
    [apply reads_parent|iAssumptionCore|]
  | |- envs_entails _ (wp (mbind _ (rb_parent_color _)) _) =>
      eapply tac_wp_read; [apply reads_parent_color|iAssumptionCore|]
  | |- envs_entails _ (wp (mbind _ (rb_color _)) _) => eapply tac_wp_read;
    [apply reads_color|iAssumptionCore|]
  | |- envs_entails _ (wp (mbind _ (rb_is_red _)) _) => eapply tac_wp_read;
    [apply reads_is_red|iAssumptionCore|]
  | |- envs_entails _ (wp (mbind _ (rb_is_black _)) _) => eapply tac_wp_read;
    [apply reads_is_black|iAssumptionCore|]
  | |- envs_entails _ (wp (mbind _ (red_node _)) _) => eapply tac_wp_read;
    [apply reads_red_node|iAssumptionCore|]
  | |- envs_entails _ (wp (mbind _ (black_or_null _)) _) =>
      eapply tac_wp_read; [apply reads_black_node|iAssumptionCore|]
  | |- envs_entails _ (wp (mbind _ (set_left _ _)) _) =>
      eapply tac_wp_write; [apply writes_left|iAssumptionCore|pm_reflexivity|pm_reduce]
  | |- envs_entails _ (wp (mbind _ (set_right _ _)) _) =>
      eapply tac_wp_write; [apply writes_right|iAssumptionCore|pm_reflexivity|pm_reduce]
  | |- envs_entails _ (wp (mbind _ (rb_set_red _)) _) =>
      eapply tac_wp_write; [apply writes_red|iAssumptionCore|pm_reflexivity|pm_reduce]
  | |- envs_entails _ (wp (mbind _ (rb_set_black _)) _) =>
      eapply tac_wp_write; [apply writes_black|iAssumptionCore|pm_reflexivity|pm_reduce]
  | |- envs_entails _ (wp (mbind _ (rb_set_color _ _)) _) =>
      eapply tac_wp_write; [apply writes_color|iAssumptionCore|pm_reflexivity|pm_reduce]
  | |- envs_entails _ (wp (mbind _ (rb_set_parent _ _)) _) =>
      eapply tac_wp_write; [apply writes_parent; solve_ptr|iAssumptionCore|pm_reflexivity|pm_reduce]
  | |- envs_entails _ (wp (mbind _ (set_parent_color _ _)) _) =>
      eapply tac_wp_write; [apply writes_parent_color; solve_ptr|iAssumptionCore|pm_reflexivity|pm_reduce]
  | |- envs_entails _ (wp (mbind _ (mret _)) _) => iApply wp_ret_bind
  | |- envs_entails _ (wp (mbind _ (mbind _ _)) _) => iApply wp_assoc
  | |- envs_entails _ (wp (mret _) _) => iApply wp_ret
  | |- envs_entails _ (wp (rb_set_parent _ _) _) => iApply wp_last
  | |- envs_entails _ (wp (rb_set_black _) _) => iApply wp_last
  | |- envs_entails _ (wp (rb_left _) _) => iApply wp_last
  | |- envs_entails _ (wp (rb_right _) _) => iApply wp_last
  | |- envs_entails _ (wp (set_left _ _) _) => iApply wp_last
  | |- envs_entails _ (wp (set_right _ _) _) => iApply wp_last
  end; cbv beta.
Ltac rb_steps := repeat rb_step.

(** *** Nodes are distinct *)

Lemma rb_node_addr x p c l r : rb_node x p c l r ⊢ ⌜addr x⌝.
Proof. iIntros "(%&_)". done. Qed.
Lemma rb_node_ptr x p c l r : rb_node x p c l r ⊢ ⌜ptr p⌝.
Proof. iIntros "(_&%&_)". done. Qed.

Lemma rb_node_ne x p c l r x' p' c' l' r' :
  rb_node x p c l r -∗ rb_node x' p' c' l' r' -∗ ⌜x ≠ x'⌝.
Proof. iIntros "(_&_&H1&_) (_&_&H2&_)". iApply pointsto_ne. iFrame. Qed.

Lemma rb_root_ne x p c l r q t : rb_node x p c l r -∗ rb_tree q t -∗ ⌜x ≠ root_of t⌝.
Proof.
  destruct t as [|k l' y r']; cbn.
  - iIntros "H _". iDestruct (rb_node_addr with "H") as %[? _]. iPureIntro. lia.
  - iIntros "H1 [H2 _]". iApply (rb_node_ne with "H1 H2").
Qed.

(** *** Replacing a child *)

Lemma wp_replace_left {A} h h' rt c px kx lx rx (k : unit → prog A) Φ :
  rb_node h px kx lx rx -∗ rb_ctx rt h c -∗
  (rb_node h px kx lx rx -∗ rb_ctx rt h' c -∗ wp (k tt) Φ) -∗
  wp (replace_left h h' (parent_of c) rt ≫= k) Φ.
Proof.
  iIntros "Hh Hc Hk". unfold replace_left. destruct c as [|[kf x r|kf l x] c]; cbn.
  - unfold set_root. wp_step. by iApply ("Hk" with "Hh").
  - iDestruct "Hc" as "(Hx & Hr & Hc)". iDestruct (rb_node_addr with "Hx") as %Ha.
    rw truthy_addr //. rb_steps. rw Z.eqb_refl. rb_steps. iApply ("Hk" with "Hh"). iFrame.
  - iDestruct "Hc" as "(Hx & Hl & Hc)". iDestruct (rb_node_addr with "Hx") as %Ha.
    iDestruct (rb_root_ne with "Hh Hl") as %Hne%Z.eqb_neq.
    rw truthy_addr //. rb_steps. rw Hne. rb_steps. iApply ("Hk" with "Hh"). iFrame.
Qed.

Lemma wp_replace_right {A} h h' rt c px kx lx rx (k : unit → prog A) Φ :
  rb_node h px kx lx rx -∗ rb_ctx rt h c -∗
  (rb_node h px kx lx rx -∗ rb_ctx rt h' c -∗ wp (k tt) Φ) -∗
  wp (replace_right h h' (parent_of c) rt ≫= k) Φ.
Proof.
  iIntros "Hh Hc Hk". unfold replace_right. destruct c as [|[kf x r|kf l x] c]; cbn.
  - unfold set_root. wp_step. by iApply ("Hk" with "Hh").
  - iDestruct "Hc" as "(Hx & Hr & Hc)". iDestruct (rb_node_addr with "Hx") as %Ha.
    iDestruct (rb_root_ne with "Hh Hr") as %Hne%Z.eqb_neq.
    rw truthy_addr //. rb_steps. rw Hne. rb_steps. iApply ("Hk" with "Hh"). iFrame.
  - iDestruct "Hc" as "(Hx & Hl & Hc)". iDestruct (rb_node_addr with "Hx") as %Ha.
    rw truthy_addr //. rb_steps. rw Z.eqb_refl. rb_steps. iApply ("Hk" with "Hh"). iFrame.
Qed.

(** ** Rotations *)

(** A subtree is hung below another node. *)
Lemma wp_adopt {A} t p p' (k : unit → prog A) Φ :
  ptr p' → rb_tree p t -∗ (rb_tree p' t -∗ wp (k tt) Φ) -∗
  wp (when (truthy (root_of t)) (rb_set_parent (root_of t) p') ≫= k) Φ.
Proof.
  iIntros (Hp) "Ht Hk". iApply wp_when. destruct t as [|c l x r]; cbn; [by iApply "Hk"|].
  iDestruct "Ht" as "(Hx & Hl & Hr)". iDestruct (rb_node_addr with "Hx") as %Ha.
  rw truthy_addr //. rb_steps. iApply "Hk". iFrame.
Qed.

(** [if (p->child) rb_set_parent(p->child, p');] reads the field twice. *)
Lemma wp_adopt_child {A} (field : prog Z) x p c l r t q p' (k : unit → prog A) Φ :
  reads (rb_node x p c l r) field (root_of t) → ptr p' →
  rb_node x p c l r -∗ rb_tree q t -∗
  (rb_node x p c l r -∗ rb_tree p' t -∗ wp (k tt) Φ) -∗
  wp (when (truthy (root_of t)) (v ← field; rb_set_parent v p') ≫= k) Φ.
Proof.
  iIntros (Hf Hp) "Hx Ht Hk". iApply wp_when. destruct t as [|kt tl y tr]; cbn.
  - iApply ("Hk" with "Hx Ht").
  - iDestruct "Ht" as "(Hy & Htl & Htr)". iDestruct (rb_node_addr with "Hy") as %Hy.
    rw (truthy_addr y) //.
    rb_steps. wp_read Hf. rb_steps. iApply ("Hk" with "Hx"). iFrame.
Qed.

Lemma wp_rotate_left {A} rt c kx a x ky b y d (k : unit → prog A) Φ :
  rb_ctx rt x c -∗ rb_tree (parent_of c) (T kx a x (T ky b y d)) -∗
  (rb_ctx rt y c -∗ rb_tree (parent_of c) (T ky (T kx a x b) y d) -∗ wp (k tt) Φ) -∗
  wp (__rb_rotate_left x rt ≫= k) Φ.
Proof.
  iIntros "Hc Ht Hk". cbn. iDestruct "Ht" as "(Hx & Ha & Hy & Hb & Hd)".
  iDestruct (rb_node_addr with "Hx") as %Hx. iDestruct (rb_node_addr with "Hy") as %Hy.
  iDestruct (rb_node_ptr with "Hx") as %Hp.
  unfold __rb_rotate_left. rb_steps.
  iApply (wp_adopt_child with "Hy Hb"); [apply reads_left|by apply addr_ptr|]. iIntros "Hy Hb".
  rb_steps.
  iApply (wp_replace_left with "Hx Hc"). iIntros "Hx Hc". rb_steps.
  iApply ("Hk" with "Hc"). iFrame.
Qed.

Lemma wp_rotate_right {A} rt c kx a x ky b y d (k : unit → prog A) Φ :
  rb_ctx rt x c -∗ rb_tree (parent_of c) (T kx (T ky a y b) x d) -∗
  (rb_ctx rt y c -∗ rb_tree (parent_of c) (T ky a y (T kx b x d)) -∗ wp (k tt) Φ) -∗
  wp (__rb_rotate_right x rt ≫= k) Φ.
Proof.
  iIntros "Hc Ht Hk". cbn. iDestruct "Ht" as "(Hx & (Hy & Ha & Hb) & Hd)".
  iDestruct (rb_node_addr with "Hx") as %Hx. iDestruct (rb_node_addr with "Hy") as %Hy.
  iDestruct (rb_node_ptr with "Hx") as %Hp.
  unfold __rb_rotate_right. rb_steps.
  iApply (wp_adopt_child with "Hy Hb"); [apply reads_right|by apply addr_ptr|]. iIntros "Hy Hb".
  rb_steps.
  iApply (wp_replace_right with "Hx Hc"). iIntros "Hx Hc". rb_steps.
  iApply ("Hk" with "Hc"). iFrame.
Qed.

(** ** Laying out a tree *)

Fixpoint tree_cells (p : Z) (t : tree) : list (Z * Z) :=
  match t with
  | E => []
  | T c l x r =>
      (x, enc p c) :: (x + 8, root_of r) :: (x + 16, root_of l) :: tree_cells x l ++ tree_cells x r
  end.

(** A node that is its own parent. *)
Definition node_cells (x : Z) : list (Z * Z) := [(x, x); (x + 8, 0); (x + 16, 0)].

(** The tree [t] below the root [rt], and the nodes [xs] on no tree. *)
Definition layout (rt : Z) (t : tree) (xs : list Z) : list (Z * Z) :=
  (rt, root_of t) :: tree_cells 0 t ++ mjoin (node_cells <$> xs).

Lemma cells_tree p t :
  ptr p → Forall addr (elements t) → ([∗ list] c ∈ tree_cells p t, c.1 ↦ c.2) ⊢ rb_tree p t.
Proof.
  revert p. induction t as [|c l IHl x r IHr]; intros p Hp Ht; cbn; [done|].
  apply Forall_app in Ht as [Hl [Hx Hr]%Forall_cons].
  rw big_sepL_app IHl // ?IHr //; try by apply addr_ptr.
  iIntros "($ & $ & $ & $ & $)". done.
Qed.

Lemma layout_holds rt t xs :
  NoDup (layout rt t xs).*1 → Forall addr (elements t) →
  holds (rb_whole rt t ∗ [∗ list] x ∈ xs, [∗ list] c ∈ node_cells x, c.1 ↦ c.2)
    (list_to_map (layout rt t xs)).
Proof.
  intros Hnd Ht. eapply holds_entails, (holds_cells _ Hnd). unfold layout. cbn.
  rw big_sepL_app cells_tree //.
  iIntros "($ & $ & H)". clear Hnd. iInduction xs as [|x xs IH]; cbn; [done|].
  iDestruct "H" as "($ & $ & $ & H)". by iApply "IH".
Qed.

Lemma layout_whole rt t :
  NoDup (layout rt t []).*1 → Forall addr (elements t) →
  holds (rb_whole rt t) (list_to_map (layout rt t [])).
Proof. intros Hnd Ht. eapply holds_entails, (layout_holds _ _ _ Hnd Ht). iIntros "[$ _]". Qed.

Lemma cells_free x : addr x → ([∗ list] c ∈ node_cells x, c.1 ↦ c.2) ⊢ rb_free x.
Proof. iIntros (Hx) "(H1 & H2 & H3 & _)". iExists _, _, _. by iFrame. Qed.

(** Three nodes below the root at 8. *)
Definition demo_tree : tree := T Black (T Red E 1024 E) 1056 (T Red E 1088 E).
