(* ===== verification/RbInsert.v ===== *)
(** * Insertion into red-black trees

    The invariant of red-black trees, of trees with a hole, and the proof that
    [rb_insert_color] restores it behind a new red node. *)
From S2P Require Import Prelude HeapLogic RbTree RbLogic.
#[local] Open Scope Z_scope.

(** ** Balance *)

(** No red node has a red child, and every way down has the same number of
    black nodes. *)
Inductive rb : color → nat → tree → Prop :=
| rb_E : rb Black 0 E
| rb_red n l x r : rb Black n l → rb Black n r → rb Red n (T Red l x r)
| rb_black n kl kr l x r : rb kl n l → rb kr n r → rb Black (S n) (T Black l x r).

(** [ctx_ok k n c]: a tree with [n] black nodes on every way down may be put
    into the hole of [c], of any colour when [k] is [Red], and a black one when
    it is [Black]. *)
Inductive ctx_ok : color → nat → ctx → Prop :=
| ctx_top n : ctx_ok Black n []
| ctx_black_l k kr n x r c : ctx_ok k (S n) c → rb kr n r → ctx_ok Red n (FL Black x r :: c)
| ctx_black_r k kl n l x c : ctx_ok k (S n) c → rb kl n l → ctx_ok Red n (FR Black l x :: c)
| ctx_red_l n x r c : ctx_ok Red n c → rb Black n r → ctx_ok Black n (FL Red x r :: c)
| ctx_red_r n l x c : ctx_ok Red n c → rb Black n l → ctx_ok Black n (FR Red l x :: c).

(** A tree as the library leaves it. *)
Definition rb_ok (t : tree) : Prop := ∃ n, rb Black n t.

Create HintDb rb discriminated.
#[export] Hint Constructors rb ctx_ok : rb.

Lemma rb_plug_ok c k k' n t :
  rb k n t → ctx_ok k' n c → k' = Red ∨ k = Black → rb_ok (plug c t).
Proof.
  revert k k' n t. induction c as [|f c IH]; intros k k' n t Ht Hc Hk.
  - inversion Hc; subst. destruct Hk as [? | ->]; [done|]. by exists n.
  - inversion Hc; subst; cbn.
    1,2: eapply IH; [by eapply rb_black|eassumption|by right].
    all: destruct Hk as [? | ->]; [done|]; eapply IH; [by eapply rb_red|eassumption|by left].
Qed.

Definition root_red (t : tree) : bool := match t with T Red _ _ _ => true | _ => false end.
Definition blacken (t : tree) : tree := match t with E => E | T _ l x r => T Black l x r end.

Lemma rb_root_red k n t : rb k n t → root_red t = is_red k.
Proof. by destruct 1. Qed.

Lemma rb_blacken k n t : rb k n t → rb_ok (blacken t).
Proof. destruct 1; eexists; cbn; eauto with rb. Qed.

Lemma elements_blacken t : elements (blacken t) = elements t.
Proof. by destruct t. Qed.

(** ** The colour of a subtree *)

Lemma wp_red_node {A} p t (k : bool → prog A) Φ :
  rb_tree p t -∗ (rb_tree p t -∗ wp (k (root_red t)) Φ) -∗ wp (red_node (root_of t) ≫= k) Φ.
Proof.
  iIntros "Ht Hk". unfold red_node. destruct t as [|c l x r]; cbn.
  - rb_steps. by iApply "Hk".
  - iDestruct "Ht" as "(Hx & Hl & Hr)". iDestruct (rb_node_addr with "Hx") as %?.
    rw truthy_addr //. rb_steps. destruct c; iApply "Hk"; iFrame.
Qed.

Lemma wp_black_or_null {A} p t (k : bool → prog A) Φ :
  rb_tree p t -∗ (rb_tree p t -∗ wp (k (negb (root_red t))) Φ) -∗
  wp (black_or_null (root_of t) ≫= k) Φ.
Proof.
  iIntros "Ht Hk". unfold black_or_null. destruct t as [|c l x r]; cbn.
  - rb_steps. by iApply "Hk".
  - iDestruct "Ht" as "(Hx & Hl & Hr)". iDestruct (rb_node_addr with "Hx") as %?.
    rw truthy_addr //. rb_steps. destruct c; iApply "Hk"; iFrame.
Qed.

(** ** The loop *)

Ltac same_elements := rw ?elements_plug /=; repeat (rw -!assoc_L /=); done.

Section insert.
Context {A : Type} (rt : Z) (k : unit → prog A) (Φ : A → mprop).

(** What is left to do when the tree is [t], but for the colour of its root. *)
Definition finish (t : tree) : mprop :=
  ∀ t', ⌜elements t' = elements t⌝ -∗ ⌜∃ kk n, rb kk n t'⌝ -∗ ⌜t' ≠ E⌝ -∗
    rb_whole rt t' -∗ wp (k tt) Φ.

Lemma finish_eq t1 t2 : elements t1 = elements t2 → finish t1 ⊢ finish t2.
Proof. iIntros (He) "H". unfold finish. by rw He. Qed.

Lemma plug_ne c t : t ≠ E → plug c t ≠ E.
Proof. revert t. induction c as [|[] c IH]; intros t Ht; cbn; [done|by apply IH..]. Qed.

#[local] Arguments plug : simpl never.

Lemma insert_done c n t :
  rb Red n t → ctx_ok Red n c →
  rb_ctx rt (root_of t) c -∗ rb_tree (parent_of c) t -∗ finish (plug c t) -∗ wp (k tt) Φ.
Proof.
  iIntros (Ht Hc) "Hc Ht Hk". iApply "Hk"; [done| | |by iApply rb_plug; iFrame].
  - iPureIntro. eexists. eapply rb_plug_ok; eauto.
  - iPureIntro. apply plug_ne. by inversion Ht.
Qed.

Definition loop_ok (fuel : nat) : Prop := ∀ c n kc a x b,
  rb Red n (T Red a x b) → ctx_ok kc n c → (length c < fuel)%nat →
  rb_ctx rt x c -∗ rb_tree (parent_of c) (T Red a x b) -∗ finish (plug c (T Red a x b)) -∗
  wp (insert_loop fuel x rt ≫= k) Φ.

(** The parent is red and a left child, the node a left child: the colours move
    up, or one rotation ends the loop. *)
Lemma turn_ll fuel n k1 ku p s g u c a x b :
  loop_ok fuel → rb Red n (T Red a x b) → rb Black n s → rb ku n u → ctx_ok k1 (S n) c →
  (length c + 2 < S fuel)%nat →
  rb_ctx rt x (FL Red p s :: FL Black g u :: c) -∗ rb_tree p (T Red a x b) -∗
  finish (plug (FL Red p s :: FL Black g u :: c) (T Red a x b)) -∗
  wp (insert_loop (S fuel) x rt ≫= k) Φ.
Proof.
  iIntros (IH Ht Hs Hu Hc Hf) "(Hp & Hs & Hg & Hu & Hc) (Hx & Ha & Hb) Hk". cbn.
  rb_steps; cbn; rb_steps. rw Z.eqb_refl. rb_steps.
  iApply (wp_red_node with "Hu"). iIntros "Hu". rw (rb_root_red _ _ _ Hu). destruct ku; cbn.
  - inversion Hu as [|? ul z ur|]; subst. iDestruct "Hu" as "(Hz & Hul & Hur)". cbn. rb_steps.
    iApply (IH c _ _ (T Black (T Red a x b) p s) g (T Black ul z ur) with "Hc [-Hk] [Hk]").
    + eauto with rb.
    + done.
    + lia.
    + cbn. iFrame.
    + iApply (finish_eq with "Hk"). same_elements.
  - iDestruct (rb_root_ne with "Hx Hs") as %Hxs%Z.eqb_neq. rb_steps. rw Z.eqb_sym Hxs. rb_steps.
    iApply (wp_rotate_right rt c Red (T Red a x b) g Black s p u with "Hc [-Hk]"); [cbn; iFrame|].
    iIntros "Hc (Hp & (Hx & Ha & Hb) & Hg)".
    iApply (IH (FL Black p (T Red s g u) :: c) n _ a x b with "[$Hp $Hc $Hg] [$Hx $Ha $Hb] [Hk]").
    + inversion Ht; eauto with rb.
    + inversion Ht; eauto with rb.
    + cbn. lia.
    + iApply (finish_eq with "Hk"). same_elements.
Qed.

(** The parent is a left child, the node a right child: two rotations. *)
Lemma turn_rl fuel n k1 ku p s g u c a x b :
  loop_ok fuel → rb Red n (T Red a x b) → rb Black n s → rb ku n u → ctx_ok k1 (S n) c →
  (length c + 2 < S fuel)%nat →
  rb_ctx rt x (FR Red s p :: FL Black g u :: c) -∗ rb_tree p (T Red a x b) -∗
  finish (plug (FR Red s p :: FL Black g u :: c) (T Red a x b)) -∗
  wp (insert_loop (S fuel) x rt ≫= k) Φ.
Proof.
  iIntros (IH Ht Hs Hu Hc Hf) "(Hp & Hs & Hg & Hu & Hc) (Hx & Ha & Hb) Hk". cbn.
  rb_steps; cbn; rb_steps. rw Z.eqb_refl. rb_steps.
  iApply (wp_red_node with "Hu"). iIntros "Hu". rw (rb_root_red _ _ _ Hu). destruct ku; cbn.
  - inversion Hu as [|? ul z ur|]; subst. iDestruct "Hu" as "(Hz & Hul & Hur)". cbn. rb_steps.
    iApply (IH c _ _ (T Black s p (T Red a x b)) g (T Black ul z ur) with "Hc [-Hk] [Hk]").
    + eauto with rb.
    + done.
    + lia.
    + cbn. iFrame.
    + iApply (finish_eq with "Hk"). same_elements.
  - rb_steps. rw Z.eqb_refl. rb_steps.
    iApply (wp_rotate_left _ (FL Black g u :: c) with "[$Hg $Hu $Hc] [$Hp $Hs $Hx $Ha $Hb]").
    iIntros "(Hg & Hu & Hc) (Hx & (Hp & Hs & Ha) & Hb)". rb_steps.
    iApply (wp_rotate_right rt c Red (T Red s p a) g Black b x u with "Hc [-Hk]"); [cbn; iFrame|].
    iIntros "Hc (Hx & (Hp & Hs & Ha) & Hg)".
    iApply (IH (FL Black x (T Red b g u) :: c) n _ s p a with "[$Hx $Hc $Hg] [$Hp $Hs $Ha] [Hk]").
    + inversion Ht; eauto with rb.
    + inversion Ht; eauto with rb.
    + cbn. lia.
    + iApply (finish_eq with "Hk"). same_elements.
Qed.

(** The mirror images. *)
Lemma turn_rr fuel n k1 ku p s g u c a x b :
  loop_ok fuel → rb Red n (T Red a x b) → rb Black n s → rb ku n u → ctx_ok k1 (S n) c →
  (length c + 2 < S fuel)%nat →
  rb_ctx rt x (FR Red s p :: FR Black u g :: c) -∗ rb_tree p (T Red a x b) -∗
  finish (plug (FR Red s p :: FR Black u g :: c) (T Red a x b)) -∗
  wp (insert_loop (S fuel) x rt ≫= k) Φ.
Proof.
  iIntros (IH Ht Hs Hu Hc Hf) "(Hp & Hs & Hg & Hu & Hc) (Hx & Ha & Hb) Hk". cbn.
  iDestruct (rb_root_ne with "Hp Hu") as %Hpu%Z.eqb_neq.
  rb_steps; cbn; rb_steps. rw Hpu. rb_steps.
  iApply (wp_red_node with "Hu"). iIntros "Hu". rw (rb_root_red _ _ _ Hu). destruct ku; cbn.
  - inversion Hu as [|? ul z ur|]; subst. iDestruct "Hu" as "(Hz & Hul & Hur)". cbn. rb_steps.
    iApply (IH c _ _ (T Black ul z ur) g (T Black s p (T Red a x b)) with "Hc [-Hk] [Hk]").
    + eauto with rb.
    + done.
    + lia.
    + cbn. iFrame.
    + iApply (finish_eq with "Hk"). same_elements.
  - iDestruct (rb_root_ne with "Hx Hs") as %Hxs%Z.eqb_neq. rb_steps. rw Z.eqb_sym Hxs. rb_steps.
    iApply (wp_rotate_left rt c Red u g Black s p (T Red a x b) with "Hc [-Hk]"); [cbn; iFrame|].
    iIntros "Hc (Hp & Hg & (Hx & Ha & Hb))".
    iApply (IH (FR Black (T Red u g s) p :: c) n _ a x b with "[$Hp $Hc $Hg] [$Hx $Ha $Hb] [Hk]").
    + inversion Ht; eauto with rb.
    + inversion Ht; eauto with rb.
    + cbn. lia.
    + iApply (finish_eq with "Hk"). same_elements.
Qed.

Lemma turn_lr fuel n k1 ku p s g u c a x b :
  loop_ok fuel → rb Red n (T Red a x b) → rb Black n s → rb ku n u → ctx_ok k1 (S n) c →
  (length c + 2 < S fuel)%nat →
  rb_ctx rt x (FL Red p s :: FR Black u g :: c) -∗ rb_tree p (T Red a x b) -∗
  finish (plug (FL Red p s :: FR Black u g :: c) (T Red a x b)) -∗
  wp (insert_loop (S fuel) x rt ≫= k) Φ.
Proof.
  iIntros (IH Ht Hs Hu Hc Hf) "(Hp & Hs & Hg & Hu & Hc) (Hx & Ha & Hb) Hk". cbn.
  iDestruct (rb_root_ne with "Hp Hu") as %Hpu%Z.eqb_neq.
  rb_steps; cbn; rb_steps. rw Hpu. rb_steps.
  iApply (wp_red_node with "Hu"). iIntros "Hu". rw (rb_root_red _ _ _ Hu). destruct ku; cbn.
  - inversion Hu as [|? ul z ur|]; subst. iDestruct "Hu" as "(Hz & Hul & Hur)". cbn. rb_steps.
    iApply (IH c _ _ (T Black ul z ur) g (T Black (T Red a x b) p s) with "Hc [-Hk] [Hk]").
    + eauto with rb.
    + done.
    + lia.
    + cbn. iFrame.
    + iApply (finish_eq with "Hk"). same_elements.
  - rb_steps. rw Z.eqb_refl. rb_steps.
    iApply (wp_rotate_right _ (FR Black u g :: c) with "[$Hg $Hu $Hc] [$Hp $Hs $Hx $Ha $Hb]").
    iIntros "(Hg & Hu & Hc) (Hx & Ha & (Hp & Hb & Hs))". rb_steps.
    iApply (wp_rotate_left rt c Red u g Black a x (T Red b p s) with "Hc [-Hk]"); [cbn; iFrame|].
    iIntros "Hc (Hx & Hg & (Hp & Hb & Hs))".
    iApply (IH (FR Black (T Red u g a) x :: c) n _ b p s with "[$Hx $Hc $Hg] [$Hp $Hb $Hs] [Hk]").
    + inversion Ht; eauto with rb.
    + inversion Ht; eauto with rb.
    + cbn. lia.
    + iApply (finish_eq with "Hk"). same_elements.
Qed.

Lemma wp_insert_loop fuel : loop_ok fuel.
Proof.
  induction fuel as [|fuel IH]; intros c n kc a x b Ht Hc Hf; [lia|].
  iIntros "Hc Ht Hk". destruct c as [|f c].
  { iDestruct "Ht" as "(Hx & Ha & Hb)". cbn. rb_steps. unfold red_node. cbn. rb_steps.
    iApply ("Hk" $! (T Red a x b)); [done|by iPureIntro; eauto|done|]. iFrame. }
  inversion Hc as [|? kr ? p r ? Hc' Hr|? kl ? l p ? Hc' Hl|? p s ? Hc' Hs|? s p ? Hc' Hs]; subst.
  1,2: iDestruct "Ht" as "(Hx & Ha & Hb)"; cbn; iDestruct "Hc" as "(Hp & Hs & Hc)"; rb_steps; cbn;
    rb_steps; iApply (insert_done (_ :: c) n (T Red a x b) with "[Hp Hs Hc] [Hx Ha Hb] Hk");
    [done|exact Hc|iFrame..].
  all: inversion Hc' as [|k1 ku ? g u c2 Hc2 Hu|k1 ku ? u g c2 Hc2 Hu| |]; subst; cbn in Hf.
  - iApply (turn_ll with "Hc Ht Hk"); [done..|lia].
  - iApply (turn_lr with "Hc Ht Hk"); [done..|lia].
  - iApply (turn_rl with "Hc Ht Hk"); [done..|lia].
  - iApply (turn_rr with "Hc Ht Hk"); [done..|lia].
Qed.
End insert.

(** ** rb_insert_color *)

Lemma tree_owns p t : rb_tree p t ⊢ owns (length (elements t)).
Proof.
  revert p. induction t as [|k l IHl x r IHr]; intros p; cbn.
  - iIntros "_". iApply owns_0.
  - iIntros "((_ & _ & Hx & _) & Hl & Hr)". rw IHl IHr pointsto_owns.
    iDestruct (owns_sep with "[$Hl $Hr]") as "H". iDestruct (owns_sep with "[$Hx $H]") as "H".
    iApply (owns_le with "H"). rw length_app /=. lia.
Qed.

Lemma ctx_owns rt h c : rb_ctx rt h c ⊢ owns (S (length c)).
Proof.
  revert h. induction c as [|[k x r|k l x] c IH]; intros h; cbn; [apply pointsto_owns| |].
  all: iIntros "((_ & _ & Hx & _) & _ & Hc)"; rw IH pointsto_owns.
  all: iApply (owns_sep 1 with "[$Hx $Hc]").
Qed.

Lemma wp_insert_color {A} rt c n kc a x b (k : unit → prog A) Φ :
  rb Red n (T Red a x b) → ctx_ok kc n c →
  rb_ctx rt x c -∗ rb_tree (parent_of c) (T Red a x b) -∗
  (∀ t, ⌜elements t = elements (plug c (T Red a x b))⌝ -∗ ⌜rb_ok t⌝ -∗ rb_whole rt t -∗ wp (k tt) Φ) -∗
  wp (rb_insert_color x rt ≫= k) Φ.
Proof.
  iIntros (Ht Hc) "Hc Ht Hk". unfold rb_insert_color. rb_steps.
  iApply (wp_mem_fuel (S (length c))). iSplit; [by iApply ctx_owns|]. iIntros (f Hf).
  iApply wp_assoc. iApply (wp_insert_loop with "Hc Ht"); [done|done|lia|].
  iIntros (t Ee (kk & m & Hrb) Hne) "[Hrt Ht]". unfold rb_root. wp_steps.
  destruct t as [|kt l y r]; [done|]. iDestruct "Ht" as "(Hy & Hl & Hr)". cbn. rb_steps.
  iApply ("Hk" $! (T Black l y r)); [done|iPureIntro; by eapply (rb_blacken _ _ (T kt l y r))|iFrame].
Qed.

(** ** A new node *)

Lemma rb_unplug c t :
  rb_ok (plug c t) → ∃ k kc n, rb k n t ∧ ctx_ok kc n c ∧ (kc = Red ∨ k = Black).
Proof.
  revert t. induction c as [|[kf x r|kf l x] c IH]; intros t Hok.
  - destruct Hok as [n Hok]. exists Black, Black, n. eauto with rb.
  - destruct (IH (fill (FL kf x r) t) Hok) as (k & kc & n & Ht & Hc & Hk). cbn in Ht.
    inversion Ht; subst; [destruct Hk as [-> | ?]; [|done]|]; do 3 eexists;
      (split; [eassumption|]); eauto with rb.
  - destruct (IH (fill (FR kf l x) t) Hok) as (k & kc & n & Ht & Hc & Hk). cbn in Ht.
    inversion Ht; subst; [destruct Hk as [-> | ?]; [|done]|]; do 3 eexists;
      (split; [eassumption|]); eauto with rb.
Qed.

(** The address of the pointer that leads to the hole. *)
Definition link_of (rt : Z) (c : ctx) : Z :=
  match c with [] => rt | FL _ x _ :: _ => x + 16 | FR _ _ x :: _ => x + 8 end.

Lemma ctx_link rt h c :
  rb_ctx rt h c ⊢ link_of rt c ↦ h ∗ (∀ h', link_of rt c ↦ h' -∗ rb_ctx rt h' c).
Proof.
  destruct c as [|[k x r|k l x] c]; cbn.
  - iIntros "$". by iIntros (h') "?".
  - iIntros "((% & % & ? & ? & $) & ? & ?)". iIntros (h') "?". by iFrame "∗%".
  - iIntros "((% & % & ? & $ & ?) & ? & ?)". iIntros (h') "?". by iFrame "∗%".
Qed.

Lemma ctx_parent_ptr rt h c : rb_ctx rt h c ⊢ ⌜ptr (parent_of c)⌝.
Proof.
  destruct c as [|[k x r|k l x] c]; cbn; [by iIntros "_"| |].
  all: iIntros "((% & _) & _)"; iPureIntro; by apply addr_ptr.
Qed.

Lemma wp_link_node {A} rt c x (k : unit → prog A) Φ :
  rb_ctx rt 0 c -∗ rb_free x -∗
  (rb_ctx rt x c -∗ rb_tree (parent_of c) (T Red E x E) -∗ wp (k tt) Φ) -∗
  wp (rb_link_node x (parent_of c) (link_of rt c) ≫= k) Φ.
Proof.
  iIntros "Hc (%pc & %l & %r & %Hx & H1 & H2 & H3) Hk".
  iDestruct (ctx_parent_ptr with "Hc") as %Hp. iDestruct (ctx_link with "Hc") as "[Hl Hc]".
  unfold rb_link_node, set_parent_color, set_right, set_left. wp_steps.
  iApply ("Hk" with "[Hc Hl]"); [by iApply "Hc"|]. cbn. unfold rb_node, enc, RB_RED. rw Z.add_0_r.
  by iFrame.
Qed.

Lemma wp_insert_linked {A} rt c x (k : unit → prog A) Φ :
  rb_ok (plug c E) →
  rb_ctx rt x c -∗ rb_tree (parent_of c) (T Red E x E) -∗
  (∀ t, ⌜elements t = before c ++ x :: behind c⌝ -∗ ⌜rb_ok t⌝ -∗ rb_whole rt t -∗ wp (k tt) Φ) -∗
  wp (rb_insert_color x rt ≫= k) Φ.
Proof.
  iIntros (Hok) "Hc Ht Hk". destruct (rb_unplug _ _ Hok) as (k1 & kc & n & Ht & Hc & _).
  iApply (wp_insert_color with "Hc Ht"); [|exact Hc|]. { inversion Ht; subst. eauto with rb. }
  iIntros (t He Hok') "Ht". rw elements_plug in He. by iApply ("Hk" with "[//] [//] Ht").
Qed.

(** C19: A node linked into an empty place of a red-black tree, and
    [rb_insert_color] after it: the calls return, the tree is a red-black tree
    whose nodes are the old ones in their order with the new one at its place,
    and nothing else in memory has changed. *)
Theorem rb_insert_correct rt c x :
  rb_ok (plug c E) →
  hoare (rb_whole rt (plug c E) ∗ rb_free x)
    (rb_link_node x (parent_of c) (link_of rt c);; rb_insert_color x rt)
    (λ _, ∃ t, ⌜elements t = before c ++ x :: behind c⌝ ∗ ⌜rb_ok t⌝ ∗ rb_whole rt t)%I.
Proof.
  intros Hok. apply wp_hoare. iIntros "[Ht Hx]". iDestruct (rb_plug with "Ht") as "[Hc _]".
  iApply wp_last. iApply wp_assoc. iApply (wp_link_node with "Hc Hx"). iIntros "Hc Ht".
  iApply (wp_insert_linked with "Hc Ht"); [done|]. iIntros (t He Hok') "Ht". iApply wp_ret.
  iExists t. by iFrame.
Qed.

Lemma demo_tree_ok : rb_ok demo_tree.
Proof. exists 1%nat. unfold demo_tree. eauto with rb. Qed.

Lemma rb_insert_correct_witness :
  let c := [FR Red E 1088; FR Black (T Red E 1024 E) 1056] in
  ∃ m', (rb_link_node 1120 (parent_of c) (link_of 8 c);; rb_insert_color 1120 8)
          (list_to_map (layout 8 demo_tree [1120])) = Some (tt, m') ∧
    holds (∃ t, ⌜elements t = [1024; 1056; 1088; 1120]⌝ ∗ ⌜rb_ok t⌝ ∗ rb_whole 8 t) m'.
Proof.
  intros c. destruct (hoare_at _ _ _ (list_to_map (layout 8 demo_tree [1120]))
    (rb_insert_correct 8 c 1120 demo_tree_ok)) as ([] & m' & E & H).
  - eapply holds_entails, (layout_holds 8 demo_tree [1120]).
    + iIntros "($ & H & _)". by iApply cells_free.
    + apply (bool_decide_unpack _). by vm_compute.
    + by repeat constructor.
  - by exists m'.
Defined.
