(* ===== verification/RbErase.v ===== *)
(** * Removal from red-black trees

    The proof that [rb_erase] takes one node out of the sequence and leaves a
    red-black tree. *)
From S2P Require Import Prelude HeapLogic RbTree RbLogic RbInsert.
#[local] Open Scope Z_scope.

(** ** The loop of __rb_erase_color *)

(** One black node is missing on the ways through [t], which a red root makes up
    for when it becomes black. *)
Definition deficit (n : nat) (t : tree) : Prop :=
  if root_red t then rb Black (S n) (blacken t) else rb Black n t.

Lemma rb_deficit k n t : rb k n t → deficit n t.
Proof. destruct 1; cbn; eauto with rb. Qed.

Lemma blacken_id n t : rb Black n t → blacken t = t.
Proof. by inversion 1. Qed.

(** The pointer to the root. *)
Fixpoint top (h : Z) (c : ctx) : Z := match c with [] => h | f :: c => top (node_of f) c end.

Lemma ctx_root rt h c : rb_ctx rt h c ⊢ rt ↦ top h c ∗ (rt ↦ top h c -∗ rb_ctx rt h c).
Proof.
  revert h. induction c as [|[k x r|k l x] c IH]; intros h; cbn; [by iIntros; iFrame; iIntros| |].
  all: iIntros "(Hx & Hs & Hc)"; iDestruct (IH with "Hc") as "[$ Hc]"; iIntros "Hrt"; iFrame.
  all: by iApply "Hc".
Qed.

Lemma top_ne rt h f c q t : rb_ctx rt h (f :: c) -∗ rb_tree q t -∗ ⌜root_of t ≠ top h (f :: c)⌝.
Proof.
  revert h f. induction c as [|f' c IH]; intros h f; iIntros "Hc Ht".
  - destruct f as [k x r|k l x]; cbn; iDestruct "Hc" as "(Hx & _)";
      iDestruct (rb_root_ne with "Hx Ht") as %?; by iPureIntro; congruence.
  - destruct f as [k x r|k l x]; iDestruct "Hc" as "(Hx & Hs & Hc)"; iApply (IH with "Hc Ht").
Qed.

#[local] Arguments plug : simpl never.

Section erase.
Context {A : Type} (rt : Z) (k : Z → prog A) (Φ : A → mprop).

(** What is left to do when the loop ends at the subtree [t] of the tree: its
    root is made black. *)
Definition ended (c : ctx) (t : tree) : mprop :=
  ∀ c' t', ⌜elements (plug c' t') = elements (plug c t)⌝ -∗ ⌜rb_ok (plug c' (blacken t'))⌝ -∗
    rb_ctx rt (root_of t') c' -∗ rb_tree (parent_of c') t' -∗ wp (k (root_of t')) Φ.

Lemma ended_eq c1 t1 c2 t2 :
  elements (plug c1 t1) = elements (plug c2 t2) → ended c1 t1 ⊢ ended c2 t2.
Proof. iIntros (He) "H". unfold ended. by rw He. Qed.

Definition erase_ok (fuel : nat) : Prop := ∀ c n kc t,
  deficit n t → ctx_ok kc (S n) c → ((if root_red t then 0 else S (length c)) < fuel)%nat →
  rb_ctx rt (root_of t) c -∗ rb_tree (parent_of c) t -∗ ended c t -∗
  wp (erase_loop fuel (root_of t) (parent_of c) rt ≫= k) Φ.

(** The loop ends at the root with a tree that is in order. *)
Lemma ended_root c t : rb_ok (plug c t) →
  rb_ctx rt (root_of t) c -∗ rb_tree (parent_of c) t -∗ ended c t -∗
  wp (rb_root rt ≫= k) Φ.
Proof.
  iIntros ([n Hok]) "Hc Ht Hk". iAssert (rb_whole rt (plug c t)) with "[Hc Ht]" as "[Hrt Ht]".
  { iApply rb_plug. iFrame. }
  unfold rb_root. wp_steps. iApply ("Hk" $! [] (plug c t) with "[//] [%] Hrt Ht").
  exists n. change (rb Black n (blacken (plug c t))). by rw (blacken_id _ _ Hok).
Qed.

(** The node is a left child and its sibling has a red child. *)
Lemma wp_red_nephew_l c n kp k1 k2 p t s1 o s2 :
  rb Black n t → rb k1 n s1 → rb k2 n s2 → root_red s1 || root_red s2 = true →
  (kp = Black ∧ (∃ kc, ctx_ok kc (S (S n)) c) ∨ kp = Red ∧ ctx_ok Red (S n) c) →
  rb_ctx rt p c -∗ rb_tree (parent_of c) (T kp t p (T Black s1 o s2)) -∗
  ended c (T kp t p (T Black s1 o s2)) -∗
  wp (red_nephew_l o p rt ≫= k) Φ.
Proof.
  iIntros (Ht H1 H2 Hred Hc) "Hc (Hp & Ht & (Ho & H1 & H2)) Hk". cbn. unfold red_nephew_l.
  rb_steps. iApply (wp_black_or_null with "H2"). iIntros "H2".
  assert (Hend : ∀ t', elements (plug c t') = elements (plug c (T kp t p (T Black s1 o s2))) →
    (∃ u1 y u2, t' = T kp (T Black t p u1) y (blacken u2) ∧ rb Black (S n) (blacken u2) ∧
       ∃ ku, rb ku n u1) →
    rb_ctx rt (root_of t') c -∗ rb_tree (parent_of c) t' -∗
    ended c (T kp t p (T Black s1 o s2)) -∗ wp (rb_root rt ≫= k) Φ).
  { iIntros (t' He (u1 & y & u2 & -> & Hu2 & ku & Hu1)) "Hc Ht Hk".
    iApply (ended_root with "Hc Ht [Hk]"); [|by iApply (ended_eq with "Hk")].
    destruct Hc as [[-> [kc Hc]] | [-> Hc]].
    - apply (rb_plug_ok c Black kc (S (S n))); [by eauto with rb|exact Hc|by right].
    - apply (rb_plug_ok c Red Red (S n)); [by eauto with rb|exact Hc|by left]. }
  destruct (root_red s2) eqn:E2; cbn.
  - destruct s2 as [|[] a2 z b2]; try done. cbn. iDestruct "H2" as "(Hz & Ha2 & Hb2)". rb_steps.
    iApply (wp_rotate_left rt c Black t p kp s1 o (T Black a2 z b2) with "Hc [-Hk]"); [cbn; iFrame|].
    iIntros "Hc Ht".
    iApply (Hend (T kp (T Black t p s1) o (T Black a2 z b2)) with "Hc Ht Hk"); [same_elements|].
    exists s1, o, (T Red a2 z b2). split; [done|]. inversion H2; eauto with rb.
  - destruct s1 as [|[] a1 z b1]; try done. cbn. iDestruct "H1" as "(Hz & Ha1 & Hb1)". rb_steps.
    iApply (wp_rotate_right rt (FR kp t p :: c) Red a1 o Black b1 z s2 with "[$Hp $Ht $Hc] [-Hk]");
      [cbn; iFrame|].
    iIntros "(Hp & Ht & Hc) (Hz & Ha1 & (Ho & Hb1 & H2))". rb_steps.
    iApply (wp_rotate_left rt c Black t p kp a1 z (T Black b1 o s2) with "Hc [-Hk]"); [cbn; iFrame|].
    iIntros "Hc Ht".
    iApply (Hend (T kp (T Black t p a1) z (T Black b1 o s2)) with "Hc Ht Hk"); [same_elements|].
    exists a1, z, (T Red b1 o s2). split; [done|]. inversion H1; subst.
    destruct s2 as [|[] ? ? ?]; [|done|];
      inversion H2; subst; eauto 6 with rb.
Qed.

(** The node is a right child and its sibling has a red child. *)
Lemma wp_red_nephew_r c n kp k1 k2 p t s1 o s2 :
  rb Black n t → rb k1 n s1 → rb k2 n s2 → root_red s1 || root_red s2 = true →
  (kp = Black ∧ (∃ kc, ctx_ok kc (S (S n)) c) ∨ kp = Red ∧ ctx_ok Red (S n) c) →
  rb_ctx rt p c -∗ rb_tree (parent_of c) (T kp (T Black s2 o s1) p t) -∗
  ended c (T kp (T Black s2 o s1) p t) -∗
  wp (red_nephew_r o p rt ≫= k) Φ.
Proof.
  iIntros (Ht H1 H2 Hred Hc) "Hc (Hp & (Ho & H2 & H1) & Ht) Hk". cbn. unfold red_nephew_r.
  rb_steps. iApply (wp_black_or_null with "H2"). iIntros "H2".
  assert (Hend : ∀ t', elements (plug c t') = elements (plug c (T kp (T Black s2 o s1) p t)) →
    (∃ u1 y u2, t' = T kp (blacken u2) y (T Black u1 p t) ∧ rb Black (S n) (blacken u2) ∧
       ∃ ku, rb ku n u1) →
    rb_ctx rt (root_of t') c -∗ rb_tree (parent_of c) t' -∗
    ended c (T kp (T Black s2 o s1) p t) -∗ wp (rb_root rt ≫= k) Φ).
  { iIntros (t' He (u1 & y & u2 & -> & Hu2 & ku & Hu1)) "Hc Ht Hk".
    iApply (ended_root with "Hc Ht [Hk]"); [|by iApply (ended_eq with "Hk")].
    destruct Hc as [[-> [kc Hc]] | [-> Hc]].
    - apply (rb_plug_ok c Black kc (S (S n))); [by eauto with rb|exact Hc|by right].
    - apply (rb_plug_ok c Red Red (S n)); [by eauto with rb|exact Hc|by left]. }
  destruct (root_red s2) eqn:E2; cbn.
  - destruct s2 as [|[] a2 z b2]; try done. cbn. iDestruct "H2" as "(Hz & Ha2 & Hb2)". rb_steps.
    iApply (wp_rotate_right rt c Black (T Black a2 z b2) p kp s1 o t with "Hc [-Hk]"); [cbn; iFrame|].
    iIntros "Hc Ht".
    iApply (Hend (T kp (T Black a2 z b2) o (T Black s1 p t)) with "Hc Ht Hk"); [same_elements|].
    exists s1, o, (T Red a2 z b2). split; [done|]. inversion H2; eauto with rb.
  - destruct s1 as [|[] a1 z b1]; try done. cbn. iDestruct "H1" as "(Hz & Ha1 & Hb1)". rb_steps.
    iApply (wp_rotate_left rt (FL kp p t :: c) Red s2 o Black a1 z b1 with "[$Hp $Ht $Hc] [-Hk]");
      [cbn; iFrame|].
    iIntros "(Hp & Ht & Hc) (Hz & (Ho & H2 & Ha1) & Hb1)". rb_steps.
    iApply (wp_rotate_right rt c Black (T Black s2 o a1) p kp b1 z t with "Hc [-Hk]"); [cbn; iFrame|].
    iIntros "Hc Ht".
    iApply (Hend (T kp (T Black s2 o a1) z (T Black b1 p t)) with "Hc Ht Hk"); [same_elements|].
    exists b1, z, (T Red s2 o a1). split; [done|]. inversion H1; subst.
    destruct s2 as [|[] ? ? ?]; [|done|];
      inversion H2; subst; eauto 6 with rb.
Qed.

(** The node is a left child and its sibling black. *)
Lemma turn_black_l fuel c n kp k1 k2 p t s1 o s2 :
  erase_ok fuel → rb Black n t → rb k1 n s1 → rb k2 n s2 →
  (kp = Black ∧ (∃ kc, ctx_ok kc (S (S n)) c) ∧ (S (length c) < fuel)%nat ∨
   kp = Red ∧ ctx_ok Red (S n) c ∧ (0 < fuel)%nat) →
  rb_ctx rt p c -∗ rb_tree (parent_of c) (T kp t p (T Black s1 o s2)) -∗
    ended c (T kp t p (T Black s1 o s2)) -∗
  wp (black ← black_children o;
      (if (black : bool) then
         rb_set_red o;;
         parent' ← rb_parent p;
         erase_loop fuel p parent' rt
       else red_nephew_l o p rt) ≫= k) Φ.
Proof.
  iIntros (IH Ht H1 H2 Hc) "Hc (Hp & Ht & (Ho & H1 & H2)) Hk". cbn. unfold black_children.
  rb_steps. iApply (wp_black_or_null with "H1"). iIntros "H1". rb_steps.
  iApply (wp_black_or_null with "H2"). iIntros "H2".
  rb_steps. destruct (root_red s1) eqn:E1, (root_red s2) eqn:E2; cbn.
  1-3: iApply (wp_red_nephew_l with "Hc [Hp Ht Ho H1 H2] Hk"); [done..|by rw E1 E2| |cbn; iFrame].
  1-3: destruct Hc as [(-> & Hc & _) | (-> & Hc & _)]; auto.
  - rb_steps.
    rw (rb_root_red _ _ _ H1) in E1. rw (rb_root_red _ _ _ H2) in E2. destruct k1, k2; try done.
    destruct Hc as [(-> & [kc Hc] & Hf) | (-> & Hc & Hf)].
    + iApply (IH c (S n) kc (T Black t p (T Red s1 o s2)) with "Hc [Hp Ht Ho H1 H2] [Hk]");
        [cbn; eauto with rb|done|done|cbn; iFrame|].
      iApply (ended_eq with "Hk"). same_elements.
    + iApply (IH c n Red (T Red t p (T Red s1 o s2)) with "Hc [Hp Ht Ho H1 H2] [Hk]");
        [cbn; eauto with rb|done|done|cbn; iFrame|].
      iApply (ended_eq with "Hk"). same_elements.
Qed.

(** The node is a right child and its sibling black. *)
Lemma turn_black_r fuel c n kp k1 k2 p t s1 o s2 :
  erase_ok fuel → rb Black n t → rb k1 n s1 → rb k2 n s2 →
  (kp = Black ∧ (∃ kc, ctx_ok kc (S (S n)) c) ∧ (S (length c) < fuel)%nat ∨
   kp = Red ∧ ctx_ok Red (S n) c ∧ (0 < fuel)%nat) →
  rb_ctx rt p c -∗ rb_tree (parent_of c) (T kp (T Black s2 o s1) p t) -∗
    ended c (T kp (T Black s2 o s1) p t) -∗
  wp (black ← black_children o;
      (if (black : bool) then
         rb_set_red o;;
         parent' ← rb_parent p;
         erase_loop fuel p parent' rt
       else red_nephew_r o p rt) ≫= k) Φ.
Proof.
  iIntros (IH Ht H1 H2 Hc) "Hc (Hp & (Ho & H2 & H1) & Ht) Hk". cbn. unfold black_children.
  rb_steps. iApply (wp_black_or_null with "H2"). iIntros "H2". rb_steps.
  iApply (wp_black_or_null with "H1"). iIntros "H1".
  rb_steps. destruct (root_red s1) eqn:E1, (root_red s2) eqn:E2; cbn.
  1-3: iApply (wp_red_nephew_r with "Hc [Hp Ht Ho H1 H2] Hk"); [done..|by rw E1 E2| |cbn; iFrame].
  1-3: destruct Hc as [(-> & Hc & _) | (-> & Hc & _)]; auto.
  - rb_steps.
    rw (rb_root_red _ _ _ H1) in E1. rw (rb_root_red _ _ _ H2) in E2. destruct k1, k2; try done.
    destruct Hc as [(-> & [kc Hc] & Hf) | (-> & Hc & Hf)].
    + iApply (IH c (S n) kc (T Black (T Red s2 o s1) p t) with "Hc [Hp Ht Ho H1 H2] [Hk]");
        [cbn; eauto with rb|done|done|cbn; iFrame|].
      iApply (ended_eq with "Hk"). same_elements.
    + iApply (IH c n Red (T Red (T Red s2 o s1) p t) with "Hc [Hp Ht Ho H1 H2] [Hk]");
        [cbn; eauto with rb|done|done|cbn; iFrame|].
      iApply (ended_eq with "Hk"). same_elements.
Qed.

Lemma turn_l fuel c n kc kp p t s :
  erase_ok fuel → rb Black n t → ctx_ok kc (S n) (FL kp p s :: c) → (S (length c) < fuel)%nat →
  rb_ctx rt (root_of t) (FL kp p s :: c) -∗ rb_tree p t -∗ ended (FL kp p s :: c) t -∗
  wp (erase_loop (S fuel) (root_of t) p rt ≫= k) Φ.
Proof.
  iIntros (IH Ht Hc Hf) "Hc Ht Hk". iDestruct (top_ne with "Hc Ht") as %Hne%Z.eqb_neq.
  cbn [erase_loop].
  rb_steps. iApply (wp_black_or_null with "Ht"). iIntros "Ht". rw (rb_root_red _ _ _ Ht).
  cbn [is_red negb andb].
  rb_steps. unfold rb_root at 1. iDestruct (ctx_root with "Hc") as "[Hrt Hc]". wp_load.
  iDestruct ("Hc" with "Hrt") as "Hc". rw Hne. cbn [negb]. cbn [rb_ctx].
  iDestruct "Hc" as "(Hp & Hs & Hc)".
  rb_steps. rw Z.eqb_refl. rb_steps. unfold red_sibling_l.
  inversion Hc as [ | ? ks ? ? ? ? Hc2 Hs | | ? ? ? ? Hc2 Hs | ]; subst.
  - inversion Hs as [|? s1 o s2 H1 H2|? k1 k2 s1 o s2 H1 H2]; subst.
    + inversion H1 as [| |? ku1 ku2 u1 w u2 Hu1 Hu2]; subst. iDestruct "Hs" as "(Ho & H1 & H2)".
      rb_steps. cbn. rb_steps.
      iApply (wp_rotate_left rt c Red t p Black (T Black u1 w u2) o s2 with "Hc [Hp Ht Ho H1 H2]");
        [cbn; iFrame|].
      iIntros "Hc (Ho & (Hp & Ht & H1) & H2)". cbn. rb_steps.
      iApply (turn_black_l fuel (FL Black o s2 :: c) n Red ku1 ku2 p t u1 w u2
        with "[Ho H2 Hc] [Hp Ht H1] [Hk]"); [done..| |cbn; iFrame|cbn; iFrame|].
      * right. split; [done|]. split; [by eauto with rb|lia].
      * iApply (ended_eq with "Hk"). same_elements.
    + iDestruct "Hs" as "(Ho & H1 & H2)". rb_steps. cbn. rb_steps.
      iApply (turn_black_l fuel c n Black k1 k2 p t s1 o s2 with "Hc [Hp Ht Ho H1 H2] [Hk]");
        [done..| |cbn; iFrame|done]. left. eauto.
  - inversion Hs as [| |? k1 k2 s1 o s2 H1 H2]; subst. iDestruct "Hs" as "(Ho & H1 & H2)". rb_steps.
    cbn. rb_steps.
    iApply (turn_black_l fuel c n Red k1 k2 p t s1 o s2 with "Hc [Hp Ht Ho H1 H2] [Hk]");
      [done..| |cbn; iFrame|done]. right. split; [done|].
    split; [done|lia].
Qed.

Lemma turn_r fuel c n kc kp p t s :
  erase_ok fuel → rb Black n t → ctx_ok kc (S n) (FR kp s p :: c) → (S (length c) < fuel)%nat →
  rb_ctx rt (root_of t) (FR kp s p :: c) -∗ rb_tree p t -∗ ended (FR kp s p :: c) t -∗
  wp (erase_loop (S fuel) (root_of t) p rt ≫= k) Φ.
Proof.
  iIntros (IH Ht Hc Hf) "Hc Ht Hk". iDestruct (top_ne with "Hc Ht") as %Hne%Z.eqb_neq.
  cbn [erase_loop].
  rb_steps. iApply (wp_black_or_null with "Ht"). iIntros "Ht". rw (rb_root_red _ _ _ Ht).
  cbn [is_red negb andb].
  rb_steps. unfold rb_root at 1. iDestruct (ctx_root with "Hc") as "[Hrt Hc]". wp_load.
  iDestruct ("Hc" with "Hrt") as "Hc". rw Hne. cbn [negb]. cbn [rb_ctx].
  iDestruct "Hc" as "(Hp & Hs & Hc)".
  iAssert (⌜root_of s ≠ root_of t⌝)%I as %Hst%Z.eqb_neq.
  { inversion Hc; subst; destruct s as [|ks s1 o s2];
      match goal with H : rb _ (S _) _ |- _ => inversion H; subst end.
    all: cbn; iDestruct "Hs" as "(Ho & _)"; iApply (rb_root_ne with "Ho Ht"). }
  rb_steps. rw Hst. rb_steps. unfold red_sibling_r.
  inversion Hc as [ | | ? ks ? ? ? ? Hc2 Hs | | ? ? ? ? Hc2 Hs]; subst.
  - inversion Hs as [|? s2 o s1 H1 H2|? k1 k2 s2 o s1 H1 H2]; subst.
    + inversion H2 as [| |? ku1 ku2 u2 w u1 Hu1 Hu2]; subst. iDestruct "Hs" as "(Ho & H2 & H1)".
      rb_steps. cbn. rb_steps.
      iApply (wp_rotate_right rt c Red s2 p Black (T Black u2 w u1) o t
        with "Hc [Hp Ht Ho H1 H2]"); [cbn; iFrame|].
      iIntros "Hc (Ho & H2 & (Hp & H1 & Ht))". cbn. rb_steps.
      iApply (turn_black_r fuel (FR Black s2 o :: c) n Red ku2 ku1 p t u1 w u2
        with "[Ho H2 Hc] [Hp Ht H1] [Hk]"); [done..| |cbn; iFrame|cbn; iFrame|].
      * right. split; [done|]. split; [by eauto with rb|lia].
      * iApply (ended_eq with "Hk"). same_elements.
    + iDestruct "Hs" as "(Ho & H2 & H1)". rb_steps. cbn. rb_steps.
      iApply (turn_black_r fuel c n Black k2 k1 p t s1 o s2 with "Hc [Hp Ht Ho H1 H2] [Hk]");
        [done..| |cbn; iFrame|done]. left. eauto.
  - inversion Hs as [| |? k1 k2 s2 o s1 H1 H2]; subst. iDestruct "Hs" as "(Ho & H2 & H1)". rb_steps.
    cbn. rb_steps.
    iApply (turn_black_r fuel c n Red k2 k1 p t s1 o s2 with "Hc [Hp Ht Ho H1 H2] [Hk]");
      [done..| |cbn; iFrame|done]. right. split; [done|].
    split; [done|lia].
Qed.

Lemma wp_erase_loop fuel : erase_ok fuel.
Proof.
  induction fuel as [|fuel IH]; intros c n kc t Hd Hc Hf; [lia|].
  unfold deficit in Hd. destruct (root_red t) eqn:Er.
  - iIntros "Hc Ht Hk". cbn [erase_loop]. rb_steps. iApply (wp_black_or_null with "Ht").
    iIntros "Ht".
    rw Er. cbn. rb_steps. unfold rb_root at 1. iDestruct (ctx_root with "Hc") as "[Hrt Hc]".
    wp_load.
    iDestruct ("Hc" with "Hrt") as "Hc". cbn. rb_steps.
    iApply ("Hk" with "[//] [%] Hc Ht"). eapply rb_plug_ok; [exact Hd|exact Hc|by right].
  - destruct c as [|[kp p s|kp s p] c]; cbn in Hf.
    + iIntros "Hc Ht Hk". cbn [erase_loop]. rb_steps. iApply (wp_black_or_null with "Ht").
      iIntros "Ht".
      rw Er. cbn. rb_steps. unfold rb_root at 1. wp_load. rw Z.eqb_refl. cbn. rb_steps.
      iApply ("Hk" $! [] t with "[//] [%] Hc Ht").
      exists n. change (rb Black n (blacken t)). by rw (blacken_id _ _ Hd).
    + iIntros "Hc Ht Hk". iApply (turn_l with "Hc Ht Hk"); [done..|lia].
    + iIntros "Hc Ht Hk". iApply (turn_r with "Hc Ht Hk"); [done..|lia].
Qed.
End erase.

Lemma wp_erase_color {A} rt c n kt kc t (k : unit → prog A) Φ :
  rb kt n t → ctx_ok kc (S n) c →
  rb_ctx rt (root_of t) c -∗ rb_tree (parent_of c) t -∗
  (∀ t', ⌜elements t' = elements (plug c t)⌝ -∗ ⌜rb_ok t'⌝ -∗ rb_whole rt t' -∗ wp (k tt) Φ) -∗
  wp (__rb_erase_color (root_of t) (parent_of c) rt ≫= k) Φ.
Proof.
  iIntros (Ht Hc) "Hc Ht Hk". unfold __rb_erase_color. rb_steps.
  iApply (wp_mem_fuel (S (length c))). iSplit; [by iApply ctx_owns|]. iIntros (f Hf).
  iApply wp_assoc.
  iApply (wp_erase_loop with "Hc Ht"); [by eapply rb_deficit|done|destruct (root_red t); lia|].
  iIntros (c' t' He Hok) "Hc Ht". iApply wp_when.
  iAssert (∀ t'', ⌜t'' = blacken t'⌝ -∗ rb_ctx rt (root_of t') c' -∗ rb_tree (parent_of c') t'' -∗
    wp (k tt) Φ)%I with "[Hk]" as "Hk".
  { iIntros (? ->) "Hc Ht". iApply ("Hk" $! (plug c' (blacken t')) with "[%] [//]").
    - by rw -He !elements_plug elements_blacken.
    - iApply rb_plug. iFrame. by destruct t'. }
  destruct t' as [|kt' l x r]; cbn; [by iApply ("Hk" with "[//] Hc Ht")|].
  iDestruct "Ht" as "(Hx & Hl & Hr)". iDestruct (rb_node_addr with "Hx") as %Hx. rw truthy_addr //.
  rb_steps. iApply ("Hk" $! (T Black l x r) with "[//] Hc"). iFrame.
Qed.

(** ** Taking a node out *)

Lemma plug_app c1 c2 t : plug (c1 ++ c2) t = plug c2 (plug c1 t).
Proof. revert t. induction c1 as [|f c1 IH]; intros t; [done|]. apply IH. Qed.

(** The colours do not depend on the node that has them. *)
Lemma ctx_ok_swap k n c1 kx l x y c2 :
  ctx_ok k n (c1 ++ FR kx l x :: c2) → ctx_ok k n (c1 ++ FR kx l y :: c2).
Proof.
  revert k n. induction c1 as [|f c1 IH]; intros k n Hc; cbn in *.
  - inversion Hc; subst; eauto with rb.
  - inversion Hc; subst; eauto with rb.
Qed.

(** The tree without a node that had one child at most, once the child is in
    its place. *)
Lemma wp_erase_end {A} rt c k kc n t (k' : unit → prog A) Φ :
  (k = Black ∧ (∃ m kt, n = S m ∧ rb kt m t) ∨ k = Red ∧ rb Black n t) →
  ctx_ok kc n c →
  rb_ctx rt (root_of t) c -∗ rb_tree (parent_of c) t -∗
  (∀ t', ⌜elements t' = elements (plug c t)⌝ -∗ ⌜rb_ok t'⌝ -∗ rb_whole rt t' -∗ wp (k' tt) Φ) -∗
  wp (when (col k =? RB_BLACK) (__rb_erase_color (root_of t) (parent_of c) rt) ≫= k') Φ.
Proof.
  iIntros (Ht Hc) "Hc Ht Hk". iApply wp_when.
  destruct Ht as [(-> & m & kt' & -> & Ht) | [-> Ht]]; cbn.
  - by iApply (wp_erase_color with "Hc Ht").
  - iApply ("Hk" $! (plug c t) with "[//] [%]"); [|iApply rb_plug; iFrame].
    eapply rb_plug_ok; [exact Ht|exact Hc|by right].
Qed.

Lemma single_child k n l x r : rb k n (T k l x r) → l = E ∨ r = E →
  ∀ t, t = (match l with E => r | _ => l end) →
  k = Black ∧ (∃ m kt, n = S m ∧ rb kt m t) ∨ k = Red ∧ rb Black n t.
Proof.
  intros H Hlr t ->. inversion H; subst; [right|left]; (split; [done|]).
  - by destruct l.
  - destruct l; eauto.
Qed.

Lemma wp_erase_single {A} rt c kx x lx rx t (k : Z * Z * Z → prog A) Φ :
  rb_ctx rt x c -∗ rb_node x (parent_of c) kx lx rx -∗ rb_tree x t -∗
  (rb_ctx rt (root_of t) c -∗ rb_node x (parent_of c) kx lx rx -∗ rb_tree (parent_of c) t -∗
     wp (k (root_of t, parent_of c, col kx)) Φ) -∗
  wp (erase_single x (root_of t) rt ≫= k) Φ.
Proof.
  iIntros "Hc Hx Ht Hk". iDestruct (rb_node_ptr with "Hx") as %Hp. unfold erase_single. rb_steps.
  iApply (wp_adopt with "Ht"); [done|]. iIntros "Ht". rb_steps.
  iApply (wp_replace_left with "Hx Hc"). iIntros "Hx Hc". rb_steps. iApply ("Hk" with "Hc Hx Ht").
Qed.

(** *** The successor *)

Fixpoint min_node (t : tree) : Z :=
  match t with E => 0 | T _ E x _ => x | T _ l _ _ => min_node l end.
Fixpoint max_node (t : tree) : Z :=
  match t with E => 0 | T _ _ x E => x | T _ _ _ r => max_node r end.

Lemma wp_leftmost {A} p t fuel (k : Z → prog A) Φ :
  t ≠ E → (length (elements t) < fuel)%nat →
  rb_tree p t -∗ (rb_tree p t -∗ wp (k (min_node t)) Φ) -∗ wp (leftmost fuel (root_of t) ≫= k) Φ.
Proof.
  revert p fuel. induction t as [|c l IH x r _]; [done|]; intros p fuel _ Hf.
  destruct fuel as [|fuel]; [lia|]. cbn in Hf. rw length_app /= in Hf.
  iIntros "(Hx & Hl & Hr) Hk". cbn [leftmost root_of]. rb_steps. destruct l as [|cl ll y lr].
  - cbn. rb_steps. iApply "Hk". iFrame.
  - iDestruct "Hl" as "(Hy & Hll & Hlr)". iDestruct (rb_node_addr with "Hy") as %?.
    cbn [root_of]. rw (truthy_addr y) //.
    iApply (IH x fuel with "[Hy Hll Hlr]"); [done|lia|iFrame|]. iIntros "Hl". iApply "Hk". iFrame.
Qed.

Lemma wp_rightmost {A} p t fuel (k : Z → prog A) Φ :
  t ≠ E → (length (elements t) < fuel)%nat →
  rb_tree p t -∗ (rb_tree p t -∗ wp (k (max_node t)) Φ) -∗ wp (rightmost fuel (root_of t) ≫= k) Φ.
Proof.
  revert p fuel. induction t as [|c l _ x r IH]; [done|]; intros p fuel _ Hf.
  destruct fuel as [|fuel]; [lia|]. cbn in Hf. rw length_app /= in Hf.
  iIntros "(Hx & Hl & Hr) Hk". cbn [rightmost root_of]. rb_steps. destruct r as [|cr rl y rr].
  - cbn. rb_steps. iApply "Hk". iFrame.
  - iDestruct "Hr" as "(Hy & Hrl & Hrr)". iDestruct (rb_node_addr with "Hy") as %?.
    cbn [root_of]. rw (truthy_addr y) //.
    iApply (IH x fuel with "[Hy Hrl Hrr]"); [done|lia|iFrame|]. iIntros "Hr". iApply "Hk". iFrame.
Qed.

Lemma min_plug t : t ≠ E → ∃ c k r, t = plug c (T k E (min_node t) r) ∧ before c = [].
Proof.
  induction t as [|k l IH x r _]; [done|]. intros _. destruct l as [|kl ll y lr].
  - by exists [], k, r.
  - destruct IH as (c & k' & r' & E & Hb); [done|]. exists (c ++ [FL k x r]), k', r'.
    split; [by rw plug_app -E|]. clear -Hb.
    induction c as [|[] c IH]; cbn in *; [done|by apply IH|].
    by destruct (before c), (elements l).
Qed.

(** The part of a tree between a node below [p] and a hole. *)
Definition parent_in (p : Z) (c : ctx) : Z := match c with [] => p | f :: _ => node_of f end.

Fixpoint rb_seg (p h : Z) (c : ctx) : mprop :=
  match c with
  | [] => emp
  | FL k x r :: c => rb_node x (parent_in p c) k h (root_of r) ∗ rb_tree x r ∗ rb_seg p x c
  | FR k l x :: c => rb_node x (parent_in p c) k (root_of l) h ∗ rb_tree x l ∗ rb_seg p x c
  end.

Lemma tree_seg p c t : rb_tree p (plug c t) ⊣⊢ rb_seg p (root_of t) c ∗ rb_tree (parent_in p c) t.
Proof.
  revert t. induction c as [|[k x r|k l x] c IH]; intros t.
  - change (plug [] t) with t. cbn. by rw left_id.
  - change (plug (FL k x r :: c) t) with (plug c (T k t x r)). rw IH. cbn.
    iSplit; iIntros; repeat iDestruct select (_ ∗ _)%I as "[? ?]"; iFrame.
  - change (plug (FR k l x :: c) t) with (plug c (T k l x t)). rw IH. cbn.
    iSplit; iIntros; repeat iDestruct select (_ ∗ _)%I as "[? ?]"; iFrame.
Qed.

Lemma root_plug c t : root_of (plug c t) = top (root_of t) c.
Proof. revert t. induction c as [|[] c IH]; intros t; [done|apply IH..]. Qed.

Lemma wp_adopt_node {A} t p p' (k : unit → prog A) Φ :
  ptr p' → t ≠ E → rb_tree p t -∗ (rb_tree p' t -∗ wp (k tt) Φ) -∗
  wp (rb_set_parent (root_of t) p' ≫= k) Φ.
Proof.
  iIntros (Hp Hne) "Ht Hk". destruct t as [|c l x r]; [done|]. cbn.
  iDestruct "Ht" as "(Hx & Hl & Hr)". rb_steps. iApply "Hk". iFrame.
Qed.

Lemma wp_take_place {A} rt c kx l x rx pn kn nd r (k : unit → prog A) Φ :
  l ≠ E →
  rb_ctx rt nd c -∗ rb_node x (parent_of c) kx (root_of l) rx -∗ rb_tree x l -∗
  rb_node nd pn kn 0 (root_of r) -∗ rb_tree nd r -∗
  (rb_ctx rt nd c -∗ rb_tree (parent_of c) (T kx l nd r) -∗ rb_free x -∗ wp (k tt) Φ) -∗
  wp (take_place x nd ≫= k) Φ.
Proof.
  iIntros (Hl) "Hc Hx Hl Hn Hr Hk". iDestruct (rb_node_ptr with "Hx") as %Hp.
  iDestruct (rb_node_addr with "Hn") as %Hn. unfold take_place. rb_steps.
  iApply (wp_adopt_node with "Hl"); [by apply addr_ptr|done|]. iIntros "Hl".
  iApply ("Hk" with "Hc [$Hn $Hl $Hr]"). iDestruct "Hx" as "(% & % & ? & ? & ?)". iExists _, _, _.
  by iFrame.
Qed.

(** The whole tree with the hole that the successor left. *)
Lemma hole_below rt c kx l nd cl t :
  rb_ctx rt nd c -∗ rb_tree (parent_of c) (T kx l nd (plug cl t)) -∗
  let c' := cl ++ FR kx l nd :: c in rb_ctx rt (root_of t) c' ∗ rb_tree (parent_of c') t.
Proof.
  iIntros "Hc Ht". iApply rb_plug. rw plug_app.
  change (plug (FR kx l nd :: c) (plug cl t)) with (plug c (T kx l nd (plug cl t))).
  iApply rb_plug. iFrame.
Qed.

Lemma wp_erase_two {A} rt c kx l x cl kn nd rr (k : Z * Z * Z → prog A) Φ :
  l ≠ E → before cl = [] → min_node (plug cl (T kn E nd rr)) = nd →
  let c' := cl ++ FR kx l nd :: c in
  rb_ctx rt x c -∗ rb_tree (parent_of c) (T kx l x (plug cl (T kn E nd rr))) -∗
  (rb_ctx rt (root_of rr) c' -∗ rb_tree (parent_of c') rr -∗ rb_free x -∗
     wp (k (root_of rr, parent_of c', col kn)) Φ) -∗
  wp (erase_two x rt ≫= k) Φ.
Proof.
  iIntros (Hl Hcl Hmin c') "Hc (Hx & Hl & Hr) Hk". fold rb_tree.
  iDestruct (rb_node_ptr with "Hx") as %Hp.
  assert (plug cl (T kn E nd rr) ≠ E) as Hne by by apply plug_ne.
  unfold erase_two. rb_steps.
  iApply (wp_mem_fuel (length (elements (plug cl (T kn E nd rr))))).
  iSplit; [by iApply tree_owns|]. iIntros (f Hf). rb_steps.
  iApply (wp_leftmost with "Hr"); [done|done|]. iIntros "Hr". rw Hmin. rb_steps.
  iApply (wp_replace_left with "Hx Hc"). iIntros "Hx Hc".
  iDestruct (tree_seg with "Hr") as "[Hseg (Hn & _ & Hrr)]". fold rb_tree. cbn [root_of].
  iDestruct (rb_node_addr with "Hn") as %Hn.
  rb_steps.
  destruct cl as [|[kf y fr|kf fl y] cl]; [| |by cbn in Hcl; destruct (before cl), (elements fl)].
  - rw Z.eqb_refl. rb_steps.
    iApply (wp_take_place with "Hc Hx Hl Hn Hrr"); [done|]. iIntros "Hc Ht Hx". rb_steps.
    iDestruct (hole_below _ _ _ _ _ [] with "Hc Ht") as "[Hc Ht]". iApply ("Hk" with "Hc Ht Hx").
  - cbn [rb_seg parent_in node_of]. iDestruct "Hseg" as "(Hy & Hfr & Hseg)".
    iDestruct (rb_node_addr with "Hy") as %Hy.
    iDestruct (rb_node_ne with "Hy Hx") as %Hyx%Z.eqb_neq.
    rw Hyx. rb_steps. iApply (wp_adopt with "Hrr"); [by apply addr_ptr|]. iIntros "Hrr". rb_steps.
    iAssert (rb_tree x (plug (FL kf y fr :: cl) rr)) with "[Hy Hfr Hseg Hrr]" as "Hr".
    { iApply tree_seg. cbn. iFrame. }
    assert (root_of (plug (FL kf y fr :: cl) (T kn E nd rr)) = root_of (plug (FL kf y fr :: cl) rr)) as ->.
    { by rw !root_plug. }
    iApply (wp_adopt_node with "Hr"); [by apply addr_ptr| |].
    { change (plug cl (T kf rr y fr) ≠ E). by apply plug_ne. }
    iIntros "Hr". rb_steps. iApply (wp_take_place with "Hc Hx Hl Hn Hr"); [done|].
    iIntros "Hc Ht Hx". rb_steps.
    iDestruct (hole_below with "Hc Ht") as "[Hc Ht]". iApply ("Hk" with "Hc Ht Hx").
Qed.

Lemma node_free x p c l r : rb_node x p c l r ⊢ rb_free x.
Proof. iIntros "(% & % & ? & ? & ?)". iExists _, _, _. by iFrame. Qed.

Lemma elements_min t c k r :
  t = plug c (T k E (min_node t) r) → before c = [] →
  elements t = min_node t :: elements r ++ behind c.
Proof. intros E Hb. rw {1}E elements_plug Hb /=. done. Qed.

Lemma before_app c1 c2 : before (c1 ++ c2) = before c2 ++ before c1.
Proof.
  induction c1 as [|[k x r|k l x] c1 IH]; cbn; [by rw right_id_L|done|]. by rw IH -assoc_L.
Qed.

Lemma behind_app c1 c2 : behind (c1 ++ c2) = behind c1 ++ behind c2.
Proof. induction c1 as [|[k x r|k l x] c1 IH]; cbn; [done| |done]. by rw IH -assoc_L. Qed.

Lemma tree_truthy p t : t ≠ E → rb_tree p t ⊢ ⌜truthy (root_of t) = true⌝.
Proof.
  intros Hne. destruct t as [|c l x r]; [done|]. iIntros "(Hx & _)".
  iDestruct (rb_node_addr with "Hx") as %Hx. iPureIntro. by apply truthy_addr.
Qed.

Section erase_node.
Context {A : Type} (rt : Z) (c : ctx) (kx : color) (l : tree) (x : Z) (r : tree).
Context (k : unit → prog A) (Φ : A → mprop).
Context (Hok : rb_ok (plug c (T kx l x r))).

(** What is left to do: the node is out of the tree. *)
Definition erased : mprop :=
  ∀ t, ⌜elements t = before c ++ elements l ++ elements r ++ behind c⌝ -∗ ⌜rb_ok t⌝ -∗
    rb_whole rt t -∗ rb_free x -∗ wp (k tt) Φ.

Lemma wp_erase_one :
  l = E ∨ r = E → rb_ctx rt x c -∗ rb_tree (parent_of c) (T kx l x r) -∗ erased -∗
  wp (rb_erase x rt ≫= k) Φ.
Proof.
  iIntros (Hlr) "Hc (Hx & Hl & Hr) Hk". fold rb_tree.
  destruct (rb_unplug _ _ Hok) as (k1 & kc & n & Ht & Hc & _).
  assert (k1 = kx) as -> by by inversion Ht.
  pose proof (single_child _ _ _ _ _ Ht Hlr _ eq_refl) as Hend. unfold rb_erase. rb_steps.
  destruct l as [|kl ll y lr] eqn:El.
  - cbn. rb_steps. iApply (wp_erase_single with "Hc Hx Hr"). iIntros "Hc Hx Ht". cbn. rb_steps.
    iApply (wp_erase_end with "Hc Ht"); [exact Hend|exact Hc|]. iIntros (t He Hok') "Ht".
    iApply ("Hk" $! t with "[%] [//] Ht"); [|by iApply node_free]. by rw He elements_plug El.
  - destruct Hlr as [? | Hr]; [done|]. iDestruct (tree_truthy with "Hl") as %Hy; [done|].
    rw Hy Hr. cbn [root_of negb]. rb_steps. cbn. rb_steps.
    iApply (wp_erase_single _ _ _ _ _ _ (T kl ll y lr) with "Hc Hx Hl").
    iIntros "Hc Hx Ht". cbn [root_of]. rb_steps.
    iApply (wp_erase_end _ _ _ _ _ (T kl ll y lr) with "Hc Ht"); [exact Hend|exact Hc|].
    iIntros (t He Hok') "Ht".
    iApply ("Hk" $! t with "[%] [//] Ht"); [|by iApply node_free]. by rw He elements_plug El Hr.
Qed.

Lemma wp_erase_both :
  l ≠ E → r ≠ E → rb_ctx rt x c -∗ rb_tree (parent_of c) (T kx l x r) -∗ erased -∗
  wp (rb_erase x rt ≫= k) Φ.
Proof.
  iIntros (Hl Hr) "Hc (Hx & Hl & Hr) Hk". fold rb_tree.
  destruct (min_plug r Hr) as (cl & kn & rr & Er & Hcl).
  assert (rb_ok (plug (cl ++ FR kx l x :: c) (T kn E (min_node r) rr))) as Hok'.
  { rw plug_app -Er. exact Hok. }
  destruct (rb_unplug _ _ Hok') as (k1 & kc & n & Ht & Hc & _).
  assert (k1 = kn) as -> by by inversion Ht.
  pose proof (single_child _ _ _ _ _ Ht (or_introl eq_refl) _ eq_refl) as Hend.
  apply (ctx_ok_swap _ _ _ _ _ _ (min_node r)) in Hc.
  iDestruct (tree_truthy with "Hl") as %Tl; [done|].
  iDestruct (tree_truthy with "Hr") as %Tr; [done|].
  unfold rb_erase. rb_steps. rw Tl. cbn [negb]. rb_steps. rw Tr. cbn [negb].
  iApply (wp_erase_two _ _ kx l _ cl kn (min_node r) rr with "Hc [Hx Hl Hr]"); [done|done|by rw -Er| |].
  { rw -Er. cbn. iFrame. }
  iIntros "Hc Ht Hx". rb_steps.
  iApply (wp_erase_end _ _ _ _ _ rr with "Hc Ht"); [exact Hend|exact Hc|].
  iIntros (t He Hok2) "Ht". iApply ("Hk" $! t with "[%] [//] Ht Hx").
  rw He elements_plug (elements_min r _ _ _ Er Hcl) before_app behind_app Hcl /=. same_elements.
Qed.
End erase_node.

Lemma wp_erase {A} rt c kx l x r (k : unit → prog A) Φ :
  rb_ok (plug c (T kx l x r)) →
  rb_whole rt (plug c (T kx l x r)) -∗ erased rt c l x r k Φ -∗ wp (rb_erase x rt ≫= k) Φ.
Proof.
  iIntros (Hok) "H Hk". iDestruct (rb_plug with "H") as "[Hc Ht]".
  destruct (decide (l = E ∨ r = E)) as [Hlr|Hlr].
  - by iApply (wp_erase_one with "Hc Ht Hk").
  - iApply (wp_erase_both with "Hc Ht Hk"); [done|naive_solver..].
Qed.

(** The node at a place of the sequence. *)
Lemma node_at t c0 l1 x l2 :
  elements t = l1 ++ x :: l2 →
  ∃ c k l r, plug c (T k l x r) = plug c0 t ∧
    before c ++ elements l = before c0 ++ l1 ∧ elements r ++ behind c = l2 ++ behind c0.
Proof.
  revert c0 l1 l2.
  induction t as [|k l IHl y r IHr]; intros c0 l1 l2 E; cbn in E; [by destruct l1|].
  apply app_eq_inv in E as [(l3 & E & E') | (l3 & -> & E)].
  - destruct l3 as [|z l3]; cbn in E'; injection E' as -> ->.
    + exists c0, k, l, r. by rw E !right_id_L.
    + destruct (IHl (FL k y r :: c0) l1 l3 E) as (c & k' & l' & r' & Hp & Hb & Ha).
      exists c, k', l', r'.
      split_and!; [done|done|]. by rw Ha /= -!assoc_L.
  - destruct l3 as [|z l3]; cbn in E; injection E as -> E.
    + exists c0, k, l, r. by rw right_id_L E.
    + destruct (IHr (FR k l z :: c0) l3 l2 E) as (c & k' & l' & r' & Hp & Hb & Ha).
      exists c, k', l', r'.
      split_and!; [done| |done]. by rw Hb /= -!assoc_L.
Qed.

(** What removal leaves: a tree of the nodes [l], and a free node. *)
Definition rb_removed (rt x : Z) (l : list Z) : mprop :=
  ∃ t, ⌜elements t = l⌝ ∗ ⌜rb_ok t⌝ ∗ rb_whole rt t ∗ rb_free x.

(** C18: [rb_erase] takes a node of a red-black tree out of it: the call
    returns, the tree at the root has the remaining nodes in their order and
    is a red-black tree again, the node is free, and nothing else in memory
    has changed. *)
Theorem rb_erase_correct rt t l1 x l2 :
  rb_ok t → elements t = l1 ++ x :: l2 →
  hoare (rb_whole rt t) (rb_erase x rt) (λ _, rb_removed rt x (l1 ++ l2)).
Proof.
  intros Hok Hx. destruct (node_at t [] l1 x l2 Hx) as (c & kx & l & r & E & Hb & Ha).
  change (plug [] t) with t in E. subst t. apply wp_hoare. iIntros "Ht". iApply wp_last.
  iApply (wp_erase with "Ht"); [done|]. iIntros (t He Hok') "Ht Hx". iApply wp_ret.
  iExists t. iFrame. iPureIntro. split; [|done]. cbn in Hb, Ha. rw right_id_L in Ha.
  by rw He assoc_L Hb Ha.
Qed.

Lemma rb_erase_correct_witness :
  ∃ m', rb_erase 1056 8 (list_to_map (layout 8 demo_tree [])) = Some (tt, m') ∧
    holds (rb_removed 8 1056 [1024; 1088]) m'.
Proof.
  destruct (hoare_at _ _ _ (list_to_map (layout 8 demo_tree []))
    (rb_erase_correct 8 demo_tree [1024] 1056 [1088] demo_tree_ok eq_refl)) as ([] & m' & E & H).
  - apply layout_whole; [apply (bool_decide_unpack _); by vm_compute|by repeat constructor].
  - by exists m'.
Defined.
