(* ===== verification/RbWalk.v ===== *)
(** * Walking over red-black trees and replacing a node

    [rb_first], [rb_last], [rb_next] and [rb_prev] follow the sequence of nodes;
    [rb_replace_node] puts a node in the place of another. *)
From S2P Require Import Prelude HeapLogic RbTree RbLogic RbInsert RbErase.
#[local] Open Scope Z_scope.
#[local] Arguments plug : simpl never.

(** ** The ends *)

(** A pointer to an element, or the null pointer. *)
Definition ptr_of (o : option Z) : Z := default 0 o.

Lemma head_min t : t ≠ E → head (elements t) = Some (min_node t).
Proof.
  induction t as [|k l IH x r _]; [done|]. intros _. destruct l as [|kl ll y lr]; [done|].
  cbn [min_node].
  change (elements (T k (T kl ll y lr) x r)) with (elements (T kl ll y lr) ++ x :: elements r).
  by rw head_app IH.
Qed.

Lemma last_max t : t ≠ E → last (elements t) = Some (max_node t).
Proof.
  induction t as [|k l _ x r IH]; [done|]. intros _. destruct r as [|kr rl y rr].
  - cbn. by rw last_snoc.
  - cbn [max_node].
    change (elements (T k l x (T kr rl y rr))) with (elements l ++ x :: elements (T kr rl y rr)).
    by rw last_app_cons last_cons IH.
Qed.

Lemma wp_first {A} rt t (k : Z → prog A) Φ :
  rb_whole rt t -∗ (rb_whole rt t -∗ wp (k (ptr_of (head (elements t)))) Φ) -∗
  wp (rb_first rt ≫= k) Φ.
Proof.
  iIntros "[Hrt Ht] Hk". unfold rb_first, rb_root. wp_steps. destruct (decide (t = E)) as [->|Hne].
  - cbn. rb_steps. iApply "Hk". iFrame.
  - iDestruct (tree_truthy with "Ht") as %Ht; [done|]. rw Ht. cbn [negb]. rb_steps.
    iApply (wp_mem_fuel (length (elements t))). iSplit; [by iApply tree_owns|]. iIntros (f Hf).
    iApply (wp_leftmost with "Ht"); [done|done|]. iIntros "Ht". rw head_min //. iApply "Hk". iFrame.
Qed.

Lemma wp_last_node {A} rt t (k : Z → prog A) Φ :
  rb_whole rt t -∗ (rb_whole rt t -∗ wp (k (ptr_of (last (elements t)))) Φ) -∗
  wp (rb_last rt ≫= k) Φ.
Proof.
  iIntros "[Hrt Ht] Hk". unfold rb_last, rb_root. wp_steps. destruct (decide (t = E)) as [->|Hne].
  - cbn. rb_steps. iApply "Hk". iFrame.
  - iDestruct (tree_truthy with "Ht") as %Ht; [done|]. rw Ht. cbn [negb]. rb_steps.
    iApply (wp_mem_fuel (length (elements t))). iSplit; [by iApply tree_owns|]. iIntros (f Hf).
    iApply (wp_rightmost with "Ht"); [done|done|]. iIntros "Ht". rw last_max //. iApply "Hk".
    iFrame.
Qed.

(** ** Neighbours *)

Lemma wp_up_right {A} rt fuel c h p k lx rx (k' : Z → prog A) Φ :
  (length c < fuel)%nat → p = parent_of c →
  rb_node h p k lx rx -∗ rb_ctx rt h c -∗
  (rb_node h p k lx rx -∗ rb_ctx rt h c -∗ wp (k' (ptr_of (head (behind c)))) Φ) -∗
  wp (up_right fuel h ≫= k') Φ.
Proof.
  revert c h p k lx rx Φ. induction fuel as [|fuel IH]; intros c h p k lx rx Φ Hf ->; [lia|].
  iIntros "Hh Hc Hk". cbn [up_right]. rb_steps. destruct c as [|[kf x r|kf l x] c]; cbn.
  - rb_steps. iApply ("Hk" with "Hh Hc").
  - iDestruct "Hc" as "(Hx & Hr & Hc)". iDestruct (rb_node_addr with "Hx") as %Hx.
    iDestruct (rb_root_ne with "Hh Hr") as %Hne%Z.eqb_neq. rw truthy_addr //. cbn. rb_steps. rw Hne.
    rb_steps.
    iApply ("Hk" with "Hh"). iFrame.
  - iDestruct "Hc" as "(Hx & Hl & Hc)". iDestruct (rb_node_addr with "Hx") as %Hx.
    rw truthy_addr //. cbn. rb_steps. rw Z.eqb_refl. cbn in Hf.
    iApply (IH with "Hx Hc"); [lia|done|]. iIntros "Hx Hc". iApply ("Hk" with "Hh"). iFrame.
Qed.

Lemma wp_up_left {A} rt fuel c h p k lx rx (k' : Z → prog A) Φ :
  (length c < fuel)%nat → p = parent_of c →
  rb_node h p k lx rx -∗ rb_ctx rt h c -∗
  (rb_node h p k lx rx -∗ rb_ctx rt h c -∗ wp (k' (ptr_of (last (before c)))) Φ) -∗
  wp (up_left fuel h ≫= k') Φ.
Proof.
  revert c h p k lx rx Φ. induction fuel as [|fuel IH]; intros c h p k lx rx Φ Hf ->; [lia|].
  iIntros "Hh Hc Hk". cbn [up_left]. rb_steps. destruct c as [|[kf x r|kf l x] c]; cbn.
  - rb_steps. iApply ("Hk" with "Hh Hc").
  - iDestruct "Hc" as "(Hx & Hr & Hc)". iDestruct (rb_node_addr with "Hx") as %Hx.
    rw truthy_addr //. cbn. rb_steps. rw Z.eqb_refl. cbn in Hf.
    iApply (IH with "Hx Hc"); [lia|done|]. iIntros "Hx Hc". iApply ("Hk" with "Hh"). iFrame.
  - iDestruct "Hc" as "(Hx & Hl & Hc)". iDestruct (rb_node_addr with "Hx") as %Hx.
    iDestruct (rb_root_ne with "Hh Hl") as %Hne%Z.eqb_neq. rw truthy_addr //. cbn. rb_steps. rw Hne.
    rb_steps.
    rw assoc_L last_snoc. iApply ("Hk" with "Hh"). iFrame.
Qed.

Lemma parent_ne rt h p k lx rx c : rb_node h p k lx rx -∗ rb_ctx rt h c -∗ ⌜parent_of c ≠ h⌝.
Proof.
  iIntros "Hh Hc". iDestruct (rb_node_addr with "Hh") as %[? _].
  destruct c as [|[kf x r|kf l x] c]; cbn; [iPureIntro; lia| |]; iDestruct "Hc" as "(Hx & _)";
    iApply (rb_node_ne with "Hx Hh").
Qed.

Section neighbours.
Context {A : Type} (rt : Z) (c : ctx) (kx : color) (l : tree) (x : Z) (r : tree).
Context (k : Z → prog A) (Φ : A → mprop).
Lemma node_fuel :
  rb_ctx rt x c -∗ rb_tree (parent_of c) (T kx l x r) -∗
  owns (length c + (length (elements l) + length (elements r))).
Proof.
  iIntros "Hc Ht". iDestruct (ctx_owns with "Hc") as "Hc". iDestruct (tree_owns with "Ht") as "Ht".
  iDestruct (owns_sep with "[$Hc $Ht]") as "H". iApply (owns_le with "H"). cbn. rw length_app /=.
  lia.
Qed.

Lemma wp_next :
  rb_whole rt (plug c (T kx l x r)) -∗
  (rb_whole rt (plug c (T kx l x r)) -∗ wp (k (ptr_of (head (elements r ++ behind c)))) Φ) -∗
  wp (rb_next x ≫= k) Φ.
Proof.
  rw rb_plug. iIntros "[Hc (Hx & Hl & Hr)] Hk". fold rb_tree. cbn [root_of].
  iDestruct (parent_ne with "Hx Hc") as %Hne%Z.eqb_neq. unfold rb_next. rb_steps. rw Hne. rb_steps.
  iApply wp_mem_fuel. iSplit; [iApply (node_fuel with "Hc [$Hx $Hl $Hr]")|]. iIntros (f Hf).
  destruct (decide (r = E)) as [->|Hr].
  - cbn. iApply (wp_up_right with "Hx Hc"); [lia|done|]. iIntros "Hx Hc". iApply "Hk". iFrame.
  - iDestruct (tree_truthy with "Hr") as %Tr; [done|]. rw Tr.
    iApply (wp_leftmost with "Hr"); [done|lia|]. iIntros "Hr". rw head_app head_min //.
    iApply "Hk". iFrame.
Qed.

Lemma wp_prev :
  rb_whole rt (plug c (T kx l x r)) -∗
  (rb_whole rt (plug c (T kx l x r)) -∗ wp (k (ptr_of (last (before c ++ elements l)))) Φ) -∗
  wp (rb_prev x ≫= k) Φ.
Proof.
  rw rb_plug. iIntros "[Hc (Hx & Hl & Hr)] Hk". fold rb_tree. cbn [root_of].
  iDestruct (parent_ne with "Hx Hc") as %Hne%Z.eqb_neq. unfold rb_prev. rb_steps. rw Hne. rb_steps.
  iApply wp_mem_fuel. iSplit; [iApply (node_fuel with "Hc [$Hx $Hl $Hr]")|]. iIntros (f Hf).
  destruct (decide (l = E)) as [->|Hl].
  - cbn. iApply (wp_up_left with "Hx Hc"); [lia|done|]. iIntros "Hx Hc". rw right_id_L. iApply "Hk".
    iFrame.
  - iDestruct (tree_truthy with "Hl") as %Tl; [done|]. rw Tl.
    iApply (wp_rightmost with "Hl"); [done|lia|]. iIntros "Hl". rw last_app last_max //.
    iApply "Hk". iFrame.
Qed.

(** ** Replacing a node *)

Lemma wp_replace_node new (k' : unit → prog A) :
  rb_whole rt (plug c (T kx l x r)) -∗ rb_free new -∗
  (rb_whole rt (plug c (T kx l new r)) -∗ rb_free x -∗ wp (k' tt) Φ) -∗
  wp (rb_replace_node x new rt ≫= k') Φ.
Proof.
  rw !rb_plug. iIntros "[Hc (Hx & Hl & Hr)] Hn Hk". fold rb_tree. cbn [root_of].
  iDestruct "Hn" as (pc ln rn) "(%Hn & Hn1 & Hn2 & Hn3)". iDestruct (rb_node_ptr with "Hx") as %Hp.
  unfold rb_replace_node. rb_steps.
  iApply (wp_replace_left with "Hx Hc"). iIntros "Hx Hc". rb_steps.
  iApply (wp_adopt_child with "Hx Hl"); [apply reads_left|by apply addr_ptr|]. iIntros "Hx Hl".
  rb_steps.
  iApply (wp_adopt_child with "Hx Hr"); [apply reads_right|by apply addr_ptr|]. iIntros "Hx Hr".
  rb_steps.
  unfold set_parent_color, set_right, set_left. wp_steps.
  iApply ("Hk" with "[-Hx]"); [|by iApply node_free]. cbn. iFrame. iFrame "%".
Qed.
End neighbours.

(** ** Augmented trees *)

(** The nodes that [rb_augment_path] calls the function on, from the node at the
    hole up to the root: every node of the way and its sibling, or a left child
    that has no sibling a second time. *)
Fixpoint visits (x : Z) (c : ctx) : list Z :=
  match c with
  | [] => [x]
  | FL _ p r :: c => x :: (if truthy (root_of r) then root_of r else x) :: visits p c
  | FR _ l p :: c => x :: (if truthy (root_of l) then [root_of l] else []) ++ visits p c
  end.

Section augment.
Context {A : Type} (func : Z → prog unit) (R : list Z → mprop).
Context (Hfunc : ∀ y ys, R ys ⊢ wp (func y) (λ _, R (ys ++ [y]))).

Lemma wp_func ys y (k : unit → prog A) Φ :
  R ys -∗ (R (ys ++ [y]) -∗ wp (k tt) Φ) -∗ wp (func y ≫= k) Φ.
Proof.
  iIntros "HR Hk". iApply wp_bind. iApply (wp_wand with "[HR]"); [by iApply Hfunc|].
  iIntros ([]) "HR". by iApply "Hk".
Qed.

Lemma wp_augment_up rt fuel c h p k lx rx ys (k' : unit → prog A) Φ :
  (length c < fuel)%nat → p = parent_of c →
  rb_node h p k lx rx -∗ rb_ctx rt h c -∗ R ys -∗
  (rb_node h p k lx rx -∗ rb_ctx rt h c -∗ R (ys ++ visits h c) -∗ wp (k' tt) Φ) -∗
  wp (augment_up fuel func h ≫= k') Φ.
Proof.
  revert c h p k lx rx ys Φ. induction fuel as [|fuel IH]; intros c h p k lx rx ys Φ Hf ->; [lia|].
  iIntros "Hh Hc HR Hk". cbn [augment_up]. iApply wp_assoc. iApply (wp_func with "HR").
  iIntros "HR". rb_steps.
  iDestruct (rb_node_addr with "Hh") as %Hh. destruct c as [|[kf x r|kf l x] c]; cbn.
  - rb_steps. iApply ("Hk" with "Hh Hc HR").
  - iDestruct "Hc" as "(Hx & Hr & Hc)". iDestruct (rb_node_addr with "Hx") as %Hx.
    rw (truthy_addr x Hx). cbn. rb_steps.
    rw Z.eqb_refl (truthy_addr h Hh). cbn in Hf |- *.
    iAssert (∀ y, R ((ys ++ [h]) ++ [y]) -∗ ⌜y = if truthy (root_of r) then root_of r else h⌝ -∗
      wp (augment_up fuel func x ≫= k') Φ)%I with "[-HR]" as "Hgo".
    { iIntros (y) "HR ->". iApply (IH with "Hx Hc HR"); [lia|done|]. iIntros "Hx Hc HR".
      rw -!assoc_L /=. iApply ("Hk" with "Hh [$Hx $Hr $Hc] HR"). }
    destruct (truthy (root_of r)); iApply (wp_func with "HR"); iIntros "HR"; by iApply ("Hgo" with "HR").
  - iDestruct "Hc" as "(Hx & Hl & Hc)". iDestruct (rb_node_addr with "Hx") as %Hx.
    rw (truthy_addr x Hx). cbn. rb_steps.
    iDestruct (rb_root_ne with "Hh Hl") as %Hne%Z.eqb_neq. rw Hne. cbn in Hf |- *.
    iAssert (∀ zs, R ((ys ++ [h]) ++ zs) -∗ ⌜zs = if truthy (root_of l) then [root_of l] else []⌝ -∗
      wp (augment_up fuel func x ≫= k') Φ)%I with "[-HR]" as "Hgo".
    { iIntros (zs) "HR ->". iApply (IH with "Hx Hc HR"); [lia|done|]. iIntros "Hx Hc HR".
      rw -!assoc_L /=. iApply ("Hk" with "Hh [$Hx $Hl $Hc] HR"). }
    iApply wp_when. destruct (truthy (root_of l)).
    + iApply (wp_func with "HR"). iIntros "HR". by iApply ("Hgo" with "HR").
    + iApply ("Hgo" $! [] with "[HR] [//]"). by rw right_id_L.
Qed.
End augment.

Lemma wp_augment_path {A} func R rt c k l x r ys (k' : unit → prog A) Φ :
  (∀ y ys, R ys ⊢ wp (func y) (λ _, R (ys ++ [y]))) →
  rb_whole rt (plug c (T k l x r)) -∗ R ys -∗
  (rb_whole rt (plug c (T k l x r)) -∗ R (ys ++ visits x c) -∗ wp (k' tt) Φ) -∗
  wp (rb_augment_path x func ≫= k') Φ.
Proof.
  iIntros (HR) "Ht HR Hk". rw rb_plug. iDestruct "Ht" as "[Hc Ht]". unfold rb_augment_path.
  wp_steps.
  iApply wp_mem_fuel. iSplit; [iApply (node_fuel with "Hc Ht")|]. iIntros (f Hf).
  iDestruct "Ht" as "(Hx & Hl & Hr)". fold rb_tree.
  iApply (wp_augment_up func R with "Hx Hc HR"); [done|lia|done|].
  iIntros "Hx Hc". iApply "Hk". iFrame.
Qed.

(** The nodes that stay when the node goes. *)
Definition others (c : ctx) (l r : tree) : list Z := before c ++ elements l ++ elements r ++ behind c.

Lemma root_in t : t ≠ E → root_of t ∈ elements t.
Proof. destruct t; [done|]. cbn. set_solver. Qed.

Lemma parent_around c t : c ≠ [] → parent_of c ∈ before c ++ elements t ++ behind c.
Proof. destruct c as [|[] c]; [done| |]; cbn; set_solver. Qed.

(** The end of [rb_augment_erase_begin], from the successor of a node with two
    children. *)
Lemma wp_deepest {A} rt c kx l x r (k : Z → prog A) Φ :
  r ≠ E →
  rb_whole rt (plug c (T kx l x r)) -∗
  (∀ y, ⌜y ∈ others c l r ∨ y = 0 ∧ others c l r = []⌝ -∗
     rb_whole rt (plug c (T kx l x r)) -∗ wp (k y) Φ) -∗
  wp ((r' ← rb_right (min_node r);
       if truthy r' then mret r' else
       p ← rb_parent (min_node r);
       if negb (p =? x) then mret p else mret (min_node r)) ≫= k) Φ.
Proof.
  iIntros (Hr) "Ht Hk". destruct (min_plug r Hr) as (c2 & k2 & r2 & Er & _).
  set (y := min_node r) in *.
  assert (plug c (T kx l x r) = plug (c2 ++ FR kx l x :: c) (T k2 E y r2)) as ->.
  { by rw plug_app -Er. }
  assert (elements r = before c2 ++ y :: elements r2 ++ behind c2) as He.
  { by rw Er elements_plug. }
  iDestruct (rb_plug with "Ht") as "[Hc (Hy & Hl & Hr)]". fold rb_tree. rb_steps. cbn [root_of].
  assert (∀ z, z ∈ elements r → z ∈ others c l r) as Hin by (unfold others; set_solver).
  destruct (decide (r2 = E)) as [->|Hr2].
  - cbn. rb_steps. destruct c2 as [|f c2]; cbn [app parent_of].
    + cbn. rw Z.eqb_refl. wp_steps. iApply ("Hk" with "[%] [-]"); [|iApply rb_plug; iFrame]. left.
      apply Hin. rw He. set_solver.
    + pose proof (parent_around (f :: c2) (T k2 E y E) ltac:(done)) as Hp.
      cbn [elements app] in Hp, He.
      destruct (node_of f =? x); wp_steps;
        (iApply ("Hk" with "[%] [-]"); [|iApply rb_plug; iFrame]); left; apply Hin; rw He;
          [set_solver|exact Hp].
  - iDestruct (tree_truthy with "Hr") as %Tr; [done|]. rw Tr. wp_steps. pose proof (root_in r2 Hr2).
    iApply ("Hk" with "[%] [-]"); [|iApply rb_plug; iFrame]. left. apply Hin. rw He. set_solver.
Qed.

(** [rb_augment_erase_begin] returns a node that stays in the tree; there is
    none when the node is the only one. *)
Lemma wp_augment_erase_begin {A} rt c kx l x r (k : Z → prog A) Φ :
  rb_whole rt (plug c (T kx l x r)) -∗
  (∀ y, ⌜y ∈ others c l r ∨ y = 0 ∧ others c l r = []⌝ -∗
     rb_whole rt (plug c (T kx l x r)) -∗ wp (k y) Φ) -∗
  wp (rb_augment_erase_begin x ≫= k) Φ.
Proof.
  iIntros "Ht Hk". iDestruct (rb_plug with "Ht") as "[Hc (Hx & Hl & Hr)]". fold rb_tree.
  unfold rb_augment_erase_begin. cbn [root_of]. rb_steps.
  destruct (decide (r = E)) as [->|Hr]; [destruct (decide (l = E)) as [->|Hl]|].
  - cbn. rb_steps. iApply ("Hk" with "[%] [-]"); [|iApply rb_plug; iFrame].
    destruct c as [|f c]; [by right|left].
    apply (parent_around (f :: c) E). done.
  - iDestruct (tree_truthy with "Hl") as %Tl; [done|]. rw Tl. cbn. wp_steps.
    iApply ("Hk" with "[%] [-]"); [|iApply rb_plug; iFrame]. left. pose proof (root_in l Hl).
    unfold others. set_solver.
  - iDestruct (tree_truthy with "Hr") as %Tr; [done|]. rw Tr. cbn.
    destruct (decide (l = E)) as [->|Hl].
    + cbn. wp_steps. iApply ("Hk" with "[%] [-]"); [|iApply rb_plug; iFrame]. left.
      pose proof (root_in r Hr). unfold others. set_solver.
    + iDestruct (tree_truthy with "Hl") as %Tl; [done|]. rw Tl. cbn. iApply wp_assoc.
      iApply (wp_next rt c kx l x r with "[Hc Hx Hl Hr]"); [iApply rb_plug; iFrame|]. iIntros "Ht".
      rw head_app head_min //. by iApply (wp_deepest with "Ht Hk").
Qed.

(** ** Walking over a tree *)

(** [for (n = rb_first(root); n; n = rb_next(n))] *)
Fixpoint walk_from (fuel : nat) (n : Z) : prog (list Z) :=
  match fuel with
  | O => out_of_fuel
  | S fuel => if truthy n then m ← rb_next n; ns ← walk_from fuel m; mret (n :: ns) else mret []
  end.

Definition rb_walk (root : Z) : prog (list Z) :=
  n ← rb_first root; fuel ← mem_fuel; walk_from fuel n.

Lemma wp_walk_from {A} rt t fuel l1 l2 (k : list Z → prog A) Φ :
  (length l2 < fuel)%nat → elements t = l1 ++ l2 →
  rb_whole rt t -∗ (rb_whole rt t -∗ wp (k l2) Φ) -∗ wp (walk_from fuel (ptr_of (head l2)) ≫= k) Φ.
Proof.
  revert l1 l2 k. induction fuel as [|fuel IH]; intros l1 l2 k Hf He; [lia|]. iIntros "Ht Hk".
  cbn [walk_from].
  destruct l2 as [|x l2]; [cbn; wp_steps; by iApply "Hk"|].
  destruct (node_at t [] l1 x l2 He) as (c & kx & l & r & E & Hb & Ha).
  change (plug [] t) with t in E.
  cbn in Ha. rw right_id_L in Ha. rw -E. iDestruct (rb_plug with "Ht") as "[Hc (Hx & Hl & Hr)]".
  fold rb_tree.
  iDestruct (rb_node_addr with "Hx") as %Hx. cbn [head ptr_of default]. rw truthy_addr //.
  iApply wp_assoc.
  iApply (wp_next rt c kx l x r with "[Hc Hx Hl Hr]"); [iApply rb_plug; iFrame|]. iIntros "Ht".
  rw Ha E. cbn in Hf.
  iApply wp_assoc. iApply (IH (l1 ++ [x]) with "Ht"); [lia|by rw -assoc_L|]. iIntros "Ht". wp_steps.
  by iApply "Hk".
Qed.

(** Walking over a tree with [rb_first] and [rb_next] visits all its nodes,
    each once and in order, and leaves the tree as it is. *)
Theorem rb_walk_in_order rt t :
  hoare (rb_whole rt t) (rb_walk rt) (λ r, ⌜r = elements t⌝ ∗ rb_whole rt t)%I.
Proof.
  apply wp_hoare. iIntros "Ht". iApply wp_last. unfold rb_walk. iApply wp_assoc.
  iApply (wp_first with "Ht").
  iIntros "[Hrt Ht]". iApply wp_assoc. iApply (wp_mem_fuel (length (elements t))).
  iSplit; [by iApply tree_owns|].
  iIntros (f Hf). iApply (wp_walk_from rt t f [] with "[$Hrt $Ht]"); [done|done|].
  iIntros "Ht". iApply wp_ret. by iFrame.
Qed.
