(* ===== verification/RbRequests.v ===== *)
(** * Requests on red-black trees (block/elevator.c)

    [elv_rb_add], [elv_rb_find] and [elv_rb_del] on memory.  A request is named
    by the address of the [rb_node] inside it, and [pos] is its position on the
    disk.  The theorems say that the tree in memory implements the sorted
    sequence that [Deadline] works with, so that what is proved there holds of
    the trees. *)
From stdpp Require Import sorting.
From S2P Require Import Prelude HeapLogic RbTree RbLogic RbInsert RbErase RbWalk Elevator Deadline.
#[local] Open Scope Z_scope.
#[local] Arguments plug : simpl never.

(** ** Code *)

(** [p] is the address of the pointer the loop looks at; the result is a request
    of the same position, or the place for the new one. *)
Fixpoint rb_add_loop (fuel : nat) (pos : Z → Z) (rq p parent : Z) : prog (Z + Z * Z) :=
  match fuel with
  | O => out_of_fuel
  | S fuel =>
      n ← load p;
      if truthy n then
        if pos rq <? pos n then rb_add_loop fuel pos rq (n + 16) n
        else if pos n <? pos rq then rb_add_loop fuel pos rq (n + 8) n
        else mret (inl n)
      else mret (inr (parent, p))
  end.

Definition elv_rb_add (pos : Z → Z) (root rq : Z) : prog Z :=
  fuel ← mem_fuel;
  place ← rb_add_loop fuel pos rq root 0;
  match place with
  | inl __rq => mret __rq
  | inr (parent, p) =>
      rb_link_node rq parent p;;
      rb_insert_color rq root;;
      mret 0
  end.

Definition elv_rb_del (root rq : Z) : prog unit :=
  empty ← RB_EMPTY_NODE rq;
  if (empty : bool) then BUG else
  rb_erase rq root;;
  RB_CLEAR_NODE rq.

Fixpoint rb_find_loop (fuel : nat) (pos : Z → Z) (sector n : Z) : prog Z :=
  match fuel with
  | O => out_of_fuel
  | S fuel =>
      if truthy n then
        if sector <? pos n then l ← rb_left n; rb_find_loop fuel pos sector l
        else if pos n <? sector then r ← rb_right n; rb_find_loop fuel pos sector r
        else mret n
      else mret 0
  end.

Definition elv_rb_find (pos : Z → Z) (root sector : Z) : prog Z :=
  n ← rb_root root;
  fuel ← mem_fuel;
  rb_find_loop fuel pos sector n.

Definition elv_rb_former_request (rq : Z) : prog Z :=
  rbprev ← rb_prev rq;
  if truthy rbprev then mret rbprev else mret 0.

Definition elv_rb_latter_request (rq : Z) : prog Z :=
  rbnext ← rb_next rq;
  if truthy rbnext then mret rbnext else mret 0.

(** ** The height of a tree *)

Fixpoint height (t : tree) : nat :=
  match t with E => 0 | T _ l _ r => S (Nat.max (height l) (height r)) end.

Lemma height_elements t : (height t ≤ length (elements t))%nat.
Proof. induction t as [|k l IHl x r IHr]; cbn; [done|]. rw length_app /=. lia. Qed.

(** A path has at most as many red nodes as black ones. *)
Lemma rb_height k n t :
  rb k n t → (height t ≤ 2 * n + if is_red k then 1 else 0)%nat ∧ (2 ^ n ≤ S (length (elements t)))%nat.
Proof.
  induction 1; cbn; rw ?length_app /=; repeat match goal with k : color |- _ => destruct k end;
    cbn in *; lia.
Qed.

Lemma rb_ok_height t : rb_ok t → (height t ≤ 2 * Nat.log2 (S (length (elements t))))%nat.
Proof.
  intros [n Hn]. apply rb_height in Hn as [Hh Hn]. cbn in Hh.
  apply (Nat.log2_le_mono (2 ^ n)) in Hn. rw Nat.log2_pow2 in Hn; lia.
Qed.

(** ** The search for the place *)

Section search.
Context (pos : Z → Z).

Definition before_all (s : Z) (l : list Z) : Prop := Forall (λ y, pos y < s) l.
Definition after_all (s : Z) (l : list Z) : Prop := Forall (λ y, s < pos y) l.
Definition by_pos : list Z → Prop := StronglySorted (λ x y, pos x < pos y).

Lemma sorted_around l1 x l2 : by_pos (l1 ++ x :: l2) → before_all (pos x) l1 ∧ after_all (pos x) l2.
Proof.
  intros H. split.
  - apply Forall_forall. intros y Hy.
    eapply (StronglySorted_app_1_elem_of _ _ _ _ _ H); [done|left].
  - apply StronglySorted_app_1_r in H. by apply StronglySorted_cons in H as [? _].
Qed.

Lemma wp_add_loop {A} rt fuel c t rq (k : Z + Z * Z → prog A) Φ :
  (length (elements t) < fuel)%nat → by_pos (elements (plug c t)) →
  before_all (pos rq) (before c) → after_all (pos rq) (behind c) →
  rb_ctx rt (root_of t) c -∗ rb_tree (parent_of c) t -∗
  ((∀ c' kx l x r, ⌜plug c' (T kx l x r) = plug c t⌝ -∗ ⌜pos x = pos rq⌝ -∗
      rb_whole rt (plug c t) -∗ wp (k (inl x)) Φ) ∧
   (∀ c', ⌜plug c' E = plug c t⌝ -∗ ⌜before_all (pos rq) (before c')⌝ -∗
      ⌜after_all (pos rq) (behind c')⌝ -∗
      rb_ctx rt 0 c' -∗ wp (k (inr (parent_of c', link_of rt c'))) Φ)) -∗
  wp (rb_add_loop fuel pos rq (link_of rt c) (parent_of c) ≫= k) Φ.
Proof.
  revert c t. induction fuel as [|fuel IH]; intros c t Hf Hs Hb Ha; [lia|].
  iIntros "Hc Ht Hk". cbn [rb_add_loop]. iDestruct (ctx_link with "Hc") as "[Hl Hc]". wp_steps.
  iDestruct ("Hc" with "Hl") as "Hc". destruct t as [|kx l x r].
  { cbn. wp_steps. iDestruct "Hk" as "[_ Hk]". by iApply ("Hk" with "[//] [//] [//] Hc"). }
  pose proof Hs as Hs'. rw elements_plug /= -assoc_L assoc_L /= in Hs'.
  apply sorted_around in Hs' as [Hb' Ha']. apply Forall_app in Hb' as [Hb1 Hb2].
  apply Forall_app in Ha' as [Ha1 Ha2].
  cbn in Hf. rw length_app /= in Hf.
  iDestruct (tree_truthy with "Ht") as %Tx; [done|]. cbn [root_of] in *. rw Tx.
  destruct (pos rq <? pos x) eqn:E1; [|destruct (pos x <? pos rq) eqn:E2]; zbool.
  - iDestruct "Ht" as "(Hx & Hl & Hr)".
    iApply (IH (FL kx x r :: c) l with "[Hx Hr Hc] Hl Hk"); [lia|done|done| |cbn; iFrame].
    constructor; [done|]. apply Forall_app. split; [|done].
    eapply Forall_impl; [exact Ha1|]. cbn. lia.
  - iDestruct "Ht" as "(Hx & Hl & Hr)".
    iApply (IH (FR kx l x :: c) r with "[Hx Hl Hc] Hr Hk"); [lia|done| |done|cbn; iFrame].
    cbn. apply Forall_app. split; [done|]. apply Forall_app. split; [|by constructor].
    eapply Forall_impl; [exact Hb2|]. cbn. lia.
  - wp_steps. iDestruct "Hk" as "[Hk _]". iApply ("Hk" with "[//] [%]"); [lia|]. iApply rb_plug.
    iFrame.
Qed.
(** ** Lookup *)

Definition at_pos (s : Z) (l : list Z) : option Z := head (filter (λ y, pos y = s) l).

Lemma filter_none s l : Forall (λ y, pos y ≠ s) l → filter (λ y, pos y = s) l = [].
Proof. induction 1; rw ?filter_cons ?decide_False //. Qed.
Lemma filter_before s l : before_all s l → filter (λ y, pos y = s) l = [].
Proof. intros H. apply filter_none, (Forall_impl _ _ _ H). cbn. lia. Qed.
Lemma filter_after s l : after_all s l → filter (λ y, pos y = s) l = [].
Proof. intros H. apply filter_none, (Forall_impl _ _ _ H). cbn. lia. Qed.

Lemma wp_find_loop {A} fuel p t s (k : Z → prog A) Φ :
  (height t < fuel)%nat → by_pos (elements t) →
  rb_tree p t -∗ (rb_tree p t -∗ wp (k (ptr_of (at_pos s (elements t)))) Φ) -∗
  wp (rb_find_loop fuel pos s (root_of t) ≫= k) Φ.
Proof.
  revert p t. induction fuel as [|fuel IH]; intros p t Hf Hs; [lia|].
  iIntros "Ht Hk". cbn [rb_find_loop]. destruct t as [|kx l x r]; [cbn; wp_steps; by iApply "Hk"|].
  pose proof (sorted_around _ _ _ Hs) as [Hb Ha]. cbn in Hs, Hf.
  iDestruct (tree_truthy with "Ht") as %Tx; [done|]. cbn [root_of] in *. rw Tx.
  iDestruct "Ht" as "(Hx & Hl & Hr)". fold rb_tree. unfold at_pos. cbn [elements].
  rw filter_app filter_cons.
  destruct (s <? pos x) eqn:E1; [|destruct (pos x <? s) eqn:E2]; zbool.
  - rb_steps. iApply (IH with "Hl"); [lia|by eapply StronglySorted_app_1_l|]. iIntros "Hl".
    rw decide_False; [|lia].
    rw (filter_after s (elements r)); [|eapply Forall_impl; [exact Ha|cbn; lia]].
    rw right_id_L. iApply "Hk". iFrame.
  - rb_steps. iApply (IH with "Hr"); [lia| |].
    { by apply StronglySorted_app_1_r, StronglySorted_cons in Hs as [_ ?]. }
    iIntros "Hr". rw decide_False; [|lia].
    rw (filter_before s (elements l)); [|eapply Forall_impl; [exact Hb|cbn; lia]]. iApply "Hk".
    iFrame.
  - assert (pos x = s) as <- by lia. rw decide_True // filter_before //. wp_steps. iApply "Hk".
    iFrame.
Qed.

Lemma wp_elv_rb_find {A} rt t s (k : Z → prog A) Φ :
  by_pos (elements t) →
  rb_whole rt t -∗ (rb_whole rt t -∗ wp (k (ptr_of (at_pos s (elements t)))) Φ) -∗
  wp (elv_rb_find pos rt s ≫= k) Φ.
Proof.
  iIntros (Hs) "[Hrt Ht] Hk". unfold elv_rb_find, rb_root. wp_steps.
  iApply (wp_mem_fuel (length (elements t))). iSplit; [by iApply tree_owns|]. iIntros (f Hf).
  iApply (wp_find_loop with "Ht"); [|done|]. { pose proof (height_elements t). lia. }
  iIntros "Ht". iApply "Hk". iFrame.
Qed.

(** ** Insertion *)

Lemma wp_elv_rb_add {A} rt t rq R (k : Z → prog A) Φ :
  rb_ok t → by_pos (elements t) → (R ⊢ rb_free rq) →
  rb_whole rt t -∗ R -∗
  ((∀ l1 x l2, ⌜elements t = l1 ++ x :: l2⌝ -∗ ⌜pos x = pos rq⌝ -∗
      rb_whole rt t -∗ R -∗ wp (k x) Φ) ∧
   (∀ t' l1 l2, ⌜elements t = l1 ++ l2⌝ -∗ ⌜elements t' = l1 ++ rq :: l2⌝ -∗
      ⌜before_all (pos rq) l1⌝ -∗ ⌜after_all (pos rq) l2⌝ -∗ ⌜rb_ok t'⌝ -∗
      rb_whole rt t' -∗ wp (k 0) Φ)) -∗
  wp (elv_rb_add pos rt rq ≫= k) Φ.
Proof.
  iIntros (Hok Hs HR) "[Hrt Ht] Hrq Hk". unfold elv_rb_add. wp_steps.
  iApply (wp_mem_fuel (length (elements t))). iSplit; [by iApply tree_owns|]. iIntros (f Hf).
  iApply wp_assoc. iApply (wp_add_loop rt f [] t with "Hrt Ht"); [done|done|by constructor..|].
  iSplit.
  - iIntros (c kx l x r Hp Hx) "Ht". wp_steps. iDestruct "Hk" as "[Hk _]".
    iApply ("Hk" $! (before c ++ elements l) x (elements r ++ behind c) with "[%] [//] Ht Hrq").
    change (plug [] t) with t in Hp. by rw -Hp elements_plug /= -!assoc_L.
  - iIntros (c Hp Hb Ha) "Hc". change (plug [] t) with t in Hp. subst t. iDestruct "Hk" as "[_ Hk]".
    iApply wp_assoc. iApply (wp_link_node with "Hc [Hrq]"); [by iApply HR|]. iIntros "Hc Ht".
    wp_steps. iApply (wp_insert_linked with "Hc Ht"); [done|]. iIntros (t He Hok') "Ht". wp_steps.
    rw elements_plug.
    by iApply ("Hk" with "[//] [//] [//] [//] [//] Ht").
Qed.
End search.

(** ** Removal *)

(** A node that is on no tree and knows it: it is its own parent. *)
Definition rb_cleared (x : Z) : mprop :=
  ∃ pc l r, ⌜addr x⌝ ∗ ⌜Z.land pc (u64 (Z.lnot 3)) = x⌝ ∗ x ↦ pc ∗ (x + 8) ↦ r ∗ (x + 16) ↦ l.

Lemma cleared_free x : rb_cleared x ⊢ rb_free x.
Proof. iIntros "(% & % & % & % & % & ? & ? & ?)". iExists _, _, _. by iFrame. Qed.

Lemma cells_cleared x : addr x → ([∗ list] c ∈ node_cells x, c.1 ↦ c.2) ⊢ rb_cleared x.
Proof.
  iIntros (Hx) "(H1 & H2 & H3 & _)". iExists _, _, _. iFrame. iPureIntro. split; [done|].
  pose proof (enc_parent x Red (addr_ptr x Hx)) as H. unfold enc, col, RB_RED in H.
  by rw Z.add_0_r in H.
Qed.

Lemma clear_parent x pc : addr x → Z.land (Z.lor (Z.land pc 3) x) (u64 (Z.lnot 3)) = x.
Proof.
  intros Hx%addr_ptr. rw Z.land_lor_distr_l -Z.land_assoc.
  change (Z.land 3 (u64 (Z.lnot 3))) with 0. rw Z.land_0_r Z.lor_0_l.
  pose proof (enc_parent x Red Hx) as H. unfold enc, col, RB_RED in H. by rw Z.add_0_r in H.
Qed.

Lemma wp_clear_node {A} x (k : unit → prog A) Φ :
  rb_free x -∗ (rb_cleared x -∗ wp (k tt) Φ) -∗ wp (RB_CLEAR_NODE x ≫= k) Φ.
Proof.
  iIntros "(%pc & %l & %r & %Hx & H1 & H2 & H3) Hk".
  unfold RB_CLEAR_NODE, rb_set_parent, rb_parent_color, set_parent_color. wp_steps.
  iApply "Hk". iExists _, _, _. iFrame. iPureIntro. split; [done|]. by apply clear_parent.
Qed.

Lemma node_in x t : x ∈ elements t → ∃ c k l r, t = plug c (T k l x r).
Proof.
  intros (l1 & l2 & E)%list_elem_of_split.
  destruct (node_at t [] l1 x l2 E) as (c & k & l & r & E' & _).
  by exists c, k, l, r.
Qed.

Lemma wp_elv_rb_del {A} rt t x (k : unit → prog A) Φ :
  rb_ok t → x ∈ elements t →
  rb_whole rt t -∗
  (∀ t' l1 l2, ⌜elements t = l1 ++ x :: l2⌝ -∗ ⌜elements t' = l1 ++ l2⌝ -∗ ⌜rb_ok t'⌝ -∗
     rb_whole rt t' -∗ rb_cleared x -∗ wp (k tt) Φ) -∗
  wp (elv_rb_del rt x ≫= k) Φ.
Proof.
  iIntros (Hok Hx) "Ht Hk". destruct (node_in x t Hx) as (c & kx & l & r & E).
  subst t. unfold elv_rb_del, RB_EMPTY_NODE.
  iDestruct (rb_plug with "Ht") as "[Hc (Hn & Hl & Hr)]". fold rb_tree. cbn [root_of].
  iDestruct (parent_ne with "Hn Hc") as %Hne%Z.eqb_neq. rb_steps. rw Hne. rb_steps.
  iApply (wp_erase with "[Hc Hn Hl Hr]"); [exact Hok|iApply rb_plug; iFrame|].
  iIntros (t' He Hok') "Ht Hn". iApply (wp_clear_node with "Hn"). iIntros "Hn".
  iApply ("Hk" $! t' (before c ++ elements l) (elements r ++ behind c) with "[%] [%] [//] Ht Hn").
  - by rw elements_plug /= -!assoc_L.
  - by rw He -!assoc_L.
Qed.

(** [elv_rb_del] of a request that is on no tree is a BUG. *)
Lemma del_cleared rt x m mf : holds (rb_cleared x) m → m ##ₘ mf → elv_rb_del rt x (m ∪ mf) = None.
Proof.
  intros Hm Hd. unfold elv_rb_del.
  destruct (wp_run (RB_EMPTY_NODE x) (λ b, ⌜b = true⌝)%I (rb_cleared x) m mf)
    as (b & m' & E & _ & Hb); [|done|done|].
  - iIntros "(%pc & %l & %r & %Hx & %Hpc & H1 & H2 & H3)".
    unfold RB_EMPTY_NODE, rb_parent, rb_parent_color.
    iApply wp_last. wp_steps. rw Hpc Z.eqb_refl. by iApply wp_ret.
  - change (b = true) in Hb. subst b. unfold mbind, prog_bind. by rw E.
Qed.

(** ** The trees of the deadline scheduler *)

Section refinement.
Context {D : Type} (q : rqueue D) (d : bool) (adr : nat → Z) (pos : Z → Z).
Context (Hpos : ∀ i, pos (adr i) = er_pos (rq_of q i)).

(** A tree in memory that holds the requests of [l]. *)
Definition request_tree (rt : Z) (l : list nat) : mprop :=
  ∃ t, ⌜rb_ok t⌝ ∗ ⌜elements t = adr <$> l⌝ ∗ rb_whole rt t.

Lemma tree_by_pos l : tree_ok (rq_of q) d l → by_pos pos (adr <$> l).
Proof.
  intros [Hs _]. eapply StronglySorted_fmap; [|exact Hs]. intros x y. by rw !Hpos.
Qed.

Lemma adr_inj l i j : tree_ok (rq_of q) d l → i ∈ l → j ∈ l → adr i = adr j → i = j.
Proof. intros Hl Hi Hj E. eapply tree_pos_inj; [exact Hl|done|done|]. by rw -!Hpos E. Qed.

(** The sequence around a request of the tree. *)
Lemma split_at l i l1 l2 :
  tree_ok (rq_of q) d l → i ∈ l → adr <$> l = l1 ++ adr i :: l2 →
  ∃ k1 k2, l = k1 ++ i :: k2 ∧ l1 = adr <$> k1 ∧ l2 = adr <$> k2.
Proof.
  intros Hl Hi (k1 & k2 & -> & E & ->)%fmap_app_inv. destruct k2 as [|j k2]; [done|]. cbn in E.
  injection E as Ej ->. exists k1, k2. split; [|done]. do 2 f_equal.
  eapply adr_inj; [exact Hl|set_solver|done|done].
Qed.

Lemma add_skip i p l :
  er_pos (rq_of q p) < er_pos (rq_of q i) →
  Deadline.elv_rb_add q i (p :: l) =
  match Deadline.elv_rb_add q i l with inl a => inl a | inr l' => inr (p :: l') end.
Proof.
  intros Hp. cbn. rw (proj2 (Z.ltb_ge _ _) (Z.lt_le_incl _ _ Hp)). by rw (proj2 (Z.ltb_lt _ _) Hp).
Qed.

Lemma add_new i k1 k2 :
  before_all pos (pos (adr i)) (adr <$> k1) → after_all pos (pos (adr i)) (adr <$> k2) →
  Deadline.elv_rb_add q i (k1 ++ k2) = inr (k1 ++ i :: k2).
Proof.
  unfold before_all, after_all. rw !Forall_fmap Hpos. intros Hb Ha.
  induction Hb as [|p k1 Hp _ IH]; cbn -[Deadline.elv_rb_add].
  - destruct Ha as [|p k2 Hp _]; [done|]. cbn in *. rw Hpos in Hp. apply Z.ltb_lt in Hp. by rw Hp.
  - rw /= Hpos in Hp. by rw add_skip // IH.
Qed.

Lemma add_alias i k1 a k2 :
  tree_ok (rq_of q) d (k1 ++ a :: k2) → pos (adr a) = pos (adr i) →
  Deadline.elv_rb_add q i (k1 ++ a :: k2) = inl a.
Proof.
  rw !Hpos. intros Hl E. destruct Hl as [Hs _].
  assert (Forall (λ p, er_pos (rq_of q p) < er_pos (rq_of q i)) k1) as Hb.
  { apply Forall_forall. intros p Hp. rw -E.
    eapply (StronglySorted_app_1_elem_of _ _ _ _ _ Hs); [done|left]. }
  clear Hs. induction Hb as [|p k1 Hp _ IH]; cbn -[Deadline.elv_rb_add]; [by rw /= E Z.ltb_irrefl|].
  by rw add_skip // IH.
Qed.

Lemma find_refines s l :
  tree_ok (rq_of q) d l → at_pos pos s (adr <$> l) = adr <$> Deadline.elv_rb_find q s l.
Proof.
  intros [Hs _]. unfold at_pos. induction Hs as [|p l Hs IH Hp]; [done|].
  cbn [fmap list_fmap Deadline.elv_rb_find].
  rw filter_cons Hpos. destruct (s <? _) eqn:E1; [|destruct (_ <? s) eqn:E2]; zbool.
  - rw decide_False; [|lia]. rw filter_after //. apply Forall_fmap.
    eapply Forall_impl; [exact Hp|]. intros y Hy. cbn in *. rw Hpos. lia.
  - rw decide_False; [|lia]. exact IH.
  - rw decide_True; [|lia]. done.
Qed.

Lemma fmap_head (k : list nat) : head (adr <$> k) = adr <$> head k.
Proof. by destruct k. Qed.

Lemma next_in_app k1 i k2 : i ∉ k1 → next_in i (k1 ++ i :: k2) = head k2.
Proof.
  intros Hi. induction k1 as [|p k1 IH]; cbn [next_in app]; [by rw Nat.eqb_refl|].
  apply not_elem_of_cons in Hi as [Hp Hi]. rw (proj2 (Nat.eqb_neq p i)); [|done]. by apply IH.
Qed.

(** *** The operations *)

Lemma wp_add_request {A} rt l i R (k : Z → prog A) Φ :
  tree_ok (rq_of q) d l → (R ⊢ rb_free (adr i)) →
  request_tree rt l -∗ R -∗
  (match Deadline.elv_rb_add q i l with
   | inl a => request_tree rt l -∗ R -∗ wp (k (adr a)) Φ
   | inr l' => request_tree rt l' -∗ wp (k 0) Φ
   end) -∗
  wp (elv_rb_add pos rt (adr i) ≫= k) Φ.
Proof.
  iIntros (Hl HR) "(%t & %Hok & %He & Ht) Hi Hk".
  iApply (wp_elv_rb_add with "Ht Hi"); [done|rw He; by apply tree_by_pos|done|]. rw He. iSplit.
  - iIntros (l1 x l2 Hs Hx) "Ht Hi". apply fmap_app_inv in Hs as (k1 & k2 & -> & Ex & ->).
    destruct k2 as [|a k2]; [done|]. cbn in Ex. injection Ex as -> ->.
    rw add_alias //. iApply ("Hk" with "[Ht] Hi"). iExists t. by iFrame.
  - iIntros (t' l1 l2 Hs Ht' Hb Ha Hok') "Ht". apply fmap_app_inv in Hs as (k1 & k2 & -> & -> & ->).
    rw add_new //. iApply "Hk". iExists t'. iFrame. iPureIntro. split; [done|]. by rw Ht' fmap_app.
Qed.

Lemma wp_find_request {A} rt l s (k : Z → prog A) Φ :
  tree_ok (rq_of q) d l →
  request_tree rt l -∗
  (request_tree rt l -∗ wp (k (ptr_of (adr <$> Deadline.elv_rb_find q s l))) Φ) -∗
  wp (elv_rb_find pos rt s ≫= k) Φ.
Proof.
  iIntros (Hl) "(%t & %Hok & %He & Ht) Hk".
  iApply (wp_elv_rb_find with "Ht"); [rw He; by apply tree_by_pos|]. iIntros "Ht".
  rw He find_refines //. iApply "Hk". iExists t. by iFrame.
Qed.

Lemma wp_del_request {A} rt l i (k : unit → prog A) Φ :
  tree_ok (rq_of q) d l → i ∈ l →
  request_tree rt l -∗ (request_tree rt (without i l) -∗ rb_cleared (adr i) -∗ wp (k tt) Φ) -∗
  wp (elv_rb_del rt (adr i) ≫= k) Φ.
Proof.
  iIntros (Hl Hi) "(%t & %Hok & %He & Ht) Hk".
  iApply (wp_elv_rb_del with "Ht"); [done|rw He; by apply list_elem_of_fmap_2|].
  iIntros (t' l1 l2 E1 E2 Hok') "Ht Hi". rw He in E1.
  destruct (split_at l i l1 l2 Hl Hi E1) as (k1 & k2 & -> & -> & ->).
  iApply ("Hk" with "[Ht] Hi"). iExists t'. rw without_split; [|by eapply tree_nodup]. rw fmap_app.
  by iFrame.
Qed.

Lemma null_or (p : Z) : (if truthy p then mret p else mret 0) = (mret p : prog Z).
Proof. unfold truthy. destruct (p =? 0) eqn:E; [|done]. apply Z.eqb_eq in E. by subst. Qed.

(** A request of the tree, seen from its node. *)
Lemma request_node rt l i :
  tree_ok (rq_of q) d l → i ∈ l →
  request_tree rt l ⊢ ∃ c k tl tr k1 k2,
    ⌜l = k1 ++ i :: k2⌝ ∗ ⌜before c ++ elements tl = adr <$> k1⌝ ∗
      ⌜elements tr ++ behind c = adr <$> k2⌝ ∗
    rb_whole rt (plug c (T k tl (adr i) tr)) ∗
      (rb_whole rt (plug c (T k tl (adr i) tr)) -∗ request_tree rt l).
Proof.
  iIntros (Hl Hi) "(%t & %Hok & %He & Ht)".
  destruct (node_in (adr i) t) as (c & k & tl & tr & E); [rw He; by apply list_elem_of_fmap_2|].
  subst t. pose proof He as Es.
  rw elements_plug /= -assoc_L assoc_L /= in Es.
  destruct (split_at l i _ _ Hl Hi (eq_sym Es)) as (k1 & k2 & E & E1 & E2).
  iExists c, k, tl, tr, k1, k2. iFrame "Ht". do 3 (iSplit; [done|]). iIntros "Ht". iExists _.
  by iFrame.
Qed.

Lemma wp_latter_request {A} rt l i (k : Z → prog A) Φ :
  tree_ok (rq_of q) d l → i ∈ l →
  request_tree rt l -∗ (request_tree rt l -∗ wp (k (ptr_of (adr <$> next_in i l))) Φ) -∗
  wp (elv_rb_latter_request (adr i) ≫= k) Φ.
Proof.
  iIntros (Hl Hi) "Ht Hk".
  iDestruct (request_node with "Ht") as (c kx tl tr k1 k2 E E1 E2) "[Ht Hb]"; [done..|].
  unfold elv_rb_latter_request. iApply wp_assoc. iApply (wp_next with "Ht"). iIntros "Ht".
  rw null_or. wp_steps.
  apply tree_nodup in Hl. rw E E2 next_in_app; [|rw E in Hl; apply NoDup_app in Hl; set_solver].
  rw -E fmap_head. iApply "Hk". by iApply "Hb".
Qed.

Lemma wp_former_request {A} rt l i (k : Z → prog A) Φ :
  tree_ok (rq_of q) d l → i ∈ l →
  request_tree rt l -∗ (request_tree rt l -∗ wp (k (ptr_of (adr <$> next_in i (reverse l)))) Φ) -∗
  wp (elv_rb_former_request (adr i) ≫= k) Φ.
Proof.
  iIntros (Hl Hi) "Ht Hk".
  iDestruct (request_node with "Ht") as (c kx tl tr k1 k2 E E1 E2) "[Ht Hb]"; [done..|].
  unfold elv_rb_former_request. iApply wp_assoc. iApply (wp_prev with "Ht"). iIntros "Ht".
  rw null_or. wp_steps.
  apply tree_nodup in Hl. rw E reverse_app reverse_cons -assoc_L /=. rw next_in_app.
  - rw -E E1 fmap_last -head_reverse. iApply "Hk". by iApply "Hb".
  - rw E in Hl. apply NoDup_app in Hl as (_ & _ & [? _]%NoDup_cons). by rw elem_of_reverse.
Qed.

(** *** Histories *)

Inductive rb_op :=
| RbAdd (i : nat) | RbDel (i : nat) | RbFind (sector : Z)
| RbFormer (i : nat) | RbLatter (i : nat).

Definition rb_exec (rt : Z) (o : rb_op) : prog Z :=
  match o with
  | RbAdd i => elv_rb_add pos rt (adr i)
  | RbDel i => elv_rb_del rt (adr i);; mret 0
  | RbFind s => elv_rb_find pos rt s
  | RbFormer i => elv_rb_former_request (adr i)
  | RbLatter i => elv_rb_latter_request (adr i)
  end.

Fixpoint rb_run (rt : Z) (os : list rb_op) : prog (list Z) :=
  match os with
  | [] => mret []
  | o :: os => r ← rb_exec rt o; rs ← rb_run rt os; mret (r :: rs)
  end.

(** What the operations answer on a sorted sequence; a request is added when it
    is not on the tree, and removed or asked for its neighbours when it is. *)
Definition seq_op (X : gset nat) (o : rb_op) (l : list nat) : option (Z * list nat) :=
  match o with
  | RbAdd i =>
      guard (i ∈ X ∧ i ∉ l);;
      match Deadline.elv_rb_add q i l with inl a => Some (adr a, l) | inr l' => Some (0, l') end
  | RbDel i => guard (i ∈ X ∧ i ∈ l);; Some (0, without i l)
  | RbFind s => Some (ptr_of (adr <$> Deadline.elv_rb_find q s l), l)
  | RbFormer i => guard (i ∈ l);; Some (ptr_of (adr <$> next_in i (reverse l)), l)
  | RbLatter i => guard (i ∈ l);; Some (ptr_of (adr <$> next_in i l), l)
  end.

Fixpoint seq_run (X : gset nat) (os : list rb_op) (l : list nat) : option (list Z * list nat) :=
  match os with
  | [] => Some ([], l)
  | o :: os => '(r, l) ← seq_op X o l; '(rs, l) ← seq_run X os l; Some (r :: rs, l)
  end.

(** The memory of the requests [X], of which those of [l] are on the tree. *)
Definition request_pool (rt : Z) (X : gset nat) (l : list nat) : mprop :=
  request_tree rt l ∗ [∗ set] i ∈ X ∖ list_to_set l, rb_cleared (adr i).

Lemma seq_op_ok X o l r l' :
  (∀ i, i ∈ X → er_write (rq_of q i) = d) →
  tree_ok (rq_of q) d l → seq_op X o l = Some (r, l') → tree_ok (rq_of q) d l'.
Proof.
  intros HX Hl. destruct o as [i|i|s|i|i]; cbn; intros E; simplify_option_eq; try done.
  - destruct_and!. pose proof (rb_add_spec q i d l Hl ltac:(auto)) as Hadd.
    destruct (Deadline.elv_rb_add q i l) as [a|k]; simplify_eq; [done|].
    by destruct Hadd as (_ & ? & _).
  - by apply tree_without.
Qed.

Lemma wp_rb_exec {A} rt X o l r l' (k : Z → prog A) Φ :
  (∀ i, i ∈ X → er_write (rq_of q i) = d) →
  tree_ok (rq_of q) d l → seq_op X o l = Some (r, l') →
  request_pool rt X l -∗ (request_pool rt X l' -∗ wp (k r) Φ) -∗ wp (rb_exec rt o ≫= k) Φ.
Proof.
  iIntros (HX Hl E) "[Ht Hp] Hk".
  destruct o as [i|i|s|i|i]; cbn in E |- *; simplify_option_eq; destruct_and?.
  - pose proof (rb_add_spec q i d l Hl ltac:(auto)) as Hadd.
    iDestruct (big_sepS_delete _ _ i with "Hp") as "[Hi Hp]"; [set_solver|].
    iApply (wp_add_request with "Ht Hi"); [done|apply cleared_free|].
    destruct (Deadline.elv_rb_add q i l) as [a|k']; simplify_eq.
    + iIntros "Ht Hi". iApply "Hk". iFrame. iApply (big_sepS_delete _ _ i); [set_solver|iFrame].
    + iIntros "Ht". iApply "Hk". iFrame. destruct Hadd as (Hk & _).
      replace (X ∖ list_to_set l') with (X ∖ list_to_set l ∖ {[i]}); [done|].
      apply set_eq. intros j. set_unfold. setoid_rewrite Hk. set_solver.
  - iApply wp_assoc. iApply (wp_del_request with "Ht"); [done|done|]. iIntros "Ht Hi". wp_steps.
    iApply "Hk". iFrame.
    replace (X ∖ list_to_set (without i l)) with ({[i]} ∪ X ∖ list_to_set l).
    + iApply (big_sepS_union_2 with "[Hi] Hp"). by iApply big_sepS_singleton.
    + apply set_eq. intros j. set_unfold. setoid_rewrite elem_of_without.
      destruct (decide (j = i)); naive_solver.
  - iApply (wp_find_request with "Ht"); [done|]. iIntros "Ht". iApply "Hk". iFrame.
  - iApply (wp_former_request with "Ht"); [done|done|]. iIntros "Ht". iApply "Hk". iFrame.
  - iApply (wp_latter_request with "Ht"); [done|done|]. iIntros "Ht". iApply "Hk". iFrame.
Qed.

Lemma wp_rb_run {A} rt X os l rs l' (k : list Z → prog A) Φ :
  (∀ i, i ∈ X → er_write (rq_of q i) = d) →
  tree_ok (rq_of q) d l → seq_run X os l = Some (rs, l') →
  request_pool rt X l -∗ (request_pool rt X l' -∗ wp (k rs) Φ) -∗ wp (rb_run rt os ≫= k) Φ.
Proof.
  intros HX. revert l rs k. induction os as [|o os IH]; intros l rs k Hl E; cbn in E.
  - simplify_eq. iIntros "Hp Hk". cbn. wp_steps. by iApply "Hk".
  - apply bind_Some in E as ([r l1] & E1 & ([rs1 l2] & E2 & ?)%bind_Some). simplify_eq.
    iIntros "Hp Hk". cbn [rb_run]. iApply wp_assoc.
    iApply (wp_rb_exec with "Hp"); [done|done|exact E1|].
    iIntros "Hp". iApply wp_assoc. iApply (IH with "Hp"); [by eapply seq_op_ok|exact E2|].
    iIntros "Hp". wp_steps. by iApply "Hk".
Qed.
End refinement.

(** The loop of [elv_rb_find] turns at most [2 log2 (n + 1) + 1] times on a
    red-black tree of [n] requests sorted by position, and finds the request
    of the sector if the tree has one. *)
Theorem find_iterations pos rt t sector :
  rb_ok t → by_pos pos (elements t) →
  hoare (rb_whole rt t)
    (n ← rb_root rt; rb_find_loop (S (2 * Nat.log2 (S (length (elements t))))) pos sector n)
    (λ r, ⌜r = ptr_of (at_pos pos sector (elements t))⌝ ∗ rb_whole rt t)%I.
Proof.
  intros Hok Hs. apply wp_hoare. iIntros "[Hrt Ht]". iApply wp_last. unfold rb_root. wp_steps.
  iApply (wp_find_loop with "Ht"); [|done|]. { pose proof (rb_ok_height t Hok). lia. }
  iIntros "Ht". iApply wp_ret. by iFrame.
Qed.

Lemma find_iterations_witness :
  ∃ m', (n ← rb_root 8; rb_find_loop 5 Z.opp (-1024) n)
          (list_to_map (layout 8 (T Black (T Red E 1088 E) 1056 (T Red E 1024 E)) [])) = Some (1024, m').
Proof.
  destruct (hoare_at _ _ _
    (list_to_map (layout 8 (T Black (T Red E 1088 E) 1056 (T Red E 1024 E)) []))
    (find_iterations Z.opp 8 (T Black (T Red E 1088 E) 1056 (T Red E 1024 E)) (-1024)
       ltac:(exists 1%nat; eauto with rb) ltac:(repeat constructor))) as (r & m' & E & H).
  - apply layout_whole; [apply (bool_decide_unpack _); by vm_compute|by repeat constructor].
  - apply holds_pure_sep in H as [-> _]. by exists m'.
Defined.

(** C17: Any history of additions, removals, lookups and questions for the
    neighbours of requests, run by [elv_rb_add], [elv_rb_del], [elv_rb_find],
    [elv_rb_former_request] and [elv_rb_latter_request] on a tree in memory,
    returns the answers that the sorted sequence of [Deadline] gives, and ends
    with a red-black tree that holds that sequence. *)
Theorem trees_refine_sequences {D} (q : rqueue D) d adr pos rt X os l rs l' :
  (∀ i, pos (adr i) = er_pos (rq_of q i)) → (∀ i, i ∈ X → er_write (rq_of q i) = d) →
  tree_ok (rq_of q) d l → seq_run q adr X os l = Some (rs, l') →
  hoare (request_pool adr rt X l) (rb_run adr pos rt os)
    (λ r, ⌜r = rs⌝ ∗ request_pool adr rt X l')%I.
Proof.
  intros Hpos HX Hl Hrun. apply wp_hoare. iIntros "Hp". iApply wp_last.
  iApply (wp_rb_run q d adr pos Hpos with "Hp"); [done|done|exact Hrun|].
  iIntros "Hp". iApply wp_ret. by iFrame.
Qed.

(** Two reads at one position, one at a lower one. *)
Definition tree_queue : rqueue unit :=
  mk_rqueue {[ 0%nat := demo_read 40; 1%nat := demo_read 20; 2%nat := demo_read 40 ]}
    [] 0 0 None None ∅ false idle_ord false false tt.
Definition tree_adr (i : nat) : Z := 1024 + 32 * Z.of_nat i.
Definition tree_pos (a : Z) : Z := er_pos (rq_of tree_queue (Z.to_nat ((a - 1024) / 32))).
Definition tree_history : list rb_op :=
  [RbAdd 0; RbAdd 1; RbAdd 2; RbLatter 1; RbDel 0; RbAdd 2; RbFind 40; RbFormer 2].

Lemma trees_refine_sequences_witness :
  ∃ m', rb_run tree_adr tree_pos 8 tree_history (list_to_map (layout 8 E [1024; 1056; 1088]))
          = Some ([0; 0; 1024; 1024; 0; 0; 1088; 1056], m') ∧
    holds (request_pool tree_adr 8 (list_to_set [0; 1; 2])%nat [1; 2]%nat) m'.
Proof.
  destruct (hoare_at _ _ _ (list_to_map (layout 8 E [1024; 1056; 1088]))
    (trees_refine_sequences tree_queue false tree_adr tree_pos 8 (list_to_set [0; 1; 2])%nat
       tree_history [] [0; 0; 1024; 1024; 0; 0; 1088; 1056] [1; 2]%nat
       ltac:(intros i; unfold tree_pos, tree_adr; do 3 f_equal; dlia)
       ltac:(intros i Hi; set_unfold in Hi; destruct_or!; by subst) ltac:(by split; constructor)
       ltac:(by vm_compute))) as (r & m' & E & H).
  - eapply holds_entails, (layout_holds 8 E [1024; 1056; 1088]);
      [|apply (bool_decide_unpack _); by vm_compute|done].
    iIntros "(Ht & H)". iSplitL "Ht".
    + iExists E. iFrame. iPureIntro. split; [|done]. exists 0%nat. constructor.
    + rw difference_empty_L big_sepS_list_to_set; [|apply (bool_decide_unpack _); by vm_compute].
      iDestruct "H" as "(H1 & H2 & H3 & _)".
      iSplitL "H1"; [|iSplitL "H2"; [|iSplitL; [|done]]]; by iApply cells_cleared.
  - apply holds_pure_sep in H as [-> H]. by exists m'.
Defined.
