(* ===== verification/ListHead.v ===== *)
(** * Linked lists (include/linux/list.h)

    The circular doubly linked lists of the kernel, and the chains of its hash
    tables, on a memory of words.  The queues of the block layer are such lists;
    the other files model them by sequences.  The theorems here say that the
    operations on memory do to the sequence what those files take them to do. *)
From S2P Require Import Prelude HeapLogic.
#[local] Open Scope Z_scope.

(** ** struct list_head *)

Definition l_next (x : Z) : prog Z := load x.
Definition l_prev (x : Z) : prog Z := load (x + 8).
Definition set_next (x v : Z) : prog unit := store x v.
Definition set_prev (x v : Z) : prog unit := store (x + 8) v.

Definition LIST_POISON1 : Z := 0xdead000000000000 + 0x00100100.
Definition LIST_POISON2 : Z := 0xdead000000000000 + 0x00200200.

Definition INIT_LIST_HEAD (list : Z) : prog unit :=
  set_next list list;;
  set_prev list list.

Definition __list_add (new prev next : Z) : prog unit :=
  set_prev next new;;
  set_next new next;;
  set_prev new prev;;
  set_next prev new.

Definition list_add (new head : Z) : prog unit :=
  n ← l_next head; __list_add new head n.

Definition list_add_tail (new head : Z) : prog unit :=
  p ← l_prev head; __list_add new p head.

Definition __list_del (prev next : Z) : prog unit :=
  set_prev next prev;;
  set_next prev next.

Definition list_del (entry : Z) : prog unit :=
  p ← l_prev entry;
  n ← l_next entry;
  __list_del p n;;
  set_next entry LIST_POISON1;;
  set_prev entry LIST_POISON2.

Definition list_replace (old new : Z) : prog unit :=
  n ← l_next old;
  set_next new n;;
  n ← l_next new;
  set_prev n new;;
  p ← l_prev old;
  set_prev new p;;
  p ← l_prev new;
  set_next p new.

Definition list_replace_init (old new : Z) : prog unit :=
  list_replace old new;;
  INIT_LIST_HEAD old.

Definition list_del_init (entry : Z) : prog unit :=
  p ← l_prev entry;
  n ← l_next entry;
  __list_del p n;;
  INIT_LIST_HEAD entry.

Definition list_move (list head : Z) : prog unit :=
  p ← l_prev list;
  n ← l_next list;
  __list_del p n;;
  list_add list head.

Definition list_move_tail (list head : Z) : prog unit :=
  p ← l_prev list;
  n ← l_next list;
  __list_del p n;;
  list_add_tail list head.

Definition list_is_last (list head : Z) : prog bool :=
  n ← l_next list; mret (n =? head).

Definition list_empty (head : Z) : prog bool :=
  n ← l_next head; mret (n =? head).

Definition list_empty_careful (head : Z) : prog bool :=
  next ← l_next head;
  if next =? head then p ← l_prev head; mret (next =? p) else mret false.

Definition list_rotate_left (head : Z) : prog unit :=
  e ← list_empty head;
  if (e : bool) then mret tt else
  first ← l_next head;
  list_move_tail first head.

Definition list_is_singular (head : Z) : prog bool :=
  e ← list_empty head;
  if (e : bool) then mret false else
  n ← l_next head;
  p ← l_prev head;
  mret (n =? p).

Definition __list_cut_position (list head entry : Z) : prog unit :=
  new_first ← l_next entry;
  n ← l_next head;
  set_next list n;;
  n ← l_next list;
  set_prev n list;;
  set_prev list entry;;
  set_next entry list;;
  set_next head new_first;;
  set_prev new_first head.

Definition list_cut_position (list head entry : Z) : prog unit :=
  e ← list_empty head;
  if (e : bool) then mret tt else
  s ← list_is_singular head;
  n ← l_next head;
  if s && (negb (n =? entry) && negb (head =? entry)) then mret tt else
  if entry =? head then INIT_LIST_HEAD list
  else __list_cut_position list head entry.

Definition __list_splice (list prev next : Z) : prog unit :=
  first ← l_next list;
  last ← l_prev list;
  set_prev first prev;;
  set_next prev first;;
  set_next last next;;
  set_prev next last.

Definition list_splice (list head : Z) : prog unit :=
  e ← list_empty list;
  if (e : bool) then mret tt else
  n ← l_next head; __list_splice list head n.

Definition list_splice_tail (list head : Z) : prog unit :=
  e ← list_empty list;
  if (e : bool) then mret tt else
  p ← l_prev head; __list_splice list p head.

Definition list_splice_init (list head : Z) : prog unit :=
  e ← list_empty list;
  if (e : bool) then mret tt else
  n ← l_next head;
  __list_splice list head n;;
  INIT_LIST_HEAD list.

Definition list_splice_tail_init (list head : Z) : prog unit :=
  e ← list_empty list;
  if (e : bool) then mret tt else
  p ← l_prev head;
  __list_splice list p head;;
  INIT_LIST_HEAD list.

(** ** Lists in memory *)

(** A pointer forward and the pointer back. *)
Definition edge (a b : Z) : mprop := a ↦ b ∗ (b + 8) ↦ a.

(** The way from [a] over [xs] to [b]. *)
Fixpoint links (a : Z) (xs : list Z) (b : Z) : mprop :=
  match xs with [] => edge a b | x :: xs => edge a x ∗ links x xs b end.

(** The list with the head [h], and an entry on no list. *)
Definition list_at (h : Z) (xs : list Z) : mprop := links h xs h.
Definition entry_free (x : Z) : mprop := ∃ n p, x ↦ n ∗ (x + 8) ↦ p.

Lemma links_app a xs x ys b : links a (xs ++ x :: ys) b ⊣⊢ links a xs x ∗ links x ys b.
Proof.
  revert a. induction xs as [|y xs IH]; intros a; cbn; [done|]. by rw IH assoc.
Qed.

(** The first and the last pointer of a way. *)
Definition first_of (xs : list Z) (b : Z) : Z := default b (head xs).
Definition last_of (a : Z) (xs : list Z) : Z := default a (last xs).

Definition after_first (xs : list Z) (b : Z) : mprop :=
  match xs with [] => emp | x :: xs => links x xs b end.
Definition before_last (a : Z) (xs : list Z) : mprop :=
  match reverse xs with [] => emp | x :: ys => links a (reverse ys) x end.

Lemma links_first a xs b : links a xs b ⊣⊢ edge a (first_of xs b) ∗ after_first xs b.
Proof. destruct xs; cbn; [by rw right_id|done]. Qed.

Lemma links_last a xs b : links a xs b ⊣⊢ before_last a xs ∗ edge (last_of a xs) b.
Proof.
  unfold before_last, last_of. destruct xs as [|x xs _] using rev_ind; cbn; [by rw left_id|].
  rw reverse_snoc reverse_involutive last_snoc links_app. done.
Qed.

(** A way, opened between two of its entries. *)
Lemma links_cut a xs ys b :
  links a (xs ++ ys) b ⊣⊢
  before_last a xs ∗ edge (last_of a xs) (first_of ys b) ∗ after_first ys b.
Proof.
  destruct ys as [|y ys]; cbn.
  - by rw right_id_L links_last right_id.
  - by rw links_app links_last -assoc.
Qed.

Lemma links_at a xs x ys b :
  links a (xs ++ x :: ys) b ⊣⊢
  before_last a xs ∗ edge (last_of a xs) x ∗ edge x (first_of ys b) ∗ after_first ys b.
Proof. by rw links_app links_last links_first -assoc. Qed.

Lemma links_front a xs ys b : links a xs (first_of ys b) ∗ after_first ys b ⊣⊢ links a (xs ++ ys) b.
Proof. destruct ys; cbn; [by rw right_id right_id_L|by rw links_app]. Qed.

Lemma links_back a xs ys b : before_last a xs ∗ links (last_of a xs) ys b ⊣⊢ links a (xs ++ ys) b.
Proof. destruct ys as [|y ys]; [by rw right_id_L (links_last a xs)|].
by rw links_app (links_last a xs) /= -assoc. Qed.

(** Every entry of a list can be taken for its head. *)
Lemma list_turn h xs x ys : list_at h (xs ++ x :: ys) ⊣⊢ list_at x (ys ++ h :: xs).
Proof. unfold list_at. rw !links_app. iSplit; iIntros "[$ $]". Qed.

Lemma entry_ne a x xs b : edge a x -∗ links x xs b -∗ ⌜x ≠ b⌝.
Proof.
  rw links_last. iIntros "[_ H1] [_ [_ H2]]". iDestruct (pointsto_ne with "[$H1 $H2]") as %H.
  iPureIntro. by intros ->.
Qed.

Lemma head_not_entry h xs x ys : list_at h (xs ++ x :: ys) ⊢ ⌜x ≠ h⌝.
Proof.
  unfold list_at. rw links_app links_last. iIntros "[[_ H1] H2]". iApply (entry_ne with "H1 H2").
Qed.

Lemma edge_free x p n : x ↦ n -∗ (x + 8) ↦ p -∗ entry_free x.
Proof. iIntros. iExists n, p. iFrame. Qed.

(** ** The operations *)

Section operations.
Context {A : Type} (Φ : A → mprop).

Lemma wp_init_head h (k : unit → prog A) :
  entry_free h -∗ (list_at h [] -∗ wp (k tt) Φ) -∗ wp (INIT_LIST_HEAD h ≫= k) Φ.
Proof.
  iIntros "(%n & %p & Hn & Hp) Hk". unfold INIT_LIST_HEAD, set_next, set_prev. wp_steps.
  iApply "Hk". iFrame.
Qed.

Lemma wp_link new p n (k : unit → prog A) :
  edge p n -∗ entry_free new -∗ (edge p new -∗ edge new n -∗ wp (k tt) Φ) -∗
  wp (__list_add new p n ≫= k) Φ.
Proof.
  iIntros "[H1 H2] (% & % & H3 & H4) Hk". unfold __list_add, set_next, set_prev. wp_steps.
  iApply ("Hk" with "[$H1 $H4] [$H3 $H2]").
Qed.

Lemma wp_list_add new h xs (k : unit → prog A) :
  list_at h xs -∗ entry_free new -∗ (list_at h (new :: xs) -∗ wp (k tt) Φ) -∗
  wp (list_add new h ≫= k) Φ.
Proof.
  iIntros "Hl Hn Hk". iDestruct (links_first with "Hl") as "[[H1 H2] H]". unfold list_add, l_next.
  wp_steps.
  iApply (wp_link with "[$H1 $H2] Hn"). iIntros "H1 H2". iApply "Hk". iFrame "H1".
  iApply links_first. iFrame.
Qed.

Lemma wp_list_add_tail new h xs (k : unit → prog A) :
  list_at h xs -∗ entry_free new -∗ (list_at h (xs ++ [new]) -∗ wp (k tt) Φ) -∗
  wp (list_add_tail new h ≫= k) Φ.
Proof.
  iIntros "Hl Hn Hk". iDestruct (links_last with "Hl") as "[H [H1 H2]]".
  unfold list_add_tail, l_prev. wp_steps.
  iApply (wp_link with "[$H1 $H2] Hn"). iIntros "H1 H2". iApply "Hk". iApply links_at. cbn. iFrame.
Qed.

(** A list in which only the neighbours of the entry [x] still point to it. *)
Definition list_hole (h : Z) (l1 : list Z) (x : Z) (l2 : list Z) : mprop :=
  before_last h l1 ∗ last_of h l1 ↦ x ∗ (first_of l2 h + 8) ↦ x ∗ after_first l2 h.

Lemma list_open h l1 x l2 :
  list_at h (l1 ++ x :: l2) ⊣⊢ x ↦ first_of l2 h ∗ (x + 8) ↦ last_of h l1 ∗ list_hole h l1 x l2.
Proof.
  unfold list_at, list_hole. rw links_at. unfold edge.
  iSplit; [iIntros "($ & [$ $] & [$ $] & $)"|iIntros "($ & $ & $ & $ & $ & $)"].
Qed.

Lemma wp_unlink h l1 x l2 (k : unit → prog A) :
  list_hole h l1 x l2 -∗ (list_at h (l1 ++ l2) -∗ wp (k tt) Φ) -∗
  wp (__list_del (last_of h l1) (first_of l2 h) ≫= k) Φ.
Proof.
  iIntros "(Hb & H1 & H2 & Ha) Hk". unfold __list_del, set_prev, set_next. wp_steps.
  iApply "Hk". iApply links_cut. iFrame.
Qed.

Lemma wp_list_del h l1 x l2 (k : unit → prog A) :
  list_at h (l1 ++ x :: l2) -∗
  (list_at h (l1 ++ l2) -∗ x ↦ LIST_POISON1 -∗ (x + 8) ↦ LIST_POISON2 -∗ wp (k tt) Φ) -∗
  wp (list_del x ≫= k) Φ.
Proof.
  rw list_open. iIntros "(Hn & Hp & Hl) Hk". unfold list_del, l_prev, l_next, set_next, set_prev.
  wp_steps.
  iApply (wp_unlink with "Hl"). iIntros "Hl". wp_steps. iApply ("Hk" with "Hl Hn Hp").
Qed.

Lemma wp_list_del_init h l1 x l2 (k : unit → prog A) :
  list_at h (l1 ++ x :: l2) -∗
  (list_at h (l1 ++ l2) -∗ list_at x [] -∗ wp (k tt) Φ) -∗
  wp (list_del_init x ≫= k) Φ.
Proof.
  rw list_open. iIntros "(Hn & Hp & Hl) Hk". unfold list_del_init, l_prev, l_next. wp_steps.
  iApply (wp_unlink with "Hl"). iIntros "Hl".
  iApply (wp_init_head with "[Hn Hp]"); [iApply (edge_free with "Hn Hp")|].
  iApply ("Hk" with "Hl").
Qed.

(** The entry goes to a list [h'], which may be the one it was on. *)
Lemma wp_list_move h l1 x l2 h' ys (R : mprop) (k : unit → prog A) :
  (list_at h (l1 ++ l2) -∗ list_at h' ys ∗ R) -∗
  list_at h (l1 ++ x :: l2) -∗
  (list_at h' (x :: ys) -∗ R -∗ wp (k tt) Φ) -∗
  wp (list_move x h' ≫= k) Φ.
Proof.
  rw list_open. iIntros "HR (Hn & Hp & Hl) Hk". unfold list_move, l_prev, l_next. wp_steps.
  iApply (wp_unlink with "Hl"). iIntros "Hl". iDestruct ("HR" with "Hl") as "[Hl HR]".
  iApply (wp_list_add with "Hl [Hn Hp]"); [iApply (edge_free with "Hn Hp")|].
  iIntros "Hl". iApply ("Hk" with "Hl HR").
Qed.

Lemma wp_list_move_tail h l1 x l2 h' ys (R : mprop) (k : unit → prog A) :
  (list_at h (l1 ++ l2) -∗ list_at h' ys ∗ R) -∗
  list_at h (l1 ++ x :: l2) -∗
  (list_at h' (ys ++ [x]) -∗ R -∗ wp (k tt) Φ) -∗
  wp (list_move_tail x h' ≫= k) Φ.
Proof.
  rw list_open. iIntros "HR (Hn & Hp & Hl) Hk". unfold list_move_tail, l_prev, l_next. wp_steps.
  iApply (wp_unlink with "Hl"). iIntros "Hl". iDestruct ("HR" with "Hl") as "[Hl HR]".
  iApply (wp_list_add_tail with "Hl [Hn Hp]"); [iApply (edge_free with "Hn Hp")|].
  iIntros "Hl". iApply ("Hk" with "Hl HR").
Qed.

(** *** Questions *)

Lemma reads_list_empty h xs : reads (list_at h xs) (list_empty h) (bool_decide (xs = [])).
Proof.
  unfold reads, list_empty, l_next. iIntros "Hl". destruct xs as [|x xs]; cbn.
  - iDestruct "Hl" as "[H1 H2]". wp_steps. rw Z.eqb_refl. by iFrame.
  - iDestruct "Hl" as "[He Hl]". iDestruct (entry_ne with "He Hl") as %Hne%Z.eqb_neq.
    iDestruct "He" as "[H1 H2]". wp_steps. rw Hne. by iFrame.
Qed.

Lemma reads_first h xs : reads (list_at h xs) (l_next h) (first_of xs h).
Proof.
  unfold reads, l_next. iIntros "Hl". iDestruct (links_first with "Hl") as "[[H1 H2] H]". wp_steps.
  iSplit; [done|]. iApply links_first. iFrame.
Qed.

Lemma reads_last h xs : reads (list_at h xs) (l_prev h) (last_of h xs).
Proof.
  unfold reads, l_prev. iIntros "Hl". iDestruct (links_last with "Hl") as "[H [H1 H2]]". wp_steps.
  iSplit; [done|]. iApply links_last. iFrame.
Qed.

Lemma last_not_first h x y xs : list_at h (x :: y :: xs) ⊢ ⌜x ≠ last_of y xs⌝.
Proof.
  unfold list_at. cbn. rw (links_last y). iIntros "(_ & [H1 _] & _ & [H2 _])".
  iApply (pointsto_ne with "[$H1 $H2]").
Qed.

Lemma last_of_cons h x xs : last_of h (x :: xs) = last_of x xs.
Proof. unfold last_of. rw last_cons. by destruct (last xs). Qed.

Lemma reads_singular h xs : reads (list_at h xs) (list_is_singular h) (bool_decide (length xs = 1%nat)).
Proof.
  unfold reads, list_is_singular. iIntros "Hl". wp_read (reads_list_empty h xs).
  destruct xs as [|x xs]; cbn; [wp_steps; by iFrame|]. wp_read (reads_first h (x :: xs)).
  wp_read (reads_last h (x :: xs)).
  wp_steps. rw last_of_cons /=. destruct xs as [|y xs]; cbn.
  - rw Z.eqb_refl. by iFrame.
  - iDestruct (last_not_first with "Hl") as %Hne. rw last_of_cons. apply Z.eqb_neq in Hne. rw Hne.
    by iFrame.
Qed.

Lemma reads_empty_careful h xs : reads (list_at h xs) (list_empty_careful h) (bool_decide (xs = [])).
Proof.
  unfold reads, list_empty_careful. iIntros "Hl". wp_read (reads_first h xs).
  destruct xs as [|x xs]; cbn.
  - rw Z.eqb_refl. wp_read (reads_last h []). wp_steps. rw Z.eqb_refl. by iFrame.
  - iAssert ⌜x ≠ h⌝%I as %Hne%Z.eqb_neq.
    { iDestruct "Hl" as "[H1 H2]". iApply (entry_ne with "H1 H2"). }
    rw Hne. wp_steps. by iFrame.
Qed.

Lemma reads_is_last h xs x ys :
  reads (list_at h (xs ++ x :: ys)) (list_is_last x h) (bool_decide (ys = [])).
Proof.
  unfold reads, list_is_last. iIntros "Hl". iDestruct (list_turn with "Hl") as "Hl".
  wp_read (reads_first x (ys ++ h :: xs)). wp_steps.
  iAssert ⌜(first_of (ys ++ h :: xs) x =? h) = bool_decide (ys = [])⌝%I as %->.
  - destruct ys as [|y ys]; cbn; [by rw Z.eqb_refl|]. iDestruct "Hl" as "[H1 H2]". rw links_app.
    iDestruct "H2" as "[H2 _]". iDestruct (entry_ne with "H1 H2") as %Hne. iPureIntro.
    by apply Z.eqb_neq.
  - iSplit; [done|]. by iApply list_turn.
Qed.

(** *** Whole lists *)

Lemma wp_list_rotate h xs (k : unit → prog A) :
  list_at h xs -∗ (list_at h (match xs with [] => [] | x :: xs => xs ++ [x] end) -∗ wp (k tt) Φ) -∗
  wp (list_rotate_left h ≫= k) Φ.
Proof.
  iIntros "Hl Hk". unfold list_rotate_left. wp_steps. wp_read (reads_list_empty h xs).
  destruct xs as [|x xs]; cbn; [wp_steps; by iApply "Hk"|]. wp_steps.
  wp_read (reads_first h (x :: xs)).
  iApply (wp_list_move_tail h [] x xs h xs emp with "[] Hl"); [by iIntros "$"|].
  iIntros "Hl _". by iApply "Hk".
Qed.

Lemma wp_list_replace h l1 old l2 new (k : unit → prog A) :
  list_at h (l1 ++ old :: l2) -∗ entry_free new -∗
  (list_at h (l1 ++ new :: l2) -∗ entry_free old -∗ wp (k tt) Φ) -∗
  wp (list_replace old new ≫= k) Φ.
Proof.
  rw !list_open. iIntros "(Hn & Hp & Hb & H1 & H2 & Ha) (% & % & H3 & H4) Hk".
  unfold list_replace, l_next, l_prev, set_next, set_prev. wp_steps.
  iApply ("Hk" with "[-Hn Hp]"); [iFrame|iApply (edge_free with "Hn Hp")].
Qed.

(** The entries of one list go to a new head; a list without entries gives one. *)
Lemma wp_list_replace_head old new xs (k : unit → prog A) :
  list_at old xs -∗ entry_free new -∗
  (list_at new xs -∗ entry_free old -∗ wp (k tt) Φ) -∗
  wp (list_replace old new ≫= k) Φ.
Proof.
  iIntros "Hl Hn Hk". destruct xs as [|x xs].
  - iDestruct "Hl" as "[H1 H2]". iDestruct "Hn" as (n p) "[H3 H4]".
    unfold list_replace, l_next, l_prev, set_next, set_prev. wp_steps.
    iApply ("Hk" with "[$H3 $H4]"). iApply (edge_free with "H1 H2").
  - iDestruct (list_turn old [] x xs with "Hl") as "Hl".
    iApply (wp_list_replace x xs old [] new with "Hl Hn"). iIntros "Hl Ho".
    iApply ("Hk" with "[Hl] Ho"). by iApply (list_turn new [] x xs).
Qed.

Lemma wp_list_replace_init old new xs (k : unit → prog A) :
  list_at old xs -∗ entry_free new -∗
  (list_at new xs -∗ list_at old [] -∗ wp (k tt) Φ) -∗
  wp (list_replace_init old new ≫= k) Φ.
Proof.
  iIntros "Hl Hn Hk". unfold list_replace_init. wp_steps.
  iApply (wp_list_replace_head with "Hl Hn").
  iIntros "Hl Ho". iApply (wp_init_head with "Ho"). iApply ("Hk" with "Hl").
Qed.

Lemma wp_splice list xs p n (k : unit → prog A) :
  xs ≠ [] → list_at list xs -∗ edge p n -∗
  (links p xs n -∗ entry_free list -∗ wp (k tt) Φ) -∗
  wp (__list_splice list p n ≫= k) Φ.
Proof.
  iIntros (Hxs) "Hl [H1 H2] Hk". destruct xs as [|x xs]; [done|]. iDestruct "Hl" as "[[H3 H4] Hl]".
  iDestruct (links_last with "Hl") as "[Hl [H5 H6]]".
  unfold __list_splice, l_next, l_prev, set_next, set_prev. wp_steps.
  iApply ("Hk" with "[-H3 H6]"); [|iApply (edge_free with "H3 H6")]. cbn. iFrame. iApply links_last.
  iFrame.
Qed.

Lemma wp_splice_front list xs h ys (k : unit → prog A) :
  xs ≠ [] → list_at list xs -∗ list_at h ys -∗
  (list_at h (xs ++ ys) -∗ entry_free list -∗ wp (k tt) Φ) -∗
  wp (__list_splice list h (first_of ys h) ≫= k) Φ.
Proof.
  iIntros (Hxs) "Hl Hh Hk". iDestruct (links_first with "Hh") as "[He Ha]".
  iApply (wp_splice with "Hl He"); [done|]. iIntros "Hl". iApply "Hk". iApply links_front. iFrame.
Qed.

Lemma wp_splice_back list xs h ys (k : unit → prog A) :
  xs ≠ [] → list_at list xs -∗ list_at h ys -∗
  (list_at h (ys ++ xs) -∗ entry_free list -∗ wp (k tt) Φ) -∗
  wp (__list_splice list (last_of h ys) h ≫= k) Φ.
Proof.
  iIntros (Hxs) "Hl Hh Hk". iDestruct (links_last with "Hh") as "[Hb He]".
  iApply (wp_splice with "Hl He"); [done|]. iIntros "Hl". iApply "Hk". iApply links_back. iFrame.
Qed.

Lemma wp_list_splice list xs h ys (k : unit → prog A) :
  list_at list xs -∗ list_at h ys -∗
  (list_at h (xs ++ ys) -∗ entry_free list -∗ wp (k tt) Φ) -∗ wp (list_splice list h ≫= k) Φ.
Proof.
  iIntros "Hl Hh Hk". unfold list_splice. wp_steps. wp_read (reads_list_empty list xs).
  case_bool_decide as Hx.
  - subst xs. wp_steps. iApply ("Hk" with "Hh"). iDestruct "Hl" as "[H1 H2]".
    iApply (edge_free with "H1 H2").
  - wp_steps. wp_read (reads_first h ys). by iApply (wp_splice_front with "Hl Hh").
Qed.

Lemma wp_list_splice_tail list xs h ys (k : unit → prog A) :
  list_at list xs -∗ list_at h ys -∗
  (list_at h (ys ++ xs) -∗ entry_free list -∗ wp (k tt) Φ) -∗ wp (list_splice_tail list h ≫= k) Φ.
Proof.
  iIntros "Hl Hh Hk". unfold list_splice_tail. wp_steps. wp_read (reads_list_empty list xs).
  case_bool_decide as Hx.
  - subst xs. rw right_id_L. wp_steps. iApply ("Hk" with "Hh"). iDestruct "Hl" as "[H1 H2]".
    iApply (edge_free with "H1 H2").
  - wp_steps. wp_read (reads_last h ys). by iApply (wp_splice_back with "Hl Hh").
Qed.

Lemma wp_list_splice_init list xs h ys (k : unit → prog A) :
  list_at list xs -∗ list_at h ys -∗
  (list_at h (xs ++ ys) -∗ list_at list [] -∗ wp (k tt) Φ) -∗ wp (list_splice_init list h ≫= k) Φ.
Proof.
  iIntros "Hl Hh Hk". unfold list_splice_init. wp_steps. wp_read (reads_list_empty list xs).
  case_bool_decide as Hx.
  - subst xs. wp_steps. iApply ("Hk" with "Hh Hl").
  - wp_steps. wp_read (reads_first h ys). wp_steps. iApply (wp_splice_front with "Hl Hh"); [done|].
    iIntros "Hh Hl".
    iApply (wp_init_head with "Hl"). iApply ("Hk" with "Hh").
Qed.

Lemma wp_list_splice_tail_init list xs h ys (k : unit → prog A) :
  list_at list xs -∗ list_at h ys -∗
  (list_at h (ys ++ xs) -∗ list_at list [] -∗ wp (k tt) Φ) -∗ wp (list_splice_tail_init list h ≫= k) Φ.
Proof.
  iIntros "Hl Hh Hk". unfold list_splice_tail_init. wp_steps. wp_read (reads_list_empty list xs).
  case_bool_decide as Hx.
  - subst xs. rw right_id_L. wp_steps. iApply ("Hk" with "Hh Hl").
  - wp_steps. wp_read (reads_last h ys). wp_steps. iApply (wp_splice_back with "Hl Hh"); [done|].
    iIntros "Hh Hl".
    iApply (wp_init_head with "Hl"). iApply ("Hk" with "Hh").
Qed.

(** The entries up to [entry] go to the head [list]. *)
Lemma wp_cut_position list h l1 entry l2 (k : unit → prog A) :
  list_at h (l1 ++ entry :: l2) -∗ entry_free list -∗
  (list_at list (l1 ++ [entry]) -∗ list_at h l2 -∗ wp (k tt) Φ) -∗
  wp (__list_cut_position list h entry ≫= k) Φ.
Proof.
  iIntros "Hl Hn Hk". iDestruct (links_app with "Hl") as "[H1 H2]". rw !links_first.
  iDestruct "H1" as "[[H1 H3] Ha]". iDestruct "H2" as "[[H4 H5] Hb]".
  iDestruct "Hn" as (n p) "[H6 H7]".
  unfold __list_cut_position, l_next, set_next, set_prev. wp_steps.
  iApply ("Hk" with "[Ha H3 H4 H6 H7]"); [|iApply links_first; iFrame].
  iApply links_app. cbn. iFrame "H4 H7". iApply links_first. iFrame.
Qed.

Lemma wp_list_cut_position list h l1 entry l2 (k : unit → prog A) :
  list_at h (l1 ++ entry :: l2) -∗ entry_free list -∗
  (list_at list (l1 ++ [entry]) -∗ list_at h l2 -∗ wp (k tt) Φ) -∗
  wp (list_cut_position list h entry ≫= k) Φ.
Proof.
  iIntros "Hl Hn Hk". unfold list_cut_position. wp_steps.
  wp_read (reads_list_empty h (l1 ++ entry :: l2)). rw bool_decide_false; [|by destruct l1].
  wp_steps.
  wp_read (reads_singular h (l1 ++ entry :: l2)). wp_steps.
  wp_read (reads_first h (l1 ++ entry :: l2)).
  iDestruct (head_not_entry with "Hl") as %Hne%Z.eqb_neq. rw Hne.
  match goal with |- context [if ?b then mret () else _] => assert (b = false) as -> end.
  { destruct l1 as [|y l1]; cbn; [by rw Z.eqb_refl andb_false_r|]. rw bool_decide_false //.
    rw length_app /=. lia. }
  iApply (wp_cut_position with "Hl Hn Hk").
Qed.

(** Nothing is cut from an empty list, and [list] stays as it was; cutting at the
    head gives an empty list. *)
Lemma wp_cut_nothing list h entry (k : unit → prog A) :
  list_at h [] -∗ (list_at h [] -∗ wp (k tt) Φ) -∗ wp (list_cut_position list h entry ≫= k) Φ.
Proof.
  iIntros "Hl Hk". unfold list_cut_position. wp_steps. wp_read (reads_list_empty h []). cbn.
  wp_steps. by iApply "Hk".
Qed.

Lemma wp_cut_at_head list h xs (k : unit → prog A) :
  xs ≠ [] → list_at h xs -∗ entry_free list -∗
  (list_at h xs -∗ list_at list [] -∗ wp (k tt) Φ) -∗ wp (list_cut_position list h h ≫= k) Φ.
Proof.
  iIntros (Hxs) "Hl Hn Hk". unfold list_cut_position. wp_steps. wp_read (reads_list_empty h xs).
  rw bool_decide_false //. wp_steps. wp_read (reads_singular h xs). wp_steps.
  wp_read (reads_first h xs).
  rw Z.eqb_refl !andb_false_r. iApply (wp_init_head with "Hn"). iApply ("Hk" with "Hl").
Qed.
End operations.

(** ** Histories *)

Inductive list_op :=
| LAdd (x h : Z) | LAddTail (x h : Z)
| LDel (x h : Z) | LDelInit (x h : Z)
| LMove (x h h' : Z) | LMoveTail (x h h' : Z)
| LSplice (l h : Z) | LSpliceTail (l h : Z)
| LRotate (h : Z) | LFirst (h : Z) | LEmpty (h : Z).

Definition list_exec (o : list_op) : prog Z :=
  match o with
  | LAdd x h => list_add x h;; mret 0
  | LAddTail x h => list_add_tail x h;; mret 0
  | LDel x _ => list_del x;; mret 0
  | LDelInit x _ => list_del_init x;; mret 0
  | LMove x _ h' => list_move x h';; mret 0
  | LMoveTail x _ h' => list_move_tail x h';; mret 0
  | LSplice l h => list_splice_init l h;; mret 0
  | LSpliceTail l h => list_splice_tail_init l h;; mret 0
  | LRotate h => list_rotate_left h;; mret 0
  | LFirst h => l_next h
  | LEmpty h => e ← list_empty h; mret (Z.b2z e)
  end.

Fixpoint list_run (os : list list_op) : prog (list Z) :=
  match os with
  | [] => mret []
  | o :: os => r ← list_exec o; rs ← list_run os; mret (r :: rs)
  end.

(** The same on sequences: the entries of every head, and the entries on no
    list. *)
Fixpoint take_out (x : Z) (xs : list Z) : option (list Z) :=
  match xs with
  | [] => None
  | y :: ys => if decide (x = y) then Some ys else cons y <$> take_out x ys
  end.

Definition lists : Type := gmap Z (list Z) * gset Z.

Definition seq_list_op (o : list_op) (s : lists) : option (Z * lists) :=
  let '(L, F) := s in
  match o with
  | LAdd x h => guard (x ∈ F);; xs ← L !! h; Some (0, (<[h := x :: xs]> L, F ∖ {[x]}))
  | LAddTail x h => guard (x ∈ F);; xs ← L !! h; Some (0, (<[h := xs ++ [x]]> L, F ∖ {[x]}))
  | LDel x h | LDelInit x h =>
      xs ← L !! h; ys ← take_out x xs; Some (0, (<[h := ys]> L, {[x]} ∪ F))
  | LMove x h h' =>
      xs ← L !! h; ys ← take_out x xs;
      zs ← <[h := ys]> L !! h'; Some (0, (<[h' := x :: zs]> (<[h := ys]> L), F))
  | LMoveTail x h h' =>
      xs ← L !! h; ys ← take_out x xs;
      zs ← <[h := ys]> L !! h'; Some (0, (<[h' := zs ++ [x]]> (<[h := ys]> L), F))
  | LSplice l h =>
      guard (l ≠ h);; xs ← L !! l; ys ← L !! h; Some (0, (<[l := []]> (<[h := xs ++ ys]> L), F))
  | LSpliceTail l h =>
      guard (l ≠ h);; xs ← L !! l; ys ← L !! h; Some (0, (<[l := []]> (<[h := ys ++ xs]> L), F))
  | LRotate h =>
      xs ← L !! h; Some (0, (<[h := match xs with [] => [] | x :: xs => xs ++ [x] end]> L, F))
  | LFirst h => xs ← L !! h; Some (first_of xs h, s)
  | LEmpty h => xs ← L !! h; Some (Z.b2z (bool_decide (xs = [])), s)
  end.

Fixpoint seq_list_run (os : list list_op) (s : lists) : option (list Z * lists) :=
  match os with
  | [] => Some ([], s)
  | o :: os => '(r, s) ← seq_list_op o s; '(rs, s) ← seq_list_run os s; Some (r :: rs, s)
  end.

(** The memory that holds the lists. *)
Definition lists_at (s : lists) : mprop :=
  ([∗ map] h ↦ xs ∈ s.1, list_at h xs) ∗ [∗ set] x ∈ s.2, entry_free x.

Lemma take_out_split x xs ys :
  take_out x xs = Some ys → ∃ l1 l2, xs = l1 ++ x :: l2 ∧ ys = l1 ++ l2.
Proof.
  revert ys. induction xs as [|y xs IH]; intros ys; cbn; [done|]. case_decide as Hx.
  - intros [= <-]. subst. by exists [], xs.
  - intros (zs & E & ->)%fmap_Some. destruct (IH zs E) as (l1 & l2 & -> & ->).
    by exists (y :: l1), l2.
Qed.

Lemma lists_take (L : gmap Z (list Z)) h xs :
  L !! h = Some xs →
  ([∗ map] h ↦ xs ∈ L, list_at h xs) ⊢
    list_at h xs ∗ (∀ ys, list_at h ys -∗ [∗ map] h ↦ xs ∈ <[h := ys]> L, list_at h xs).
Proof. intros H. by apply (big_sepM_insert_acc (λ h xs, list_at h xs)). Qed.

(** The heads and the free entries, one of them out. *)
Lemma free_take x F : x ∈ F → ([∗ set] x ∈ F, entry_free x) ⊢
  entry_free x ∗ [∗ set] x ∈ F ∖ {[x]}, entry_free x.
Proof. intros Hx. by rw big_sepS_delete. Qed.

Lemma free_put x F : entry_free x -∗ ([∗ set] x ∈ F, entry_free x) -∗ [∗ set] x ∈ {[x]} ∪ F, entry_free x.
Proof. iIntros "Hx HF". iApply (big_sepS_union_2 with "[Hx] HF"). by iApply big_sepS_singleton. Qed.

Lemma list_empty_free x : list_at x [] ⊢ entry_free x.
Proof. iIntros "[H1 H2]". iApply (edge_free with "H1 H2"). Qed.

(** Two heads out. *)
Lemma lists_take_two (L : gmap Z (list Z)) l h xs ys :
  l ≠ h → L !! l = Some xs → L !! h = Some ys →
  ([∗ map] h ↦ xs ∈ L, list_at h xs) ⊢ list_at l xs ∗ list_at h ys ∗
    (∀ xs' ys', list_at l xs' -∗ list_at h ys' -∗
      [∗ map] h ↦ xs ∈ <[l := xs']> (<[h := ys']> L), list_at h xs).
Proof.
  iIntros (Hne Hl Hh) "HL".
  rw (big_sepM_delete _ L l) // (big_sepM_delete _ (delete l L) h) ?lookup_delete_ne //.
  iDestruct "HL" as "($ & $ & HL)". iIntros (xs' ys') "Hl Hh".
  iApply big_sepM_insert_delete. iFrame "Hl". rw delete_insert_ne //. iApply big_sepM_insert_delete.
  iFrame.
Qed.

Lemma wp_list_exec {A} o s r s' (k : Z → prog A) Φ :
  seq_list_op o s = Some (r, s') →
  lists_at s -∗ (lists_at s' -∗ wp (k r) Φ) -∗ wp (list_exec o ≫= k) Φ.
Proof.
  destruct s as [L F]. iIntros (E) "[HL HF] Hk".
  destruct o; cbn in E |- *; simplify_option_eq; wp_steps;
    try (match goal with H : take_out _ _ = Some _ |- _ =>
      apply take_out_split in H as (l1 & l2 & -> & ->) end);
    try (match goal with H : _ ∈ F |- _ => iDestruct (free_take _ _ H with "HF") as "[Hx HF]" end);
    lazymatch goal with
    | H1 : L !! ?l = Some _, H2 : L !! ?h = Some _, H3 : ?l ≠ ?h |- _ =>
        iDestruct (lists_take_two _ _ _ _ _ H3 H1 H2 with "HL") as "(Hl & Hh & HL)"
    | H : L !! _ = Some _ |- _ => iDestruct (lists_take _ _ _ H with "HL") as "[Hl HL]"
    end.
  - iApply (wp_list_add with "Hl Hx"). iIntros "Hl". wp_steps. iApply "Hk". iFrame "HF".
    by iApply "HL".
  - iApply (wp_list_add_tail with "Hl Hx"). iIntros "Hl". wp_steps. iApply "Hk". iFrame "HF".
    by iApply "HL".
  - iApply (wp_list_del with "Hl"). iIntros "Hl H1 H2". wp_steps. iApply "Hk".
    iSplitL "HL Hl"; [by iApply "HL"|].
    iApply (free_put with "[H1 H2] HF"). iApply (edge_free with "H1 H2").
  - iApply (wp_list_del_init with "Hl"). iIntros "Hl Hx". wp_steps. iApply "Hk".
    iSplitL "HL Hl"; [by iApply "HL"|].
    iApply (free_put with "[Hx] HF"). by iApply list_empty_free.
  - iApply (wp_list_move with "[HL] Hl").
    { iIntros "Hl". iDestruct ("HL" with "Hl") as "HL". by iApply lists_take. }
    iIntros "Hl HL". wp_steps. iApply "Hk". iFrame "HF". by iApply "HL".
  - iApply (wp_list_move_tail with "[HL] Hl").
    { iIntros "Hl". iDestruct ("HL" with "Hl") as "HL". by iApply lists_take. }
    iIntros "Hl HL". wp_steps. iApply "Hk". iFrame "HF". by iApply "HL".
  - iApply (wp_list_splice_init with "Hl Hh"). iIntros "Hh Hl". wp_steps. iApply "Hk". iFrame "HF".
    iApply ("HL" with "Hl Hh").
  - iApply (wp_list_splice_tail_init with "Hl Hh"). iIntros "Hh Hl". wp_steps. iApply "Hk".
    iFrame "HF". iApply ("HL" with "Hl Hh").
  - iApply (wp_list_rotate with "Hl"). iIntros "Hl". wp_steps. iApply "Hk". iFrame "HF".
    by iApply "HL".
  - eapply tac_wp_read; [apply reads_first|iAssumptionCore|]. iApply "Hk". iFrame "HF".
    iDestruct ("HL" with "Hl") as "HL". by rw insert_id.
  - eapply tac_wp_read; [apply reads_list_empty|iAssumptionCore|]. wp_steps. iApply "Hk".
    iFrame "HF".
    iDestruct ("HL" with "Hl") as "HL". by rw insert_id.
Qed.

Lemma wp_list_run {A} os s rs s' (k : list Z → prog A) Φ :
  seq_list_run os s = Some (rs, s') →
  lists_at s -∗ (lists_at s' -∗ wp (k rs) Φ) -∗ wp (list_run os ≫= k) Φ.
Proof.
  revert s rs k. induction os as [|o os IH]; intros s rs k E; cbn in E.
  - simplify_eq. iIntros "Hs Hk". cbn. wp_steps. by iApply "Hk".
  - apply bind_Some in E as ([r s1] & E1 & ([rs1 s2] & E2 & ?)%bind_Some). simplify_eq.
    iIntros "Hs Hk". cbn [list_run]. iApply wp_assoc. iApply (wp_list_exec with "Hs"); [exact E1|].
    iIntros "Hs". iApply wp_assoc. iApply (IH with "Hs"); [exact E2|].
    iIntros "Hs". wp_steps. by iApply "Hk".
Qed.

(** C20: Any history of additions, removals, moves, splices and rotations of
    list entries, run by the functions of list.h on memory, answers what the
    sequences answer and ends with the lists that hold the sequences; every
    entry is on the list it should be on, or on none. *)
Theorem lists_refine_sequences os s rs s' :
  seq_list_run os s = Some (rs, s') →
  hoare (lists_at s) (list_run os) (λ r, ⌜r = rs⌝ ∗ lists_at s')%I.
Proof.
  intros E. apply wp_hoare. iIntros "Hs". iApply wp_last.
  iApply (wp_list_run with "Hs"); [exact E|].
  iIntros "Hs". iApply wp_ret. by iFrame.
Qed.

(** Two heads and three entries. *)
Definition list_history : list list_op :=
  [LAddTail 64 16; LAddTail 80 16; LAdd 96 16; LMove 80 16 32; LRotate 16; LFirst 16;
    LSpliceTail 16 32; LEmpty 16; LDel 96 32].
Definition list_cells : list (Z * Z) :=
  [(16, 16); (24, 16); (32, 32); (40, 32); (64, 0); (72, 0); (80, 0); (88, 0); (96, 0); (104, 0)].

Lemma lists_refine_sequences_witness :
  ∃ m', list_run list_history (list_to_map list_cells) = Some ([0; 0; 0; 0; 0; 64; 0; 1; 0], m') ∧
    holds (list_at 16 [] ∗ list_at 32 [80; 64]) m'.
Proof.
  destruct (hoare_at _ _ _ (list_to_map list_cells)
    (lists_refine_sequences list_history ({[16 := []; 32 := []]}, {[64; 80; 96]})
       [0; 0; 0; 0; 0; 64; 0; 1; 0] ({[16 := []; 32 := [80; 64]]}, {[96]})
       ltac:(apply (bool_decide_unpack _); by vm_compute))) as (r & m' & E & H).
  - eapply holds_entails, (holds_cells list_cells); [|apply (bool_decide_unpack _); by vm_compute].
    iIntros "(H1 & H2 & H3 & H4 & H5 & H6 & H7 & H8 & H9 & H10 & _)". iSplitL "H1 H2 H3 H4".
    + rw big_sepM_insert // big_sepM_singleton. iFrame.
    + rw big_sepS_union; [|set_solver]. rw big_sepS_union; [|set_solver]. rw !big_sepS_singleton.
      iFrame.
  - apply holds_pure_sep in H as [-> H]. exists m'. split; [done|]. eapply holds_entails, H.
    iIntros "[H _]". rw big_sepM_insert // big_sepM_singleton. iFrame.
Defined.
