(* ===== verification/HashList.v ===== *)
(** * The merge hash in memory (include/linux/list.h, block/elevator.c)

    The chains of the kernel's hash tables, and the functions of the elevator
    that keep the requests a bio can be appended to on such a table.  The theorem
    says that the table in memory implements the map of buckets that [Elevator]
    works with. *)
From S2P Require Import Prelude HeapLogic ListHead Elevator.
#[local] Open Scope Z_scope.

(** ** struct hlist_node *)

(** [first] of a head and [next] of a node are at offset 0, [pprev] behind it. *)
Definition h_first (h : Z) : prog Z := load h.
Definition h_next (n : Z) : prog Z := load n.
Definition h_pprev (n : Z) : prog Z := load (n + 8).
Definition set_first (h v : Z) : prog unit := store h v.
Definition set_hnext (n v : Z) : prog unit := store n v.
Definition set_pprev (n v : Z) : prog unit := store (n + 8) v.

Definition INIT_HLIST_HEAD (h : Z) : prog unit := set_first h 0.
Definition INIT_HLIST_NODE (h : Z) : prog unit :=
  set_hnext h 0;;
  set_pprev h 0.

Definition hlist_unhashed (h : Z) : prog bool :=
  p ← h_pprev h; mret (negb (truthy p)).
Definition hlist_empty (h : Z) : prog bool :=
  f ← h_first h; mret (negb (truthy f)).

Definition __hlist_del (n : Z) : prog unit :=
  next ← h_next n;
  pprev ← h_pprev n;
  store pprev next;;
  when (truthy next) (set_pprev next pprev).

Definition hlist_del (n : Z) : prog unit :=
  __hlist_del n;;
  set_hnext n LIST_POISON1;;
  set_pprev n LIST_POISON2.

Definition hlist_del_init (n : Z) : prog unit :=
  u ← hlist_unhashed n;
  if (u : bool) then mret tt else
  __hlist_del n;;
  INIT_HLIST_NODE n.

Definition hlist_add_head (n h : Z) : prog unit :=
  first ← h_first h;
  set_hnext n first;;
  when (truthy first) (set_pprev first n);;
  set_first h n;;
  set_pprev n h.

Definition hlist_add_before (n next : Z) : prog unit :=
  p ← h_pprev next;
  set_pprev n p;;
  set_hnext n next;;
  set_pprev next n;;
  p ← h_pprev n;
  store p n.

Definition hlist_add_after (n next : Z) : prog unit :=
  nn ← h_next n;
  set_hnext next nn;;
  set_hnext n next;;
  set_pprev next n;;
  nn ← h_next next;
  when (truthy nn) (set_pprev nn next).

Definition hlist_move_list (old new : Z) : prog unit :=
  f ← h_first old;
  set_first new f;;
  f ← h_first new;
  when (truthy f) (set_pprev f new);;
  set_first old 0.

(** ** The elevator's hash table *)

(** [hash] is the address of the array of heads; a request is named by the
    address of the node inside it, [key] is [rq_hash_key] and [mergeable] is
    [rq_mergeable] of it. *)
Definition ELV_ON_HASH (rq : Z) : prog bool :=
  u ← hlist_unhashed rq; mret (negb u).

Definition __elv_rqhash_del (rq : Z) : prog unit := hlist_del_init rq.

Definition elv_rqhash_del (rq : Z) : prog unit :=
  on ← ELV_ON_HASH rq;
  when on (__elv_rqhash_del rq).

Definition elv_rqhash_add (hash : Z) (key : Z → Z) (rq : Z) : prog unit :=
  on ← ELV_ON_HASH rq;
  if (on : bool) then BUG else
  hlist_add_head rq (hash + 8 * ELV_HASH_FN (key rq)).

Definition elv_rqhash_reposition (hash : Z) (key : Z → Z) (rq : Z) : prog unit :=
  __elv_rqhash_del rq;;
  elv_rqhash_add hash key rq.

(** [hlist_for_each_entry_safe(rq, entry, next, hash_list, hash)] *)
Fixpoint rqhash_loop (fuel : nat) (key : Z → Z) (mergeable : Z → bool) (offset entry : Z) : prog Z :=
  match fuel with
  | O => out_of_fuel
  | S fuel =>
      if negb (truthy entry) then mret 0 else
      next ← h_next entry;
      on ← ELV_ON_HASH entry;
      if negb on then BUG else
      if negb (mergeable entry) then
        __elv_rqhash_del entry;;
        rqhash_loop fuel key mergeable offset next
      else if key entry =? offset then mret entry
      else rqhash_loop fuel key mergeable offset next
  end.

Definition elv_rqhash_find (hash : Z) (key : Z → Z) (mergeable : Z → bool) (offset : Z) : prog Z :=
  f ← h_first (hash + 8 * ELV_HASH_FN offset);
  fuel ← mem_fuel;
  rqhash_loop fuel key mergeable offset f.

(** ** Chains in memory *)

(** The chain whose first pointer is at [a]. *)
Fixpoint chain (a : Z) (xs : list Z) : mprop :=
  ⌜a ≠ 0⌝ ∗ match xs with [] => a ↦ 0 | x :: xs => edge a x ∗ chain x xs end.

(** A node on no chain. *)
Definition unhashed (x : Z) : mprop := ⌜x ≠ 0⌝ ∗ ∃ n, x ↦ n ∗ (x + 8) ↦ 0.

(** The part of a chain in front of a pointer, and the pointer. *)
Fixpoint chain_front (a : Z) (xs : list Z) : mprop :=
  ⌜a ≠ 0⌝ ∗ match xs with [] => emp | x :: xs => edge a x ∗ chain_front x xs end.

Lemma chain_nonnull a xs : chain a xs ⊢ ⌜a ≠ 0⌝.
Proof. destruct xs; cbn; by iIntros "[$ _]". Qed.

Lemma chain_app a xs ys : chain a (xs ++ ys) ⊣⊢ chain_front a xs ∗ chain (last_of a xs) ys.
Proof.
  revert a. induction xs as [|x xs IH]; intros a.
  - cbn. iSplit; [|iIntros "[_ $]"]. iIntros "H". iDestruct (chain_nonnull with "H") as %?.
    by iFrame.
  - rw last_of_cons. cbn. rw IH. iSplit; [iIntros "($ & $ & $ & $)"|iIntros "(($ & $ & $) & $)"].
Qed.

Lemma front_snoc a xs x :
  chain_front a (xs ++ [x]) ⊣⊢ chain_front a xs ∗ edge (last_of a xs) x ∗ ⌜x ≠ 0⌝.
Proof.
  revert a. induction xs as [|y xs IH]; intros a.
  - cbn. iSplit; [iIntros "($ & $ & $ & _)"|iIntros "(($ & _) & $ & $)"]; done.
  - rw last_of_cons. cbn. rw IH. iSplit; [iIntros "($ & $ & $ & $)"|iIntros "(($ & $ & $) & $)"].
Qed.

(** What the next node of a chain points back to. *)
Definition back (xs : list Z) (a : Z) : mprop :=
  match xs with [] => emp | x :: xs => (x + 8) ↦ a ∗ chain x xs end.
Definition nth_ptr (xs : list Z) : Z := default 0 (head xs).

Lemma chain_open a xs : chain a xs ⊣⊢ ⌜a ≠ 0⌝ ∗ a ↦ nth_ptr xs ∗ back xs a.
Proof. destruct xs; cbn; [by rw right_id|]. unfold edge. by rw -assoc. Qed.

Lemma chain_node a x xs :
  chain a (x :: xs) ⊣⊢ ⌜a ≠ 0⌝ ∗ ⌜x ≠ 0⌝ ∗ a ↦ x ∗ (x + 8) ↦ a ∗ x ↦ nth_ptr xs ∗ back xs x.
Proof.
  cbn. rw chain_open. unfold edge.
  iSplit; [iIntros "($ & [$ $] & $ & $ & $)"|iIntros "($ & $ & $ & $ & $ & $)"].
Qed.

Lemma nth_truthy xs a : back xs a ⊢ ⌜truthy (nth_ptr xs) = bool_decide (xs ≠ [])⌝.
Proof.
  destruct xs as [|x xs]; [by iIntros "_"|]. cbn. rw chain_nonnull. iIntros "[_ %]". iPureIntro.
  unfold truthy. rw (proj2 (Z.eqb_neq x 0)) //.
Qed.

Section chains.
Context {A : Type} (Φ : A → mprop).

Lemma wp_set_pprev x v w (k : unit → prog A) :
  (x + 8) ↦ v -∗ ((x + 8) ↦ w -∗ wp (k tt) Φ) -∗ wp (set_pprev x w ≫= k) Φ.
Proof. iIntros "H Hk". unfold set_pprev. wp_steps. by iApply "Hk". Qed.

(** [if (next) next->pprev = pprev;] *)
Lemma wp_fix_pprev xs a b (k : unit → prog A) :
  back xs a -∗ (back xs b -∗ wp (k tt) Φ) -∗
  wp (when (truthy (nth_ptr xs)) (set_pprev (nth_ptr xs) b) ≫= k) Φ.
Proof.
  iIntros "Hb Hk". iDestruct (nth_truthy with "Hb") as %->. iApply wp_when.
  destruct xs as [|x xs]; cbn.
  - by iApply "Hk".
  - iDestruct "Hb" as "[H1 H2]". unfold set_pprev. wp_steps. iApply "Hk". iFrame.
Qed.

Lemma wp_hlist_unlink a x xs (k : unit → prog A) :
  chain a (x :: xs) -∗
  (chain a xs -∗ ⌜x ≠ 0⌝ -∗ x ↦ nth_ptr xs -∗ (x + 8) ↦ a -∗ wp (k tt) Φ) -∗
  wp (__hlist_del x ≫= k) Φ.
Proof.
  rw chain_node. iIntros "(% & % & H1 & H2 & H3 & Hb) Hk". unfold __hlist_del, h_next, h_pprev.
  wp_steps.
  iApply (wp_fix_pprev with "Hb"). iIntros "Hb". iApply ("Hk" with "[H1 Hb] [//] H3 H2").
  iApply chain_open. by iFrame.
Qed.

Lemma reads_hashed a x xs : reads (chain a (x :: xs)) (hlist_unhashed x) false.
Proof.
  unfold reads, hlist_unhashed, h_pprev. iIntros "H".
  iDestruct (chain_node with "H") as "(% & % & H1 & H2 & H3)".
  wp_steps. unfold truthy. rw (proj2 (Z.eqb_neq a 0)) //. iSplit; [done|]. iApply chain_node.
  by iFrame.
Qed.

Lemma reads_unhashed x : reads (unhashed x) (hlist_unhashed x) true.
Proof.
  unfold reads, hlist_unhashed, h_pprev. iIntros "(% & %n & H1 & H2)". wp_steps. by iFrame.
Qed.

Lemma wp_hlist_del_init a x xs (k : unit → prog A) :
  chain a (x :: xs) -∗ (chain a xs -∗ unhashed x -∗ wp (k tt) Φ) -∗
  wp (hlist_del_init x ≫= k) Φ.
Proof.
  iIntros "H Hk". unfold hlist_del_init. wp_steps. wp_read (reads_hashed a x xs). wp_steps.
  iApply (wp_hlist_unlink with "H"). iIntros "H % H1 H2".
  unfold INIT_HLIST_NODE, set_hnext, set_pprev. wp_steps.
  iApply ("Hk" with "H"). by iFrame.
Qed.

Lemma wp_hlist_add_head a x xs (k : unit → prog A) :
  chain a xs -∗ unhashed x -∗ (chain a (x :: xs) -∗ wp (k tt) Φ) -∗
  wp (hlist_add_head x a ≫= k) Φ.
Proof.
  rw chain_open chain_node. iIntros "(% & H1 & Hb) (% & %n & H2 & H3) Hk".
  unfold hlist_add_head, h_first, set_hnext, set_first. wp_steps. iApply (wp_fix_pprev with "Hb").
  iIntros "Hb".
  unfold set_pprev. wp_steps. iApply "Hk". by iFrame.
Qed.

Lemma wp_hlist_del a x xs (k : unit → prog A) :
  chain a (x :: xs) -∗ (chain a xs -∗ x ↦ LIST_POISON1 -∗ (x + 8) ↦ LIST_POISON2 -∗ wp (k tt) Φ) -∗
  wp (hlist_del x ≫= k) Φ.
Proof.
  iIntros "H Hk". unfold hlist_del. wp_steps. iApply (wp_hlist_unlink with "H").
  iIntros "H % H1 H2".
  unfold set_hnext, set_pprev. wp_steps. iApply ("Hk" with "H H1 H2").
Qed.

Lemma wp_hlist_add_before a n x xs (k : unit → prog A) :
  chain a (x :: xs) -∗ unhashed n -∗ (chain a (n :: x :: xs) -∗ wp (k tt) Φ) -∗
  wp (hlist_add_before n x ≫= k) Φ.
Proof.
  rw !chain_node /=. iIntros "(% & % & H1 & H2 & H3 & Hb) (% & %m & H4 & H5) Hk".
  unfold hlist_add_before, h_pprev, set_pprev, set_hnext. wp_steps. iApply "Hk". rw chain_open.
  by iFrame.
Qed.

Lemma wp_hlist_add_after a x n xs (k : unit → prog A) :
  chain a (x :: xs) -∗ unhashed n -∗ (chain a (x :: n :: xs) -∗ wp (k tt) Φ) -∗
  wp (hlist_add_after x n ≫= k) Φ.
Proof.
  rw !chain_node /=. iIntros "(% & % & H1 & H2 & H3 & Hb) (% & %m & H4 & H5) Hk".
  unfold hlist_add_after, h_next, set_hnext. wp_steps. iApply (wp_set_pprev with "H5").
  iIntros "H5". wp_steps.
  iApply (wp_fix_pprev with "Hb"). iIntros "Hb". iApply "Hk". rw chain_open. by iFrame.
Qed.

Lemma wp_hlist_move_list old new v xs (k : unit → prog A) :
  new ≠ 0 → chain old xs -∗ new ↦ v -∗ (chain new xs -∗ chain old [] -∗ wp (k tt) Φ) -∗
  wp (hlist_move_list old new ≫= k) Φ.
Proof.
  iIntros (Hnew) "H Hn Hk". iDestruct (chain_open with "H") as "(% & H1 & Hb)".
  unfold hlist_move_list, h_first, set_first. wp_steps. iApply (wp_fix_pprev with "Hb").
  iIntros "Hb". wp_steps.
  iApply ("Hk" with "[Hn Hb]"); [iApply chain_open; by iFrame|cbn; by iFrame].
Qed.
End chains.

(** ** The table *)

Lemma hash_range sec : 0 ≤ ELV_HASH_FN sec < 64.
Proof.
  unfold ELV_HASH_FN, hash_64. rw Z.shiftr_div_pow2 //. change (2 ^ (64 - 6)) with (2 ^ 58).
  match goal with |- context [u64 ?x / _] => pose proof (u64_range x) as Hu; revert Hu;
    generalize (u64 x) end.
  intros x Hx. unfold in_u64 in Hx. split; [apply Z.div_pos; lia|]. apply Z.div_lt_upper_bound; lia.
Qed.

Definition heads : gset Z := list_to_set (seqZ 0 64).

Lemma head_in sec : ELV_HASH_FN sec ∈ heads.
Proof. unfold heads. rw elem_of_list_to_set elem_of_seqZ. pose proof (hash_range sec). lia. Qed.

Section table.
Context {D : Type} (tab : Z) (adr : nat → Z) (X : gset nat).
Implicit Types q : rqueue D.

(** Every request is in one bucket at most, and there once. *)
Record hash_wf q : Prop := {
  wf_nodup b : NoDup (bucket q b);
  wf_one i b b' : i ∈ bucket q b → i ∈ bucket q b' → b = b';
  wf_known i b : i ∈ bucket q b → i ∈ X ∧ b ∈ heads }.

(** The array of heads with the chains of the buckets of [q], and the nodes of
    the other requests. *)
Definition table q : mprop :=
  ([∗ set] b ∈ heads, chain (tab + 8 * b) (adr <$> bucket q b)) ∗
  [∗ set] i ∈ filter (λ i, on_hash q i = false) X, unhashed (adr i).

Lemma table_bucket q b :
  b ∈ heads →
  table q ⊣⊢ chain (tab + 8 * b) (adr <$> bucket q b) ∗
    ([∗ set] b ∈ heads ∖ {[b]}, chain (tab + 8 * b) (adr <$> bucket q b)) ∗
    [∗ set] i ∈ filter (λ i, on_hash q i = false) X, unhashed (adr i).
Proof. intros Hb. unfold table. by rw (big_sepS_delete _ heads b) // -assoc. Qed.

Lemma off_hash q i : on_hash q i = false ↔ ∀ b, i ∉ bucket q b.
Proof.
  split.
  - intros H b Hi. by rw (proj2 (on_hash_bucket q i)) in H; [|exists b].
  - intros H. apply not_true_is_false. rw on_hash_bucket. intros [b Hi]. by apply (H b).
Qed.

(** Taking a request off the hash. *)
Lemma wf_del q i : hash_wf q → hash_wf (Elevator.__elv_rqhash_del i q).
Proof.
  intros [H1 H2 H3]. split; intros *; rw !bucket_del ?list_elem_of_filter.
  - by apply NoDup_filter.
  - intros [_ ?] [_ ?]. by eapply H2.
  - intros [_ ?]. by eapply H3.
Qed.

Lemma table_del q i b l1 l2 :
  hash_wf q → bucket q b = l1 ++ i :: l2 →
  chain (tab + 8 * b) (adr <$> (l1 ++ l2)) -∗
  ([∗ set] b ∈ heads ∖ {[b]}, chain (tab + 8 * b) (adr <$> bucket q b)) -∗
  ([∗ set] i ∈ filter (λ i, on_hash q i = false) X, unhashed (adr i)) -∗ unhashed (adr i) -∗
  table (Elevator.__elv_rqhash_del i q).
Proof.
  iIntros (Hwf Eb) "Hb Hh Hx Hi". assert (i ∈ bucket q b) as Hi by (rw Eb; set_solver).
  destruct (wf_known q Hwf i b Hi) as [HiX Hbh]. iApply (table_bucket _ b Hbh).
  rw bucket_del -/(without i (bucket q b)). pose proof (wf_nodup q Hwf b) as Hnd. rw Eb in Hnd |- *.
  rw without_split //.
  iFrame "Hb". iSplitL "Hh".
  - iApply (big_sepS_mono with "Hh"). iIntros (b' Hb') "H".
    rw bucket_del -/(without i (bucket q b')) without_notin //.
    intros Hi'. pose proof (wf_one q Hwf i b b' Hi Hi'). set_solver.
  - replace (filter (λ j, on_hash (Elevator.__elv_rqhash_del i q) j = false) X)
      with ({[i]} ∪ filter (λ j, on_hash q j = false) X).
    { iApply (big_sepS_union_2 with "[Hi] Hx"). by iApply big_sepS_singleton. }
    apply set_eq. intros j. rw elem_of_union elem_of_singleton !elem_of_filter !off_hash.
    setoid_rewrite bucket_del. setoid_rewrite list_elem_of_filter.
    split; [intros [->|[Hj HX]]; split; naive_solver|]. intros [Hj HX].
    destruct (decide (j = i)); naive_solver.
Qed.

Lemma table_ext q q' : (∀ b, bucket q b = bucket q' b) → table q ⊢ table q'.
Proof.
  intros E. unfold table.
  replace (filter (λ i, on_hash q' i = false) X) with (filter (λ i, on_hash q i = false) X).
  - iIntros "[H $]". iApply (big_sepS_mono with "H"). iIntros (b _) "H". by rw E.
  - apply set_eq. intros j. rw !elem_of_filter !off_hash. by setoid_rewrite E.
Qed.

Lemma wp_del_hashed {A} q i b (k : unit → prog A) Φ :
  hash_wf q → i ∈ bucket q b →
  table q -∗ (table (Elevator.__elv_rqhash_del i q) -∗ wp (k tt) Φ) -∗
  wp (__elv_rqhash_del (adr i) ≫= k) Φ.
Proof.
  iIntros (Hwf Hi) "Ht Hk". destruct (wf_known q Hwf i b Hi) as [_ Hb].
  pose proof Hi as (l1 & l2 & E)%list_elem_of_split.
  iDestruct (table_bucket q b Hb with "Ht") as "(Hc & Hh & Hx)".
  rw {1}E fmap_app chain_app. iDestruct "Hc" as "[Hf Hc]". unfold __elv_rqhash_del.
  iApply (wp_hlist_del_init with "Hc"). iIntros "Hc Hi". iApply "Hk".
  iApply (table_del with "[Hf Hc] Hh Hx Hi"); [done|exact E|]. rw fmap_app. iApply chain_app.
  iFrame.
Qed.

Lemma del_off q i b : on_hash q i = false → bucket (Elevator.__elv_rqhash_del i q) b = bucket q b.
Proof. rw off_hash bucket_del. intros H. by apply (without_notin i (bucket q b)). Qed.

(** A request that is on no chain, seen from its node. *)
Lemma table_off q i :
  i ∈ X → on_hash q i = false → table q ⊢ unhashed (adr i) ∗ (unhashed (adr i) -∗ table q).
Proof.
  intros HX Hi. unfold table. rw (big_sepS_delete _ (filter _ X) i); [|by apply elem_of_filter].
  iIntros "(H1 & $ & H2)". iIntros "H". iFrame.
Qed.

Lemma wp_hash_del {A} q i (k : unit → prog A) Φ :
  hash_wf q → i ∈ X →
  table q -∗ (table (Elevator.__elv_rqhash_del i q) -∗ wp (k tt) Φ) -∗
  wp (__elv_rqhash_del (adr i) ≫= k) Φ.
Proof.
  iIntros (Hwf HX) "Ht Hk". destruct (on_hash q i) eqn:Hi.
  - apply on_hash_bucket in Hi as [b Hi]. by iApply (wp_del_hashed with "Ht Hk").
  - iDestruct (table_off with "Ht") as "[Hi Ht]"; [done|done|].
    unfold __elv_rqhash_del, hlist_del_init. wp_steps.
    wp_read (reads_unhashed (adr i)). wp_steps. iApply "Hk".
    iApply (table_ext q); [|by iApply "Ht"].
    intros b. by rw del_off.
Qed.

(** [ELV_ON_HASH] *)
Lemma wp_on_hash {A} q i (k : bool → prog A) Φ :
  hash_wf q → i ∈ X → table q -∗ (table q -∗ wp (k (on_hash q i)) Φ) -∗ wp (ELV_ON_HASH (adr i) ≫= k) Φ.
Proof.
  iIntros (Hwf HX) "Ht Hk". unfold ELV_ON_HASH. wp_steps. destruct (on_hash q i) eqn:Hi.
  - apply on_hash_bucket in Hi as [b Hi]. destruct (wf_known q Hwf i b Hi) as [_ Hb].
    apply list_elem_of_split in Hi as (l1 & l2 & E).
    iDestruct (table_bucket q b Hb with "Ht") as "(Hc & Hh & Hx)".
    rw {1}E fmap_app chain_app. iDestruct "Hc" as "[Hf Hc]".
    wp_read (reads_hashed (last_of (tab + 8 * b) (adr <$> l1)) (adr i) (adr <$> l2)). wp_steps.
    iApply "Hk".
    iApply (table_bucket q b Hb). iFrame "Hh Hx". rw E fmap_app. iApply chain_app. iFrame.
  - iDestruct (table_off with "Ht") as "[Hi Ht]"; [done|done|]. wp_read (reads_unhashed (adr i)).
    wp_steps.
    iApply "Hk". by iApply "Ht".
Qed.

(** *** Adding *)

Lemma wf_add q q' i :
  hash_wf q → i ∈ X → Elevator.elv_rqhash_add i q = Some q' → hash_wf q'.
Proof.
  intros [H1 H2 H3] HX E. pose proof E as Hoff. unfold Elevator.elv_rqhash_add in Hoff.
  destruct (on_hash q i) eqn:Hi; [done|]. clear Hoff. rw off_hash in Hi.
  split; intros *; rw !(bucket_add q q' i _ E).
  - case_decide; [|done]. by constructor.
  - case_decide as Hb; case_decide as Hb'; rw ?elem_of_cons; [congruence| | |apply H2].
    + intros [->|?] Hb''; [by apply Hi in Hb''|by eapply H2].
    + intros Hb'' [->|?]; [by apply Hi in Hb''|by eapply H2].
  - case_decide as Hb; [|apply H3]. rw elem_of_cons. intros [->|?]; [|by apply H3]. rw Hb.
    split; [done|apply head_in].
Qed.

Lemma wp_hash_add {A} q q' i key (k : unit → prog A) Φ :
  hash_wf q → i ∈ X → key (adr i) = rq_hash_key (rq_of q i) → Elevator.elv_rqhash_add i q = Some q' →
  table q -∗ (table q' -∗ wp (k tt) Φ) -∗ wp (elv_rqhash_add tab key (adr i) ≫= k) Φ.
Proof.
  iIntros (Hwf HX Hkey E) "Ht Hk". unfold elv_rqhash_add. wp_steps.
  iApply (wp_on_hash with "Ht"); [done|done|].
  iIntros "Ht". pose proof E as Hoff. unfold Elevator.elv_rqhash_add in Hoff.
  destruct (on_hash q i) eqn:Hi; [done|].
  clear Hoff. rw Hkey. set (b := ELV_HASH_FN _). assert (b ∈ heads) as Hb by apply head_in. cbn.
  iDestruct (table_bucket q b Hb with "Ht") as "(Hc & Hh & Hx)".
  rw (big_sepS_delete _ (filter _ X) i); [|by apply elem_of_filter]. iDestruct "Hx" as "[Hi Hx]".
  iApply (wp_hlist_add_head with "Hc Hi"). iIntros "Hc". iApply "Hk". iApply (table_bucket q' b Hb).
  rw (bucket_add q q' i b E) decide_True //. iFrame "Hc". iSplitL "Hh".
  - iApply (big_sepS_mono with "Hh"). iIntros (b' Hb') "H".
    rw (bucket_add q q' i b' E) decide_False //. set_solver.
  - replace (filter (λ j, on_hash q' j = false) X)
      with (filter (λ j, on_hash q j = false) X ∖ {[i]}); [done|].
    apply set_eq. intros j. rw elem_of_difference elem_of_singleton !elem_of_filter !off_hash.
    setoid_rewrite (bucket_add q q' i _ E). split.
    + intros [[Hj HjX] Hne]. split; [|done]. intros b'. case_decide; set_solver.
    + intros [Hj HjX]. pose proof (Hj b) as Hjb. rw decide_True // in Hjb.
      split_and!; [|done|set_solver].
      intros b'. pose proof (Hj b') as Hjb'. case_decide; set_solver.
Qed.

(** *** Searching *)

Lemma chain_owns a xs : chain a xs ⊢ owns (length xs).
Proof.
  revert a. induction xs as [|x xs IH]; intros a; [iIntros "_"; iApply owns_0|].
  iIntros "(_ & [H1 _] & H2)". fold chain. rw IH pointsto_owns.
  iApply (owns_sep 1 with "[$H1 $H2]").
Qed.

Lemma wp_walk {A} fuel off b l1 l2 q key mergeable (k : Z → prog A) Φ :
  (∀ i, key (adr i) = rq_hash_key (rq_of q i)) → (∀ i, mergeable (adr i) = rq_mergeable (rq_of q i)) →
  hash_wf q → b ∈ heads → bucket q b = l1 ++ l2 → (length l2 < fuel)%nat →
  table q -∗ (table (rqhash_walk off l2 q).2 -∗
    wp (k (default 0 (adr <$> (rqhash_walk off l2 q).1))) Φ) -∗
  wp (rqhash_loop fuel key mergeable off (nth_ptr (adr <$> l2)) ≫= k) Φ.
Proof.
  revert l1 l2 q. induction fuel as [|fuel IH]; intros l1 l2 q Hk Hm Hwf Hb Eb Hf; [lia|].
  iIntros "Ht Hk".
  cbn [rqhash_loop]. destruct l2 as [|i l2]; [cbn; wp_steps; by iApply "Hk"|].
  assert (i ∈ bucket q b) as Hi by (rw Eb; set_solver). destruct (wf_known q Hwf i b Hi) as [HX _].
  cbn in Hf.
  iDestruct (table_bucket q b Hb with "Ht") as "(Hc & Hh & Hx)". rw {1}Eb fmap_app chain_app.
  iDestruct "Hc" as "[Hf Hc]".
  rw fmap_cons chain_node. iDestruct "Hc" as "(%Ha & %Hn & H1 & H2 & H3 & Hc)". 
  change (nth_ptr (adr i :: (adr <$> l2))) with (adr i).
  assert (truthy (adr i) = true) as -> by (unfold truthy; by rw (proj2 (Z.eqb_neq (adr i) 0) Hn)).
  unfold h_next. wp_steps.
  iAssert (table q) with "[Hf H1 H2 H3 Hc Hh Hx]" as "Ht".
  { iApply (table_bucket q b Hb). rw Eb fmap_app chain_app fmap_cons chain_node. by iFrame. }
  iApply (wp_on_hash with "Ht"); [done|done|]. iIntros "Ht".
  rw (proj2 (on_hash_bucket q i)); [|by exists b]. cbn.
  rw Hm Hk. destruct (rq_mergeable (rq_of q i)); cbn; [destruct (_ =? off)|].
  - wp_steps. by iApply "Hk".
  - iApply (IH (l1 ++ [i]) with "Ht Hk"); try done; [by rw -assoc_L|lia].
  - wp_steps. iApply (wp_del_hashed with "Ht"); [done|exact Hi|]. iIntros "Ht".
    iApply (IH l1 with "Ht Hk"); try done; [by apply wf_del| |lia].
    rw bucket_del -/(without i (bucket q b)) Eb without_split // -Eb. by apply wf_nodup.
Qed.

Lemma walk_wf off l q : hash_wf q → hash_wf (rqhash_walk off l q).2.
Proof.
  revert q. induction l as [|i l IH]; intros q Hwf; cbn; [done|].
  repeat case_match; cbn; auto using wf_del.
Qed.
End table.

(** ** The functions of the elevator *)

Inductive hash_op :=
  HashAdd (i : nat) | HashDel (i : nat) | HashReposition (i : nat) | HashFind (offset : Z).

Definition hash_exec (tab : Z) (adr : nat → Z) (key : Z → Z) (mergeable : Z → bool)
    (o : hash_op) : prog Z :=
  match o with
  | HashAdd i => elv_rqhash_add tab key (adr i);; mret 0
  | HashDel i => elv_rqhash_del (adr i);; mret 0
  | HashReposition i => elv_rqhash_reposition tab key (adr i);; mret 0
  | HashFind offset => elv_rqhash_find tab key mergeable offset
  end.

Definition hash_step {D} (adr : nat → Z) (o : hash_op) (q : rqueue D) : option (Z * rqueue D) :=
  match o with
  | HashAdd i => q ← Elevator.elv_rqhash_add i q; Some (0, q)
  | HashDel i => Some (0, Elevator.elv_rqhash_del i q)
  | HashReposition i => q ← Elevator.elv_rqhash_reposition i q; Some (0, q)
  | HashFind offset =>
      let '(found, q) := Elevator.elv_rqhash_find offset q in Some (default 0 (adr <$> found), q)
  end.

Definition op_known (X : gset nat) (o : hash_op) : Prop :=
  match o with HashAdd i | HashDel i | HashReposition i => i ∈ X | HashFind _ => True end.

Section steps.
Context {D : Type} (tab : Z) (adr : nat → Z) (X : gset nat).
Context (key : Z → Z) (mergeable : Z → bool) (q : rqueue D).
Context (Hkey : ∀ i, key (adr i) = rq_hash_key (rq_of q i)).
Context (Hmerge : ∀ i, mergeable (adr i) = rq_mergeable (rq_of q i)).

Lemma hash_step_wf o r q' : hash_wf X q → op_known X o → hash_step adr o q = Some (r, q') → hash_wf X q'.
Proof.
  intros Hwf Ho E. destruct o as [i|i|i|off]; cbn in Ho, E.
  - apply bind_Some in E as (q1 & E & ?). simplify_eq. by eapply wf_add.
  - simplify_eq. unfold Elevator.elv_rqhash_del. case_match; [by apply wf_del|done].
  - apply bind_Some in E as (q1 & E & ?). simplify_eq.
    eapply (wf_add _ (Elevator.__elv_rqhash_del i q)); [by apply wf_del|done|exact E].
  - pose proof (walk_wf X off (bucket q (ELV_HASH_FN off)) q Hwf) as H.
    unfold Elevator.elv_rqhash_find in E. destruct (rqhash_walk _ _ _). by simplify_eq.
Qed.

Lemma wp_hash_exec {A} o r q' (k : Z → prog A) Φ :
  hash_wf X q → op_known X o → hash_step adr o q = Some (r, q') →
  table tab adr X q -∗ (table tab adr X q' -∗ wp (k r) Φ) -∗
  wp (hash_exec tab adr key mergeable o ≫= k) Φ.
Proof.
  iIntros (Hwf Ho E) "Ht Hk". destruct o as [i|i|i|off]; cbn in Ho, E |- *; wp_steps.
  - apply bind_Some in E as (q1 & E & ?). simplify_eq.
    iApply (wp_hash_add with "Ht"); [done|done|by rw Hkey|exact E|].
    iIntros "Ht". wp_steps. by iApply "Hk".
  - simplify_eq. unfold elv_rqhash_del, Elevator.elv_rqhash_del. wp_steps.
    iApply (wp_on_hash with "Ht"); [done..|].
    iIntros "Ht". wp_steps. iApply wp_when. destruct (on_hash q i); [|wp_steps; by iApply "Hk"].
    iApply (wp_hash_del with "Ht"); [done..|]. iIntros "Ht". wp_steps. by iApply "Hk".
  - apply bind_Some in E as (q1 & E & ?). simplify_eq. unfold elv_rqhash_reposition. wp_steps.
    iApply (wp_hash_del with "Ht"); [done..|]. iIntros "Ht".
    iApply (wp_hash_add with "Ht"); [by apply wf_del|done|by rw Hkey|exact E|].
    iIntros "Ht". wp_steps. by iApply "Hk".
  - set (b := ELV_HASH_FN off) in *. assert (b ∈ heads) as Hb by apply head_in.
    unfold elv_rqhash_find, h_first. fold b. wp_steps.
    iDestruct (table_bucket _ _ _ q b Hb with "Ht") as "(Hc & Hh & Hx)". rw chain_open.
    iDestruct "Hc" as "(% & H1 & Hc)". wp_steps.
    iDestruct (chain_open (tab + 8 * b) with "[$H1 $Hc]") as "Hc"; [done|].
    iApply (wp_mem_fuel (length (bucket q b))).
    iSplit; [rw chain_owns length_fmap; by iDestruct "Hc" as "$"|].
    iIntros (f Hf).
    iApply (wp_walk tab adr X f off b [] (bucket q b) q with "[Hc Hh Hx]"); [done..| |].
    { iApply (table_bucket _ _ _ q b Hb). iFrame. }
    iIntros "Ht". unfold Elevator.elv_rqhash_find in E. fold b in E. destruct (rqhash_walk _ _ _).
    simplify_eq. by iApply "Hk".
Qed.
End steps.

(** C21: The merge hash in memory implements the map of buckets: whatever one
    of [elv_rqhash_add], [elv_rqhash_del], [elv_rqhash_reposition] and
    [elv_rqhash_find] does to the map and returns, it does to the chains in
    memory and returns; requests that [elv_rqhash_find] drops on its way are
    off their chain. *)
Theorem hash_table_refines {D} tab adr X key mergeable (q : rqueue D) o r q' :
  (∀ i, key (adr i) = rq_hash_key (rq_of q i)) → (∀ i, mergeable (adr i) = rq_mergeable (rq_of q i)) →
  hash_wf X q → op_known X o → hash_step adr o q = Some (r, q') →
  hash_wf X q' ∧
  hoare (table tab adr X q) (hash_exec tab adr key mergeable o) (λ v, ⌜v = r⌝ ∗ table tab adr X q')%I.
Proof.
  intros Hk Hm Hwf Ho E. split; [by eapply hash_step_wf|]. apply wp_hoare. iIntros "Ht".
  iApply wp_last.
  iApply (wp_hash_exec with "Ht"); [done..|exact E|]. iIntros "Ht". iApply wp_ret. by iFrame.
Qed.

(** An empty table at 4096 and a request off it. *)
Definition hash_adr (i : nat) : Z := 8192 + 16 * Z.of_nat i.
Definition hash_rq (a : Z) : erq := rq_of demo_queue (Z.to_nat ((a - 8192) / 16)).
Definition hash_cells : list (Z * Z) :=
  ((λ b, (4096 + 8 * b, 0)) <$> seqZ 0 64) ++ [(8192, 0); (8200, 0)].

Lemma hash_adr_rq i : hash_rq (hash_adr i) = rq_of demo_queue i.
Proof. unfold hash_rq, hash_adr. f_equal. dlia. Qed.

Lemma empty_table : holds (table 4096 hash_adr {[0%nat]} demo_queue) (list_to_map hash_cells).
Proof.
  eapply holds_entails, (holds_cells hash_cells); [|apply (bool_decide_unpack _); by vm_compute].
  unfold hash_cells. rw big_sepL_app big_sepL_fmap. iIntros "(H & H1 & H2 & _)". iSplitL "H".
  - unfold heads. rw big_sepS_list_to_set; [|apply NoDup_seqZ].
    iApply (big_sepL_mono with "H"). iIntros (n b Hb%list_elem_of_lookup_2%elem_of_seqZ) "H". cbn.
    iFrame. iPureIntro. lia.
  - replace (filter _ _) with ({[0%nat]} : gset nat) by (apply (bool_decide_unpack _); by vm_compute).
    rw big_sepS_singleton. iSplit; [done|]. iExists 0. iFrame.
Qed.

Lemma hash_table_refines_witness :
  ∃ m', hash_exec 4096 hash_adr (λ a, rq_hash_key (hash_rq a)) (λ a, rq_mergeable (hash_rq a)) (HashAdd 0)
          (list_to_map hash_cells) = Some (0, m') ∧
    holds (chain (4096 + 8 * ELV_HASH_FN 108) [8192]) m'.
Proof.
  destruct (hash_table_refines 4096 hash_adr {[0%nat]}
    (λ a, rq_hash_key (hash_rq a)) (λ a, rq_mergeable (hash_rq a)) demo_queue (HashAdd 0)
    0 (set_hash {[ELV_HASH_FN 108 := [0%nat]]} demo_queue)) as [_ H].
  - intros i. by rw hash_adr_rq.
  - intros i. by rw hash_adr_rq.
  - split; intros *; [apply NoDup_nil_2|by intros ?%elem_of_nil..].
  - by vm_compute.
  - by vm_compute.
  - destruct (hoare_at _ _ _ (list_to_map hash_cells) H empty_table) as (r & m' & E & Hm).
    apply holds_pure_sep in Hm as [-> Hm]. exists m'. split; [done|]. eapply holds_entails, Hm.
    rw (table_bucket _ _ _ _ (ELV_HASH_FN 108) (head_in 108)). iIntros "[H _]".
    unfold bucket. cbn. by rw lookup_singleton_eq.
Defined.
