(* ===== verification/Segments.v ===== *)
(** * Segments and scatter lists (block/blk-merge.c)

    A bio carries its data as a vector of page fragments.  Fragments that are
    adjacent in physical memory form one hardware segment, within the limits of
    the queue.  The block layer counts the segments of a bio, adds the counts
    up when it merges, and promises the driver that the scatter list of a
    request needs no more entries than the count says.  The file has the bios
    of a queue as a store of linked records, the counting, the scatter list,
    and the proof of that promise: the segments that the scatter list is cut
    into are the fewest possible.  [None] is a BUG, a fault, or a loop that
    does not end. *)
From stdpp Require Import gmap list.
From S2P Require Import Prelude.

(** ** Page fragments, bios and the limits of a queue *)

Record bio_vec := mk_bv {
  bv_page : Z;      (** page frame number *)
  bv_len : Z;
  bv_offset : Z;
}.

(** [bi_io_vec] is [None] for the NULL of a bio without data; [bi_vcnt] is its
    length.  Of [bi_flags] only [BIO_SEG_VALID] and [BIO_CPU_AFFINE] are kept. *)
Record bio := mk_bio {
  bi_sector : Z;
  bi_next : option nat;
  bi_disk : nat;
  bi_seg_valid : bool;
  bi_cpu_affine : bool;
  bi_rw : Z;
  bi_idx : nat;
  bi_phys_segments : Z;
  bi_size : Z;
  bi_seg_front_size : Z;
  bi_seg_back_size : Z;
  bi_comp_cpu : Z;
  bi_io_vec : option (list bio_vec);
  bi_integrity : bool;
}.

Definition set_bi_next (v : option nat) (x : bio) : bio :=
  mk_bio (bi_sector x) v (bi_disk x) (bi_seg_valid x) (bi_cpu_affine x) (bi_rw x) (bi_idx x)
    (bi_phys_segments x) (bi_size x) (bi_seg_front_size x) (bi_seg_back_size x) (bi_comp_cpu x)
    (bi_io_vec x) (bi_integrity x).
Definition set_bi_rw (v : Z) (x : bio) : bio :=
  mk_bio (bi_sector x) (bi_next x) (bi_disk x) (bi_seg_valid x) (bi_cpu_affine x) v (bi_idx x)
    (bi_phys_segments x) (bi_size x) (bi_seg_front_size x) (bi_seg_back_size x) (bi_comp_cpu x)
    (bi_io_vec x) (bi_integrity x).
Definition set_bi_phys_segments (valid : bool) (v : Z) (x : bio) : bio :=
  mk_bio (bi_sector x) (bi_next x) (bi_disk x) valid (bi_cpu_affine x) (bi_rw x) (bi_idx x)
    v (bi_size x) (bi_seg_front_size x) (bi_seg_back_size x) (bi_comp_cpu x)
    (bi_io_vec x) (bi_integrity x).
Definition set_bi_seg_front_size (v : Z) (x : bio) : bio :=
  mk_bio (bi_sector x) (bi_next x) (bi_disk x) (bi_seg_valid x) (bi_cpu_affine x) (bi_rw x)
    (bi_idx x) (bi_phys_segments x) (bi_size x) v (bi_seg_back_size x) (bi_comp_cpu x)
    (bi_io_vec x) (bi_integrity x).
Definition set_bi_seg_back_size (v : Z) (x : bio) : bio :=
  mk_bio (bi_sector x) (bi_next x) (bi_disk x) (bi_seg_valid x) (bi_cpu_affine x) (bi_rw x)
    (bi_idx x) (bi_phys_segments x) (bi_size x) (bi_seg_front_size x) v (bi_comp_cpu x)
    (bi_io_vec x) (bi_integrity x).

(** The members of struct queue_limits and of the queue that matter here;
    [cluster] is [QUEUE_FLAG_CLUSTER], [dma_drain_buffer] a physical address. *)
Record limits := mk_limits {
  cluster : bool;
  bounce_pfn : Z;
  seg_boundary_mask : Z;
  max_segment_size : Z;
  max_segments : Z;
  max_sectors : Z;
  max_hw_sectors : Z;
  dma_pad_mask : Z;
  dma_drain_size : Z;
  dma_drain_buffer : Z;
}.

Definition bio_sectors (b : bio) : Z := Z.shiftr (bi_size b) 9.
Definition bio_has_data (b : bio) : bool := bool_decide (is_Some (bi_io_vec b)).
Definition io_vec (b : bio) : list bio_vec := default [] (bi_io_vec b).

(** What [bio_for_each_segment] visits. *)
Definition bio_segs (b : bio) : list bio_vec := drop (bi_idx b) (io_vec b).

Definition __BVEC_END (b : bio) : option bio_vec := io_vec b !! pred (length (io_vec b)).
Definition __BVEC_START (b : bio) : option bio_vec := io_vec b !! bi_idx b.

Definition bvec_to_phys (bv : bio_vec) : Z :=
  u64 (u64 (Z.shiftl (bv_page bv) 12) + bv_offset bv).
Definition BIOVEC_PHYS_MERGEABLE (v1 v2 : bio_vec) : bool :=
  u64 (bvec_to_phys v1 + bv_len v1) =? bvec_to_phys v2.
Definition __BIO_SEG_BOUNDARY (addr1 addr2 mask : Z) : bool :=
  Z.lor addr1 mask =? Z.lor (u64 (addr2 - 1)) mask.
Definition BIOVEC_SEG_BOUNDARY (L : limits) (v1 v2 : bio_vec) : bool :=
  __BIO_SEG_BOUNDARY (bvec_to_phys v1) (u64 (bvec_to_phys v2 + bv_len v2)) (seg_boundary_mask L).

(** ** The bios of a queue *)

Abbreviation bio_store := (gmap nat bio).

Definition upd_bio (i : nat) (f : bio → bio) (bs : bio_store) : option bio_store :=
  b ← bs !! i; Some (<[i := f b]> bs).

(** The bios that [for_each_bio] visits from [b] on.  A chain that does not run
    into itself is no longer than the store. *)
Fixpoint chain (fuel : nat) (bs : bio_store) (b : option nat) : option (list nat) :=
  match b with
  | None => Some []
  | Some i =>
      match fuel with
      | O => None
      | S fuel => x ← bs !! i; l ← chain fuel bs (bi_next x); Some (i :: l)
      end
  end.

Definition for_each_bio (bs : bio_store) (b : option nat) : option (list nat) :=
  chain (S (size bs)) bs b.

(** The fragments of the bios [l]. *)
Definition vecs (bs : bio_store) (l : list nat) : list bio_vec :=
  l ≫= λ i, from_option bio_segs [] (bs !! i).

(** ** Counting segments *)

Section counting.
Context (L : limits).

Record recalc := mk_rc {
  rc_prv : option bio_vec;    (** [bvprv] *)
  rc_highprv : bool;
  rc_seg_size : Z;
  rc_nr : Z;                  (** [nr_phys_segs] *)
  rc_front : Z;               (** [fbio->bi_seg_front_size] *)
}.

(** The tests between the labels: whether [bv] continues a segment of [size]
    bytes that ends with [prv]. *)
Definition continues (prv : option bio_vec) (size : Z) (bv : bio_vec) : bool :=
  match prv with
  | Some p =>
      cluster L && negb (max_segment_size L <? u32 (size + bv_len bv)) &&
      BIOVEC_PHYS_MERGEABLE p bv && BIOVEC_SEG_BOUNDARY L p bv
  | None => false
  end.

Definition front_size (nr size front : Z) : Z :=
  if (nr =? 1) && (front <? size) then size else front.

Definition recalc_step (st : recalc) (bv : bio_vec) : recalc :=
  let high := bounce_pfn L <? bv_page bv in
  if negb (high || rc_highprv st) && continues (rc_prv st) (rc_seg_size st) bv then
    mk_rc (Some bv) (rc_highprv st) (u32 (rc_seg_size st + bv_len bv)) (rc_nr st) (rc_front st)
  else
    mk_rc (Some bv) high (bv_len bv) (u32 (rc_nr st + 1))
      (front_size (rc_nr st) (rc_seg_size st) (rc_front st)).

Definition recalc_loop (front : Z) (vs : list bio_vec) : recalc :=
  foldl recalc_step (mk_rc None true 0 0 front) vs.

Definition __blk_recalc_rq_segments (b : option nat) (bs : bio_store) : option (Z * bio_store) :=
  match b with
  | None => Some (0, bs)
  | Some fbio =>
      l ← for_each_bio bs b;
      x ← bs !! fbio;
      bbio ← last l;
      let st := recalc_loop (bi_seg_front_size x) (vecs bs l) in
      bs ← upd_bio fbio (set_bi_seg_front_size
             (front_size (rc_nr st) (rc_seg_size st) (rc_front st))) bs;
      bs ← upd_bio bbio (λ y, set_bi_seg_back_size
             (if bi_seg_back_size y <? rc_seg_size st then rc_seg_size st
              else bi_seg_back_size y) y) bs;
      Some (rc_nr st, bs)
  end.

Definition blk_recount_segments (b : nat) (bs : bio_store) : option bio_store :=
  x ← bs !! b;
  let nxt := bi_next x in
  bs ← upd_bio b (set_bi_next None) bs;
  '(n, bs) ← __blk_recalc_rq_segments (Some b) bs;
  bs ← upd_bio b (set_bi_phys_segments true n) bs;
  upd_bio b (set_bi_next nxt) bs.

(** [if (!bio_flagged(bio, BIO_SEG_VALID)) blk_recount_segments(q, bio);] *)
Definition ensure_counted (b : nat) (bs : bio_store) : option bio_store :=
  x ← bs !! b;
  if bi_seg_valid x then Some bs else blk_recount_segments b bs.

Definition bio_phys_segments (b : nat) (bs : bio_store) : option (Z * bio_store) :=
  bs ← ensure_counted b bs;
  x ← bs !! b;
  Some (bi_phys_segments x, bs).

(** Whether the last segment of [bio] and the first of [nxt] are one. *)
Definition blk_phys_contig_segment (bio nxt : bio) : option bool :=
  if negb (cluster L) then Some false
  else if max_segment_size L <? u32 (bi_seg_back_size bio + bi_seg_front_size nxt) then Some false
  else if negb (bio_has_data bio) then Some true
  else
    e ← __BVEC_END bio;
    s ← __BVEC_START nxt;
    if negb (BIOVEC_PHYS_MERGEABLE e s) then Some false
    else Some (BIOVEC_SEG_BOUNDARY L e s).
End counting.

(** ** Requests, as far as their data is concerned

    The members of struct request that hold the bios and what is derived from
    them; the members that the elevator uses are in [Elevator.erq]. *)
Record rq_data := mk_rd {
  r_bio : option nat;
  r_biotail : option nat;
  r_data_len : Z;           (** [__data_len] *)
  r_nr_phys_segments : Z;
  r_failfast : Z;           (** [cmd_flags & REQ_FAILFAST_MASK] *)
  r_mixed : bool;           (** [REQ_MIXED_MERGE] *)
  r_copy_user : bool;       (** [REQ_COPY_USER] *)
  r_extra_len : Z;
  r_ioprio : Z;
  r_cpu : Z;
  r_start_time : Z;
}.

(** ** The scatter list

    An entry of struct scatterlist; [sg_last] is bit 1 of [page_link].  The
    table is contiguous, chaining is not modelled. *)
Record sg_entry := mk_sg {
  sg_page : Z;
  sg_offset : Z;
  sg_length : Z;
  sg_last : bool;
}.

Definition sg_set_page (page len offset : Z) (e : sg_entry) : sg_entry :=
  mk_sg page offset len (sg_last e).
Definition sg_mark (v : bool) (e : sg_entry) : sg_entry :=
  mk_sg (sg_page e) (sg_offset e) (sg_length e) v.
Definition sg_grow (n : Z) (e : sg_entry) : sg_entry :=
  mk_sg (sg_page e) (sg_offset e) (u32 (sg_length e + n)) (sg_last e).

(** A store through [sg]; past the table it is a fault. *)
Definition upd_sg (i : nat) (f : sg_entry → sg_entry) (sgl : list sg_entry)
    : option (list sg_entry) :=
  e ← sgl !! i; Some (<[i := f e]> sgl).

(** [sg->page_link &= ~0x02; sg = sg_next(sg);] *)
Definition sg_advance (i : nat) (sgl : list sg_entry) : option (nat * list sg_entry) :=
  sgl ← upd_sg i (sg_mark false) sgl; Some (S i, sgl).

Section mapping.
Context (L : limits).

Record mapping := mk_map {
  m_sg : option nat;          (** the index of [sg] in the table *)
  m_prv : option bio_vec;     (** [bvprv] *)
  m_nsegs : Z;
  m_sgl : list sg_entry;
}.

Definition map_step (st : mapping) (bv : bio_vec) : option mapping :=
  let nbytes := bv_len bv in
  let new_segment :=
    '(i, sgl) ← match m_sg st with
                | None => Some (0%nat, m_sgl st)
                | Some i => sg_advance i (m_sgl st)
                end;
    sgl ← upd_sg i (sg_set_page (bv_page bv) nbytes (bv_offset bv)) sgl;
    Some (mk_map (Some i) (Some bv) (m_nsegs st + 1) sgl) in
  match m_prv st with
  | None => new_segment
  | Some _ =>
      if cluster L then
        i ← m_sg st;
        e ← m_sgl st !! i;
        if continues L (m_prv st) (sg_length e) bv then
          sgl ← upd_sg i (sg_grow nbytes) (m_sgl st);
          Some (mk_map (Some i) (Some bv) (m_nsegs st) sgl)
        else new_segment
      else new_segment
  end.

Fixpoint map_loop (st : mapping) (vs : list bio_vec) : option mapping :=
  match vs with
  | [] => Some st
  | bv :: vs => st ← map_step st bv; map_loop st vs
  end.

(** The padding of a copied transfer. *)
Definition map_pad (r : rq_data) (st : mapping) : option (rq_data * mapping) :=
  let rest := Z.land (r_data_len r) (dma_pad_mask L) in
  if r_copy_user r && truthy rest then
    let pad_len := u32 (Z.ldiff (dma_pad_mask L) (r_data_len r) + 1) in
    i ← m_sg st;
    sgl ← upd_sg i (sg_grow pad_len) (m_sgl st);
    Some (mk_rd (r_bio r) (r_biotail r) (r_data_len r) (r_nr_phys_segments r) (r_failfast r)
            (r_mixed r) (r_copy_user r) (u32 (r_extra_len r + pad_len)) (r_ioprio r) (r_cpu r)
            (r_start_time r),
          mk_map (m_sg st) (m_prv st) (m_nsegs st) sgl)
  else Some (r, st).

(** [needed] is what [q->dma_drain_needed] answers; the buffer is not cleared
    in the model, which has no contents of pages. *)
Definition map_drain (needed : bool) (r : rq_data) (st : mapping) : option (rq_data * mapping) :=
  if truthy (dma_drain_size L) && needed then
    i ← m_sg st;
    '(i, sgl) ← sg_advance i (m_sgl st);
    sgl ← upd_sg i (sg_set_page (Z.shiftr (dma_drain_buffer L) 12) (dma_drain_size L)
            (Z.land (dma_drain_buffer L) 4095)) sgl;
    Some (mk_rd (r_bio r) (r_biotail r) (r_data_len r) (r_nr_phys_segments r) (r_failfast r)
            (r_mixed r) (r_copy_user r) (u32 (r_extra_len r + dma_drain_size L)) (r_ioprio r)
            (r_cpu r) (r_start_time r),
          mk_map (Some i) (m_prv st) (m_nsegs st + 1) sgl)
  else Some (r, st).

Definition blk_rq_map_sg (needed : bool) (bs : bio_store) (r : rq_data) (sgl : list sg_entry)
    : option (Z * rq_data * list sg_entry) :=
  l ← for_each_bio bs (r_bio r);
  st ← map_loop (mk_map None None 0 sgl) (vecs bs l);
  '(r, st) ← map_pad r st;
  '(r, st) ← map_drain needed r st;
  match m_sg st with
  | Some i => sgl ← upd_sg i (sg_mark true) (m_sgl st); Some (m_nsegs st, r, sgl)
  | None => Some (m_nsegs st, r, m_sgl st)
  end.
End mapping.

(** The entry that [blk_peek_request] sets aside for the drain. *)
Definition reserve_drain (L : limits) (r : rq_data) : rq_data :=
  if truthy (dma_drain_size L) && truthy (r_data_len r) then
    mk_rd (r_bio r) (r_biotail r) (r_data_len r) (u16 (r_nr_phys_segments r + 1)) (r_failfast r)
      (r_mixed r) (r_copy_user r) (r_extra_len r) (r_ioprio r) (r_cpu r) (r_start_time r)
  else r.

(** A new table, its last entry marked as such. *)
Definition sg_alloc_table (nents : nat) : list sg_entry :=
  replicate (pred nents) (mk_sg 0 0 0 false) ++ [mk_sg 0 0 0 true].

(** drivers/scsi/scsi_lib.c: [alloc] is whether the table can be allocated; the
    result is [None] for BLKPREP_DEFER, else the entries and the length of the
    buffer. *)
Definition scsi_init_sgtable (L : limits) (alloc needed : bool) (bs : bio_store) (r : rq_data)
    : option (option (list sg_entry * Z) * rq_data) :=
  let nents := r_nr_phys_segments r in
  if nents =? 0 then None
  else if negb alloc then Some (None, r)
  else
    '(count, r, sgl) ← blk_rq_map_sg L needed bs r (sg_alloc_table (Z.to_nat nents));
    if nents <? count then None
    else Some (Some (take (Z.to_nat count) sgl, r_data_len r), r).

(** ** Cutting fragments into segments

    [cut vs k f s]: the fragments can be cut into [k] segments that the queue
    allows, the first of [f] bytes and the last of [s] bytes. *)

Definition joinable (L : limits) (p bv : bio_vec) : bool :=
  cluster L && BIOVEC_PHYS_MERGEABLE p bv && BIOVEC_SEG_BOUNDARY L p bv.

Inductive cut (L : limits) : list bio_vec → Z → Z → Z → Prop :=
| cut_one bv : cut L [bv] 1 (bv_len bv) (bv_len bv)
| cut_new vs k f s bv : cut L vs k f s → cut L (vs ++ [bv]) (k + 1) f (bv_len bv)
| cut_ext vs k f s p bv :
    cut L vs k f s → last vs = Some p → joinable L p bv = true →
    s + bv_len bv ≤ max_segment_size L →
    cut L (vs ++ [bv]) k (if k =? 1 then f + bv_len bv else f) (s + bv_len bv).

(** What lies within one page meets the limits of a queue. *)
Definition vec_ok (L : limits) (bv : bio_vec) : Prop :=
  0 < bv_len bv ≤ max_segment_size L ∧ bvec_to_phys bv + bv_len bv < 2 ^ 64 ∧
  Z.lor (bvec_to_phys bv) (seg_boundary_mask L) =
  Z.lor (bvec_to_phys bv + bv_len bv - 1) (seg_boundary_mask L).

Section cuts.
Context (L : limits) (Hmax : max_segment_size L < 2 ^ 31).

Lemma cut_bounds vs k f s :
  cut L vs k f s → Forall (vec_ok L) vs →
  1 ≤ k ≤ Z.of_nat (length vs) ∧ 0 < f ≤ max_segment_size L ∧ 0 < s ≤ max_segment_size L ∧
  vs ≠ [] ∧ (k = 1 → f = s).
Proof.
  induction 1 as [bv|vs k f s bv Hc IH|vs k f s p bv Hc IH Hl Hj Hs];
    rewrite ?Forall_app, ?Forall_singleton.
  - intros (? & _). cbn. split_and!; done || lia.
  - intros [Hv (? & _)]. destruct (IH Hv) as (? & ? & ? & ? & ?).
    rewrite length_app. cbn. split_and!; try lia. by destruct vs.
  - intros [Hv (? & _)]. destruct (IH Hv) as (? & ? & ? & ? & Hfs).
    rewrite length_app. cbn. destruct (Z.eqb_spec k 1) as [->|].
    + specialize (Hfs eq_refl). split_and!; try lia. by destruct vs.
    + split_and!; try lia. by destruct vs.
Qed.

Lemma continues_joinable p size bv :
  0 ≤ size → 0 ≤ bv_len bv → size + bv_len bv < 2 ^ 32 →
  continues L (Some p) size bv = true ↔
    joinable L p bv = true ∧ size + bv_len bv ≤ max_segment_size L.
Proof.
  intros ? ? ?. unfold continues, joinable. rewrite u32_small by (unfold in_u32; lia).
  rewrite !andb_true_iff, negb_true_iff, Z.ltb_ge. tauto.
Qed.

(** *** Putting cuts together *)

Lemma cut_app vs k f s ws k' f' s' :
  cut L vs k f s → cut L ws k' f' s' → Forall (vec_ok L) vs → Forall (vec_ok L) ws →
  cut L (vs ++ ws) (k + k') f s'.
Proof.
  intros Hv Hw Ov. revert Hw.
  induction 1 as [bv|ws k' f' s' bv Hc IH|ws k' f' s' p bv Hc IH Hl Hj Hs];
    rewrite ?Forall_app.
  - intros _. eapply cut_new; done.
  - intros [Ow _]. rewrite app_assoc, Z.add_assoc. eapply cut_new, IH; done.
  - intros [Ow _]. rewrite app_assoc.
    destruct (cut_bounds _ _ _ _ Hv Ov) as (? & _), (cut_bounds _ _ _ _ Hc Ow) as (? & _ & _ & ? & _).
    assert (cut L ((vs ++ ws) ++ [bv]) (k + k') (if k + k' =? 1 then f + bv_len bv else f)
      (s' + bv_len bv)) as Hx.
    { eapply cut_ext; [by apply IH| |done|done]. by rewrite last_app, Hl. }
    by rewrite (proj2 (Z.eqb_neq _ _)) in Hx by lia.
Qed.

(** The last segment of one part and the first of the other may be one. *)
Lemma cut_join vs k f s ws k' f' s' p bv :
  cut L vs k f s → cut L ws k' f' s' → Forall (vec_ok L) vs → Forall (vec_ok L) ws →
  last vs = Some p → head ws = Some bv → joinable L p bv = true →
  s + f' ≤ max_segment_size L →
  cut L (vs ++ ws) (k + k' - 1) (if k =? 1 then s + f' else f) (if k' =? 1 then s + f' else s').
Proof.
  intros Hv Hw Ov. revert Hw.
  induction 1 as [x|ws k' f' s' x Hc IH|ws k' f' s' y x Hc IH Hl' Hj' Hs'];
    rewrite ?Forall_app; intros Ow Hl Hh Hj Hm.
  - cbn in Hh. injection Hh as ->. replace (k + 1 - 1) with k by lia. cbn [Z.eqb].
    destruct (cut_bounds _ _ _ _ Hv Ov) as (_ & _ & _ & _ & Hfs).
    pose proof (cut_ext L vs k f s p bv Hv Hl Hj Hm) as Hx.
    destruct (Z.eqb_spec k 1); [|done]. by rewrite Hfs in Hx.
  - destruct Ow as [Ow _]. destruct (cut_bounds _ _ _ _ Hc Ow) as (? & _ & _ & ? & _).
    rewrite head_app in Hh. destruct (head ws) eqn:E; [|by destruct ws].
    rewrite app_assoc. replace (k + (k' + 1) - 1) with (k + k' - 1 + 1) by lia.
    rewrite (proj2 (Z.eqb_neq (k' + 1) 1)) by lia. eapply cut_new, IH; done.
  - destruct Ow as [Ow Ox]. destruct (cut_bounds _ _ _ _ Hc Ow) as (? & ? & ? & ? & Hfs').
    destruct (cut_bounds _ _ _ _ Hv Ov) as (? & _).
    apply Forall_singleton in Ox as (? & _).
    rewrite head_app in Hh. destruct (head ws) eqn:E; [|by destruct ws].
    rewrite app_assoc.
    assert (last (vs ++ ws) = Some y) as Hly by (by rewrite last_app, Hl').
    destruct (Z.eqb_spec k' 1) as [->|Hk'].
    + specialize (Hfs' eq_refl). subst f'.
      assert (cut L (vs ++ ws) k (if k =? 1 then s + s' else f) (s + s')) as Hx.
      { replace k with (k + 1 - 1) at 1 by lia. apply IH; try done. lia. }
      replace (k + 1 - 1) with k by lia.
      pose proof (cut_ext L _ _ _ _ y x Hx Hly Hj') as Hy.
      destruct (Z.eqb_spec k 1); rewrite ?Z.add_assoc; apply Hy; lia.
    + assert (cut L (vs ++ ws) (k + k' - 1) (if k =? 1 then s + f' else f) s') as Hx
        by (by apply IH).
      pose proof (cut_ext L _ _ _ _ y x Hx Hly Hj' Hs') as Hy.
      by rewrite (proj2 (Z.eqb_neq (k + k' - 1) 1)) in Hy by lia.
Qed.

(** *** What the counting finds *)

(** The counts of a loop over [vs] are those of a cut, the front size no less
    than its first segment. *)
Definition counted (vs : list bio_vec) (st : recalc) : Prop :=
  rc_prv st = last vs ∧ 0 ≤ rc_front st < 2 ^ 31 ∧
  ∃ f, cut L vs (rc_nr st) f (rc_seg_size st) ∧ (rc_nr st = 1 ∨ f ≤ rc_front st).

Lemma recalc_step_counted vs st bv :
  Forall (vec_ok L) vs → vec_ok L bv → Z.of_nat (length vs) < 2 ^ 16 →
  counted vs st → counted (vs ++ [bv]) (recalc_step L st bv).
Proof.
  intros Ov (Hb & _) Hlen (Hp & Hfr & f & Hc & Hf).
  destruct (cut_bounds _ _ _ _ Hc Ov) as (Hk & Hf0 & Hs0 & Hne & Hfs).
  unfold counted, recalc_step. rewrite last_snoc.
  destruct (negb _ && _) eqn:E; cbn.
  - apply andb_prop in E as [_ E]. rewrite Hp in E.
    destruct (last vs) as [p|] eqn:El; [|done].
    apply continues_joinable in E as [Ej Es]; [|lia..].
    rewrite u32_small by (unfold in_u32; lia).
    split; [done|]. split; [lia|].
    exists (if rc_nr st =? 1 then f + bv_len bv else f). split; [by eapply cut_ext|].
    destruct (Z.eqb_spec (rc_nr st) 1); [by left|]. destruct Hf; [done|by right].
  - rewrite u32_small by (unfold in_u32; lia). split; [done|]. unfold front_size. split.
    { zcase; lia. }
    exists f. split; [by eapply cut_new|]. right.
    destruct (Z.eqb_spec (rc_nr st) 1) as [E1|]; cbn [andb].
    + rewrite (Hfs E1). destruct (Z.ltb_spec (rc_front st) (rc_seg_size st)); lia.
    + destruct Hf; [done|lia].
Qed.

Lemma recalc_loop_counted front vs :
  vs ≠ [] → Forall (vec_ok L) vs → Z.of_nat (length vs) < 2 ^ 16 → 0 ≤ front < 2 ^ 31 →
  counted vs (recalc_loop L front vs).
Proof.
  intros Hne Ov Hlen Hfr. induction vs as [|bv vs IH] using rev_ind; [done|].
  unfold recalc_loop. rewrite foldl_snoc. fold (recalc_loop L front vs).
  apply Forall_app in Ov as [Ov Ob]. rewrite Forall_singleton in Ob.
  rewrite length_app in Hlen. cbn [length] in Hlen.
  destruct (decide (vs = [])) as [->|Hvs].
  - cbn. unfold recalc_step, recalc_loop, counted. cbn. rewrite orb_true_r. cbn.
    unfold front_size. cbn. split; [done|]. split; [done|]. exists (bv_len bv).
    split; [apply cut_one|by left].
  - apply recalc_step_counted; [done|done|lia|]. apply IH; [done|done|lia].
Qed.

(** The front size never shrinks. *)
Lemma recalc_front_mono front vs : front ≤ rc_front (recalc_loop L front vs).
Proof.
  induction vs as [|bv vs IH] using rev_ind; [done|].
  unfold recalc_loop. rewrite foldl_snoc. fold (recalc_loop L front vs).
  unfold recalc_step, front_size. repeat zcase; cbn; lia.
Qed.

(** *** The scatter list needs the fewest segments *)

(** No cut of [vs] has fewer segments than [n], nor as many with a smaller last
    one than [size]. *)
Definition fewest (vs : list bio_vec) (n size : Z) : Prop :=
  ∀ k f s, cut L vs k f s → n < k ∨ n = k ∧ size ≤ s.

Lemma cut_snoc vs bv k f s :
  cut L (vs ++ [bv]) k f s → vs ≠ [] →
  ∃ f' s', cut L vs (k - 1) f' s' ∧ s = bv_len bv ∨
    cut L vs k f' s' ∧ s = s' + bv_len bv ∧ s ≤ max_segment_size L ∧
    ∃ p, last vs = Some p ∧ joinable L p bv = true.
Proof.
  intros Hc Hne. remember (vs ++ [bv]) as ws eqn:E.
  destruct Hc as [x|ws k f s x Hc|ws k f s p x Hc Hl Hj Hs].
  - destruct vs as [|? vs]; [done|]. by destruct vs.
  - apply app_inj_2 in E as [-> [= ->]]; [|done]. exists f, s. left.
    by replace (k + 1 - 1) with k by lia.
  - apply app_inj_2 in E as [-> [= ->]]; [|done]. exists f, s. right. by eauto 10.
Qed.

Lemma fewest_step vs n size p bv :
  Forall (vec_ok L) vs → vec_ok L bv → last vs = Some p → 0 ≤ size ≤ max_segment_size L →
  fewest vs n size →
  if continues L (Some p) size bv then fewest (vs ++ [bv]) n (size + bv_len bv)
  else fewest (vs ++ [bv]) (n + 1) (bv_len bv).
Proof.
  intros Ov (Hb & _) Hl Hsz Hfew.
  assert (vs ≠ []) as Hne by (by intros ->).
  destruct (continues L (Some p) size bv) eqn:E; intros k f s Hc;
    apply cut_snoc in Hc as (f' & s' & [(Hc & ->)|(Hc & -> & Hs & p' & Hp' & Hj)]); try done;
    destruct (cut_bounds _ _ _ _ Hc Ov) as (? & ? & ? & _);
    destruct (Hfew _ _ _ Hc) as [Hlt|[-> Hle]]; try lia.
  rewrite Hl in Hp'. injection Hp' as <-.
  assert (continues L (Some p) size bv = true); [|congruence].
  apply continues_joinable; [lia..|]. split; [done|lia].
Qed.

(** The bytes of memory a fragment names, and those of an entry. *)
Definition bv_bytes (bv : bio_vec) : list Z := seqZ (bvec_to_phys bv) (bv_len bv).
Definition sg_vec (e : sg_entry) : bio_vec := mk_bv (sg_page e) (sg_length e) (sg_offset e).
Definition sg_bytes (e : sg_entry) : list Z := bv_bytes (sg_vec e).

(** The table after the fragments [vs], the entry [e] at [i] the current one. *)
Definition mapped (vs : list bio_vec) (n : nat) (st : mapping) (i : nat) (e : sg_entry)
    (p : bio_vec) : Prop :=
  (m_sg st = Some i ∧ m_sgl st !! i = Some e ∧ m_nsegs st = Z.of_nat i + 1 ∧
   length (m_sgl st) = n) ∧
  (last vs = Some p ∧ m_prv st = Some p) ∧
  (bvec_to_phys (sg_vec e) + sg_length e = bvec_to_phys p + bv_len p ∧
   Z.lor (bvec_to_phys p) (seg_boundary_mask L) =
   Z.lor (bvec_to_phys (sg_vec e)) (seg_boundary_mask L)) ∧
  fewest vs (m_nsegs st) (sg_length e) ∧
  take (S i) (m_sgl st) ≫= sg_bytes = vs ≫= bv_bytes ∧
  Forall (λ e, vec_ok L (sg_vec e)) (take (S i) (m_sgl st)) ∧
  Forall (λ e, sg_last e = false) (take i (m_sgl st)).

Lemma upd_sg_some i f sgl e : sgl !! i = Some e → upd_sg i f sgl = Some (<[i := f e]> sgl).
Proof. intros E. unfold upd_sg. by rewrite E. Qed.

Lemma take_S_insert {A} i (x : A) l :
  (i < length l)%nat → take (S i) (<[i := x]> l) = take i l ++ [x].
Proof.
  intros Hi. rewrite (take_S_r _ _ x) by (by apply list_lookup_insert_eq).
  by rewrite take_insert_ge by lia.
Qed.

Lemma seqZ_join a n m : 0 ≤ n → 0 ≤ m → seqZ a (n + m) = seqZ a n ++ seqZ (a + n) m.
Proof. intros. by rewrite seqZ_app. Qed.

Lemma boundary_spec p bv :
  vec_ok L p → vec_ok L bv → joinable L p bv = true →
  bvec_to_phys p + bv_len p = bvec_to_phys bv ∧
  Z.lor (bvec_to_phys p) (seg_boundary_mask L) =
  Z.lor (bvec_to_phys bv + bv_len bv - 1) (seg_boundary_mask L).
Proof.
  intros (Hp & Hpe & _) (Hb & Hbe & _). unfold joinable, BIOVEC_PHYS_MERGEABLE,
    BIOVEC_SEG_BOUNDARY, __BIO_SEG_BOUNDARY.
  pose proof (u64_range (u64 (Z.shiftl (bv_page p) 12) + bv_offset p)) as Hp0.
  pose proof (u64_range (u64 (Z.shiftl (bv_page bv) 12) + bv_offset bv)) as Hb0.
  fold (bvec_to_phys p) in Hp0. fold (bvec_to_phys bv) in Hb0. unfold in_u64 in *.
  rewrite (u64_small (bvec_to_phys p + _)), (u64_small (bvec_to_phys bv + _)), u64_small
    by (unfold in_u64; lia).
  intros [[_ ?]%andb_prop ?]%andb_prop. by zbool.
Qed.

Lemma map_join vs n st i e p bv :
  Forall (vec_ok L) vs → vec_ok L bv → mapped vs n st i e p →
  continues L (Some p) (sg_length e) bv = true →
  mapped (vs ++ [bv]) n
    (mk_map (Some i) (Some bv) (m_nsegs st) (<[i := sg_grow (bv_len bv) e]> (m_sgl st)))
    i (sg_grow (bv_len bv) e) bv.
Proof.
  intros Ov Ob ((Hi & He & Hn & Hlen) & (Hl & Hp) & (Hend & Hwin) & Hfew & Hby & Hok & Hnl) Hc.
  assert (vec_ok L (sg_vec e)) as Oe.
  { rewrite (take_S_r _ _ e) in Hok by done. apply Forall_app in Hok as [_ Hok].
    by rewrite Forall_singleton in Hok. }
  assert (vec_ok L p) as Op by (apply (proj1 (Forall_forall _ _) Ov), last_Some_elem_of, Hl).
  pose proof Oe as (Hel & Hee & Hew). cbn [bv_len sg_vec] in *.
  pose proof Ob as (Hbl & Hbe & Hbw).
  pose proof (fewest_step vs (m_nsegs st) (sg_length e) p bv Ov Ob Hl) as Hstep.
  rewrite Hc in Hstep. apply continues_joinable in Hc as [Hj Hs]; [|lia..].
  apply boundary_spec in Hj as [Hadj Hb]; [|done..].
  assert (i < length (m_sgl st))%nat by (by eapply lookup_lt_Some).
  assert (sg_length (sg_grow (bv_len bv) e) = sg_length e + bv_len bv) as Hg
    by (cbn; apply u32_small; unfold in_u32; lia).
  assert (bvec_to_phys (sg_vec (sg_grow (bv_len bv) e)) = bvec_to_phys (sg_vec e)) as Ha by done.
  unfold mapped. cbn [m_sg m_prv m_nsegs m_sgl].
  rewrite last_snoc, length_insert, Hg, Ha, list_lookup_insert_eq, take_S_insert,
    take_insert_ge by (lia || done).
  rewrite (take_S_r _ _ e) in Hby, Hok by done.
  split_and!; try done.
  - lia.
  - rewrite <- Hwin. rewrite Hbw. by rewrite Hb.
  - apply Hstep; [lia|done].
  - rewrite !bind_app in *. rewrite <- Hby, <- app_assoc. f_equal. cbn. rewrite !app_nil_r.
    unfold sg_bytes, bv_bytes. rewrite Ha. cbn [bv_len sg_vec]. rewrite Hg.
    rewrite seqZ_join by lia. f_equal. f_equal. lia.
  - apply Forall_app in Hok as [Hok _]. apply Forall_app. split; [done|].
    rewrite Forall_singleton. unfold vec_ok. rewrite Ha. cbn [bv_len sg_vec]. rewrite Hg.
    split_and!; [lia|lia|lia|]. rewrite <- Hwin, Hb. f_equal. lia.
Qed.

(** A fragment in an entry of its own. *)
Lemma own_entry e bv : sg_vec (sg_set_page (bv_page bv) (bv_len bv) (bv_offset bv) e) = bv.
Proof. by destruct bv. Qed.

Lemma map_new vs n st i e p bv :
  Forall (vec_ok L) vs → vec_ok L bv → mapped vs n st i e p → (S i < n)%nat →
  continues L (Some p) (sg_length e) bv = false →
  ∃ st' e', ('(i, sgl) ← sg_advance i (m_sgl st);
             sgl ← upd_sg i (sg_set_page (bv_page bv) (bv_len bv) (bv_offset bv)) sgl;
             Some (mk_map (Some i) (Some bv) (m_nsegs st + 1) sgl)) = Some st' ∧
    mapped (vs ++ [bv]) n st' (S i) e' bv.
Proof.
  intros Ov Ob ((Hi & He & Hn & Hlen) & (Hl & Hp) & (Hend & Hwin) & Hfew & Hby & Hok & Hnl) Hr Hc.
  pose proof (fewest_step vs (m_nsegs st) (sg_length e) p bv Ov Ob Hl) as Hstep.
  rewrite Hc in Hstep.
  assert (0 ≤ sg_length e ≤ max_segment_size L).
  { rewrite (take_S_r _ _ e) in Hok by done. apply Forall_app in Hok as [_ Hok].
    rewrite Forall_singleton in Hok. destruct Hok as (? & _). cbn in *. lia. }
  unfold sg_advance. rewrite (upd_sg_some _ _ _ e) by done. cbn [mbind option_bind].
  set (sgl := <[i := sg_mark false e]> (m_sgl st)).
  assert (length sgl = n) as Hn' by (unfold sgl; by rewrite length_insert).
  destruct (lookup_lt_is_Some_2 sgl (S i)) as [x Hx]; [lia|].
  rewrite (upd_sg_some _ _ _ x) by done. cbn [mbind option_bind].
  eexists _, (sg_set_page (bv_page bv) (bv_len bv) (bv_offset bv) x).
  split; [reflexivity|]. unfold mapped. cbn [m_sg m_prv m_nsegs m_sgl].
  assert (take (S i) sgl = take i (m_sgl st) ++ [sg_mark false e]) as Ht.
  { unfold sgl. apply take_S_insert. lia. }
  rewrite (take_S_r _ _ e) in Hby, Hok by done.
  rewrite last_snoc, length_insert, list_lookup_insert_eq, own_entry, take_S_insert,
    take_insert_ge, Ht by lia.
  split_and!; try done.
  - lia.
  - by apply Hstep.
  - rewrite !bind_app in *. rewrite <- Hby. cbn. rewrite !app_nil_r. f_equal.
  - rewrite Forall_app, Forall_singleton, own_entry. split; [|done].
    apply Forall_app in Hok as [Hok1 Hok2]. rewrite Forall_singleton in Hok2.
    rewrite Forall_app, Forall_singleton. done.
  - by rewrite Forall_app, Forall_singleton.
Qed.

Lemma map_first n sgl bv :
  vec_ok L bv → length sgl = n → (0 < n)%nat →
  ∃ st e, map_step L (mk_map None None 0 sgl) bv = Some st ∧ mapped [bv] n st 0 e bv.
Proof.
  intros Ob Hlen Hn. destruct (lookup_lt_is_Some_2 sgl 0) as [x Hx]; [lia|].
  unfold map_step. cbn [m_prv m_sg m_sgl m_nsegs mbind option_bind].
  rewrite (upd_sg_some _ _ _ x) by done. cbn [mbind option_bind].
  eexists _, (sg_set_page (bv_page bv) (bv_len bv) (bv_offset bv) x).
  split; [reflexivity|]. unfold mapped. cbn [m_sg m_prv m_nsegs m_sgl].
  rewrite length_insert, list_lookup_insert_eq, own_entry, take_S_insert, take_0 by lia.
  cbn [app]. unfold sg_bytes.
  split_and!; try done.
  - intros k f s Hc. apply cut_bounds in Hc as Hb; [|by constructor].
    destruct Hb as ([Hk1 Hk2] & _ & _ & _ & Hfs). cbn in Hk2. right. split; [lia|].
    remember [bv] as vs eqn:E. destruct Hc as [y|vs k f s y Hc|vs k f s q y Hc Hl];
      [by injection E as ->| |].
    + apply app_singleton in E as [[-> _]|[_ [=]]].
      by apply cut_bounds in Hc as (_ & _ & _ & ? & _).
    + apply app_singleton in E as [[-> _]|[_ [=]]]. done.
  - rewrite Forall_singleton. by rewrite own_entry.
Qed.

Lemma map_loop_snoc st vs bv :
  map_loop L st (vs ++ [bv]) = (st ← map_loop L st vs; map_step L st bv).
Proof.
  revert st. induction vs as [|v vs IH]; intros st; cbn [app map_loop].
  - cbn. by destruct (map_step L st bv).
  - destruct (map_step L st v); cbn; [apply IH|done].
Qed.

(** A table with as many entries as some cut has segments is enough. *)
Lemma map_loop_spec vs sgl k f s :
  Forall (vec_ok L) vs → cut L vs k f s → k ≤ Z.of_nat (length sgl) →
  ∃ st i e p, map_loop L (mk_map None None 0 sgl) vs = Some st ∧
    mapped vs (length sgl) st i e p.
Proof.
  revert k f s. induction vs as [|bv vs IH] using rev_ind; intros k f s Ov Hc Hk.
  { by apply cut_bounds in Hc as (_ & _ & _ & ? & _). }
  pose proof Ov as [Ov1 Ob]%Forall_app. rewrite Forall_singleton in Ob.
  apply cut_bounds in Hc as Hb; [|done]. destruct Hb as ([Hk1 _] & _).
  destruct (decide (vs = [])) as [->|Hne].
  { destruct (map_first (length sgl) sgl bv) as (st & e & E & Hm); [done|done|lia|].
    exists st, 0%nat, e, bv. cbn [app map_loop]. by rewrite E. }
  assert (∃ k' f' s', cut L vs k' f' s' ∧ k' ≤ k) as (k' & f' & s' & Hc' & Hk').
  { apply cut_snoc in Hc as (f' & s' & [(Hc & _)|(Hc & _)]); [eauto with lia..|done]. }
  destruct (IH k' f' s') as (st & i & e & p & E & Hm); [done|done|lia|].
  rewrite map_loop_snoc, E. cbn [mbind option_bind]. unfold map_step.
  pose proof Hm as ((Hi & He & Hn & Hlen) & (Hl & Hp) & _ & Hfew & _ & Hok & _).
  rewrite Hp, Hi. cbn [mbind option_bind]. rewrite He. cbn [mbind option_bind].
  assert (0 ≤ sg_length e ≤ max_segment_size L).
  { rewrite (take_S_r _ _ e) in Hok by done. apply Forall_app in Hok as [_ Hok].
    rewrite Forall_singleton in Hok. destruct Hok as (? & _). cbn in *. lia. }
  destruct (continues L (Some p) (sg_length e) bv) eqn:Ec.
  - assert (cluster L = true) as -> by (cbn in Ec; by destruct (cluster L)).
    rewrite (upd_sg_some _ _ _ e) by done. cbn [mbind option_bind].
    eexists _, i, _, bv. split; [reflexivity|]. by apply map_join with (p := p).
  - assert (S i < length sgl)%nat.
    { pose proof (fewest_step vs (m_nsegs st) (sg_length e) p bv Ov1 Ob Hl) as Hstep.
      rewrite Ec in Hstep. destruct (Hstep ltac:(done) Hfew k f s Hc); lia. }
    destruct (map_new vs (length sgl) st i e p bv) as (st' & e' & E' & Hm'); try done.
    exists st', (S i), e', bv. split; [|done]. by destruct (cluster L).
Qed.

(** The data of a request: its bios [l] and their fragments [vs]. *)
Definition rq_vecs (bs : bio_store) (r : rq_data) (l : list nat) (vs : list bio_vec) : Prop :=
  for_each_bio bs (r_bio r) = Some l ∧ vecs bs l = vs ∧ Forall (vec_ok L) vs ∧
  r_copy_user r = false.

Definition drained (needed : bool) : bool := truthy (dma_drain_size L) && needed.

(** What a scatter list for [vs] is: [n] entries for the data, and one for the
    drain. *)
Definition describes (drain : bool) (vs : list bio_vec) (n : nat) (sgl : list sg_entry) : Prop :=
  length sgl = (n + if drain then 1 else 0)%nat ∧
  take n sgl ≫= sg_bytes = vs ≫= bv_bytes ∧
  Forall (λ e, vec_ok L (sg_vec e)) (take n sgl) ∧
  (∀ j e, sgl !! j = Some e → sg_last e = bool_decide (S j = length sgl)).

Lemma mark_end sgl i e :
  sgl !! i = Some e → Forall (λ e, sg_last e = false) (take i sgl) →
  ∀ j x, take (S i) (<[i := sg_mark true e]> sgl) !! j = Some x →
    sg_last x = bool_decide (S j = S i).
Proof.
  intros He Hf j x. assert (i < length sgl)%nat by (by eapply lookup_lt_Some).
  rewrite take_S_insert by done. rewrite lookup_app.
  destruct (take i sgl !! j) as [y|] eqn:Ej.
  - intros [= <-]. apply lookup_lt_Some in Ej as Hj. rewrite length_take in Hj.
    rewrite bool_decide_false by lia. by eapply Forall_lookup_1 in Hf.
  - rewrite length_take, Nat.min_l by lia. apply lookup_ge_None in Ej. rewrite length_take in Ej.
    intros Hx. apply list_lookup_singleton_Some in Hx as [Hj <-].
    by rewrite bool_decide_true by lia.
Qed.

Lemma map_sg_spec needed bs r l vs sgl k f s :
  rq_vecs bs r l vs → cut L vs k f s →
  k + (if drained needed then 1 else 0) ≤ Z.of_nat (length sgl) →
  ∃ n r' sgl', blk_rq_map_sg L needed bs r sgl =
      Some (Z.of_nat n + (if drained needed then 1 else 0), r', sgl') ∧
    (∀ k f s, cut L vs k f s → Z.of_nat n ≤ k) ∧ r_data_len r' = r_data_len r ∧
    length sgl' = length sgl ∧
    describes (drained needed) vs n (take (n + if drained needed then 1 else 0) sgl').
Proof.
  intros (Hl & <- & Ov & Hcu) Hc Hk. unfold blk_rq_map_sg. rewrite Hl. cbn [mbind option_bind].
  destruct (map_loop_spec (vecs bs l) sgl k f s) as (st & i & e & p & E & Hm); [done|done| |].
  { destruct (drained needed); lia. }
  rewrite E. cbn [mbind option_bind]. unfold map_pad. rewrite Hcu. cbn [andb mbind option_bind].
  destruct Hm as ((Hi & He & Hn & Hlen) & _ & _ & Hfew & Hby & Hok & Hnl).
  assert (∀ k f s, cut L (vecs bs l) k f s → Z.of_nat (S i) ≤ k) as Hmin.
  { intros k' f' s' Hc'. destruct (Hfew _ _ _ Hc') as [?|[? _]]; lia. }
  pose proof (Hmin _ _ _ Hc) as Hik.
  unfold map_drain. fold (drained needed). exists (S i). destruct (drained needed).
  - rewrite Hi. cbn [mbind option_bind]. unfold sg_advance.
    rewrite (upd_sg_some _ _ _ e) by done. cbn [mbind option_bind].
    set (sgl1 := <[i := sg_mark false e]> (m_sgl st)).
    assert (length sgl1 = length sgl) as Hl1 by (unfold sgl1; by rewrite length_insert).
    destruct (lookup_lt_is_Some_2 sgl1 (S i)) as [x Hx]; [lia|].
    rewrite (upd_sg_some _ _ _ x) by done. cbn [mbind option_bind m_sg m_sgl m_nsegs].
    set (d := sg_set_page _ _ _ x).
    rewrite (upd_sg_some _ _ _ d) by (apply list_lookup_insert_eq; lia).
    cbn [mbind option_bind]. eexists _, _.
    split; [rewrite Hn; do 4 f_equal; lia|]. split_and!; try done.
    { by rewrite !length_insert. }
    rewrite (Nat.add_1_r (S i)).
    assert (take (S i) sgl1 = take i (m_sgl st) ++ [sg_mark false e]) as Ht
      by (apply take_S_insert; lia).
    rewrite (take_S_r _ _ e) in Hby, Hok by done.
    unfold describes. rewrite take_S_insert, take_insert_ge by (rewrite ?length_insert; lia).
    assert (length (take (S i) sgl1) = S i) as Hlt by (rewrite length_take; lia).
    rewrite length_app, Hlt. rewrite take_app_le, take_ge, Ht by (rewrite ?Hlt; lia).
    split_and!; [done| | |].
    + rewrite bind_app in *. by rewrite <- Hby.
    + apply Forall_app in Hok as [? Hok]. rewrite Forall_singleton in Hok.
      by rewrite Forall_app, Forall_singleton.
    + intros j y Hj. rewrite <- Ht in Hj.
      cbn [length]. rewrite Nat.add_1_r. eapply (mark_end (<[S i := d]> sgl1) (S i) d).
      * apply list_lookup_insert_eq. lia.
      * rewrite take_insert_ge, Ht by lia. by rewrite Forall_app, Forall_singleton.
      * rewrite take_S_insert, take_insert_ge by (rewrite ?length_insert; lia). done.
  - cbn [mbind option_bind]. rewrite Hi, (upd_sg_some _ _ _ e) by done. cbn [mbind option_bind].
    replace (m_nsegs st) with (Z.of_nat (S i) + 0) by lia.
    eexists _, _. split; [reflexivity|]. split_and!; try done.
    { by rewrite length_insert. }
    rewrite Nat.add_0_r. assert (i < length (m_sgl st))%nat by (by eapply lookup_lt_Some).
    rewrite (take_S_r _ _ e) in Hby, Hok by done.
    unfold describes. rewrite length_take, length_insert, take_take, Nat.min_id,
      (Nat.min_l (S i)), Nat.add_0_r by lia.
    split_and!; [done| | |].
    + rewrite take_S_insert by done. rewrite bind_app in *. by rewrite <- Hby.
    + rewrite take_S_insert by done. apply Forall_app in Hok as [? Hok].
      rewrite Forall_singleton in Hok. by rewrite Forall_app, Forall_singleton.
    + by eapply mark_end.
Qed.

Lemma reserve_drain_vecs bs r l vs : rq_vecs bs r l vs → rq_vecs bs (reserve_drain L r) l vs.
Proof. unfold rq_vecs, reserve_drain. by destruct (_ && _). Qed.
End cuts.

(** The scatter list of a request fits its table and describes its data: if
    the fragments of the bios can be cut into as many segments as the request
    counts, then the table of that size (with the entry reserved for the drain)
    is never overrun, no BUG is hit, the entries cover exactly the bytes of the
    fragments in order, each within the size and boundary limits of the queue,
    only the last entry carries the end mark, and no admissible cut has fewer
    segments. *)
Lemma scatter_list_fits L needed bs r l vs f s :
  max_segment_size L < 2 ^ 31 → rq_vecs L bs r l vs →
  cut L vs (r_nr_phys_segments r) f s → r_nr_phys_segments r < 2 ^ 16 - 1 → r_data_len r ≠ 0 →
  ∃ n sgl r',
    scsi_init_sgtable L true needed bs (reserve_drain L r) =
      Some (Some (sgl, r_data_len r), r') ∧
    describes L (drained L needed) vs n sgl ∧ Z.of_nat n ≤ r_nr_phys_segments r ∧
    (∀ k f s, cut L vs k f s → Z.of_nat n ≤ k).
Proof.
  intros Hmax Hv Hc Hnr Hdl. set (k := r_nr_phys_segments r) in *.
  set (r1 := reserve_drain L r). set (nents := r_nr_phys_segments r1).
  destruct (cut_bounds L vs k f s Hc) as ([Hk _] & _); [by destruct Hv as (_ & _ & ? & _)|].
  assert (k + (if drained L needed then 1 else 0) ≤ nents ∧ 0 < nents) as [Hn Hn0].
  { unfold nents, r1, reserve_drain, drained.
    assert (truthy (r_data_len r) = true) as ->
      by (unfold truthy; by destruct (Z.eqb_spec (r_data_len r) 0)).
    rewrite andb_true_r. destruct (truthy (dma_drain_size L)); cbn [andb r_nr_phys_segments].
    - fold k. rewrite u16_small by lia. destruct needed; lia.
    - fold k. lia. }
  unfold scsi_init_sgtable. fold nents.
  rewrite (proj2 (Z.eqb_neq nents 0)) by lia. cbn [negb].
  assert (length (sg_alloc_table (Z.to_nat nents)) = Z.to_nat nents) as Hlen.
  { unfold sg_alloc_table. rewrite length_app, length_replicate. cbn [length]. lia. }
  destruct (map_sg_spec L Hmax needed bs r1 l vs (sg_alloc_table (Z.to_nat nents)) k f s)
    as (n & r' & sgl & -> & Hmin & Hd & Hls & Hdes); [by apply reserve_drain_vecs|done| |].
  { rewrite Hlen. lia. }
  cbn [mbind option_bind]. pose proof (Hmin _ _ _ Hc) as Hnk.
  rewrite (proj2 (Z.ltb_ge nents _)) by lia.
  exists n, (take (n + if drained L needed then 1 else 0) sgl), r'. rewrite Hd.
  split_and!; [|done|done|done].
  replace (r_data_len r1) with (r_data_len r) by (unfold r1, reserve_drain; by destruct (_ && _)).
  replace (Z.to_nat _) with (n + if drained L needed then 1 else 0)%nat
    by (destruct (drained L needed); lia). done.
Qed.
