(* ===== verification/Submit.v ===== *)
(** * Submitting and merging (block/blk-merge.c, block/blk-core.c)

    How a bio becomes a request: [__make_request] asks the elevator for a
    request to merge with, checks the limits of the queue, links the bio into
    the request and tries to coalesce the request with its neighbour; otherwise
    it waits for a free request and adds it.  The queue and its scheduler are
    those of [Elevator], the bios and their segments those of [Segments].
    [None] is a BUG or a fault.

    The bio is the one that [blk_queue_bounce] leaves; plugging, tracing and the
    statistics of the disk are not modelled.  The queue lock is dropped while a
    submitter waits for a request, so that everything else may happen between
    the two halves of [__make_request]. *)
From stdpp Require Import gmap list.
From S2P Require Import Prelude Elevator Noop Deadline BlkQueue Segments.

(** ** Flags of a bio *)

Abbreviation BIO_RW_AHEAD := 4%Z (only parsing).
Abbreviation BIO_RW_BARRIER := 5%Z (only parsing).
Abbreviation BIO_RW_SYNCIO := 6%Z (only parsing).
Abbreviation BIO_RW_DISCARD := 9%Z (only parsing).
Abbreviation REQ_FAILFAST_MASK := 14%Z (only parsing).

Definition bio_rw_flagged (x : bio) (flag : Z) : bool := Z.testbit (bi_rw x) flag.
Definition bio_data_dir (x : bio) : bool := Z.testbit (bi_rw x) 0.
Definition bio_prio (x : bio) : Z := u16 (Z.shiftr (bi_rw x) 48).

(** A bio as the elevator sees it. *)
Definition ebio_of (x : bio) : ebio :=
  mk_ebio (bi_sector x) (bio_sectors x) (bio_data_dir x) (bio_rw_flagged x BIO_RW_DISCARD)
    (bi_disk x) (bi_integrity x).

(** fs/ioprio.c; class 0 is none, 2 is best effort. *)
Definition ioprio_best (aprio bprio : Z) : Z :=
  let class p := let c := Z.shiftr p 13 in if c =? 0 then 2 else c in
  if class aprio =? class bprio then Z.min aprio bprio
  else if class bprio <? class aprio then bprio else aprio.

(** ** The queue with its bios *)

(** The neighbours a scheduler finds for a request. *)
Class Neighbours (D : Type) := {
  sched_former : rqueue D → nat → option nat;
  sched_latter : rqueue D → nat → option nat;
}.

#[export] Instance noop_neighbour : Neighbours noop_data := {
  sched_former q := noop_former_request (edata q);
  sched_latter q := noop_latter_request (edata q);
}.

(** The deadline scheduler registers the neighbours in its sorted tree. *)
#[export] Instance deadline_neighbour : Neighbours deadline_data := {
  sched_former q i := next_in i (reverse (deadline_rb_root q i));
  sched_latter := deadline_latter_request;
}.

(** [s_bios] are the bios of the queue, [s_data] the members of its requests
    that concern their data. *)
Record subq (D : Type) := mk_subq {
  s_q : rqueue D;
  s_bios : bio_store;
  s_data : gmap nat rq_data;
}.
Arguments mk_subq {D} _ _ _.
Arguments s_q {D} _.
Arguments s_bios {D} _.
Arguments s_data {D} _.

Definition set_s_q {D} (v : rqueue D) (s : subq D) : subq D := mk_subq v (s_bios s) (s_data s).
Definition set_s_bios {D} (v : bio_store) (s : subq D) : subq D := mk_subq (s_q s) v (s_data s).
Definition set_data {D} (i : nat) (d : rq_data) (s : subq D) : subq D :=
  mk_subq (s_q s) (s_bios s) (<[i := d]> (s_data s)).

Definition set_er_nomerge (v : bool) (x : erq) : erq :=
  mk_erq (er_pos x) (er_sectors x) (er_write x) (er_discard x) (er_fs x)
    (er_pc x) (er_rw_sync x) v (er_soft x) (er_hard x) (er_started x)
    (er_sorted x) (er_elvpriv x) (er_color x) (er_disk x) (er_special x)
    (er_integrity x) (er_fifo_time x).

Definition set_nr_phys (v : Z) (d : rq_data) : rq_data :=
  mk_rd (r_bio d) (r_biotail d) (r_data_len d) v (r_failfast d) (r_mixed d) (r_copy_user d)
    (r_extra_len d) (r_ioprio d) (r_cpu d) (r_start_time d).
Definition set_failfast (ff : Z) (mixed : bool) (d : rq_data) : rq_data :=
  mk_rd (r_bio d) (r_biotail d) (r_data_len d) (r_nr_phys_segments d) ff mixed (r_copy_user d)
    (r_extra_len d) (r_ioprio d) (r_cpu d) (r_start_time d).

(** The length of a request in sectors is derived from its length in bytes. *)
Definition blk_rq_sectors (d : rq_data) : Z := Z.shiftr (r_data_len d) 9.

(** ** The limits of a request *)

Section merging.
Context {D : Type} `{Sched D, Neighbours D} (L : limits).
Abbreviation state := (subq D).

(** [req->cmd_flags |= REQ_NOMERGE; if (req == q->last_merge) ...] *)
Definition stop_merging (req : nat) (s : state) : state :=
  set_s_q (clear_last_merge req (upd_rq req (set_er_nomerge true) (s_q s))) s.

Definition ll_new_hw_segment (req bio : nat) (s : state) : option (bool * state) :=
  '(n, bs) ← bio_phys_segments L bio (s_bios s);
  let s := set_s_bios bs s in
  d ← s_data s !! req;
  let total := r_nr_phys_segments d + s32 n in
  if max_segments L <? total then Some (false, stop_merging req s)
  else Some (true, set_data req (set_nr_phys (u16 total) d) s).

(** [unsigned short max_sectors] *)
Definition merge_limit (rq : erq) : Z :=
  u16 (if er_pc rq then max_hw_sectors L else max_sectors L).

Definition ll_back_merge_fn (req bio : nat) (s : state) : option (bool * state) :=
  x ← s_bios s !! bio;
  d ← s_data s !! req;
  if merge_limit (rq_of (s_q s) req) <? u32 (blk_rq_sectors d + bio_sectors x)
  then Some (false, stop_merging req s)
  else
    tail ← r_biotail d;
    bs ← ensure_counted L tail (s_bios s);
    bs ← ensure_counted L bio bs;
    ll_new_hw_segment req bio (set_s_bios bs s).

Definition ll_front_merge_fn (req bio : nat) (s : state) : option (bool * state) :=
  x ← s_bios s !! bio;
  d ← s_data s !! req;
  if merge_limit (rq_of (s_q s) req) <? u32 (blk_rq_sectors d + bio_sectors x)
  then Some (false, stop_merging req s)
  else
    bs ← ensure_counted L bio (s_bios s);
    first ← r_bio d;
    bs ← ensure_counted L first bs;
    ll_new_hw_segment req bio (set_s_bios bs s).

Definition ll_merge_requests_fn (req next : nat) (s : state) : option (bool * state) :=
  d ← s_data s !! req;
  d' ← s_data s !! next;
  tail ← r_biotail d;
  nbio ← r_bio d';
  xt ← s_bios s !! tail;
  xn ← s_bios s !! nbio;
  let seg_size := u32 (bi_seg_back_size xt + bi_seg_front_size xn) in
  if er_special (rq_of (s_q s) req) || er_special (rq_of (s_q s) next) then Some (false, s)
  else if max_sectors L <? u32 (blk_rq_sectors d + blk_rq_sectors d') then Some (false, s)
  else
    contig ← blk_phys_contig_segment L xt xn;
    let total := r_nr_phys_segments d + r_nr_phys_segments d' in
    '(bs, total) ←
      (if (contig : bool) then
         first ← r_bio d;
         ntail ← r_biotail d';
         bs ← (if r_nr_phys_segments d =? 1
               then upd_bio first (set_bi_seg_front_size seg_size) (s_bios s)
               else Some (s_bios s));
         bs ← (if r_nr_phys_segments d' =? 1
               then upd_bio ntail (set_bi_seg_back_size seg_size) bs
               else Some bs);
         Some (bs, total - 1)
       else Some (s_bios s, total));
    let s := set_s_bios bs s in
    if max_segments L <? total then Some (false, s)
    else Some (true, set_data req (set_nr_phys (u16 total) d) s).

(** The bios of a mixed merge carry the attributes themselves. *)
Definition distribute (ff : Z) (l : list nat) (bs : bio_store) : bio_store :=
  foldr (alter (λ x, set_bi_rw (Z.lor (bi_rw x) ff) x)) bs l.

Definition blk_rq_set_mixed_merge (req : nat) (s : state) : option state :=
  d ← s_data s !! req;
  if r_mixed d then Some s
  else
    l ← for_each_bio (s_bios s) (r_bio d);
    Some (set_data req (set_failfast (r_failfast d) true d)
            (set_s_bios (distribute (r_failfast d) l (s_bios s)) s)).

(** ** Coalescing two requests *)

(** [__blk_put_request] on a request nobody else holds: the BUGs, the
    accounting of the elevator, and the end of the request.  The counters of
    the pool it returns to are those of [RequestPool]. *)
Definition __blk_put_request (req : nat) (s : state) : option state :=
  q ← elv_completed_request req (s_q s);
  if bool_decide (req ∈ queued q) || on_hash q req then None
  else Some (mk_subq (set_rqs (delete req (rqs q)) q) (s_bios s) (delete req (s_data s))).

(** The end of [attempt_merge]: the bios of [next] go behind those of [req],
    which inherits the earlier start, the better priority and the processor,
    and [next] is freed. *)
Definition take_over (req next : nat) (s : state) : option state :=
  d ← s_data s !! req;
  d' ← s_data s !! next;
  tail ← r_biotail d;
  bs ← upd_bio tail (set_bi_next (r_bio d')) (s_bios s);
  let len := u32 (r_data_len d + r_data_len d') in
  let d := mk_rd (r_bio d) (r_biotail d') len (r_nr_phys_segments d) (r_failfast d)
             (r_mixed d) (r_copy_user d) (r_extra_len d)
             (ioprio_best (r_ioprio d) (r_ioprio d'))
             (if r_cpu d' =? -1 then r_cpu d else r_cpu d')
             (if time_after (r_start_time d) (r_start_time d') then r_start_time d'
              else r_start_time d) in
  let s := set_data req d (set_s_bios bs s) in
  let pos := er_pos (rq_of (s_q s) req) in
  q ← elv_merge_requests req next (upd_rq req (grow_front pos (Z.shiftr len 9)) (s_q s));
  __blk_put_request next (set_s_q q s).

Definition attempt_merge (req next : nat) (s : state) : option (bool * state) :=
  let rq := rq_of (s_q s) req in
  let nx := rq_of (s_q s) next in
  if negb (rq_mergeable rq) || negb (rq_mergeable nx) then Some (false, s)
  else if negb (rq_end_sector rq =? er_pos nx) then Some (false, s)
  else if negb (eqb (er_write rq) (er_write nx)) || negb (Nat.eqb (er_disk rq) (er_disk nx))
          || er_special nx then Some (false, s)
  else if negb (eqb (er_integrity rq) (er_integrity nx)) then Some (false, s)
  else
    '(ok, s) ← ll_merge_requests_fn req next s;
    if negb ok then Some (false, s)
    else
      d ← s_data s !! req;
      d' ← s_data s !! next;
      s ← (if r_mixed d || r_mixed d' || negb (r_failfast d =? r_failfast d') then
             s ← blk_rq_set_mixed_merge req s; blk_rq_set_mixed_merge next s
           else Some s);
      s ← take_over req next s;
      Some (true, s).

Definition attempt_back_merge (rq : nat) (s : state) : option (bool * state) :=
  match sched_latter (s_q s) rq with
  | Some next => attempt_merge rq next s
  | None => Some (false, s)
  end.

Definition attempt_front_merge (rq : nat) (s : state) : option (bool * state) :=
  match sched_former (s_q s) rq with
  | Some prev => attempt_merge prev rq s
  | None => Some (false, s)
  end.

(** ** [__make_request] *)

(** Where the first half leaves a bio: in a request of the queue, without a
    request yet, or ended because barriers are not supported. *)
Inductive submitted := Merged | Needs_request | Refused.

(** The request takes over what it inherits from a merged bio. *)
Definition absorb (x : bio) (first last : option nat) (d : rq_data) : rq_data :=
  mk_rd first last (u32 (r_data_len d + bi_size x)) (r_nr_phys_segments d) (r_failfast d)
    (r_mixed d) (r_copy_user d) (r_extra_len d) (ioprio_best (r_ioprio d) (bio_prio x))
    (if r_cpu d =? -1 then s32 (bi_comp_cpu x) else r_cpu d) (r_start_time d).

Definition back_merge (req b : nat) (s : state) : option (bool * state) :=
  if negb (rq_mergeable (rq_of (s_q s) req)) then None
  else
    x ← s_bios s !! b;
    let ff := Z.land (bi_rw x) REQ_FAILFAST_MASK in
    '(ok, s) ← ll_back_merge_fn req b s;
    if negb ok then Some (false, s)
    else
      d ← s_data s !! req;
      s ← (if r_failfast d =? ff then Some s else blk_rq_set_mixed_merge req s);
      d ← s_data s !! req;
      tail ← r_biotail d;
      bs ← upd_bio tail (set_bi_next (Some b)) (s_bios s);
      let d := absorb x (r_bio d) (Some b) d in
      let q := upd_rq req (grow_front (er_pos (rq_of (s_q s) req)) (blk_rq_sectors d)) (s_q s) in
      let s := set_data req d (mk_subq q bs (s_data s)) in
      '(coalesced, s) ← attempt_back_merge req s;
      if (coalesced : bool) then Some (true, s)
      else q ← elv_merged_request req BACK_MERGE (s_q s); Some (true, set_s_q q s).

Definition front_merge (req b : nat) (s : state) : option (bool * state) :=
  if negb (rq_mergeable (rq_of (s_q s) req)) then None
  else
    x ← s_bios s !! b;
    let ff := Z.land (bi_rw x) REQ_FAILFAST_MASK in
    '(ok, s) ← ll_front_merge_fn req b s;
    if negb ok then Some (false, s)
    else
      d ← s_data s !! req;
      s ← (if r_failfast d =? ff then Some s
           else
             s ← blk_rq_set_mixed_merge req s;
             d ← s_data s !! req;
             Some (set_data req (set_failfast ff (r_mixed d) d) s));
      d ← s_data s !! req;
      bs ← upd_bio b (set_bi_next (r_bio d)) (s_bios s);
      let d := absorb x (Some b) (r_biotail d) d in
      let q := upd_rq req (grow_front (bi_sector x) (blk_rq_sectors d)) (s_q s) in
      let s := set_data req d (mk_subq q bs (s_data s)) in
      '(coalesced, s) ← attempt_front_merge req s;
      if (coalesced : bool) then Some (true, s)
      else q ← elv_merged_request req FRONT_MERGE (s_q s); Some (true, set_s_q q s).

(** Up to the label [get_rq]. *)
Definition make_request_merge (b : nat) (s : state) : option (submitted * state) :=
  x ← s_bios s !! b;
  let barrier := bio_rw_flagged x BIO_RW_BARRIER in
  if barrier && (o_next (q_ord (s_q s)) =? QUEUE_ORDERED_NONE) then Some (Refused, s)
  else if barrier || elv_queue_empty (s_q s) then Some (Needs_request, s)
  else
    let '(k, req, q) := elv_merge (ebio_of x) (s_q s) in
    let s := set_s_q q s in
    '(merged, s) ← match k, req with
                   | BACK_MERGE, Some req => back_merge req b s
                   | FRONT_MERGE, Some req => front_merge req b s
                   | _, _ => Some (false, s)
                   end;
    Some (if (merged : bool) then Merged else Needs_request, s).

(** *** A request of its own *)

(** What the allocation leaves: [rw_flags] and whether the scheduler attached
    its data. *)
Definition alloc_flags (x : bio) (priv : bool) (r : erq) : erq :=
  mk_erq (er_pos r) (er_sectors r) (bio_data_dir x) (er_discard r) (er_fs r) (er_pc r)
    (bio_rw_flagged x BIO_RW_SYNCIO) (er_nomerge r) (er_soft r) (er_hard r) (er_started r)
    (er_sorted r) priv (er_color r) (er_disk r) (er_special r) (er_integrity r) (er_fifo_time r).

(** The members of the elevator in [init_request_from_bio] and
    [blk_rq_bio_prep]. *)
Definition init_request_from_bio (x : bio) (r : erq) : erq :=
  mk_erq (bi_sector x) (bio_sectors x) (er_write r || bio_data_dir x)
    (er_discard r || bio_rw_flagged x BIO_RW_DISCARD) true false
    (er_rw_sync r || bio_rw_flagged x BIO_RW_SYNCIO) (er_nomerge r) (er_soft r)
    (er_hard r || bio_rw_flagged x BIO_RW_BARRIER) (er_started r) (er_sorted r) (er_elvpriv r)
    (er_color r) (bi_disk x) (er_special r) (bi_integrity x) (er_fifo_time r).

(** The members of the data in the same two functions; [now] is [start_time]. *)
Definition blk_rq_bio_prep (b : nat) (now : Z) (bs : bio_store) : option (rq_data * bio_store) :=
  x ← bs !! b;
  '(n, bs) ← (if bio_has_data x then bio_phys_segments L b bs else Some (0, bs));
  let ff := if bio_rw_flagged x BIO_RW_AHEAD then REQ_FAILFAST_MASK
            else Z.land (bi_rw x) REQ_FAILFAST_MASK in
  Some (mk_rd (Some b) (Some b) (bi_size x) (u16 n) ff false false 0 (bio_prio x)
          (s32 (bi_comp_cpu x)) now, bs).

Definition set_r_cpu (v : Z) (d : rq_data) : rq_data :=
  mk_rd (r_bio d) (r_biotail d) (r_data_len d) (r_nr_phys_segments d) (r_failfast d) (r_mixed d)
    (r_copy_user d) (r_extra_len d) (r_ioprio d) v (r_start_time d).

(** From the return of [get_request_wait]: [req] is the free request.
    [same_comp] is the flag of the queue, [group] the group of the current
    processor; the drain of a barrier takes no more rounds than the scheduler
    has requests. *)
Definition make_request_new (b req : nat) (priv same_comp : bool) (now group : Z) (s : state)
    : option state :=
  x ← s_bios s !! b;
  '(d, bs) ← blk_rq_bio_prep b now (s_bios s);
  let d := if same_comp || bi_cpu_affine x then set_r_cpu group d else d in
  let r := init_request_from_bio x (alloc_flags x priv blk_rq_init) in
  let q := upd_rq req (λ _, r) (s_q s) in
  q ← __elv_add_request (S (length (sched_contents (edata q)))) req ELEVATOR_INSERT_SORT q;
  Some (mk_subq q bs (<[req := d]> (s_data s))).
End merging.
