(* ===== verification/RequestData.v ===== *)
(** * The data of a request

    What makes the bios of a request and the counts kept in it fit together
    ([request_ok]): the bios form a chain from [bio] to [biotail], they lie one
    behind the other on the disk, their sizes add up to the length of the
    request, and their fragments can be cut into as many segments as the request
    counts.  The lemmas say how the operations of [Segments] and [Submit] on the
    store of bios keep it. *)
From stdpp Require Import gmap list.
From S2P Require Import Prelude Elevator Noop Deadline BlkQueue Segments Submit.

(** ** Chains of bios *)

Fixpoint linked (bs : bio_store) (l : list nat) : Prop :=
  match l with
  | [] => True
  | i :: l => (∃ x, bs !! i = Some x ∧ bi_next x = head l) ∧ linked bs l
  end.

Lemma linked_elem bs l i : linked bs l → i ∈ l → is_Some (bs !! i).
Proof.
  induction l as [|j l IH]; cbn [linked]; [by intros _ ?%elem_of_nil|].
  intros [(x & Hx & _) Hl] [->|Hi]%elem_of_cons; eauto.
Qed.

Lemma chain_linked fuel bs l :
  linked bs l → (length l < fuel)%nat → chain fuel bs (head l) = Some l.
Proof.
  revert fuel. induction l as [|i l IH]; intros fuel; cbn [linked head chain length].
  - by destruct fuel.
  - intros [(x & Hx & Hn) Hl] Hf. destruct fuel as [|fuel]; [lia|]. cbn [chain].
    rewrite Hx. cbn [mbind option_bind]. rewrite Hn, IH by (done || lia). done.
Qed.

Lemma chain_end fuel bs : chain fuel bs None = Some [].
Proof. by destruct fuel. Qed.

(** A chain without repetition is walked to its end. *)
Lemma for_each_linked bs l :
  linked bs l → NoDup l → for_each_bio bs (head l) = Some l.
Proof.
  intros Hl Hnd. apply chain_linked; [done|].
  assert (length l ≤ size (dom bs))%nat.
  { rewrite <- (size_list_to_set (C := gset nat) l Hnd). apply subseteq_size.
    intros i. rewrite elem_of_list_to_set, elem_of_dom. by apply linked_elem. }
  rewrite size_dom in *. lia.
Qed.

Lemma linked_frame bs bs' l :
  linked bs l →
  (∀ i x, i ∈ l → bs !! i = Some x → ∃ x', bs' !! i = Some x' ∧ bi_next x' = bi_next x) →
  linked bs' l.
Proof.
  induction l as [|i l IH]; cbn [linked]; [done|]. intros [(x & Hx & Hn) Hl] Hf. split.
  - destruct (Hf i x) as (x' & ? & ?); [by left|done|]. exists x'. split; [done|congruence].
  - apply IH; [done|]. intros j y Hj. apply Hf. by right.
Qed.

(** Linking two chains through the last bio of the first. *)
Lemma linked_app bs l1 t x l2 :
  linked bs (l1 ++ [t]) → linked bs l2 → bs !! t = Some x → t ∉ l1 → t ∉ l2 →
  linked (<[t := set_bi_next (head l2) x]> bs) ((l1 ++ [t]) ++ l2).
Proof.
  intros H1 H2 Ht Hn1 Hn2.
  assert (linked (<[t := set_bi_next (head l2) x]> bs) l2) as H2'.
  { eapply linked_frame; [done|]. intros i y Hi Hy. exists y.
    rewrite lookup_insert_ne by (by intros ->). done. }
  clear H2. induction l1 as [|i l1 IH]; cbn [app linked head] in *.
  - split; [|done]. eexists. rewrite lookup_insert_eq. done.
  - destruct H1 as [(y & Hy & Hn) H1]. apply not_elem_of_cons in Hn1 as [Hti Hn1].
    split; [|by apply IH]. exists y. rewrite lookup_insert_ne by done. split; [done|].
    rewrite Hn. by destruct l1.
Qed.

(** ** Bios *)

(** What the block layer never changes in a bio. *)
Definition same_static (x y : bio) : Prop :=
  bi_sector y = bi_sector x ∧ bi_size y = bi_size x ∧ bi_idx y = bi_idx x ∧
  bi_io_vec y = bi_io_vec x ∧ bi_disk y = bi_disk x ∧ bio_data_dir y = bio_data_dir x ∧
  ∀ ff, Z.land (bi_rw x) ff = ff → Z.land (bi_rw y) ff = ff.

Section data.
Context (L : limits).

(** A bio as it is submitted: whole sectors within the address space, data in
    fragments that the queue takes, or the empty barrier of a flush. *)
Definition bio_ok (x : bio) : Prop :=
  (0 ≤ bi_sector x ∧ bi_sector x + bio_sectors x < 2 ^ 64) ∧
  (0 ≤ bi_size x < 2 ^ 32 ∧ bi_size x = 512 * bio_sectors x) ∧
  (0 ≤ bi_seg_front_size x < 2 ^ 31 ∧ 0 ≤ bi_seg_back_size x < 2 ^ 31) ∧
  Forall (vec_ok L) (bio_segs x) ∧ Z.of_nat (length (bio_segs x)) < 2 ^ 16 - 1 ∧
  (bio_segs x = [] → bi_io_vec x = None) ∧
  (bio_segs x ≠ [] → 0 < bi_size x).

(** The count of a bio, once it is valid, is that of a cut. *)
Definition counted_bio (x : bio) : Prop :=
  ∃ f s, cut L (bio_segs x) (bi_phys_segments x) f s ∧
    f ≤ bi_seg_front_size x ∧ s ≤ bi_seg_back_size x.

(** A bio that is not in a request yet. *)
Definition fresh_bio (x : bio) : Prop :=
  bi_next x = None ∧ (bi_seg_valid x = true → bio_segs x ≠ [] → counted_bio x).

(** The sizes of the first and the last segment only grow. *)
Definition bio_le (x y : bio) : Prop :=
  same_static x y ∧ bi_next y = bi_next x ∧
  bi_seg_front_size x ≤ bi_seg_front_size y ∧ bi_seg_back_size x ≤ bi_seg_back_size y.

#[export] Instance bio_le_preorder : PreOrder bio_le.
Proof.
  unfold bio_le, same_static. split; [intros ?; split_and!; done || lia|].
  intros x y z ((? & ? & ? & ? & ? & ? & ?) & ? & ? & ?) ((? & ? & ? & ? & ? & ? & ?) & ? & ? & ?).
  split_and!; lia || congruence || eauto.
Qed.

Lemma same_static_segs x y : same_static x y → bio_segs y = bio_segs x.
Proof. intros (_ & _ & Hi & Hv & _). unfold bio_segs, io_vec. by rewrite Hi, Hv. Qed.

Lemma same_static_sectors x y : same_static x y → bio_sectors y = bio_sectors x.
Proof. intros (_ & Hs & _). unfold bio_sectors. by rewrite Hs. Qed.

(** Every bio of the store is kept, those outside [ids] unchanged. *)
Definition grown (ids : list nat) (bs bs' : bio_store) : Prop :=
  dom bs' = dom bs ∧ (∀ i, i ∉ ids → bs' !! i = bs !! i) ∧
  (∀ i x, bs !! i = Some x → bio_ok x → ∃ y, bs' !! i = Some y ∧ bio_le x y ∧ bio_ok y).

Lemma grown_refl ids bs : grown ids bs bs.
Proof. split_and!; [done|done|]. intros i x Hx Ho. by exists x. Qed.

Lemma grown_trans ids bs1 bs2 bs3 : grown ids bs1 bs2 → grown ids bs2 bs3 → grown ids bs1 bs3.
Proof.
  intros (D1 & N1 & K1) (D2 & N2 & K2). split_and!; [congruence| |].
  - intros i Hi. by rewrite N2, N1.
  - intros i x Hx Ho. destruct (K1 i x Hx Ho) as (y & Hy & Hxy & Hoy).
    destruct (K2 i y Hy Hoy) as (z & Hz & Hyz & Hoz). exists z.
    split_and!; [done|by etransitivity|done].
Qed.

Lemma grown_weaken ids ids' bs bs' : ids ⊆ ids' → grown ids bs bs' → grown ids' bs bs'.
Proof. intros Hs (? & N & ?). split_and!; [done| |done]. intros i Hi. apply N. set_solver. Qed.

Lemma grown_insert i x y bs :
  bs !! i = Some x → bio_le x y → (bio_ok x → bio_ok y) → grown [i] bs (<[i := y]> bs).
Proof.
  intros Hx Hle Ho. split_and!.
  - rewrite dom_insert_L. apply elem_of_dom_2 in Hx. set_solver.
  - intros j Hj. rewrite lookup_insert_ne; [done|set_solver].
  - intros j z Hz Hoz. destruct (decide (j = i)) as [->|Hne].
    + simplify_eq. exists y. rewrite lookup_insert_eq. eauto.
    + exists z. by rewrite lookup_insert_ne.
Qed.

(** ** Counting the segments of one bio *)

Context (HL : max_segment_size L < 2 ^ 31).

Lemma bio_ok_sizes x y :
  same_static x y → 0 ≤ bi_seg_front_size y < 2 ^ 31 → 0 ≤ bi_seg_back_size y < 2 ^ 31 →
  bio_ok x → bio_ok y.
Proof.
  intros Hst Hf Hb (? & ? & _ & ? & ? & Hn & ?). unfold bio_ok.
  rewrite (same_static_sectors x y Hst), (same_static_segs x y Hst).
  destruct Hst as (-> & -> & _ & -> & _). done.
Qed.

Lemma upd_bio_some i f bs x : bs !! i = Some x → upd_bio i f bs = Some (<[i := f x]> bs).
Proof. intros E. unfold upd_bio. by rewrite E. Qed.

Lemma recount_spec b bs x :
  bs !! b = Some x → bio_ok x → bio_segs x ≠ [] →
  ∃ y, blk_recount_segments L b bs = Some (<[b := y]> bs) ∧ bio_le x y ∧ bio_ok y ∧
    bi_seg_valid y = true ∧ counted_bio y.
Proof.
  intros Hx Ho Hne. unfold blk_recount_segments. rewrite Hx. cbn [mbind option_bind].
  rewrite (upd_bio_some b _ bs x) by done. cbn [mbind option_bind].
  set (x1 := set_bi_next None x). unfold __blk_recalc_rq_segments, for_each_bio.
  cbn [chain]. rewrite lookup_insert_eq. cbn [mbind option_bind bi_next x1 set_bi_next].
  rewrite chain_end. cbn [mbind option_bind last].
  unfold vecs. cbn [list_bind mbind]. rewrite lookup_insert_eq. cbn [from_option].
  rewrite app_nil_r. change (bio_segs x1) with (bio_segs x).
  change (bi_seg_front_size x1) with (bi_seg_front_size x).
  pose proof Ho as (_ & _ & [Hf Hb] & Hv & Hlen & _ & _).
  destruct (recalc_loop_counted L HL (bi_seg_front_size x) (bio_segs x))
    as (_ & Hfr & f & Hcut & Hff); [done|done|lia|done|].
  set (st := recalc_loop L (bi_seg_front_size x) (bio_segs x)) in *.
  destruct (cut_bounds L _ _ _ _ Hcut Hv) as (Hk & Hf0 & Hs0 & _ & Hfs).
  set (fs := front_size _ _ _).
  assert (bi_seg_front_size x ≤ fs < 2 ^ 31 ∧ f ≤ fs) as [Hfs1 Hfs2].
  { assert (bi_seg_front_size x ≤ rc_front st) by apply recalc_front_mono.
    unfold fs, front_size. destruct (Z.eqb_spec (rc_nr st) 1) as [E|E]; cbn [andb].
    - rewrite (Hfs E). destruct (Z.ltb_spec (rc_front st) (rc_seg_size st)); lia.
    - destruct Hff; [done|lia]. }
  rewrite (upd_bio_some b _ _ x1) by (by rewrite lookup_insert_eq). cbn [mbind option_bind].
  erewrite upd_bio_some by apply lookup_insert_eq. cbn [mbind option_bind].
  erewrite upd_bio_some by apply lookup_insert_eq. cbn [mbind option_bind].
  erewrite upd_bio_some by apply lookup_insert_eq. rewrite !insert_insert_eq.
  eexists. split; [reflexivity|].
  set (bk := if _ <? _ then _ else _).
  assert (bi_seg_back_size x ≤ bk < 2 ^ 31 ∧ rc_seg_size st ≤ bk) as [Hbk1 Hbk2].
  { unfold bk. cbn. destruct (Z.ltb_spec (bi_seg_back_size x) (rc_seg_size st)); lia. }
  split_and!.
  - unfold bio_le, same_static. cbn. split_and!; done || lia.
  - eapply bio_ok_sizes; [|cbn; lia..|exact Ho]. unfold same_static. by split_and!.
  - done.
  - exists f, (rc_seg_size st). cbn. split_and!; done || lia.
Qed.

Lemma ensure_counted_spec b bs x :
  bs !! b = Some x → bio_ok x → bio_segs x ≠ [] →
  ∃ bs' y, ensure_counted L b bs = Some bs' ∧ grown [b] bs bs' ∧ bs' !! b = Some y ∧
    bio_le x y ∧ bio_ok y ∧ bi_seg_valid y = true ∧
    ((bi_seg_valid x = true → counted_bio x) → counted_bio y).
Proof.
  intros Hx Ho Hne. unfold ensure_counted. rewrite Hx. cbn [mbind option_bind].
  destruct (bi_seg_valid x) eqn:Ev.
  - exists bs, x. split_and!; try done; [apply grown_refl|auto].
  - destruct (recount_spec b bs x Hx Ho Hne) as (y & E & Hle & Hoy & Hv & Hc).
    exists (<[b := y]> bs), y. rewrite lookup_insert_eq.
    split_and!; try done. by eapply grown_insert.
Qed.

(** ** Attributes of a mixed merge *)

Definition ff_ok (ff : Z) : Prop := Z.land ff REQ_FAILFAST_MASK = ff.

Lemma ff_dir ff w : ff_ok ff → Z.testbit (Z.lor w ff) 0 = Z.testbit w 0.
Proof.
  intros <-. rewrite Z.lor_spec, Z.land_spec.
  replace (Z.testbit REQ_FAILFAST_MASK 0) with false by done.
  by rewrite andb_false_r, orb_false_r.
Qed.

Lemma lor_keeps w ff f : Z.land w f = f → Z.land (Z.lor w ff) f = f.
Proof.
  intros E. rewrite Z.land_lor_distr_l, E. apply Z.bits_inj'. intros n _.
  rewrite Z.lor_spec, Z.land_spec. by destruct (Z.testbit f n); rewrite ?andb_false_r.
Qed.

Lemma distribute_grown ff l bs : ff_ok ff → grown l bs (distribute ff l bs).
Proof.
  intros Hff. induction l as [|i l IH]; [apply grown_refl|]. cbn [distribute foldr].
  fold (distribute ff l bs). set (bs' := distribute ff l bs) in *.
  eapply grown_trans; [by eapply grown_weaken, IH; set_solver|].
  destruct (bs' !! i) as [x|] eqn:Ex.
  - assert (alter (λ x, set_bi_rw (Z.lor (bi_rw x) ff) x) i bs' =
      <[i := set_bi_rw (Z.lor (bi_rw x) ff) x]> bs') as ->.
    { apply map_eq. intros j. destruct (decide (j = i)) as [->|].
      - by rewrite lookup_alter_eq, lookup_insert_eq, Ex.
      - by rewrite lookup_alter_ne, lookup_insert_ne by done. }
    assert (same_static x (set_bi_rw (Z.lor (bi_rw x) ff) x)) as Hst.
    { split_and!; try done; [unfold bio_data_dir; cbn; by apply ff_dir|].
      intros f Hf. by apply lor_keeps. }
    eapply grown_weaken; [|eapply grown_insert; [exact Ex| |]]; [set_solver| |].
    + split_and!; done || lia.
    + intros Ho. pose proof Ho as (_ & _ & [? ?] & _). by eapply bio_ok_sizes.
  - rewrite alter_id; [apply grown_refl|]. intros x. by rewrite Ex.
Qed.

(** ** Runs of bios *)

Definition sectors (bs : bio_store) (l : list nat) : Z :=
  foldr (λ i n, from_option bio_sectors 0 (bs !! i) + n) 0 l.

(** The bios lie one behind the other from [pos] on. *)
Fixpoint placed (bs : bio_store) (pos : Z) (l : list nat) : Prop :=
  match l with
  | [] => True
  | i :: l => ∃ x, bs !! i = Some x ∧ bi_sector x = pos ∧ placed bs (pos + bio_sectors x) l
  end.

Definition uniform (bs : bio_store) (l : list nat) (write : bool) (disk : nat) : Prop :=
  ∀ i x, i ∈ l → bs !! i = Some x → bio_data_dir x = write ∧ bi_disk x = disk.

(** The bios carry data, and [nr] segments are enough for it. *)
Definition segmented (bs : bio_store) (l : list nat) (nr : Z) : Prop :=
  (∀ i x, i ∈ l → bs !! i = Some x → bio_segs x ≠ []) ∧
  ∃ f s, cut L (vecs bs l) nr f s ∧
    (∀ i x, head l = Some i → bs !! i = Some x → f ≤ bi_seg_front_size x) ∧
    (∀ i x, last l = Some i → bs !! i = Some x → s ≤ bi_seg_back_size x).

Definition store_ok (bs : bio_store) : Prop := ∀ i x, bs !! i = Some x → bio_ok x.

(** The store may change without the run noticing. *)
Definition kept (l : list nat) (bs bs' : bio_store) : Prop :=
  ∀ i, i ∈ l → ∃ x y, bs !! i = Some x ∧ bs' !! i = Some y ∧ same_static x y.

Lemma kept_cons i l bs bs' : kept (i :: l) bs bs' → kept l bs bs'.
Proof. intros H j Hj. apply H. by right. Qed.

Lemma vecs_cons bs i l : vecs bs (i :: l) = from_option bio_segs [] (bs !! i) ++ vecs bs l.
Proof. done. Qed.

Lemma vecs_app bs l1 l2 : vecs bs (l1 ++ l2) = vecs bs l1 ++ vecs bs l2.
Proof. unfold vecs. by rewrite bind_app. Qed.

Lemma vecs_kept l bs bs' : kept l bs bs' → vecs bs' l = vecs bs l.
Proof.
  induction l as [|i l IH]; [done|]. intros H. rewrite !vecs_cons, IH by (by eapply kept_cons).
  destruct (H i) as (x & y & -> & -> & Hst); [by left|]. cbn. by rewrite (same_static_segs x y).
Qed.

Lemma sectors_kept l bs bs' : kept l bs bs' → sectors bs' l = sectors bs l.
Proof.
  induction l as [|i l IH]; [done|]. intros H. cbn [sectors foldr].
  fold (sectors bs' l) (sectors bs l). rewrite IH by (by eapply kept_cons).
  destruct (H i) as (x & y & -> & -> & Hst); [by left|]. cbn. by rewrite (same_static_sectors x y).
Qed.

Lemma placed_kept l bs bs' pos : kept l bs bs' → placed bs pos l → placed bs' pos l.
Proof.
  revert pos. induction l as [|i l IH]; intros pos; [done|]. cbn [placed]. intros H (x & Hx & Hp & Hl).
  destruct (H i) as (x0 & y & Hx0 & Hy & Hst); [by left|]. simplify_eq. exists y.
  pose proof Hst as (-> & _). rewrite (same_static_sectors x y) by done.
  split_and!; [done|done|]. apply IH; [by eapply kept_cons|done].
Qed.

Lemma uniform_kept l bs bs' w k : kept l bs bs' → uniform bs l w k → uniform bs' l w k.
Proof.
  intros H Hu i y Hi Hy. destruct (H i Hi) as (x & y0 & Hx & Hy0 & Hst). simplify_eq.
  destruct (Hu i x Hi Hx) as [<- <-]. by destruct Hst as (_ & _ & _ & _ & ? & ? & _).
Qed.

Lemma segmented_kept l bs bs' nr :
  kept l bs bs' →
  (∀ i x y, i ∈ l → bs !! i = Some x → bs' !! i = Some y →
     bi_seg_front_size x ≤ bi_seg_front_size y ∧ bi_seg_back_size x ≤ bi_seg_back_size y) →
  segmented bs l nr → segmented bs' l nr.
Proof.
  intros H Hle (Hne & f & s & Hc & Hf & Hs). split.
  - intros i y Hi Hy. destruct (H i Hi) as (x & y0 & Hx & Hy0 & Hst). simplify_eq.
    rewrite (same_static_segs x y) by done. by eapply Hne.
  - exists f, s. rewrite (vecs_kept l bs bs') by done. split_and!; [done| |].
    + intros i y Hi Hy. assert (i ∈ l) as Hin by (by apply head_Some_elem_of).
      destruct (H i Hin) as (x & y0 & Hx & Hy0 & Hst). simplify_eq.
      specialize (Hf i x Hi Hx). destruct (Hle i x y); try done. lia.
    + intros i y Hi Hy. assert (i ∈ l) as Hin by (by apply last_Some_elem_of).
      destruct (H i Hin) as (x & y0 & Hx & Hy0 & Hst). simplify_eq.
      specialize (Hs i x Hi Hx). destruct (Hle i x y); try done. lia.
Qed.

Lemma grown_kept ids l bs bs' :
  store_ok bs → (∀ i, i ∈ l → is_Some (bs !! i)) → grown ids bs bs' → kept l bs bs'.
Proof.
  intros Ho Hl (_ & _ & K) i Hi. destruct (Hl i Hi) as [x Hx].
  destruct (K i x Hx (Ho i x Hx)) as (y & Hy & (Hst & _) & _). by exists x, y.
Qed.

Lemma grown_store ids bs bs' : store_ok bs → grown ids bs bs' → store_ok bs'.
Proof.
  intros Ho (D & _ & K) i y Hy.
  assert (is_Some (bs !! i)) as [x Hx].
  { apply elem_of_dom. rewrite <- D. by eapply elem_of_dom_2. }
  destruct (K i x Hx (Ho i x Hx)) as (y' & Hy' & _ & ?). by simplify_eq.
Qed.

(** *** Runs put together *)

Lemma sectors_app bs l1 l2 : sectors bs (l1 ++ l2) = sectors bs l1 + sectors bs l2.
Proof.
  induction l1 as [|i l1 IH]; [done|]. cbn [app sectors foldr].
  fold (sectors bs (l1 ++ l2)) (sectors bs l1). lia.
Qed.

Lemma placed_app bs pos l1 l2 :
  placed bs pos l1 → placed bs (pos + sectors bs l1) l2 → placed bs pos (l1 ++ l2).
Proof.
  revert pos. induction l1 as [|i l1 IH]; intros pos; cbn [app placed sectors foldr].
  - by rewrite Z.add_0_r.
  - fold (sectors bs l1). intros (x & Hx & Hp & H1) H2. exists x. split_and!; [done|done|].
    apply IH; [done|]. rewrite Hx in H2. cbn [from_option] in H2. by rewrite <- Z.add_assoc.
Qed.

Lemma placed_range bs pos l :
  store_ok bs → placed bs pos l → l ≠ [] →
  0 ≤ pos ∧ pos + sectors bs l < 2 ^ 64 ∧ 0 ≤ sectors bs l.
Proof.
  intros Ho. revert pos. induction l as [|i l IH]; intros pos; [done|]. cbn [placed sectors foldr].
  fold (sectors bs l). intros (x & Hx & Hp & Hl) _. rewrite Hx. cbn [from_option].
  destruct (Ho i x Hx) as ((? & ?) & (? & ?) & _).
  destruct l as [|j l]; [cbn; lia|]. destruct (IH (pos + bio_sectors x)) as (? & ? & ?); [done..|].
  lia.
Qed.

Lemma segs_last x p : bio_segs x ≠ [] → __BVEC_END x = Some p ↔ last (bio_segs x) = Some p.
Proof.
  unfold bio_segs, __BVEC_END. intros Hne. rewrite <- last_lookup.
  rewrite <- (take_drop (bi_idx x) (io_vec x)) at 1. rewrite last_app.
  by destruct (last (drop _ _)) eqn:E; [|apply last_None in E].
Qed.

Lemma segs_head x : __BVEC_START x = head (bio_segs x).
Proof. unfold __BVEC_START, bio_segs. by rewrite head_lookup, lookup_drop, Nat.add_0_r. Qed.

Lemma vecs_last bs l t x :
  last l = Some t → bs !! t = Some x → bio_segs x ≠ [] → last (vecs bs l) = last (bio_segs x).
Proof.
  intros [l' ->]%last_Some Hx Hne. rewrite vecs_app, vecs_cons, Hx. cbn. rewrite app_nil_r.
  rewrite last_app. by destruct (last (bio_segs x)) eqn:E; [|apply last_None in E].
Qed.

Lemma vecs_head bs l t x :
  head l = Some t → bs !! t = Some x → bio_segs x ≠ [] → head (vecs bs l) = head (bio_segs x).
Proof.
  destruct l as [|i l]; [done|]. intros [= ->] Hx Hne. rewrite vecs_cons, Hx. cbn.
  by destruct (bio_segs x).
Qed.

Lemma vecs_ok bs l : store_ok bs → Forall (vec_ok L) (vecs bs l).
Proof.
  intros Ho. induction l as [|i l IH]; [constructor|]. rewrite vecs_cons. apply Forall_app.
  split; [|done]. destruct (bs !! i) as [x|] eqn:Hx; [|constructor].
  by destruct (Ho i x Hx) as (_ & _ & _ & ? & _).
Qed.

Lemma segmented_app bs l1 l2 n1 n2 :
  store_ok bs → l1 ≠ [] → l2 ≠ [] → segmented bs l1 n1 → segmented bs l2 n2 →
  segmented bs (l1 ++ l2) (n1 + n2).
Proof.
  intros Ho Hn1 Hn2 (N1 & f1 & s1 & C1 & F1 & S1) (N2 & f2 & s2 & C2 & F2 & S2). split.
  - intros i x [?|?]%elem_of_app; eauto.
  - exists f1, s2. rewrite vecs_app. split_and!.
    + eapply cut_app; eauto using vecs_ok.
    + intros i x Hi. apply F1. by destruct l1.
    + intros i x Hi. apply S2. rewrite last_app in Hi.
      destruct (last l2) eqn:E; [done|]. by apply last_None in E.
Qed.

(** The sizes after two segments were found to be one. *)
Definition resized (l1 l2 : list nat) (n1 n2 sz : Z) (bs bs' : bio_store) : Prop :=
  dom bs' = dom bs ∧ (∀ i, head l1 ≠ Some i → last l2 ≠ Some i → bs' !! i = bs !! i) ∧
  ∀ i x y, bs !! i = Some x → bs' !! i = Some y →
    same_static x y ∧ bi_next y = bi_next x ∧
    bi_seg_front_size y = (if bool_decide (n1 = 1 ∧ head l1 = Some i) then sz
                           else bi_seg_front_size x) ∧
    bi_seg_back_size y = (if bool_decide (n2 = 1 ∧ last l2 = Some i) then sz
                          else bi_seg_back_size x).

Lemma resized_kept l l1 l2 n1 n2 sz bs bs' :
  (∀ i, i ∈ l → is_Some (bs !! i)) → resized l1 l2 n1 n2 sz bs bs' → kept l bs bs'.
Proof.
  intros Hl (D & _ & K) i Hi. destruct (Hl i Hi) as [x Hx].
  assert (is_Some (bs' !! i)) as [y Hy].
  { apply elem_of_dom. rewrite D. by eapply elem_of_dom_2. }
  exists x, y. split_and!; [done|done|]. by destruct (K i x y Hx Hy).
Qed.

(** What the test found: the fragments that meet can be in one segment. *)
Lemma contig_join xt xn :
  bio_ok xt → bio_segs xt ≠ [] →
  in_u32 (bi_seg_back_size xt + bi_seg_front_size xn) →
  blk_phys_contig_segment L xt xn = Some true →
  bi_seg_back_size xt + bi_seg_front_size xn ≤ max_segment_size L ∧
  ∃ p v, last (bio_segs xt) = Some p ∧ head (bio_segs xn) = Some v ∧ joinable L p v = true.
Proof.
  intros (_ & _ & _ & _ & _ & Hio & _) Hst Hu. unfold blk_phys_contig_segment. rewrite u32_small by done.
  destruct (cluster L) eqn:Ecl; [|done]. cbn [negb].
  destruct (Z.ltb_spec (max_segment_size L) (bi_seg_back_size xt + bi_seg_front_size xn)); [done|].
  destruct (bio_has_data xt) eqn:Ehd; cycle 1.
  { exfalso. unfold bio_has_data in Ehd. apply bool_decide_eq_false in Ehd. apply Hst.
    apply eq_None_not_Some in Ehd. unfold bio_segs, io_vec. rewrite Ehd. cbn. by rewrite drop_nil. }
  cbn [negb]. intros (p & Hp & (v & Hv & Hc)%bind_Some)%bind_Some.
  apply segs_last in Hp; [|done]. rewrite segs_head in Hv. split; [done|]. exists p, v. split_and!; try done.
  unfold joinable. rewrite Ecl. cbn [andb]. destruct (BIOVEC_PHYS_MERGEABLE p v); [|done].
  cbn [negb andb] in *. congruence.
Qed.

Lemma kept_nonempty l bs bs' :
  kept l bs bs' → (∀ i x, i ∈ l → bs !! i = Some x → bio_segs x ≠ []) →
  ∀ i y, i ∈ l → bs' !! i = Some y → bio_segs y ≠ [].
Proof.
  intros Hk Hn i y Hi Hy. destruct (Hk i Hi) as (x & y0 & Hx & Hy0 & Hs). simplify_eq.
  rewrite (same_static_segs x y Hs). by eapply Hn.
Qed.

(** The outer sizes after the join: at least what a segment over the join may
    have. *)
Lemma resized_front l1 l2 n1 n2 sz bs bs' f f1 :
  kept l1 bs bs' → resized l1 l2 n1 n2 sz bs bs' →
  (∀ i x, head l1 = Some i → bs !! i = Some x → f1 ≤ bi_seg_front_size x) →
  (n1 = 1 → f ≤ sz) → (n1 ≠ 1 → f = f1) →
  ∀ i y, head l1 = Some i → bs' !! i = Some y → f ≤ bi_seg_front_size y.
Proof.
  intros Hk (_ & _ & K) F1 Hf Hf' i y Hi Hy.
  destruct (Hk i) as (x & y0 & Hx & Hy0 & _); [by apply head_Some_elem_of|].
  simplify_eq. destruct (K i x y Hx Hy) as (_ & _ & -> & _).
  case_bool_decide as Hb; [destruct Hb as [Hb _]; by specialize (Hf Hb)|].
  rewrite Hf' by (intros ->; tauto). by apply (F1 i).
Qed.

Lemma resized_back l1 l2 n1 n2 sz bs bs' s s2 :
  kept l2 bs bs' → resized l1 l2 n1 n2 sz bs bs' →
  (∀ i x, last l2 = Some i → bs !! i = Some x → s2 ≤ bi_seg_back_size x) →
  (n2 = 1 → s ≤ sz) → (n2 ≠ 1 → s = s2) →
  ∀ i y, last l2 = Some i → bs' !! i = Some y → s ≤ bi_seg_back_size y.
Proof.
  intros Hk (_ & _ & K) S2 Hf Hf' i y Hi Hy.
  destruct (Hk i) as (x & y0 & Hx & Hy0 & _); [by apply last_Some_elem_of|].
  simplify_eq. destruct (K i x y Hx Hy) as (_ & _ & _ & ->).
  case_bool_decide as Hb; [destruct Hb as [Hb _]; by specialize (Hf Hb)|].
  rewrite Hf' by (intros ->; tauto). by apply (S2 i).
Qed.

(** The sizes where the two met stay. *)
Lemma resized_inner l1 l2 n1 n2 sz bs bs' :
  NoDup (l1 ++ l2) → kept (l1 ++ l2) bs bs' → resized l1 l2 n1 n2 sz bs bs' →
  (∀ s, (∀ i x, last l1 = Some i → bs !! i = Some x → s ≤ bi_seg_back_size x) →
     ∀ i y, last l1 = Some i → bs' !! i = Some y → s ≤ bi_seg_back_size y) ∧
  (∀ f, (∀ i x, head l2 = Some i → bs !! i = Some x → f ≤ bi_seg_front_size x) →
     ∀ i y, head l2 = Some i → bs' !! i = Some y → f ≤ bi_seg_front_size y).
Proof.
  intros (_ & Hd & _)%NoDup_app Hk (_ & _ & K). split; intros s Hs i y Hi Hy.
  - assert (i ∈ l1) as Hin by (by apply last_Some_elem_of).
    destruct (Hk i) as (x & y0 & Hx & Hy0 & _); [apply elem_of_app; by left|]. simplify_eq.
    destruct (K i x y Hx Hy) as (_ & _ & _ & ->). rewrite bool_decide_false; [by eapply Hs|].
    intros [_ Hh%last_Some_elem_of]. by eapply Hd.
  - assert (i ∈ l2) as Hin by (by apply head_Some_elem_of).
    destruct (Hk i) as (x & y0 & Hx & Hy0 & _); [apply elem_of_app; by right|]. simplify_eq.
    destruct (K i x y Hx Hy) as (_ & _ & -> & _). rewrite bool_decide_false; [by eapply Hs|].
    intros [_ Hh%head_Some_elem_of]. by eapply Hd.
Qed.

Lemma contig_segments bs bs' l1 l2 n1 n2 t n xt xn :
  store_ok bs → NoDup (l1 ++ l2) → (∀ i, i ∈ l1 ++ l2 → is_Some (bs !! i)) →
  segmented bs l1 n1 → segmented bs l2 n2 →
  last l1 = Some t → head l2 = Some n → bs !! t = Some xt → bs !! n = Some xn →
  blk_phys_contig_segment L xt xn = Some true →
  resized l1 l2 n1 n2 (u32 (bi_seg_back_size xt + bi_seg_front_size xn)) bs bs' →
  segmented bs' l1 n1 ∧ segmented bs' l2 n2 ∧ segmented bs' (l1 ++ l2) (n1 + n2 - 1).
Proof.
  intros Ho Hnd Hdom (N1 & f1 & s1 & C1 & F1 & S1) (N2 & f2 & s2 & C2 & F2 & S2) Hl1 Hh2 Ht Hn Hc Hr.
  pose proof (resized_kept (l1 ++ l2) _ _ _ _ _ _ _ Hdom Hr) as Hk.
  assert (kept l1 bs bs') as Hk1 by (intros i Hi; apply Hk, elem_of_app; by left).
  assert (kept l2 bs bs') as Hk2 by (intros i Hi; apply Hk, elem_of_app; by right).
  destruct (resized_inner _ _ _ _ _ _ _ Hnd Hk Hr) as [Hin1 Hin2].
  destruct (cut_bounds L _ _ _ _ C1 (vecs_ok bs l1 Ho)) as (K1 & _ & B1 & _ & E1).
  destruct (cut_bounds L _ _ _ _ C2 (vecs_ok bs l2 Ho)) as (K2 & B2 & _ & _ & E2).
  pose proof (S1 t xt Hl1 Ht) as Hs1. pose proof (F2 n xn Hh2 Hn) as Hf2.
  assert (bio_segs xt ≠ []) as Hst by (eapply N1; [by apply last_Some_elem_of|done]).
  assert (bio_segs xn ≠ []) as Hsn by (eapply N2; [by apply head_Some_elem_of|done]).
  pose proof (Ho t xt Ht) as Hot. pose proof Hot as (_ & _ & [? ?] & _). destruct (Ho n xn Hn) as (_ & _ & [? ?] & _).
  rewrite u32_small in Hr by (unfold in_u32; lia).
  destruct (contig_join xt xn) as (Hmax & p & v & Hp & Hv & Hj); try done; [unfold in_u32; lia|].
  rewrite <- (vecs_last bs l1 t xt) in Hp by done. rewrite <- (vecs_head bs l2 n xn) in Hv by done.
  split_and!.
  - split; [by apply (kept_nonempty l1 bs)|]. exists f1, s1. rewrite (vecs_kept l1 bs bs') by done.
    split_and!; [done| |by apply Hin1].
    eapply (resized_front l1 l2); [done|exact Hr|exact F1| |done]. intros E. rewrite (E1 E). lia.
  - split; [by apply (kept_nonempty l2 bs)|]. exists f2, s2. rewrite (vecs_kept l2 bs bs') by done.
    split_and!; [done|by apply Hin2|].
    eapply (resized_back l1 l2); [done|exact Hr|exact S2| |done]. intros E. rewrite <- (E2 E). lia.
  - split.
    { apply (kept_nonempty _ bs); [done|]. intros i x [?|?]%elem_of_app; eauto. }
    eexists _, _. rewrite (vecs_kept (l1 ++ l2) bs bs'), vecs_app by done. split_and!.
    + eapply cut_join; eauto using vecs_ok. lia.
    + rewrite head_app. assert (∀ k, match head l1 with Some y => Some y | None => k end = head l1) as ->
        by (intros k; by destruct l1).
      eapply (resized_front l1 l2); [done|exact Hr|exact F1|..]; intros; destruct (Z.eqb_spec n1 1); done || lia.
    + rewrite last_app. assert (∀ k, match last l2 with Some y => Some y | None => k end = last l2) as ->
        by (intros k; destruct (last l2) eqn:Eh; [done|]; apply last_None in Eh; by subst).
      eapply (resized_back l1 l2); [done|exact Hr|exact S2|..]; intros; destruct (Z.eqb_spec n2 1); done || lia.
Qed.

Lemma contig_total xt xn :
  bio_segs xt ≠ [] → bio_segs xn ≠ [] → ∃ b, blk_phys_contig_segment L xt xn = Some b.
Proof.
  intros Ht Hn. unfold blk_phys_contig_segment. rewrite segs_head.
  destruct (last (bio_segs xt)) as [p|] eqn:Ep; [|by apply last_None in Ep].
  apply segs_last in Ep as ->; [|done]. destruct (bio_segs xn) as [|v vs]; [done|].
  cbn [head mbind option_bind]. repeat case_match; eauto.
Qed.

Lemma contig_size xt xn :
  blk_phys_contig_segment L xt xn = Some true →
  u32 (bi_seg_back_size xt + bi_seg_front_size xn) ≤ max_segment_size L.
Proof.
  unfold blk_phys_contig_segment. destruct (negb (cluster L)); [done|].
  by destruct (Z.ltb_spec (max_segment_size L) (u32 (bi_seg_back_size xt + bi_seg_front_size xn))).
Qed.

(** ** Requests *)

(** What [request_ok] looks at in the members of the elevator. *)
Definition view (r : erq) : Z * Z * bool * nat * (bool * bool * bool * bool) :=
  (er_pos r, er_sectors r, er_write r, er_disk r, (er_fs r, er_pc r, er_special r, er_hard r)).

(** The first bio is at least as eager to fail as [ff]. *)
Definition head_eager (bs : bio_store) (l : list nat) (ff : Z) : Prop :=
  ∀ i x, head l = Some i → bs !! i = Some x → Z.land (bi_rw x) ff = ff.

Record request_ok (bs : bio_store) (r : erq) (d : rq_data) (l : list nat) : Prop := {
  ro_linked : linked bs l;
  ro_ends : r_bio d = head l ∧ r_biotail d = last l ∧ l ≠ [];
  ro_len : r_data_len d = 512 * sectors bs l ∧ er_sectors r = sectors bs l ∧ sectors bs l < 2 ^ 23;
  ro_placed : placed bs (er_pos r) l;
  ro_uniform : uniform bs l (er_write r) (er_disk r);
  ro_flags : er_fs r = true ∧ er_pc r = false ∧ er_special r = false ∧
    r_copy_user d = false ∧ ff_ok (r_failfast d);
  ro_segs : vecs bs l = [] ∧ er_hard r = true ∧ r_nr_phys_segments d = 0 ∧ length l = 1%nat ∨
    segmented bs l (r_nr_phys_segments d) ∧ 0 < sectors bs l;
  ro_nr : 0 ≤ r_nr_phys_segments d < 2 ^ 16 - 1;
  ro_max : length l = 1%nat ∨
    r_nr_phys_segments d ≤ max_segments L ∧ sectors bs l ≤ max_sectors L;
  ro_mixed : r_mixed d = true → head_eager bs l (r_failfast d);
}.

Lemma ro_dom bs r d l i : request_ok bs r d l → i ∈ l → is_Some (bs !! i).
Proof. intros Hr. apply linked_elem, Hr. Qed.

Lemma request_ok_view bs r r' d l : view r' = view r → request_ok bs r d l → request_ok bs r' d l.
Proof.
  unfold view. intros E [H1 H2 H3 H4 H5 H6 H7 H8 H9 H10].
  injection E as E1 E2 E3 E4 E5 E6 E7 E8.
  split; rewrite ?E1, ?E2, ?E3, ?E4, ?E5, ?E6, ?E7, ?E8; done.
Qed.

(** Stores that agree on the bios of a request, sizes apart. *)
Lemma request_ok_kept bs bs' r d l :
  kept l bs bs' →
  (∀ i x y, i ∈ l → bs !! i = Some x → bs' !! i = Some y → bi_next y = bi_next x) →
  (segmented bs l (r_nr_phys_segments d) → segmented bs' l (r_nr_phys_segments d)) →
  request_ok bs r d l → request_ok bs' r d l.
Proof.
  intros Hk Hn Hs [H1 H2 H3 H4 H5 H6 H7 H8 H9 H10].
  split; rewrite ?(sectors_kept l bs bs'), ?(vecs_kept l bs bs') by done; try done.
  - eapply linked_frame; [done|]. intros i x Hi Hx. destruct (Hk i Hi) as (x0 & y & Hx0 & Hy & _).
    exists y. simplify_eq. eauto.
  - by eapply placed_kept.
  - by eapply uniform_kept.
  - destruct H7 as [?|[? ?]]; auto.
  - intros Hm i y Hh Hy. assert (i ∈ l) as Hi by (by apply head_Some_elem_of).
    destruct (Hk i Hi) as (x & y' & Hx & Hy' & Hst). simplify_eq. apply Hst. by eapply H10.
Qed.

Lemma request_ok_grown ids bs bs' r d l :
  store_ok bs → grown ids bs bs' → request_ok bs r d l → request_ok bs' r d l.
Proof.
  intros Ho Hg Hr.
  assert (kept l bs bs') as Hk by (eapply grown_kept; eauto using ro_dom).
  assert (∀ i x y, i ∈ l → bs !! i = Some x → bs' !! i = Some y → bio_le x y) as Hle.
  { intros i x y Hi Hx Hy. destruct Hg as (_ & _ & K).
    destruct (K i x Hx (Ho i x Hx)) as (y' & Hy' & ? & _). by simplify_eq. }
  eapply request_ok_kept; [done| | |done].
  - intros i x y Hi Hx Hy. by destruct (Hle i x y Hi Hx Hy) as (_ & ? & _).
  - apply segmented_kept; [done|]. intros i x y Hi Hx Hy.
    by destruct (Hle i x y Hi Hx Hy) as (_ & _ & ? & ?).
Qed.

(** Requests whose bios are not touched. *)
Lemma request_ok_same bs bs' r d l :
  (∀ i, i ∈ l → bs' !! i = bs !! i) → request_ok bs r d l → request_ok bs' r d l.
Proof.
  intros He Hr.
  assert (kept l bs bs') as Hk.
  { intros i Hi. destruct (ro_dom _ _ _ _ i Hr Hi) as [x Hx]. exists x, x.
    by rewrite He, Hx. }
  eapply request_ok_kept; [done| | |done].
  - intros i x y Hi Hx Hy. rewrite He in Hy by done. by simplify_eq.
  - apply segmented_kept; [done|]. intros i x y Hi Hx Hy. rewrite He in Hy by done.
    simplify_eq. lia.
Qed.

(** A mergeable request is no barrier, and has data. *)
Lemma ro_data bs r d l :
  request_ok bs r d l → rq_mergeable r = true →
  er_hard r = false ∧ segmented bs l (r_nr_phys_segments d) ∧ 0 < sectors bs l.
Proof.
  intros Hr Hm. assert (er_hard r = false) as Hh.
  { unfold rq_mergeable in Hm. destruct (er_hard r); [|done].
    by rewrite orb_true_r in Hm. }
  split; [done|]. destruct (ro_segs _ _ _ _ Hr) as [(_ & ? & _)|?]; [congruence|done].
Qed.

(** Two runs become one request when the last bio of the first is linked to the
    first of the second. *)
Lemma request_join bs r d l1 l2 t xt :
  (linked bs l1 ∧ linked bs l2 ∧ l1 ≠ [] ∧ l2 ≠ []) → NoDup (l1 ++ l2) →
  last l1 = Some t → bs !! t = Some xt →
  placed bs (er_pos r) l1 → placed bs (er_pos r + sectors bs l1) l2 →
  uniform bs l1 (er_write r) (er_disk r) → uniform bs l2 (er_write r) (er_disk r) →
  segmented bs (l1 ++ l2) (r_nr_phys_segments d) → 0 ≤ r_nr_phys_segments d →
  0 < sectors bs l1 + sectors bs l2 →
  r_bio d = head l1 → r_biotail d = last l2 →
  r_data_len d = 512 * (sectors bs l1 + sectors bs l2) →
  er_sectors r = sectors bs l1 + sectors bs l2 →
  (er_fs r = true ∧ er_pc r = false ∧ er_special r = false ∧
    r_copy_user d = false ∧ ff_ok (r_failfast d)) →
  r_nr_phys_segments d ≤ max_segments L < 2 ^ 16 - 1 →
  sectors bs l1 + sectors bs l2 ≤ max_sectors L < 2 ^ 23 →
  (r_mixed d = true → head_eager bs l1 (r_failfast d)) →
  request_ok (<[t := set_bi_next (head l2) xt]> bs) r d (l1 ++ l2).
Proof.
  intros (K1 & K2 & N1 & N2) Hnd Ht Hxt P1 P2 U1 U2 Hsg Hnr Hpos Hb Hbt Hlen Hsec Hfl Hmx Hms Hmix.
  pose proof Hnd as (Hnd1 & Hdis & _)%NoDup_app.
  assert (t ∈ l1) as Htl by (by apply last_Some_elem_of).
  set (bs' := <[t := set_bi_next (head l2) xt]> bs).
  assert (kept (l1 ++ l2) bs bs') as Hk.
  { intros i Hi. assert (is_Some (bs !! i)) as [x Hx].
    { apply elem_of_app in Hi as [?|?];
        [by apply (linked_elem bs l1)|by apply (linked_elem bs l2)]. }
    destruct (decide (i = t)) as [->|Hne].
    - exists xt, (set_bi_next (head l2) xt). unfold bs'. rewrite lookup_insert_eq.
      by split_and!.
    - exists x, x. unfold bs'. rewrite lookup_insert_ne by done. by split_and!. }
  assert (sectors bs' (l1 ++ l2) = sectors bs l1 + sectors bs l2) as Hse.
  { by rewrite (sectors_kept _ bs bs'), sectors_app. }
  split; rewrite ?Hse; try done.
  - apply last_Some in Ht as [l1' ->]. apply linked_app; try done.
    + apply NoDup_app in Hnd1 as (_ & Hx & _). intros Hin. apply (Hx t Hin). by left.
    + by apply Hdis.
  - rewrite head_app, last_app. split_and!.
    + rewrite Hb. by destruct l1.
    + rewrite Hbt. destruct (last l2) eqn:E; [done|]. by apply last_None in E.
    + by destruct l1.
  - split_and!; try done. lia.
  - eapply placed_kept; [done|]. by apply placed_app.
  - eapply uniform_kept; [done|]. intros i x [?|?]%elem_of_app; eauto.
  - right. split; [|done]. eapply segmented_kept; [done| |done].
    intros i x y Hi Hx Hy. destruct (decide (i = t)) as [->|Hne].
    + unfold bs' in Hy. rewrite lookup_insert_eq in Hy. simplify_eq. cbn. lia.
    + unfold bs' in Hy. rewrite lookup_insert_ne in Hy by done. simplify_eq. lia.
  - lia.
  - right. lia.
  - intros Hm i y Hh Hy. assert (head l1 = Some i) as Hh1 by (destruct l1; [done|exact Hh]).
    destruct (Hk i) as (x & y' & Hx & Hy' & Hst); [apply elem_of_app; left; by apply head_Some_elem_of|].
    simplify_eq. apply Hst. by eapply Hmix.
Qed.

(** A bio that was counted is a run of its own. *)
Lemma counted_segmented bs b x :
  bs !! b = Some x → bio_segs x ≠ [] → counted_bio x → segmented bs [b] (bi_phys_segments x).
Proof.
  intros Hx Hne (f & s & Hc & Hf & Hs). split.
  - intros i y ->%list_elem_of_singleton Hy. by simplify_eq.
  - exists f, s. rewrite vecs_cons, Hx. cbn. rewrite app_nil_r. split_and!; [done| |];
      intros i y [= <-] Hy; by simplify_eq.
Qed.
End data.
