(* ===== verification/MergeData.v ===== *)
(** * Merging keeps the data of requests in order

    The parts of a merge that concern bios and counts: the tests of the limits,
    the attributes of a mixed merge, and the linking of a bio or of a second
    request.  Each lemma says that the part returns, and what it does to
    [request_ok]. *)
From stdpp Require Import gmap list.
From S2P Require Import Prelude Elevator Noop Deadline BlkQueue Segments Submit RequestData.

(** The range of the limits that drivers set. *)
Record limits_ok (L : limits) : Prop := {
  lo_size : max_segment_size L < 2 ^ 31;
  lo_segments : 0 ≤ max_segments L < 2 ^ 16 - 1;
  lo_sectors : 0 ≤ max_sectors L < 2 ^ 23;
}.

Section merge.
Context {D : Type} `{Sched D, Neighbours D} (L : limits) (HL : limits_ok L).

(** ** Counting the two bios that meet *)

Lemma ensure_two i j bs :
  store_ok L bs → i ≠ j →
  (∀ k, k = i ∨ k = j → ∃ x, bs !! k = Some x ∧ bio_segs x ≠ []) →
  ∃ bs', (bs1 ← ensure_counted L i bs; ensure_counted L j bs1) = Some bs' ∧
    grown L [i; j] bs bs' ∧
    (∀ k x, k = i ∨ k = j → bs !! k = Some x → ∃ y, bs' !! k = Some y ∧
       bi_seg_valid y = true ∧ ((bi_seg_valid x = true → counted_bio L x) → counted_bio L y)).
Proof.
  intros Ho Hij Hne. pose proof (lo_size L HL) as Hmax.
  destruct (Hne i) as (xi & Hxi & Ni); [by left|]. destruct (Hne j) as (xj & Hxj & Nj); [by right|].
  destruct (ensure_counted_spec L Hmax i bs xi) as (bs1 & yi & E1 & G1 & Hyi & _ & _ & Vi & Ci);
    [done|by eapply Ho|done|].
  assert (bs1 !! j = Some xj) as Hxj1.
  { destruct G1 as (_ & N & _). rewrite N; [done|]. set_solver. }
  destruct (ensure_counted_spec L Hmax j bs1 xj) as (bs2 & yj & E2 & G2 & Hyj & _ & _ & Vj & Cj);
    [done|by eapply Ho|done|].
  exists bs2. rewrite E1. cbn [mbind option_bind]. split_and!; [done| |].
  - eapply grown_trans; (eapply grown_weaken; [|eassumption]); set_solver.
  - intros k x [->| ->] Hx; simplify_eq.
    + exists yi. split_and!; [|done|done]. destruct G2 as (_ & N & _). rewrite N; [done|]. set_solver.
    + by exists yj.
Qed.

(** ** The limits *)

Lemma rq_sectors bs r d l :
  request_ok L bs r d l → blk_rq_sectors d = sectors bs l ∧ er_sectors r = sectors bs l.
Proof.
  intros Hr. destruct (ro_len _ _ _ _ _ Hr) as (E & ? & _). split; [|done].
  unfold blk_rq_sectors. rewrite E, Z.shiftr_div_pow2 by lia.
  replace (512 * sectors bs l) with (sectors bs l * 2 ^ 9) by lia. by rewrite Z.div_mul.
Qed.

Lemma bio_phys_counted b bs y :
  bs !! b = Some y → bi_seg_valid y = true →
  bio_phys_segments L b bs = Some (bi_phys_segments y, bs).
Proof.
  intros Hy Hv. unfold bio_phys_segments, ensure_counted. rewrite Hy. cbn [mbind option_bind].
  rewrite Hv. cbn [mbind option_bind]. by rewrite Hy.
Qed.

Lemma counted_range y :
  bio_ok L y → counted_bio L y → 1 ≤ bi_phys_segments y < 2 ^ 16 - 1.
Proof.
  intros (_ & _ & _ & Hv & Hlen & _) (f & s & Hc & _).
  apply cut_bounds in Hc as ([? ?] & _); [lia|done].
Qed.

(** What both tests of a bio against a request come to. *)
Definition bio_test (req b : nat) (l : list nat) (d : rq_data) (x : bio) (s : subq D)
    (ok : bool) (s' : subq D) : Prop :=
  grown L (b :: l) (s_bios s) (s_bios s') ∧
  ∃ y, s_bios s' !! b = Some y ∧ same_static x y ∧ fresh_bio L y ∧
  if ok then
    s_q s' = s_q s ∧ counted_bio L y ∧
    s_data s' = <[req := set_nr_phys (r_nr_phys_segments d + bi_phys_segments y) d]> (s_data s) ∧
    r_nr_phys_segments d + bi_phys_segments y ≤ max_segments L ∧
    sectors (s_bios s) l + bio_sectors x ≤ max_sectors L
  else s_q s' = s_q (stop_merging req s) ∧ s_data s' = s_data s.

Lemma segment_test req b l d r x y s bs :
  store_ok L (s_bios s) → s_bios s !! b = Some x → fresh_bio L x →
  s_data s !! req = Some d → request_ok L (s_bios s) r d l →
  grown L (b :: l) (s_bios s) bs → bs !! b = Some y → bi_seg_valid y = true → counted_bio L y →
  sectors (s_bios s) l + bio_sectors x ≤ max_sectors L →
  ∃ ok s', ll_new_hw_segment L req b (set_s_bios bs s) = Some (ok, s') ∧
    bio_test req b l d x s ok s'.
Proof.
  intros Ho Hx [Hnx _] Hd Hr Hg Hy Hv Hc Hsec. unfold ll_new_hw_segment.
  cbn [s_bios s_data set_s_bios]. rewrite (bio_phys_counted b bs y) by done.
  cbn [mbind option_bind s_data set_s_bios]. rewrite Hd. cbn [mbind option_bind].
  destruct (proj2 (proj2 Hg) b x Hx (Ho b x Hx)) as (y' & Hy' & (Hst & Hn & _) & Hoy).
  simplify_eq. pose proof (counted_range y Hoy Hc). pose proof (ro_nr _ _ _ _ _ Hr).
  pose proof (lo_segments L HL).
  rewrite s32_small by (unfold in_s32; lia).
  assert (fresh_bio L y) as Hfy by (split; [congruence|done]).
  destruct (Z.ltb_spec (max_segments L) (r_nr_phys_segments d + bi_phys_segments y)).
  - eexists false, _. split; [reflexivity|]. split; [done|]. by exists y.
  - eexists true, _. rewrite u16_small by lia. split; [reflexivity|]. split; [done|]. by exists y.
Qed.

Lemma merge_limit_le r : er_pc r = false → merge_limit L r ≤ max_sectors L.
Proof.
  intros E. unfold merge_limit, u16. rewrite E. pose proof (lo_sectors L HL).
  apply Z.mod_le; lia.
Qed.

Lemma sectors_test bs r d l x :
  request_ok L bs r d l → store_ok L bs → bio_ok L x →
  (merge_limit L r <? u32 (blk_rq_sectors d + bio_sectors x)) = false →
  sectors bs l + bio_sectors x ≤ max_sectors L.
Proof.
  intros Hr Ho (_ & (? & ?) & _). destruct (rq_sectors _ _ _ _ Hr) as [-> _].
  destruct (ro_len _ _ _ _ _ Hr) as (_ & _ & ?).
  destruct (ro_ends _ _ _ _ _ Hr) as (_ & _ & Hne).
  destruct (placed_range L bs _ l Ho (ro_placed _ _ _ _ _ Hr) Hne) as (_ & _ & ?).
  destruct (ro_flags _ _ _ _ _ Hr) as (_ & Hpc & _). pose proof (merge_limit_le r Hpc).
  rewrite u32_small by (unfold in_u32; lia). intros ?%Z.ltb_ge. lia.
Qed.

(** A refusal before anything is counted. *)
Lemma limit_refused req b l d x s :
  s_bios s !! b = Some x → fresh_bio L x → bio_test req b l d x s false (stop_merging req s).
Proof.
  intros Hx Hf. split; [apply grown_refl|]. by exists x.
Qed.

Lemma ll_back_spec req b l d r x s :
  store_ok L (s_bios s) → s_bios s !! b = Some x → fresh_bio L x → bio_segs x ≠ [] → b ∉ l →
  s_data s !! req = Some d → rq_of (s_q s) req = r → request_ok L (s_bios s) r d l →
  rq_mergeable r = true →
  ∃ ok s', ll_back_merge_fn L req b s = Some (ok, s') ∧ bio_test req b l d x s ok s'.
Proof.
  intros Ho Hx Hf Hne Hb Hd <- Hr Hm. unfold ll_back_merge_fn. rewrite Hx. cbn [mbind option_bind].
  rewrite Hd. cbn [mbind option_bind].
  destruct (merge_limit L _ <? _) eqn:E; [eauto using limit_refused|].
  eapply sectors_test in E; [|done..|by eapply Ho].
  destruct (ro_data _ _ _ _ _ Hr Hm) as (_ & (Hsg & _) & _).
  destruct (ro_ends _ _ _ _ _ Hr) as (_ & -> & Hl).
  destruct (last l) as [t|] eqn:Et; [|by apply last_None in Et]. cbn [mbind option_bind].
  assert (t ∈ l) as Htl by (by apply last_Some_elem_of).
  destruct (ro_dom _ _ _ _ _ t Hr Htl) as [xt Hxt].
  destruct (ensure_two t b (s_bios s)) as (bs & E2 & Hg & Hc); [done|by intros ->| |].
  { intros k [->| ->]; eauto. }
  destruct (Hc b x) as (y & Hy & Hv & Hcy); [by right|done|].
  apply bind_Some in E2 as (bs1 & -> & E2). cbn [mbind option_bind]. rewrite E2.
  cbn [mbind option_bind]. eapply segment_test; try done.
  - eapply grown_weaken; [|done]. set_solver.
  - apply Hcy. intros Hvx. by apply Hf.
Qed.

Lemma ll_front_spec req b l d r x s :
  store_ok L (s_bios s) → s_bios s !! b = Some x → fresh_bio L x → bio_segs x ≠ [] → b ∉ l →
  s_data s !! req = Some d → rq_of (s_q s) req = r → request_ok L (s_bios s) r d l →
  rq_mergeable r = true →
  ∃ ok s', ll_front_merge_fn L req b s = Some (ok, s') ∧ bio_test req b l d x s ok s'.
Proof.
  intros Ho Hx Hf Hne Hb Hd <- Hr Hm. unfold ll_front_merge_fn. rewrite Hx. cbn [mbind option_bind].
  rewrite Hd. cbn [mbind option_bind].
  destruct (merge_limit L _ <? _) eqn:E; [eauto using limit_refused|].
  eapply sectors_test in E; [|done..|by eapply Ho].
  destruct (ro_data _ _ _ _ _ Hr Hm) as (_ & (Hsg & _) & _).
  destruct (ro_ends _ _ _ _ _ Hr) as (Hh & _ & Hl).
  destruct (head l) as [t|] eqn:Et; [|by destruct l].
  assert (t ∈ l) as Htl by (by apply head_Some_elem_of).
  destruct (ro_dom _ _ _ _ _ t Hr Htl) as [xt Hxt].
  destruct (ensure_two b t (s_bios s)) as (bs & E2 & Hg & Hc); [done|by intros ->| |].
  { intros k [->| ->]; eauto. }
  destruct (Hc b x) as (y & Hy & Hv & Hcy); [by left|done|].
  apply bind_Some in E2 as (bs1 & -> & E2). cbn [mbind option_bind]. rewrite Hh.
  cbn [mbind option_bind]. rewrite E2.
  cbn [mbind option_bind]. eapply segment_test; try done.
  - eapply grown_weaken; [|done]. set_solver.
  - apply Hcy. intros Hvx. by apply Hf.
Qed.

(** ** Mixed merges *)

(** What the attributes of a mixed merge leave alone. *)
Definition same_data (d d' : rq_data) : Prop :=
  r_bio d' = r_bio d ∧ r_biotail d' = r_biotail d ∧ r_data_len d' = r_data_len d ∧
  r_nr_phys_segments d' = r_nr_phys_segments d ∧ r_copy_user d' = r_copy_user d ∧
  ff_ok (r_failfast d').

Lemma request_ok_data bs r d d' l :
  same_data d d' → (r_mixed d' = true → head_eager bs l (r_failfast d')) →
  request_ok L bs r d l → request_ok L bs r d' l.
Proof.
  intros (E1 & E2 & E3 & E4 & E5 & E6) Hmix [H1 H2 H3 H4 H5 H6 H7 H8 H9 H10].
  split; rewrite ?E1, ?E2, ?E3, ?E4, ?E5; try done. by destruct H6 as (? & ? & ? & ? & _).
Qed.

Lemma distribute_eager ff l bs i y :
  i ∈ l → distribute ff l bs !! i = Some y → Z.land (bi_rw y) ff = ff.
Proof.
  revert y. induction l as [|j l IH]; intros y Hi; [by apply not_elem_of_nil in Hi|].
  cbn [distribute foldr]. fold (distribute ff l bs). destruct (decide (i = j)) as [->|Hne].
  - rewrite lookup_alter_eq. intros (x & _ & ->)%fmap_Some. cbn.
    apply Z.bits_inj'. intros n _. rewrite Z.land_spec, Z.lor_spec.
    destruct (Z.testbit ff n); [by rewrite orb_true_r|by rewrite andb_false_r].
  - rewrite lookup_alter_ne by done. apply elem_of_cons in Hi as [?|?]; [done|]. by apply IH.
Qed.

Lemma mixed_spec req l d (s : subq D) :
  s_data s !! req = Some d → linked (s_bios s) l → r_bio d = head l → ff_ok (r_failfast d) →
  (r_mixed d = true → head_eager (s_bios s) l (r_failfast d)) → NoDup l →
  ∃ s' d', blk_rq_set_mixed_merge req s = Some s' ∧ s_q s' = s_q s ∧
    grown L l (s_bios s) (s_bios s') ∧ s_data s' = <[req := d']> (s_data s) ∧ same_data d d' ∧
    head_eager (s_bios s') l (r_failfast d').
Proof.
  intros Hd Hl Hh Hff Hmix Hnd. unfold blk_rq_set_mixed_merge. rewrite Hd. cbn [mbind option_bind].
  destruct (r_mixed d).
  - exists s, d. split_and!; try done; [apply grown_refl|by rewrite insert_id|by apply Hmix].
  - rewrite Hh, (for_each_linked (s_bios s) l) by done. cbn [mbind option_bind].
    eexists _, _. split; [reflexivity|]. split_and!; try done.
    + by apply (distribute_grown L (lo_size L HL)).
    + intros i y Hi Hy. cbn in Hy |- *. eapply distribute_eager; [|exact Hy].
      by apply head_Some_elem_of.
Qed.

(** ** Two requests *)

Lemma upd_resized l1 l2 n1 n2 sz h t bs :
  head l1 = Some h → last l2 = Some t → h ≠ t → is_Some (bs !! h) → is_Some (bs !! t) →
  ∃ bs', (bs1 ← (if n1 =? 1 then upd_bio h (set_bi_seg_front_size sz) bs else Some bs);
          (if n2 =? 1 then upd_bio t (set_bi_seg_back_size sz) bs1 else Some bs1)) = Some bs' ∧
    resized l1 l2 n1 n2 sz bs bs'.
Proof.
  intros Hh Ht Hne [xh Hxh] [xt Hxt].
  set (bs1 := if n1 =? 1 then <[h := set_bi_seg_front_size sz xh]> bs else bs).
  assert ((if n1 =? 1 then upd_bio h (set_bi_seg_front_size sz) bs else Some bs) = Some bs1) as ->.
  { unfold bs1. destruct (n1 =? 1); [by apply upd_bio_some|done]. }
  assert (bs1 !! t = Some xt) as Hxt1.
  { unfold bs1. destruct (n1 =? 1); [by rewrite lookup_insert_ne|done]. }
  cbn [mbind option_bind].
  exists (if n2 =? 1 then <[t := set_bi_seg_back_size sz xt]> bs1 else bs1). split.
  { destruct (n2 =? 1); [by apply upd_bio_some|done]. }
  split_and!.
  - unfold bs1. apply elem_of_dom_2 in Hxh, Hxt.
    destruct (n1 =? 1), (n2 =? 1); rewrite ?dom_insert_L; set_solver.
  - intros i Hi Hi'. unfold bs1. assert (i ≠ h ∧ i ≠ t) as [? ?] by (split; congruence).
    destruct (n1 =? 1), (n2 =? 1); rewrite ?lookup_insert_ne by done; done.
  - intros i x y Hx Hy. unfold bs1 in Hy. rewrite Hh, Ht.
    assert (∀ k j : nat, Some k = Some j ↔ k = j) as Hs by (intros; split; congruence).
    destruct (decide (i = h)) as [->|Hih]; [|destruct (decide (i = t)) as [->|Hit]].
    + rewrite (bool_decide_false (n2 = 1 ∧ _)) by (intros [_ [= ->]]; done).
      destruct (Z.eqb_spec n1 1), (Z.eqb_spec n2 1);
        rewrite ?lookup_insert_ne, ?lookup_insert_eq in Hy by done; simplify_eq;
        rewrite ?bool_decide_true, ?bool_decide_false by naive_solver; by split_and!.
    + rewrite (bool_decide_false (n1 = 1 ∧ _)) by (intros [_ [= ->]]; done).
      destruct (Z.eqb_spec n1 1), (Z.eqb_spec n2 1);
        rewrite ?lookup_insert_eq, ?lookup_insert_ne in Hy by done; simplify_eq;
        rewrite ?bool_decide_true, ?bool_decide_false by naive_solver; by split_and!.
    + rewrite !bool_decide_false by (intros [_ [= ->]]; done).
      destruct (Z.eqb_spec n1 1), (Z.eqb_spec n2 1);
        rewrite ?lookup_insert_ne in Hy by done; simplify_eq; by split_and!.
Qed.

Lemma resized_ok l1 l2 n1 n2 sz bs bs' :
  store_ok L bs → 0 ≤ sz < 2 ^ 31 → resized l1 l2 n1 n2 sz bs bs' → store_ok L bs'.
Proof.
  intros Ho Hsz (Dm & _ & K) i y Hy.
  assert (is_Some (bs !! i)) as [x Hx].
  { apply elem_of_dom. rewrite <- Dm. by eapply elem_of_dom_2. }
  destruct (K i x y Hx Hy) as (Hst & _ & Hf & Hb). pose proof (Ho i x Hx) as Hox.
  pose proof Hox as (_ & _ & [? ?] & _). eapply bio_ok_sizes; [done| | |done].
  - rewrite Hf. clear Hb Hf. case_bool_decide; lia.
  - rewrite Hb. clear Hb Hf. case_bool_decide; lia.
Qed.

(** What the test of two requests comes to; their bios may have other sizes
    even if it fails. *)
Definition pair_test (req : nat) (l1 l2 : list nat) (r1 r2 : erq) (d1 d2 : rq_data) (s : subq D)
    (ok : bool) (s' : subq D) : Prop :=
  s_q s' = s_q s ∧ dom (s_bios s') = dom (s_bios s) ∧
  (∀ i, i ∉ l1 ++ l2 → s_bios s' !! i = s_bios s !! i) ∧ store_ok L (s_bios s') ∧
  request_ok L (s_bios s') r1 d1 l1 ∧ request_ok L (s_bios s') r2 d2 l2 ∧
  if ok then
    ∃ n, s_data s' = <[req := set_nr_phys n d1]> (s_data s) ∧
      segmented L (s_bios s') (l1 ++ l2) n ∧ 0 ≤ n ≤ max_segments L ∧
      sectors (s_bios s') l1 + sectors (s_bios s') l2 ≤ max_sectors L
  else s_data s' = s_data s.

Lemma pair_test_same req l1 l2 r1 r2 d1 d2 s :
  store_ok L (s_bios s) → request_ok L (s_bios s) r1 d1 l1 → request_ok L (s_bios s) r2 d2 l2 →
  pair_test req l1 l2 r1 r2 d1 d2 s false s.
Proof. intros. by split_and!. Qed.

(** The count of the pair, once the sizes are right. *)
Lemma pair_count req l1 l2 r1 r2 d1 d2 (s : subq D) bs n :
  s_data s !! req = Some d1 →
  dom bs = dom (s_bios s) → (∀ i, i ∉ l1 ++ l2 → bs !! i = s_bios s !! i) → store_ok L bs →
  request_ok L bs r1 d1 l1 → request_ok L bs r2 d2 l2 → segmented L bs (l1 ++ l2) n →
  sectors bs l1 + sectors bs l2 ≤ max_sectors L →
  ∃ ok s', (if max_segments L <? n then Some (false, set_s_bios bs s)
            else Some (true, set_data req (set_nr_phys (u16 n) d1) (set_s_bios bs s))) =
      Some (ok, s') ∧ pair_test req l1 l2 r1 r2 d1 d2 s ok s'.
Proof.
  intros Hd Hdom Hout Ho H1 H2 Hsg Hsec. pose proof (lo_segments L HL).
  assert (0 ≤ n) as Hn.
  { destruct Hsg as (_ & f & t & Hc & _). apply cut_bounds in Hc as ([? _] & _); [lia|].
    by apply vecs_ok. }
  destruct (Z.ltb_spec (max_segments L) n).
  - eexists false, _. split; [reflexivity|]. by split_and!.
  - eexists true, _. rewrite u16_small by lia. split; [reflexivity|]. split_and!; try done.
    by exists n.
Qed.

Lemma ll_merge_spec req next l1 l2 r1 r2 d1 d2 s :
  store_ok L (s_bios s) → NoDup (l1 ++ l2) →
  s_data s !! req = Some d1 → s_data s !! next = Some d2 →
  rq_of (s_q s) req = r1 → rq_of (s_q s) next = r2 →
  request_ok L (s_bios s) r1 d1 l1 → request_ok L (s_bios s) r2 d2 l2 →
  rq_mergeable r1 = true → rq_mergeable r2 = true →
  ∃ ok s', ll_merge_requests_fn L req next s = Some (ok, s') ∧
    pair_test req l1 l2 r1 r2 d1 d2 s ok s'.
Proof.
  intros Ho Hnd Hd1 Hd2 E1 E2 H1 H2 M1 M2. unfold ll_merge_requests_fn. rewrite E1, E2.
  rewrite Hd1. cbn [mbind option_bind]. rewrite Hd2. cbn [mbind option_bind].
  destruct (ro_ends _ _ _ _ _ H1) as (-> & -> & N1), (ro_ends _ _ _ _ _ H2) as (-> & -> & N2).
  destruct (ro_data _ _ _ _ _ H1 M1) as (_ & G1 & P1), (ro_data _ _ _ _ _ H2 M2) as (_ & G2 & P2).
  destruct (last l1) as [t|] eqn:Et; [|by apply last_None in Et].
  destruct (head l2) as [n|] eqn:En; [|by destruct l2].
  destruct (head l1) as [h|] eqn:Eh; [|by destruct l1].
  destruct (last l2) as [t2|] eqn:Et2; [|by apply last_None in Et2]. cbn [mbind option_bind].
  assert (t ∈ l1 ∧ n ∈ l2 ∧ h ∈ l1 ∧ t2 ∈ l2) as (It & In & Ih & It2)
    by (split_and!; (apply last_Some_elem_of; done) || (apply head_Some_elem_of; done)).
  destruct (ro_dom _ _ _ _ _ t H1 It) as [xt Hxt], (ro_dom _ _ _ _ _ n H2 In) as [xn Hxn].
  rewrite Hxt. cbn [mbind option_bind]. rewrite Hxn. cbn [mbind option_bind].
  destruct (ro_flags _ _ _ _ _ H1) as (_ & _ & -> & _), (ro_flags _ _ _ _ _ H2) as (_ & _ & -> & _).
  cbn [orb]. destruct (rq_sectors _ _ _ _ H1) as [-> _], (rq_sectors _ _ _ _ H2) as [-> _].
  destruct (ro_len _ _ _ _ _ H1) as (_ & _ & ?), (ro_len _ _ _ _ _ H2) as (_ & _ & ?).
  rewrite u32_small by (unfold in_u32; lia).
  destruct (Z.ltb_spec (max_sectors L) (sectors (s_bios s) l1 + sectors (s_bios s) l2));
    [eauto using pair_test_same|].
  destruct (contig_total L xt xn) as [c Ec]; [by apply (proj1 G1 t xt)|by apply (proj1 G2 n xn)|].
  rewrite Ec. cbn [mbind option_bind]. destruct c; cycle 1.
  { cbn [mbind option_bind]. eapply pair_count; try done. by apply segmented_app. }
  pose proof Hnd as (_ & Hdis & _)%NoDup_app.
  set (sz := u32 _).
  destruct (upd_resized l1 l2 (r_nr_phys_segments d1) (r_nr_phys_segments d2) sz h t2 (s_bios s))
    as (bs & (bs1 & -> & E)%bind_Some & Hr); try done.
  { intros ->. by eapply Hdis. }
  { by apply (ro_dom _ _ _ _ _ h H1). }
  { by apply (ro_dom _ _ _ _ _ t2 H2). }
  cbn [mbind option_bind]. rewrite E. cbn [mbind option_bind].
  assert (∀ i, i ∈ l1 ++ l2 → is_Some (s_bios s !! i)) as Hdom.
  { intros i [?|?]%elem_of_app; [by apply (ro_dom _ _ _ _ _ i H1)|
      by apply (ro_dom _ _ _ _ _ i H2)]. }
  destruct (contig_segments L (s_bios s) bs l1 l2 (r_nr_phys_segments d1)
    (r_nr_phys_segments d2) t n xt xn) as (G1' & G2' & G'); try done.
  pose proof (resized_kept (l1 ++ l2) _ _ _ _ _ _ _ Hdom Hr) as Hk.
  assert (kept l1 (s_bios s) bs) as Hk1 by (intros i Hi; apply Hk, elem_of_app; by left).
  assert (kept l2 (s_bios s) bs) as Hk2 by (intros i Hi; apply Hk, elem_of_app; by right).
  pose proof Hr as (Rd & Rn & Rk).
  eapply pair_count; try done.
  - intros i Hi. apply Rn; intros Hx; apply Hi, elem_of_app; [left|right];
      [by apply head_Some_elem_of|by apply last_Some_elem_of].
  - eapply resized_ok; [done| |done]. pose proof (contig_size L xt xn Ec : sz ≤ max_segment_size L).
    pose proof (lo_size L HL).
    assert (in_u32 sz) as [? ?] by apply u32_range. lia.
  - eapply request_ok_kept; [exact Hk1| |done|done].
    intros i x y Hi Hx Hy. by destruct (Rk i x y Hx Hy) as (_ & ? & _).
  - eapply request_ok_kept; [exact Hk2| |done|done].
    intros i x y Hi Hx Hy. by destruct (Rk i x y Hx Hy) as (_ & ? & _).
  - by rewrite (sectors_kept l1 (s_bios s) bs), (sectors_kept l2 (s_bios s) bs).
Qed.

(** ** Linking *)

Lemma grown_length d' bs l1 l2 :
  r_data_len d' = 512 * (sectors bs l1 + sectors bs l2) →
  blk_rq_sectors d' = sectors bs l1 + sectors bs l2.
Proof.
  intros E. unfold blk_rq_sectors. rewrite E, Z.shiftr_div_pow2 by lia.
  replace (512 * _) with ((sectors bs l1 + sectors bs l2) * 2 ^ 9) by lia. by rewrite Z.div_mul.
Qed.

(** A counted bio as a run. *)
Lemma one_bio bs b x :
  bs !! b = Some x → bi_next x = None →
  linked bs [b] ∧ sectors bs [b] = bio_sectors x ∧ placed bs (bi_sector x) [b] ∧
  uniform bs [b] (bio_data_dir x) (bi_disk x).
Proof.
  intros Hx Hn. split_and!.
  - split; [|done]. by exists x.
  - cbn. rewrite Hx. cbn. lia.
  - by exists x.
  - intros i y ->%list_elem_of_singleton Hy. by simplify_eq.
Qed.

Lemma link_pair bs r1 r2 d1 d2 l1 l2 t xt n d' :
  store_ok L bs → NoDup (l1 ++ l2) →
  request_ok L bs r1 d1 l1 → request_ok L bs r2 d2 l2 →
  segmented L bs (l1 ++ l2) n → 0 ≤ n ≤ max_segments L →
  0 < sectors bs l1 → 0 < sectors bs l2 → sectors bs l1 + sectors bs l2 ≤ max_sectors L →
  er_pos r2 = er_pos r1 + sectors bs l1 → er_write r2 = er_write r1 → er_disk r2 = er_disk r1 →
  last l1 = Some t → bs !! t = Some xt →
  r_bio d' = r_bio d1 → r_biotail d' = r_biotail d2 →
  r_data_len d' = u32 (r_data_len d1 + r_data_len d2) →
  r_nr_phys_segments d' = n → r_copy_user d' = r_copy_user d1 → ff_ok (r_failfast d') →
  (r_mixed d' = true → head_eager bs l1 (r_failfast d')) →
  request_ok L (<[t := set_bi_next (r_bio d2) xt]> bs)
    (grow_front (er_pos r1) (blk_rq_sectors d') r1) d' (l1 ++ l2).
Proof.
  intros Ho Hnd H1 H2 Hsg Hn P1 P2 Hms Hpos Hw Hdk Ht Hxt Eb Et El En Ec Hff Hmix.
  destruct (ro_ends _ _ _ _ _ H1) as (B1 & T1 & N1), (ro_ends _ _ _ _ _ H2) as (B2 & T2 & N2).
  destruct (ro_len _ _ _ _ _ H1) as (L1 & _ & ?), (ro_len _ _ _ _ _ H2) as (L2 & _ & ?).
  destruct (ro_flags _ _ _ _ _ H1) as (? & ? & ? & ? & _).
  pose proof (lo_segments L HL). pose proof (lo_sectors L HL).
  assert (r_data_len d' = 512 * (sectors bs l1 + sectors bs l2)) as Hl.
  { rewrite El, L1, L2, u32_small by (unfold in_u32; lia). lia. }
  pose proof (grown_length d' bs l1 l2 Hl) as Hs. rewrite B2.
  apply request_join; cbn [er_pos er_sectors er_write er_disk er_fs er_pc er_special grow_front];
    rewrite ?En; try done; try lia; try congruence.
  - split_and!; try done; by eapply ro_linked.
  - by eapply ro_placed.
  - rewrite <- Hpos. by eapply ro_placed.
  - by eapply ro_uniform.
  - rewrite <- Hw, <- Hdk. by eapply ro_uniform.
  - split_and!; congruence.
Qed.

(** Joining one bio, from either side. *)
Section one.
Context (bs : bio_store) (r : erq) (d d' : rq_data) (l : list nat) (b : nat) (x : bio).
Context (Ho : store_ok L bs) (Hr : request_ok L bs r d l) (Hm : rq_mergeable r = true).
Context (Hnd : NoDup l) (Hb : b ∉ l).
Context (Hx : bs !! b = Some x) (Hn : bi_next x = None) (Hne : bio_segs x ≠ []).
Context (Hc : counted_bio L x) (Hw : bio_data_dir x = er_write r) (Hdk : bi_disk x = er_disk r).
Context (Hnr : r_nr_phys_segments d + bi_phys_segments x ≤ max_segments L).
Context (Hms : sectors bs l + bio_sectors x ≤ max_sectors L).
Context (El : r_data_len d' = u32 (r_data_len d + bi_size x)).
Context (En : r_nr_phys_segments d' = r_nr_phys_segments d + bi_phys_segments x).
Context (Ec : r_copy_user d' = r_copy_user d) (Hff : ff_ok (r_failfast d')).

Lemma one_length :
  r_data_len d' = 512 * (sectors bs l + bio_sectors x) ∧ 0 < sectors bs l ∧ 0 < bio_sectors x ∧
  1 ≤ bi_phys_segments x.
Proof.
  pose proof (Ho b x Hx) as (_ & (? & ?) & _ & _ & _ & _ & Hp). specialize (Hp Hne).
  destruct (ro_data _ _ _ _ _ Hr Hm) as (_ & _ & ?), (ro_len _ _ _ _ _ Hr) as (L1 & _ & ?).
  pose proof (counted_range x (Ho b x Hx) Hc). pose proof (lo_sectors L HL).
  rewrite El, L1, u32_small by (unfold in_u32; lia). split_and!; lia.
Qed.

Lemma link_back t xt :
  bi_sector x = er_pos r + sectors bs l → last l = Some t → bs !! t = Some xt →
  r_bio d' = r_bio d → r_biotail d' = Some b →
  (r_mixed d' = true → head_eager bs l (r_failfast d')) →
  request_ok L (<[t := set_bi_next (Some b) xt]> bs)
    (grow_front (er_pos r) (blk_rq_sectors d') r) d' (l ++ [b]).
Proof.
  intros Hpos Ht Hxt Eb Et Hmix. destruct one_length as (Hl & ? & ? & ?).
  destruct (one_bio bs b x Hx Hn) as (K & Hs & P & U).
  destruct (ro_ends _ _ _ _ _ Hr) as (B1 & T1 & N1), (ro_flags _ _ _ _ _ Hr) as (? & ? & ? & ? & _).
  destruct (ro_data _ _ _ _ _ Hr Hm) as (_ & G & _). pose proof (ro_nr _ _ _ _ _ Hr).
  pose proof (lo_segments L HL). pose proof (lo_sectors L HL).
  rewrite <- Hs in Hl. pose proof (grown_length d' bs l [b] Hl) as Hsec.
  change (Some b) with (head [b]).
  apply request_join; cbn [er_pos er_sectors er_write er_disk er_fs er_pc er_special grow_front];
    rewrite ?Hs in *; try done; try lia; try congruence.
  - split_and!; try done. by eapply ro_linked.
  - apply NoDup_app. split_and!; [done| |by apply NoDup_singleton].
    intros i Hi ->%list_elem_of_singleton. done.
  - by eapply ro_placed.
  - by eapply ro_uniform.
  - by rewrite <- Hw, <- Hdk.
  - rewrite En. apply segmented_app; try done. by apply counted_segmented.
  - split_and!; congruence.
Qed.

Lemma link_front :
  er_pos r = bi_sector x + bio_sectors x → r_bio d' = Some b → r_biotail d' = r_biotail d →
  (r_mixed d' = true → Z.land (bi_rw x) (r_failfast d') = r_failfast d') →
  request_ok L (<[b := set_bi_next (r_bio d) x]> bs)
    (grow_front (bi_sector x) (blk_rq_sectors d') r) d' ([b] ++ l).
Proof.
  intros Hpos Eb Et Hmix. destruct one_length as (Hl & ? & ? & ?).
  destruct (one_bio bs b x Hx Hn) as (K & Hs & P & U).
  destruct (ro_ends _ _ _ _ _ Hr) as (B1 & T1 & N1), (ro_flags _ _ _ _ _ Hr) as (? & ? & ? & ? & _).
  destruct (ro_data _ _ _ _ _ Hr Hm) as (_ & G & _). pose proof (ro_nr _ _ _ _ _ Hr).
  pose proof (lo_segments L HL). pose proof (lo_sectors L HL).
  rewrite <- Hs, Z.add_comm in Hl. pose proof (grown_length d' bs [b] l Hl) as Hsec. rewrite B1.
  apply request_join; cbn [er_pos er_sectors er_write er_disk er_fs er_pc er_special grow_front];
    rewrite ?Hs in *; try done; try lia; try congruence.
  - split_and!; try done. by eapply ro_linked.
  - apply NoDup_app. split_and!; [by apply NoDup_singleton| |done].
    by intros i ->%list_elem_of_singleton.
  - rewrite <- Hpos. by eapply ro_placed.
  - by rewrite <- Hw, <- Hdk.
  - by eapply ro_uniform.
  - rewrite En, Z.add_comm. apply segmented_app; try done. by apply counted_segmented.
  - split_and!; congruence.
  - intros Hm' i y [= <-] Hy. simplify_eq. by apply Hmix.
Qed.
End one.
End merge.
