(* ===== verification/MergeSched.v ===== *)
(** * What merging relies on from a scheduler

    The laws of the operations that only merging uses: the neighbours a
    scheduler names are requests of its own, a request that grew at the front
    can be put in its new place, a request that was merged into its neighbour
    can be taken out, and whatever is dispatched on the way has left the merge
    hash and the one-hit cache.  The noop and the deadline scheduler keep
    them. *)
From stdpp Require Import gmap list sorting.
From S2P Require Import Prelude Elevator Noop Deadline BlkQueue Segments Submit.

(** What newly is on the dispatch queue can no longer be found for a merge. *)
Definition dispatched_off {D} (q q' : rqueue D) : Prop :=
  ∀ j, j ∈ queue_head q' →
    j ∈ queue_head q ∨ on_hash q' j = false ∧ last_merge q' ≠ Some j.

Class SchedMerge (D : Type) `{SchedFrame D, Neighbours D} := {
  merge_in b q i : sched_inv q → sched_merge b q = Some i → i ∈ sched_contents (edata q);
  former_in q i j :
    sched_inv q → NoDup (sched_contents (edata q)) → i ∈ sched_contents (edata q) →
    sched_former q i = Some j → j ∈ sched_contents (edata q) ∧ j ≠ i;
  latter_in q i j :
    sched_inv q → NoDup (sched_contents (edata q)) → i ∈ sched_contents (edata q) →
    sched_latter q i = Some j → j ∈ sched_contents (edata q) ∧ j ≠ i;
  former_front q i pos n :
    sched_former (upd_rq i (grow_front pos n) q) i = sched_former q i;
  inv_front q i j pos n :
    sched_inv q → i ∈ sched_contents (edata q) → sched_former q i = Some j →
    er_pos (rq_of q j) < pos ≤ er_pos (rq_of q i) →
    sched_inv (upd_rq i (grow_front pos n) q);
  inv_pos q q' :
    sched_inv q → edata q' = edata q →
    (∀ i, i ∈ sched_contents (edata q) →
       er_pos (rq_of q' i) = er_pos (rq_of q i) ∧ er_write (rq_of q' i) = er_write (rq_of q i)) →
    sched_inv q';
  merged_back q i : sched_merged i BACK_MERGE q = Some q;
  merged_front q i pos n :
    sched_inv q → sorted_ok q → i ∈ sched_contents (edata q) →
    ∃ q', sched_merged i FRONT_MERGE (upd_rq i (grow_front pos n) q) = Some q' ∧
      sched_inv q' ∧ sorted_ok q' ∧ queued q' ≡ₚ queued q ∧ i ∈ sched_contents (edata q') ∧
      frame (upd_rq i (grow_front pos n) q) q' ∧ dispatched_off q q';
  merge_req_ok q i j :
    sched_inv q → NoDup (sched_contents (edata q)) → i ≠ j → i ∈ sched_contents (edata q) →
    j ∈ sched_contents (edata q) → er_write (rq_of q i) = er_write (rq_of q j) →
    ∃ q', sched_merge_req i j q = Some q' ∧ sched_inv q' ∧
      sched_contents (edata q) ≡ₚ j :: sched_contents (edata q') ∧
      queue_head q' = queue_head q ∧ nr_sorted q' = nr_sorted q ∧ frame q q';
  add_off q q' i : sched_add i q = Some q' → dispatched_off q q';
  dispatch_off q b q' : sched_inv q → sched_dispatch q = Some (b, q') → dispatched_off q q';
}.

(** ** The noop scheduler *)

Lemma off_same {D} (q q' : rqueue D) : queue_head q' = queue_head q → dispatched_off q q'.
Proof. intros E j. rewrite E. by left. Qed.

Lemma undo_sorted_last {D} (q : rqueue D) i : last_merge (undo_sorted i q) ≠ Some i.
Proof.
  unfold undo_sorted. destruct (rqhash_del_fields (clear_last_merge i q) i) as (_ & _ & _ & _ & -> & _).
  unfold clear_last_merge. by case_bool_decide.
Qed.

#[export, refine] Instance noop_merge : SchedMerge noop_data := {}.
Proof.
  - done.
  - intros q i j _ Hnd _ E. split; [|eapply next_in_ne; [|exact E]].
    + apply next_in_elem in E. by rewrite elem_of_reverse in E.
    + by rewrite reverse_Permutation.
  - intros q i j _ Hnd _ E.
    split; [exact (next_in_elem _ _ _ E)|exact (next_in_ne _ _ _ Hnd E)].
  - done.
  - done.
  - done.
  - done.
  - intros q i pos n Hinv Hso Hi. eexists. split; [reflexivity|]. split_and!; try done.
    + by apply frame_refl.
    + by apply off_same.
  - intros q i j Hinv Hnd Hne Hi Hj _. eexists. split; [reflexivity|].
    split_and!; try done; [|by apply frame_refl]. cbn. by apply without_perm.
  - intros q q' i. cbn. intros [= <-]. by apply off_same.
  - intros q b q' _. cbn. unfold noop_dispatch. destruct (nd_queue (edata q)) as [|i rest].
    + intros [= <- <-]. by apply off_same.
    + intros [= <- <-] j Hj. rewrite dispatch_sort_perm in Hj.
      apply elem_of_cons in Hj as [->|Hj]; [right|by left].
      set (q1 := set_edata _ q). split; [by apply dispatch_sort_frame|].
      exact (undo_sorted_last q1 i).
Defined.

(** ** The deadline scheduler *)

Lemma move_request_last i (q q' : rqueue deadline_data) :
  deadline_move_request i q = Some q' → last_merge q' ≠ Some i.
Proof.
  unfold deadline_move_request, deadline_move_to_dispatch.
  intros (q2 & _ & E)%bind_Some. apply (inj Some) in E as <-. exact (undo_sorted_last q2 i).
Qed.

Lemma off_shrinks {D} (q q' : rqueue D) j :
  hash_shrinks q q' → on_hash q j = false ∧ last_merge q ≠ Some j →
  on_hash q' j = false ∧ last_merge q' ≠ Some j.
Proof.
  intros [Hs Hl] [Hh Hm]. split.
  - destruct (on_hash q' j) eqn:E; [|done]. apply Hs in E. congruence.
  - destruct Hl as [-> | ->]; done.
Qed.

Lemma add_rq_rb_off fuel i (q q' : rqueue deadline_data) :
  deadline_add_rq_rb fuel i q = Some q' → dispatched_off q q'.
Proof.
  revert q. induction fuel as [|fuel IH]; intros q; cbn [deadline_add_rq_rb]; [done|].
  destruct (elv_rb_add _ _ _) as [a|l].
  - intros (q1 & E1 & E)%bind_Some. pose proof (move_request_last a q q1 E1) as Hl1.
    apply move_request_frame in E1 as (_ & Hq1 & Hh1).
    pose proof (IH q1 E) as Hoff. apply add_rq_rb_frame in E as [(_ & _ & _ & Hsh) _].
    intros j [Hj|?]%Hoff; [|by right]. rewrite Hq1 in Hj.
    apply elem_of_app in Hj as [?| ->%list_elem_of_singleton]; [by left|right].
    by apply (off_shrinks q1).
  - intros E. apply (inj Some) in E as <-. by apply off_same.
Qed.

Lemma front_sorted g g' d l1 j i l2 :
  tree_ok g d (l1 ++ j :: i :: l2) →
  (∀ k, k ≠ i → er_pos (g' k) = er_pos (g k)) → (∀ k, er_write (g' k) = er_write (g k)) →
  er_pos (g j) < er_pos (g' i) ≤ er_pos (g i) → tree_ok g' d (l1 ++ j :: i :: l2).
Proof.
  intros Ht Hg Hw Hp. pose proof (tree_nodup _ _ _ Ht) as Hnd. destruct Ht as [Hs Hd].
  assert (∀ k, k ∈ l1 ++ [j] → k ≠ i) as Hn1.
  { intros k Hk ->. apply NoDup_app in Hnd as (_ & Hx & Hnd2).
    apply elem_of_app in Hk as [Hk| ->%list_elem_of_singleton].
    - apply (Hx i Hk). set_solver.
    - apply NoDup_cons in Hnd2 as [Hni _]. apply Hni. by left. }
  assert (∀ k, k ∈ l2 → k ≠ i) as Hn2.
  { intros k Hk ->. apply NoDup_app in Hnd as (_ & _ & Hnd2).
    apply NoDup_cons in Hnd2 as [_ Hnd2]. by apply NoDup_cons in Hnd2 as [? _]. }
  split; [|eapply Forall_impl; [exact Hd|]; intros k; by rewrite Hw].
  replace (l1 ++ j :: i :: l2) with ((l1 ++ [j]) ++ i :: l2) in * by (by rewrite <- app_assoc).
  apply StronglySorted_app in Hs as (H12 & H1 & H2).
  apply StronglySorted_cons in H2 as [H2i H2].
  assert (∀ k, k ∈ l1 ++ [j] → er_pos (g k) ≤ er_pos (g j)) as Hkj.
  { intros k [Hk| ->%list_elem_of_singleton]%elem_of_app; [|lia].
    apply StronglySorted_app in H1 as (Hx & _). apply Z.lt_le_incl, Hx; [done|by left]. }
  assert (∀ l, (∀ k, k ∈ l → k ≠ i) → StronglySorted (λ a b, er_pos (g a) < er_pos (g b)) l →
    StronglySorted (λ a b, er_pos (g' a) < er_pos (g' b)) l) as Hss.
  { intros l Hl Hss. induction Hss as [|a l Hss IH Ha]; constructor.
    - apply IH. intros k Hk. apply Hl. by right.
    - apply Forall_forall. intros b Hb. rewrite !Hg by (apply Hl; by (left || right)).
      by apply (proj1 (Forall_forall _ _) Ha). }
  apply StronglySorted_app. split_and!; [| |constructor].
  - intros a b Ha Hb. rewrite (Hg a) by auto. apply elem_of_cons in Hb as [->|Hb].
    + specialize (Hkj a Ha). lia.
    + rewrite Hg by auto. apply H12; [done|]. by right.
  - by apply Hss.
  - by apply Hss.
  - apply Forall_forall. intros b Hb. rewrite (Hg b) by auto.
    pose proof (proj1 (Forall_forall _ _) H2i b Hb). cbn in *. lia.
Qed.

Lemma deadline_root q d i :
  deadline_inv q → i ∈ sel d (sort_list (edata q)) →
  deadline_rb_root q i = sel d (sort_list (edata q)).
Proof. intros Hinv Hi. unfold deadline_rb_root. by rewrite (sort_dir q d i). Qed.

Lemma deadline_former_split q d i j :
  deadline_inv q → i ∈ sel d (sort_list (edata q)) → sched_former q i = Some j →
  ∃ l1 l2, sel d (sort_list (edata q)) = l1 ++ j :: i :: l2.
Proof.
  intros Hinv Hi E. cbn [sched_former deadline_neighbour] in E. rewrite (deadline_root q d i) in E by done.
  destruct (Hinv d) as (Ht & _). pose proof (tree_nodup _ _ _ Ht).
  apply next_in_split in E as (l1 & l2 & E); [|by rewrite reverse_Permutation].
  exists (reverse l2), (reverse l1). apply (f_equal reverse) in E.
  by rewrite reverse_involutive, reverse_app, !reverse_cons, <- !app_assoc in E.
Qed.

Lemma deadline_inv_pos (q q' : rqueue deadline_data) :
  deadline_inv q → edata q' = edata q →
  (∀ i, i ∈ sched_contents (edata q) →
     er_pos (rq_of q' i) = er_pos (rq_of q i) ∧ er_write (rq_of q' i) = er_write (rq_of q i)) →
  deadline_inv q'.
Proof.
  intros Hinv He Hp d. destruct (Hinv d) as (Ht & Hf & Hn). rewrite He. split_and!; try done.
  eapply tree_ext; [|exact Ht]. intros i Hi. apply Hp. by eapply in_sort_contents.
Qed.

Lemma deadline_inv_front q i j pos n :
  deadline_inv q → i ∈ sched_contents (edata q) → sched_former q i = Some j →
  er_pos (rq_of q j) < pos ≤ er_pos (rq_of q i) →
  deadline_inv (upd_rq i (grow_front pos n) q).
Proof.
  intros Hinv Hi E Hp. destruct (contents_in_sort q i Hinv Hi) as [d Hd].
  destruct (deadline_former_split q d i j Hinv Hd E) as (l1 & l2 & El).
  set (q' := upd_rq i _ q). intros d'. destruct (Hinv d') as (Ht & Hf & Hn).
  change (edata q') with (edata q). split_and!; try done.
  destruct (decide (d' = d)) as [->|Hne].
  - rewrite El in *. apply front_sorted with (g := rq_of q); [done| | |].
    + intros k Hk. unfold q'. by rewrite rq_of_upd, decide_False.
    + intros k. unfold q'. rewrite rq_of_upd. by case_decide; subst.
    + unfold q'. by rewrite rq_of_upd, decide_True.
  - eapply tree_ext; [|exact Ht]. intros k Hk. unfold q'. rewrite rq_of_upd.
    case_decide; [|done]. subst k. exfalso. apply Hne.
    rewrite <- (sort_dir q d i), <- (sort_dir q d' i) by done. done.
Qed.

(** Only the dispatched requests leave the lists of the scheduler. *)
Lemma deadline_merged_front q i pos n :
  deadline_inv q → sorted_ok q → i ∈ sched_contents (edata q) →
  ∃ q', deadline_merged_request i FRONT_MERGE (upd_rq i (grow_front pos n) q) = Some q' ∧
    deadline_inv q' ∧ sorted_ok q' ∧ queued q' ≡ₚ queued q ∧ i ∈ sched_contents (edata q') ∧
    frame (upd_rq i (grow_front pos n) q) q' ∧ dispatched_off q q'.
Proof.
  intros Hinv Hso Hc. destruct (front_merge_spec q i pos n Hinv Hc) as (q' & E & Hinv' & Hp).
  exists q'. split_and!; [done|done| |done| | |].
  all: unfold deadline_merged_request in E; apply bind_Some in E as (q1 & E1 & E2).
  all: destruct (contents_in_sort q i Hinv Hc) as [d Hi].
  all: destruct (rb_del_grown q i d pos n Hinv Hi) as (q1' & E1' & Hex & Hd1 & Hni & Hf1 & Hq1);
    rewrite E1 in E1'; apply (inj Some) in E1' as <-.
  all: assert (frame (upd_rq i (grow_front pos n) q) q1 ∧ nr_sorted q1 = nr_sorted q) as [Hfr Hns]
    by (unfold elv_rb_del in E1; destruct (bool_decide _); [|done];
        apply (inj Some) in E1 as <-; by split; [apply frame_dd_upd|]).
  3: { eapply frame_trans; [exact Hfr|]. by apply add_rq_rb_frame in E2 as [? _]. }
  3: { intros j Hj. destruct (add_rq_rb_off _ _ _ _ E2 j Hj) as [?|?]; [left|by right].
       by rewrite <- Hq1. }
  all: destruct (add_rq_rb_spec (upd d [i] none_ex) q1 i d)
    as (q2 & o & l & E2' & Ho & Hinv2 & Ht & Hl & Ha & _); try done;
    [intros [] j; destruct d; cbn; rewrite ?list_elem_of_singleton; try done; by intros ?%elem_of_nil|].
  all: rewrite E2 in E2'; apply (inj Some) in E2' as ->.
  all: assert (sched_contents (edata q1) = sched_contents (edata q)) as Hcc by (cbn; by rewrite Hf1).
  all: destruct (moved_out_queued o q1 q2 Ho) as (_ & _ & _ & _ & _ & Hlen & Hnr);
    [by rewrite Hcc; apply inv_nodup| |].
  1, 3: intros a Hoa; destruct (Hex d) as (_ & Hf & _); apply Ha in Hoa;
    assert (a ∈ sel d (fifo_list (edata q1))) as Hin by (rewrite Hf; apply elem_of_app; by right);
    cbn; rewrite elem_of_app; destruct d; auto.
  - unfold sorted_ok in *.
    change (nr_sorted q2 = u32 (Z.of_nat (length (sched_contents (edata q2))))).
    rewrite Hnr, Hns, Hso by (rewrite Hns, Hso; apply u32_range). rewrite <- Hcc, Hlen.
    unfold u32. rewrite Zminus_mod_idemp_l. f_equal. lia.
  - change (i ∈ sched_contents (edata q2)). destruct o as [a|]; [|by rewrite Ho, Hcc].
    destruct Ho as (_ & He & _). rewrite He.
    assert (sched_contents (moved (dir_of q1 a) a (rq_end_sector (rq_of q1 a)) (edata q1)) =
      without a (sched_contents (edata q1))) as -> by (symmetry; apply without_app).
    apply elem_of_without. rewrite Hcc. split; [|done]. intros <-. apply Hni. by apply Ha.
Qed.

Lemma deadline_merge_req q i j :
  deadline_inv q → NoDup (sched_contents (edata q)) → i ≠ j → i ∈ sched_contents (edata q) →
  j ∈ sched_contents (edata q) → er_write (rq_of q i) = er_write (rq_of q j) →
  ∃ q', deadline_merged_requests i j q = Some q' ∧ deadline_inv q' ∧
    sched_contents (edata q) ≡ₚ j :: sched_contents (edata q') ∧
    queue_head q' = queue_head q ∧ nr_sorted q' = nr_sorted q ∧ frame q q'.
Proof.
  intros Hinv _ Hne Hi Hj Hw.
  destruct (merged_requests_spec q i j Hinv Hne Hi Hj Hw) as (q' & E & Hinv' & Hp).
  exists q'. pose proof E as E0. unfold deadline_merged_requests, deadline_remove_request in E.
  set (q1 := if _ && _ && _ then _ else q) in E.
  assert (frame q q1 ∧ queue_head q1 = queue_head q ∧ nr_sorted q1 = nr_sorted q) as (F1 & Q1 & N1).
  { subst q1. destruct (_ && _ && _); [|by split_and!; [apply frame_refl|..]].
    split_and!; [|done|done]. eapply frame_trans; [apply frame_dd_upd|apply frame_fifo_time]. }
  assert (nr_sorted q' = nr_sorted q1) as N2.
  { unfold deadline_del_rq_rb, elv_rb_del in E. repeat case_match; try done; by simplify_eq. }
  apply frame_del_rq_rb in E as [F2 Q2]. split_and!; try done.
  - unfold queued in Hp. change (queue_head (rq_fifo_clear j q1)) with (queue_head q1) in Q2.
    rewrite Q2, Q1, Permutation_middle in Hp. by apply Permutation_app_inv_l in Hp.
  - rewrite Q2. exact Q1.
  - by rewrite N2.
  - eapply frame_trans; [exact F1|]. eapply frame_trans; [|exact F2].
    unfold rq_fifo_clear. eapply frame_trans; [apply frame_dd_upd|apply frame_fifo_time].
Qed.

#[export, refine] Instance deadline_merge_sched : SchedMerge deadline_data := {
  inv_front := deadline_inv_front;
  inv_pos := deadline_inv_pos;
  merged_front := deadline_merged_front;
  merge_req_ok := deadline_merge_req;
}.
Proof.
  - intros b q i Hinv. cbn. unfold deadline_merge. destruct (truthy _); [|done].
    destruct (elv_rb_find _ _ _) as [k|] eqn:E; [|done]. destruct (elv_rq_merge_ok _ _); [|done].
    intros [= <-]. destruct (Hinv (eb_write b)) as (Ht & _).
    pose proof (rb_find_spec q (eb_write b) (u64 (eb_sector b + eb_sectors b)) _ Ht) as Hf.
    rewrite E in Hf. destruct Hf as [Hf _]. by eapply in_sort_contents.
  - intros q i j Hinv _ Hi E. destruct (contents_in_sort q i Hinv Hi) as [d Hd].
    destruct (deadline_former_split q d i j Hinv Hd E) as (l1 & l2 & El).
    destruct (Hinv d) as (Ht & _). pose proof (tree_nodup _ _ _ Ht) as Hnd. split.
    + eapply in_sort_contents; [done|]. rewrite El. set_solver.
    + intros ->. rewrite El in Hnd. apply NoDup_app in Hnd as (_ & _ & Hnd).
      apply NoDup_cons in Hnd as [Hx _]. apply Hx. by left.
  - intros q i j Hinv _ Hi E. destruct (contents_in_sort q i Hinv Hi) as [d Hd].
    cbn in E. unfold deadline_latter_request in E. rewrite (deadline_root q d i) in E by done.
    destruct (Hinv d) as (Ht & _). split; [|by eapply next_in_ne; [eapply tree_nodup|]].
    eapply in_sort_contents; [done|]. by eapply next_in_elem.
  - intros q i pos n. cbn. unfold deadline_rb_root, dir_of.
    by rewrite rq_of_upd, decide_True.
  - done.
  - intros q q' i. cbn [sched_add deadline_sched]. unfold deadline_add_request. intros (q1 & E1 & E)%bind_Some.
    apply (inj Some) in E as <-. intros j Hj. exact (add_rq_rb_off _ _ _ _ E1 j Hj).
  - intros q b q' Hinv E. cbn [sched_dispatch deadline_sched] in E.
    rewrite dispatch_value in E by exact Hinv. destruct (pick q) as [[[i c] s]|].
    + apply bind_Some in E as (q1 & E & Hq'). simplify_eq.
      pose proof (move_request_last i _ _ E) as Hl.
      apply move_request_frame in E as (_ & Hq & Hh). intros j. rewrite Hq.
      intros [?| ->%list_elem_of_singleton]%elem_of_app; [by left|by right].
    + simplify_eq. by apply off_same.
Defined.
