(* ===== verification/MergeQueue.v ===== *)
(** * Merging and the elevator

    What the operations of the elevator that merging uses do to the queue,
    against the laws of [MergeSched]: no BUG is hit, the requests of the queue
    are those they should be, and only requests that the scheduler still holds
    can be found for a merge. *)
From stdpp Require Import gmap list.
From S2P Require Import Prelude Elevator Noop Deadline BlkQueue Segments Submit RequestData.
From S2P Require Import MergeSched.

Lemma same_request_view r r' : same_request r r' → view r' = view r.
Proof.
  destruct r, r'. unfold same_request, set_er_fifo_time, view. cbn. intros [=]. by subst.
Qed.

Lemma view_place r r' : view r' = view r → same_place r r'.
Proof. unfold view, same_place. intros [= -> -> -> _ _ _ _ _]. done. Qed.

Section queue.
Context {D : Type} `{SchedMerge D}.

(** Only requests of the scheduler are found for a merge. *)
Definition hashed (q : rqueue D) : Prop :=
  ∀ j, on_hash q j = true ∨ last_merge q = Some j → j ∈ sched_contents (edata q).

(** [drv] are the requests the driver has. *)
Record elv_ok (q : rqueue D) (drv : list nat) : Prop := {
  eo_inv : sched_inv q;
  eo_sorted : sorted_ok q;
  eo_nodup : NoDup (queued q ++ drv);
  eo_hashed : hashed q;
  eo_seq : q_ordseq q = 0;
  eo_pos : ∀ j, in_u64 (er_pos (rq_of q j));
}.

Lemma eo_contents q drv : elv_ok q drv → NoDup (sched_contents (edata q)).
Proof.
  intros Hq. pose proof (eo_nodup q drv Hq) as (Hn & _ & _)%NoDup_app.
  by apply NoDup_app in Hn as (_ & _ & ?).
Qed.

Lemma contents_queued (q : rqueue D) i : i ∈ sched_contents (edata q) → i ∈ queued q.
Proof. intros Hi. unfold queued. apply elem_of_app. by right. Qed.

(** Requests may move to the dispatch queue, off the hash. *)
Lemma hashed_moved (q q' : rqueue D) :
  NoDup (queued q) → hashed q → hash_shrinks q q' → dispatched_off q q' →
  queued q ⊆ queued q' → hashed q'.
Proof.
  intros Hnd Hh [Hs Hl] Hoff Hp j Hj.
  assert (j ∈ sched_contents (edata q)) as Hc.
  { apply Hh. destruct Hj as [Hj|Hj]; [left; auto|right]. destruct Hl; congruence. }
  assert (j ∈ queued q') as Hq by (by apply Hp, contents_queued).
  unfold queued in Hq. apply elem_of_app in Hq as [Hq|?]; [|done]. exfalso.
  destruct (Hoff j Hq) as [Hin|[Ho Hm]].
  - unfold queued in Hnd. apply NoDup_app in Hnd as (_ & Hx & _). by apply (Hx j).
  - destruct Hj; congruence.
Qed.

(** *** Bookkeeping that the scheduler does not notice *)

Lemma elv_ok_same q q' drv :
  elv_ok q drv → edata q' = edata q → queue_head q' = queue_head q → nr_sorted q' = nr_sorted q →
  q_ord q' = q_ord q → hash_shrinks q q' →
  (∀ j, er_pos (rq_of q' j) = er_pos (rq_of q j) ∧ er_write (rq_of q' j) = er_write (rq_of q j)) →
  elv_ok q' drv.
Proof.
  intros [Ki Ks Kn Kh Kq Kp] He Hq Hn Ho Hs Hp.
  assert (queued q' = queued q) as Hqq by (unfold queued; by rewrite He, Hq).
  split.
  - eapply inv_pos; [exact Ki|done|]. intros i _. apply Hp.
  - unfold sorted_ok. by rewrite Hn, He.
  - by rewrite Hqq.
  - eapply hashed_moved; [by apply NoDup_app in Kn as (? & _)|done|done|by apply off_same|].
    by rewrite Hqq.
  - unfold q_ordseq. by rewrite Ho.
  - intros j. destruct (Hp j) as [-> _]. done.
Qed.

Lemma stop_merging_ok i s drv :
  elv_ok (s_q s) drv →
  elv_ok (s_q (stop_merging i s)) drv ∧
  queued (s_q (stop_merging i s)) = queued (s_q s) ∧
  (∀ j, view (rq_of (s_q (stop_merging i s)) j) = view (rq_of (s_q s) j)).
Proof.
  intros Hq. unfold stop_merging. cbn [s_q set_s_q]. set (q1 := upd_rq i _ (s_q s)).
  destruct (clear_last_merge_fields q1 i) as (Er & Ee & Eq & En & _ & Hs).
  assert (q_ord (clear_last_merge i q1) = q_ord q1) as Eo
    by (unfold clear_last_merge; by case_bool_decide).
  assert (∀ j, rq_of (clear_last_merge i q1) j =
    if decide (i = j) then set_er_nomerge true (rq_of (s_q s) i) else rq_of (s_q s) j) as Hrq.
  { intros j. rewrite (rq_of_eq q1) by done. unfold q1. by rewrite rq_of_upd. }
  split_and!.
  - eapply elv_ok_same; [exact Hq|done..| |].
    + split; [apply Hs|]. destruct Hs as [_ [-> | ->]]; [by left|by right].
    + intros j. rewrite Hrq. by case_decide; subst.
  - unfold queued. by rewrite Ee, Eq.
  - intros j. rewrite Hrq. by case_decide; subst.
Qed.

(** *** Finding a request to merge with *)

Lemma rqhash_walk_same off l (q : rqueue D) :
  let q' := (rqhash_walk off l q).2 in
  edata q' = edata q ∧ queue_head q' = queue_head q ∧ nr_sorted q' = nr_sorted q ∧
  q_ord q' = q_ord q ∧ rqs q' = rqs q ∧ hash_shrinks q q' ∧ o_next (q_ord q') = o_next (q_ord q).
Proof.
  revert q. induction l as [|i l IH]; intros q; cbn [rqhash_walk].
  { split_and!; try done. by split; [|left]. }
  destruct (negb _).
  - destruct (IH (__elv_rqhash_del i q)) as (? & ? & ? & ? & ? & Hs & ?). split_and!; try done.
    eapply hash_shrinks_trans; [|exact Hs]. split; [|by left].
    intros j. rewrite !on_hash_bucket. intros [b Hj].
    rewrite bucket_del, list_elem_of_filter in Hj. exists b. tauto.
  - destruct (_ =? _); [|apply IH]. split_and!; try done. by split; [|left].
Qed.

Lemma merge_found b q drv k o q' :
  elv_ok q drv → elv_merge b q = (k, o, q') →
  elv_ok q' drv ∧ queued q' = queued q ∧ edata q' = edata q ∧ rqs q' = rqs q ∧
  (∀ i, o = Some i → i ∈ sched_contents (edata q)).
Proof.
  intros Hq. unfold elv_merge. destruct (nomerges q); [by intros [= <- <- <-]|].
  set (cached := match last_merge q with None => None | Some i => _ end).
  assert (∀ k i, cached = Some (k, i) → i ∈ sched_contents (edata q)) as Hc.
  { intros k' i E. subst cached. destruct (last_merge q) as [m|] eqn:El; [|done].
    apply (eo_hashed q drv Hq). right. rewrite El. by destruct (elv_try_merge _ _); simplify_eq. }
  destruct cached as [[k' i]|]; [intros [= <- <- <-]; split_and!; try done; intros j [= <-]; eauto|].
  destruct (noxmerges q); [by intros [= <- <- <-]|].
  unfold elv_rqhash_find.
  destruct (rqhash_walk_same (eb_sector b) (bucket q (ELV_HASH_FN (eb_sector b))) q)
    as (Ee & Eh & En & Eo & Er & Hs & _).
  pose proof (rqhash_walk_found (eb_sector b) (bucket q (ELV_HASH_FN (eb_sector b))) q) as Hin.
  destruct (rqhash_walk _ _ q) as [found q1]. cbn [fst snd] in *.
  assert (elv_ok q1 drv) as Hq1.
  { eapply elv_ok_same; try done. intros j. by rewrite (rq_of_eq q q1). }
  assert (queued q1 = queued q) as Hqq by (unfold queued; by rewrite Ee, Eh).
  destruct (match found with Some i => _ | None => false end) eqn:Ef.
  - intros [= <- <- <-]. split_and!; try done. intros i ->.
    apply (eo_hashed q drv Hq). left. apply on_hash_bucket. destruct (Hin i eq_refl). eauto.
  - destruct (sched_merge b q1) as [i|] eqn:Em; intros [= <- <- <-]; split_and!; try done.
    intros j [= <-]. rewrite <- Ee. eapply merge_in; [apply Hq1|done].
Qed.

(** *** A request that grew *)

Lemma grow_view (q : rqueue D) i pos n j :
  j ≠ i → view (rq_of (upd_rq i (grow_front pos n) q) j) = view (rq_of q j).
Proof. intros Hj. by rewrite rq_of_upd, decide_False. Qed.

Lemma elv_ok_back q drv i n :
  elv_ok q drv → elv_ok (upd_rq i (grow_front (er_pos (rq_of q i)) n) q) drv.
Proof.
  intros Hq. eapply elv_ok_same; [exact Hq|done..| |].
  - by split; [|left].
  - intros j. rewrite rq_of_upd. by case_decide; subst.
Qed.

Lemma elv_ok_front q drv i j pos n :
  elv_ok q drv → i ∈ sched_contents (edata q) → sched_former q i = Some j →
  er_pos (rq_of q j) < pos ≤ er_pos (rq_of q i) →
  elv_ok (upd_rq i (grow_front pos n) q) drv.
Proof.
  intros [Ki Ks Kn Kh Kq Kp] Hi Hf Hp. split; try done.
  - by eapply inv_front.
  - intros k. rewrite rq_of_upd. case_decide; [|done]. cbn.
    pose proof (Kp i). pose proof (Kp j). unfold in_u64 in *. lia.
Qed.

Lemma reposition_spec i (q : rqueue D) :
  ∃ q', elv_rqhash_reposition i q = Some q' ∧
    (rqs q' = rqs q ∧ edata q' = edata q ∧ queue_head q' = queue_head q ∧
     nr_sorted q' = nr_sorted q ∧ q_ord q' = q_ord q ∧ last_merge q' = last_merge q) ∧
    (∀ j, on_hash q' j = true → j = i ∨ on_hash q j = true).
Proof.
  unfold elv_rqhash_reposition, elv_rqhash_add.
  destruct (on_hash (__elv_rqhash_del i q) i) eqn:E.
  { exfalso. apply on_hash_bucket in E as [b Hb].
    rewrite bucket_del, list_elem_of_filter in Hb. tauto. }
  eexists. split; [reflexivity|]. split; [by split_and!|].
  set (q1 := __elv_rqhash_del i q). set (b := ELV_HASH_FN _). intros j.
  rewrite !on_hash_bucket. intros [c Hc]. unfold bucket in Hc at 1. cbn [hash set_hash] in Hc.
  destruct (decide (c = b)) as [->|Hne].
  - rewrite lookup_insert_eq in Hc. cbn [default from_option id] in Hc.
    apply elem_of_cons in Hc as [->|Hc]; [by left|right].
    unfold q1 in Hc. rewrite bucket_del, list_elem_of_filter in Hc. exists b. tauto.
  - rewrite lookup_insert_ne in Hc by done. fold (bucket q1 c) in Hc.
    unfold q1 in Hc. rewrite bucket_del, list_elem_of_filter in Hc. right. exists c. tauto.
Qed.

(** The hash and the cache end up with a request of the scheduler. *)
Lemma elv_ok_cached q q' drv i :
  elv_ok q drv → i ∈ sched_contents (edata q) →
  rqs q' = rqs q → edata q' = edata q → queue_head q' = queue_head q →
  nr_sorted q' = nr_sorted q → q_ord q' = q_ord q →
  (∀ j, on_hash q' j = true → j = i ∨ on_hash q j = true) → last_merge q' = Some i →
  elv_ok q' drv.
Proof.
  intros [Ki Ks Kn Kh Kq Kp] Hi Er Ee Eq En Eo Hh Hl. split.
  - eapply inv_pos; [exact Ki|done|]. intros j _. by rewrite (rq_of_eq q q').
  - unfold sorted_ok. by rewrite En, Ee.
  - unfold queued. by rewrite Ee, Eq.
  - intros j [Hj|Hj]; rewrite Ee.
    + apply Hh in Hj as [->|Hj]; [done|]. apply Kh. by left.
    + by simplify_eq.
  - unfold q_ordseq. by rewrite Eo.
  - intros j. by rewrite (rq_of_eq q q').
Qed.

Lemma merged_back_ok q drv i :
  elv_ok q drv → i ∈ sched_contents (edata q) →
  ∃ q', elv_merged_request i BACK_MERGE q = Some q' ∧ elv_ok q' drv ∧ queued q' = queued q ∧
    (∀ j, view (rq_of q' j) = view (rq_of q j)).
Proof.
  intros Hq Hi. unfold elv_merged_request. rewrite merged_back. cbn [mbind option_bind].
  destruct (reposition_spec i q) as (q1 & -> & (Er & Ee & Eq & En & Eo & El) & Hh).
  cbn [mbind option_bind]. eexists. split; [reflexivity|]. split_and!.
  - by apply (elv_ok_cached q _ drv i).
  - unfold queued. cbn. by rewrite Ee, Eq.
  - intros j. rewrite (rq_of_eq q) by done. done.
Qed.

Lemma merged_front_ok q drv i pos n :
  elv_ok q drv → i ∈ sched_contents (edata q) → in_u64 pos →
  ∃ q', elv_merged_request i FRONT_MERGE (upd_rq i (grow_front pos n) q) = Some q' ∧
    elv_ok q' drv ∧ queued q' ≡ₚ queued q ∧
    (∀ j, view (rq_of q' j) = view (rq_of (upd_rq i (grow_front pos n) q) j)).
Proof.
  intros Hq Hi Hpos. pose proof Hq as [Ki Ks Kn Kh Kq Kp]. unfold elv_merged_request.
  destruct (merged_front q i pos n) as (q1 & -> & Hinv & Hso & Hp & Hi1 & Hf & Hoff); [done..|].
  cbn [mbind option_bind]. eexists. split; [reflexivity|].
  destruct Hf as (Eo & _ & Hs & Hsh).
  assert (∀ j, view (rq_of q1 j) = view (rq_of (upd_rq i (grow_front pos n) q) j)) as Hv.
  { intros j. apply same_request_view, Hs. }
  assert (elv_ok q1 drv) as Hq1.
  { split; try done.
    - by rewrite Hp.
    - eapply hashed_moved; [by apply NoDup_app in Kn as (? & _)|exact Kh| |done|by rewrite Hp].
      destruct Hsh as [Hx Hy]. by split.
    - unfold q_ordseq. by rewrite Eo.
    - intros j. specialize (Hv j). unfold view in Hv. injection Hv as -> _.
      rewrite rq_of_upd. by case_decide. }
  split_and!; [|done|done]. by apply (elv_ok_cached q1 _ drv i); try done; right.
Qed.

(** *** Two requests become one *)

Lemma rqhash_del_gone (q : rqueue D) i : on_hash (elv_rqhash_del i q) i = false.
Proof.
  unfold elv_rqhash_del. destruct (on_hash q i) eqn:E; [|done].
  destruct (on_hash (__elv_rqhash_del i q) i) eqn:E2; [|done].
  apply on_hash_bucket in E2 as [b Hb]. rewrite bucket_del, list_elem_of_filter in Hb. tauto.
Qed.

Lemma rqhash_del_ord (q : rqueue D) i : q_ord (elv_rqhash_del i q) = q_ord q.
Proof. unfold elv_rqhash_del. by destruct (on_hash q i). Qed.

Lemma merge_requests_spec q drv i j :
  elv_ok q drv → i ≠ j → i ∈ sched_contents (edata q) → j ∈ sched_contents (edata q) →
  er_write (rq_of q i) = er_write (rq_of q j) →
  ∃ q', elv_merge_requests i j q = Some q' ∧ elv_ok q' drv ∧ queued q ≡ₚ j :: queued q' ∧
    on_hash q' j = false ∧ (∀ k, same_request (rq_of q k) (rq_of q' k)).
Proof.
  intros Hq Hne Hi Hj Hw. pose proof Hq as [Ki Ks Kn Kh Kq Kp]. unfold elv_merge_requests.
  destruct (merge_req_ok q i j) as (q1 & -> & Hinv & Hc & Hhd & Hns & Hf);
    [done|by eapply eo_contents|done..|].
  cbn [mbind option_bind]. destruct Hf as (Eo & _ & Hs & Hsh).
  destruct (reposition_spec i q1) as (q2 & -> & (Er & Ee & Eq & En & Eo2 & El) & Hh).
  cbn [mbind option_bind]. eexists. split; [reflexivity|].
  destruct (rqhash_del_fields q2 j) as (Dr & De & Dq & Dn & Dl & _).
  pose proof (rqhash_del_shrinks q2 j) as [Ds _].
  set (q3 := set_last_merge _ _).
  assert (edata q3 = edata q1) as E3 by (by transitivity (edata (elv_rqhash_del j q2)); [|congruence]).
  assert (queue_head q3 = queue_head q) as Q3.
  { transitivity (queue_head (elv_rqhash_del j q2)); [done|congruence]. }
  assert (rqs q3 = rqs q1) as R3 by (transitivity (rqs (elv_rqhash_del j q2)); [done|congruence]).
  assert (queued q ≡ₚ j :: queued q3) as Hp.
  { unfold queued. rewrite E3, Q3, Hc. by rewrite Permutation_middle. }
  assert (∀ k, same_request (rq_of q k) (rq_of q3 k)) as Hs3.
  { intros k. rewrite (rq_of_eq q1 q3) by done. apply Hs. }
  split_and!; [|done| |done].
  - split.
    + eapply inv_pos; [exact Hinv|done|]. intros k _. by rewrite (rq_of_eq q1 q3).
    + unfold sorted_ok in *. rewrite E3.
      assert (nr_sorted q3 = u32 (nr_sorted q - 1)) as ->.
      { change (nr_sorted q3) with (u32 (nr_sorted (elv_rqhash_del j q2) - 1)). congruence. }
      rewrite Ks, Hc. cbn [length]. unfold u32. rewrite Zminus_mod_idemp_l. f_equal. lia.
    + rewrite Hp in Kn. cbn in Kn. by apply NoDup_cons in Kn as [_ ?].
    + assert (i ∈ sched_contents (edata q1)) as Hi1.
      { rewrite Hc in Hi. by apply elem_of_cons in Hi as [?|?]. }
      intros k Hk. rewrite E3. destruct Hk as [Hk|Hk]; [|by change (Some i = Some k) in Hk; simplify_eq].
      assert (k ≠ j) as Hkj.
      { intros ->. rewrite (on_hash_eq (elv_rqhash_del j q2)) in Hk by done.
        by rewrite rqhash_del_gone in Hk. }
      rewrite (on_hash_eq (elv_rqhash_del j q2)) in Hk by done.
      apply Ds, Hh in Hk as [->|Hk]; [done|]. apply Hsh in Hk.
      assert (k ∈ sched_contents (edata q)) as Hkc by (apply Kh; by left).
      rewrite Hc in Hkc. by apply elem_of_cons in Hkc as [?|?].
    + unfold q_ordseq in *.
      change (q_ord q3) with (q_ord (elv_rqhash_del j q2)). by rewrite rqhash_del_ord, Eo2, Eo.
    + intros k. specialize (Hs3 k). apply same_request_view in Hs3. unfold view in Hs3.
      by injection Hs3 as -> _.
  - rewrite (on_hash_eq (elv_rqhash_del j q2)) by done. apply rqhash_del_gone.
Qed.

(** The request that is left over is not in flight and is freed. *)
Lemma put_request_ok s drv j :
  elv_ok (s_q s) drv → j ∉ queued (s_q s) → on_hash (s_q s) j = false →
  er_started (rq_of (s_q s) j) = false →
  ∃ q', __blk_put_request j s = Some (mk_subq q' (s_bios s) (delete j (s_data s))) ∧
    elv_ok q' drv ∧ queued q' = queued (s_q s) ∧
    (∀ k, k ≠ j → rq_of q' k = rq_of (s_q s) k).
Proof.
  intros [Ki Ks Kn Kh Kq Kp] Hj Hh Hst. unfold __blk_put_request, elv_completed_request.
  assert (account_completed j (s_q s) = s_q s) as ->.
  { unfold account_completed, blk_account_rq. by rewrite Hst. }
  rewrite Kq. cbn [Z.eqb mbind option_bind]. rewrite bool_decide_false, Hh by done. cbn [orb].
  eexists. split; [reflexivity|].
  assert (∀ k, k ≠ j → rq_of (set_rqs (delete j (rqs (s_q s))) (s_q s)) k = rq_of (s_q s) k) as Hk.
  { intros k Hne. unfold rq_of. cbn. by rewrite lookup_delete_ne. }
  split_and!; [|done|done]. split; try done.
  - eapply inv_pos; [exact Ki|done|]. intros k Hc. rewrite Hk; [done|].
    intros ->. by apply Hj, contents_queued.
  - intros k. destruct (decide (k = j)) as [->|Hne]; [|by rewrite Hk].
    unfold rq_of. cbn. by rewrite lookup_delete_eq.
Qed.

(** *** Dispatching *)

Lemma dispatch_ok q drv :
  elv_ok q drv →
  ∃ b q', sched_dispatch q = Some (b, q') ∧ elv_ok q' drv ∧ queued q' ≡ₚ queued q ∧
    (∀ j, view (rq_of q' j) = view (rq_of q j)) ∧
    if (b : bool) then length (sched_contents (edata q)) = S (length (sched_contents (edata q')))
    else sched_contents (edata q') = [].
Proof.
  intros [Ki Ks Kn Kh Kq Kp].
  destruct (sched_dispatch_ok q Ki) as (b & q' & E & Hinv & Hp & _ & Hb).
  exists b, q'. split; [done|]. pose proof (dispatch_off q b q' Ki E) as Hoff.
  destruct b; cycle 1.
  { destruct Hb as [-> Hc]. by split_and!. }
  destruct Hb as [Hlen Hns]. destruct (sched_dispatch_frame q q' Ki E) as [(Eo & _ & Hs & Hsh) _].
  assert (∀ j, view (rq_of q' j) = view (rq_of q j)) as Hv by (intros j; by apply same_request_view).
  split_and!; try done. split; try done.
  - unfold sorted_ok in *. rewrite Hns, Ks, Hlen. unfold u32. rewrite Zminus_mod_idemp_l. f_equal. lia.
  - by rewrite Hp.
  - eapply hashed_moved; [by apply NoDup_app in Kn as (? & _)|done..|by rewrite Hp].
  - unfold q_ordseq. by rewrite Eo.
  - intros j. specialize (Hv j). unfold view in Hv. by injection Hv as -> _.
Qed.

Lemma drain_ok fuel q drv :
  elv_ok q drv → (length (sched_contents (edata q)) < fuel)%nat →
  ∃ q', elv_drain_elevator fuel q = Some q' ∧ elv_ok q' drv ∧ queued q' ≡ₚ queued q ∧
    (∀ j, view (rq_of q' j) = view (rq_of q j)) ∧ sched_contents (edata q') = [].
Proof.
  revert q. induction fuel as [|fuel IH]; intros q Hq Hf; [lia|]. cbn [elv_drain_elevator].
  destruct (dispatch_ok q drv Hq) as (b & q1 & -> & Hq1 & Hp1 & Hv1 & Hb). cbn [mbind option_bind].
  destruct b; [|by exists q1].
  destruct (IH q1 Hq1) as (q' & -> & Hq' & Hp & Hv & Hc); [lia|].
  exists q'. split_and!; try done; [by rewrite Hp|]. intros j. by rewrite Hv.
Qed.

Lemma coalesce_ok s drv i j n :
  elv_ok (s_q s) drv → i ≠ j → i ∈ sched_contents (edata (s_q s)) →
  j ∈ sched_contents (edata (s_q s)) →
  er_write (rq_of (s_q s) i) = er_write (rq_of (s_q s) j) →
  er_started (rq_of (s_q s) j) = false →
  let q := upd_rq i (grow_front (er_pos (rq_of (s_q s) i)) n) (s_q s) in
  ∃ q1 q2, elv_merge_requests i j q = Some q1 ∧
    __blk_put_request j (set_s_q q1 s) = Some (mk_subq q2 (s_bios s) (delete j (s_data s))) ∧
    elv_ok q2 drv ∧ queued (s_q s) ≡ₚ j :: queued q2 ∧
    (∀ k, k ≠ j → view (rq_of q2 k) = view (rq_of q k)).
Proof.
  intros Hq Hne Hi Hj Hw Hst q.
  assert (∀ k, k ≠ i → rq_of q k = rq_of (s_q s) k) as Hk.
  { intros k Hk. unfold q. rewrite rq_of_upd, decide_False; done. }
  destruct (merge_requests_spec q drv i j) as (q1 & E1 & Hq1 & Hp & Hoh & Hs); try done.
  { by apply elv_ok_back. }
  { rewrite (Hk j) by done. unfold q. rewrite rq_of_upd, decide_True by done. exact Hw. }
  assert (j ∉ queued q1) as Hjq.
  { pose proof (eo_nodup q drv) as Hn. rewrite Hp in Hn. intros Hx.
    assert (NoDup (j :: queued q1 ++ drv)) as Hn' by (apply Hn; by apply elv_ok_back).
    apply NoDup_cons in Hn' as [Hn' _]. apply Hn', elem_of_app. by left. }
  destruct (put_request_ok (set_s_q q1 s) drv j) as (q2 & E2 & Hq2 & Hqq & Hv); try done.
  { cbn. specialize (Hs j). rewrite (Hk j) in Hs by done.
    apply (f_equal er_started) in Hs. cbn in Hs. congruence. }
  exists q1, q2. split_and!; try done.
  - rewrite Hqq. exact Hp.
  - intros k Hkj. rewrite Hv by done. apply same_request_view, Hs.
Qed.

(** *** Adding a request *)

Lemma elv_ok_upd q drv i f :
  elv_ok q drv → i ∉ queued q → in_u64 (er_pos (f (rq_of q i))) → elv_ok (upd_rq i f q) drv.
Proof.
  intros [Ki Ks Kn Kh Kq Kp] Hi Hp. split; try done.
  - eapply inv_pos; [exact Ki|done|]. intros j Hj. rewrite rq_of_upd, decide_False; [done|].
    intros ->. by apply Hi, contents_queued.
  - intros j. rewrite rq_of_upd. by case_decide.
Qed.

Lemma insert_back_ok fuel i q drv :
  elv_ok q drv → i ∉ queued q ++ drv → (length (sched_contents (edata q)) < fuel)%nat →
  ∃ q', elv_insert fuel i ELEVATOR_INSERT_BACK q = Some q' ∧ elv_ok q' drv ∧
    queued q' ≡ₚ i :: queued q ∧ (∀ j, view (rq_of q' j) = view (rq_of q j)).
Proof.
  intros Hq Hi Hf. cbn [elv_insert]. set (q1 := upd_rq i (set_er_soft true) q).
  assert (elv_ok q1 drv) as Hq1.
  { apply elv_ok_upd; [done| |]; [|cbn; apply (eo_pos q drv Hq)].
    intros Hx. apply Hi, elem_of_app. by left. }
  destruct (drain_ok fuel q1 drv Hq1) as (q2 & -> & Hq2 & Hp & Hv & Hc); [done|].
  cbn [mbind option_bind]. eexists. split; [reflexivity|].
  pose proof Hq2 as [Ki Ks Kn Kh Kq Kp].
  assert (queued (set_queue_head (queue_head q2 ++ [i]) q2) ≡ₚ i :: queued q) as Hpp.
  { unfold queued in *. cbn. rewrite Hc, app_nil_r in *. rewrite Hp.
    by rewrite <- Permutation_cons_append. }
  split_and!; [|done|].
  - split; try done.
    + eapply inv_pos; [exact Ki|done|]. done.
    + rewrite Hpp. cbn. constructor; [done|]. by rewrite Hp in Kn.
  - intros j. transitivity (view (rq_of q2 j)); [done|]. rewrite Hv. unfold q1. rewrite rq_of_upd.
    by case_decide; subst.
Qed.

(** The entry in the merge structures before the insertion. *)
Lemma prepared_hash (q q2 : rqueue D) i :
  (if rq_mergeable (rq_of q i) then
     q ← elv_rqhash_add i q;
     Some (match last_merge q with None => set_last_merge (Some i) q | Some _ => q end)
   else Some q) = Some q2 →
  (∀ j, on_hash q2 j = true → j = i ∨ on_hash q j = true) ∧
  (last_merge q2 = last_merge q ∨ last_merge q2 = Some i) ∧ q_ord q2 = q_ord q.
Proof.
  destruct (rq_mergeable (rq_of q i)); intros E2; cycle 1.
  { apply (inj Some) in E2 as <-. split_and!; [by right|by left|done]. }
  apply bind_Some in E2 as (q3 & E3 & E2). unfold elv_rqhash_add in E3.
  destruct (on_hash q i); [done|]. apply (inj Some) in E3 as <-.
  assert (∀ j, on_hash (set_hash (<[ELV_HASH_FN (rq_hash_key (rq_of q i)) :=
    i :: bucket q (ELV_HASH_FN (rq_hash_key (rq_of q i)))]> (hash q)) q) j = true →
    j = i ∨ on_hash q j = true) as Hh.
  { intros j. rewrite !on_hash_bucket. intros [c Hc]. unfold bucket in Hc at 1. cbn [hash set_hash] in Hc.
    destruct (decide (c = ELV_HASH_FN (rq_hash_key (rq_of q i)))) as [->|Hne].
    - rewrite lookup_insert_eq in Hc. cbn [default from_option id] in Hc.
      apply elem_of_cons in Hc as [->|Hc]; [by left|right]. by eexists.
    - rewrite lookup_insert_ne in Hc by done. right. by exists c. }
  cbn [last_merge set_hash] in E2.
  destruct (last_merge q) eqn:El; apply (inj Some) in E2 as <-; (split_and!; [done|first [by left|by right]|done]).
Qed.

Lemma insert_sort_ok fuel i q drv :
  elv_ok q drv → i ∉ queued q ++ drv → er_fs (rq_of q i) = true →
  ∃ q', elv_insert fuel i ELEVATOR_INSERT_SORT q = Some q' ∧ elv_ok q' drv ∧
    queued q' ≡ₚ i :: queued q ∧ (∀ j, view (rq_of q' j) = view (rq_of q j)).
Proof.
  intros Hq Hi Hfs. pose proof Hq as [Ki Ks Kn Kh Kq Kp].
  apply not_elem_of_app in Hi as [Hi Hid].
  assert (i ∉ sched_contents (edata q)) as Hic by (intros ?; by apply Hi, contents_queued).
  assert (on_hash q i = false) as Hoh.
  { destruct (on_hash q i) eqn:E; [|done]. exfalso. apply Hic, Kh. by left. }
  cbn [elv_insert]. rewrite Hfs. cbn [negb andb].
  set (q1 := set_nr_sorted _ _).
  assert (∀ j, view (rq_of q1 j) = view (rq_of q j)) as Hv1.
  { intros j. unfold q1. rewrite (rq_of_eq (upd_rq i (set_er_sorted true) q)) by done.
    rewrite rq_of_upd. by case_decide; subst. }
  destruct (insert_sort_prepared q1 i) as (q2 & E2 & Er & Ee & Eq & En); [done|].
  assert ((∀ j, on_hash q2 j = true → j = i ∨ on_hash q j = true) ∧
    (last_merge q2 = last_merge q ∨ last_merge q2 = Some i) ∧ q_ord q2 = q_ord q) as (Hh2 & Hl2 & Ho2).
  { exact (prepared_hash q1 q2 i E2). }
  rewrite E2. cbn [mbind option_bind].
  destruct (insert_sched q q2 i) as (q' & Ha & Hinv & Hp & Hso & Hin & _ & _); try done.
  { intros j. rewrite (rq_of_eq q1 q2) by done. by apply view_place. }
  exists q'. split; [done|].
  assert (sched_inv q2) as Hinv2.
  { eapply inv_pos; [exact Ki|done|]. intros j _. rewrite (rq_of_eq q1 q2) by done.
    by destruct (view_place _ _ (Hv1 j)) as (-> & _ & ->). }
  destruct (sched_add_frame q2 q' i) as [(Eo & _ & Hs & [Hsh1 Hsh2]) _]; [done|by rewrite Ee|done|].
  assert (∀ j, view (rq_of q' j) = view (rq_of q j)) as Hv.
  { intros j. rewrite (same_request_view _ _ (Hs j)), <- Hv1. by rewrite (rq_of_eq q1 q2). }
  pose proof (add_off q2 q' i Ha) as Hoff.
  split_and!; [|done|done]. split; try done.
  - rewrite Hp. cbn. constructor; [by apply not_elem_of_app|done].
  - intros j Hj. destruct (decide (j = i)) as [->|Hne]; [done|].
    assert (j ∈ sched_contents (edata q)) as Hc.
    { apply Kh. destruct Hj as [Hj|Hj].
      - apply Hsh1, Hh2 in Hj as [?|?]; [done|by left].
      - right. destruct Hsh2 as [E|E], Hl2 as [E'|E']; congruence. }
    assert (j ∈ queued q') as Hjq by (rewrite Hp; right; by apply contents_queued).
    unfold queued in Hjq. apply elem_of_app in Hjq as [Hjq|?]; [|done]. exfalso.
    destruct (Hoff j Hjq) as [Hin'|[? ?]]; [|destruct Hj; congruence].
    rewrite Eq in Hin'. unfold queued in Kn. apply NoDup_app in Kn as (Kn & _ & _).
    apply NoDup_app in Kn as (_ & Hx & _). by apply (Hx j).
  - unfold q_ordseq. by rewrite Eo, Ho2.
  - intros j. by destruct (view_place _ _ (Hv j)) as [-> _].
Qed.

Lemma add_request_ok i q drv :
  elv_ok q drv → i ∉ queued q ++ drv → er_fs (rq_of q i) = true →
  ∃ q', __elv_add_request (S (length (sched_contents (edata q)))) i ELEVATOR_INSERT_SORT q =
      Some q' ∧ elv_ok q' drv ∧ queued q' ≡ₚ i :: queued q ∧
    (∀ j, view (rq_of q' j) = view (rq_of q j)).
Proof.
  intros Hq Hi Hfs. unfold __elv_add_request.
  assert (i ∉ queued q) as Hiq by (intros ?; apply Hi, elem_of_app; by left).
  set (q0 := if ordcolor q then upd_rq i (set_er_color true) q else q).
  assert (elv_ok q0 drv ∧ queued q0 = queued q ∧ edata q0 = edata q ∧
    (∀ j, view (rq_of q0 j) = view (rq_of q j))) as (Hq0 & Q0 & D0 & V0).
  { subst q0. destruct (ordcolor q); [|done]. split_and!; try done.
    - apply elv_ok_upd; [done|done|]. cbn. apply (eo_pos q drv Hq).
    - intros j. rewrite rq_of_upd. by case_decide; subst. }
  clearbody q0. rewrite <- Q0 in *. rewrite <- D0. clear D0 Q0.
  assert (er_fs (rq_of q0 i) = true) as Hfs0.
  { specialize (V0 i). unfold view in V0. by injection V0 as _ _ _ _ -> _ _ _. }
  set (q1 := if er_fs (rq_of q0 i) || er_discard (rq_of q0 i) then _ else _).
  assert (elv_ok q1 drv ∧ queued q1 = queued q0 ∧ edata q1 = edata q0 ∧
    (∀ j, rq_of q1 j = rq_of q0 j)) as (Hq1 & Q1 & D1 & V1).
  { subst q1. destruct (er_hard (rq_of q0 i)), (er_fs (rq_of q0 i) || er_discard (rq_of q0 i));
      (split_and!; [|done..]); (eapply elv_ok_same; [exact Hq0|done..|by split; [|left]|done]). }
  destruct (er_soft (rq_of q0 i) || er_hard (rq_of q0 i)).
  - destruct (insert_back_ok (S (length (sched_contents (edata q0)))) i q1 drv)
      as (q' & E & Hq' & Hp & Hv); [done|by rewrite Q1|by rewrite D1; lia|].
    exists q'. split_and!; [exact E|done|by rewrite Hp, Q1|].
    intros j. by rewrite Hv, V1, V0.
  - destruct (negb (er_elvpriv (rq_of q0 i))).
    + destruct (insert_back_ok (S (length (sched_contents (edata q0)))) i q0 drv)
        as (q' & E & Hq' & Hp & Hv); [done|done|lia|].
      exists q'. split_and!; try done. intros j. by rewrite Hv, V0.
    + destruct (insert_sort_ok (S (length (sched_contents (edata q0)))) i q0 drv)
        as (q' & E & Hq' & Hp & Hv); [done|done|done|].
      exists q'. split_and!; try done. intros j. by rewrite Hv, V0.
Qed.

(** *** The driver starts a request *)

Lemma start_ok i rest q drv :
  elv_ok q drv → queue_head q = i :: rest →
  ∃ q', blk_start_request i (see_request i q) = Some q' ∧ elv_ok q' (i :: drv) ∧
    queued q ≡ₚ i :: queued q' ∧ (∀ j, view (rq_of q' j) = view (rq_of q j)).
Proof.
  intros Hq Hhd. pose proof Hq as [Ki Ks Kn Kh Kq Kp].
  set (q1 := see_request i q).
  assert (elv_ok q1 drv ∧ queued q1 = queued q ∧ queue_head q1 = queue_head q ∧ hash q1 = hash q ∧
    (∀ j, view (rq_of q1 j) = view (rq_of q j))) as (Hq1 & Q1 & D1 & H1' & V1).
  { assert (∀ q2, elv_ok q2 drv → elv_ok (set_boundary_rq None
      (set_end_sector (rq_end_sector (rq_of q2 i)) q2)) drv) as Hb.
    { intros q2 Hq2. eapply elv_ok_same; [exact Hq2|done..|by split; [|left]|done]. }
    assert (elv_ok (upd_rq i (set_er_started true) q) drv) as Hs.
    { eapply elv_ok_same; [exact Hq|done..|by split; [|left]|].
      intros j. rewrite rq_of_upd. by case_decide; subst. }
    assert (∀ j, view (rq_of (upd_rq i (set_er_started true) q) j) = view (rq_of q j)) as Hv.
    { intros j. rewrite rq_of_upd. by case_decide; subst. }
    unfold q1, see_request. set (q2 := if er_started (rq_of q i) then q else _).
    assert (elv_ok q2 drv ∧ queued q2 = queued q ∧ queue_head q2 = queue_head q ∧ hash q2 = hash q ∧
      (∀ j, view (rq_of q2 j) = view (rq_of q j))) as Hq2
      by (subst q2; by destruct (er_started (rq_of q i))).
    clearbody q2. generalize (match boundary_rq q2 with None => true | Some b => bool_decide (b = i) end).
    intros []; [|done]. destruct Hq2 as (? & ?). split; [by apply Hb|done]. }
  assert (i ∉ sched_contents (edata q1)) as Hic.
  { unfold queued in Kn. rewrite Hhd in Kn. apply NoDup_app in Kn as (Kn & _ & _).
    apply NoDup_cons in Kn as [Hx _]. intros Hin. apply Hx, elem_of_app. right.
    assert (queued q1 = queued q) as Hqq by done. unfold queued in Hqq. rewrite D1 in Hqq.
    by apply app_inv_head in Hqq as <-. }
  clearbody q1. unfold blk_start_request, blk_dequeue_request.
  rewrite D1, Hhd, bool_decide_true by (by left). cbn [negb].
  destruct (on_hash q1 i) eqn:Eh.
  { exfalso. apply Hic, (eo_hashed q1 drv Hq1). by left. }
  eexists. split; [reflexivity|]. rewrite <- Q1.
  assert (i ∉ rest) as Hir.
  { unfold queued in Kn. rewrite Hhd in Kn. apply NoDup_app in Kn as (Kn & _ & _).
    apply NoDup_cons in Kn as [Hx _]. intros Hin. apply Hx, elem_of_app. by left. }
  rewrite without_cons, decide_True, without_notin by done.
  set (q2 := set_queue_head rest q1).
  set (q3 := if blk_account_rq (rq_of q2 i) then _ else q2).
  assert (edata q3 = edata q1 ∧ queue_head q3 = rest ∧ nr_sorted q3 = nr_sorted q1 ∧
    rqs q3 = rqs q1 ∧ hash q3 = hash q1 ∧ last_merge q3 = last_merge q1 ∧
    q_ordseq q3 = q_ordseq q1) as (E1 & E2 & E3 & E4 & E5 & E6 & E7).
  { subst q3. destruct (blk_account_rq _); [|done]. unfold add_in_flight.
    by destruct (rq_is_sync _). }
  clearbody q3. assert (queued q1 ≡ₚ i :: queued q3) as Hp.
  { unfold queued. by rewrite E1, E2, D1, Hhd. }
  pose proof Hq1 as [Ji Js Jn Jh Jq Jp]. split_and!; [|done|].
  - split.
    + eapply inv_pos; [exact Ji|done|]. intros j _. by rewrite (rq_of_eq q1 q3).
    + unfold sorted_ok. by rewrite E3, E1.
    + rewrite Hp in Jn. by rewrite <- Permutation_middle.
    + intros j. rewrite (on_hash_eq q1 q3), E6, E1 by done. apply Jh.
    + by rewrite E7.
    + intros j. by rewrite (rq_of_eq q1 q3).
  - intros j. by rewrite (rq_of_eq q1 q3), V1.
Qed.

(** *** The driver is done with a request *)

Lemma put_done_ok s drv drv' i :
  elv_ok (s_q s) drv → drv ≡ₚ i :: drv' →
  ∃ q', __blk_put_request i s = Some (mk_subq q' (s_bios s) (delete i (s_data s))) ∧
    elv_ok q' drv' ∧ queued q' = queued (s_q s) ∧
    (∀ k, k ≠ i → rq_of q' k = rq_of (s_q s) k).
Proof.
  intros [Ki Ks Kn Kh Kq Kp] Hd. rewrite Hd, <- Permutation_middle in Kn.
  apply NoDup_cons in Kn as [Hi Kn]. apply not_elem_of_app in Hi as [Hi _].
  assert (i ∉ sched_contents (edata (s_q s))) as Hic by (intros ?; by apply Hi, contents_queued).
  unfold __blk_put_request, elv_completed_request. set (q1 := account_completed i (s_q s)).
  assert (q_ordseq q1 = 0 ∧ rqs q1 = rqs (s_q s) ∧ edata q1 = edata (s_q s) ∧
    queue_head q1 = queue_head (s_q s) ∧ nr_sorted q1 = nr_sorted (s_q s) ∧
    hash q1 = hash (s_q s) ∧ last_merge q1 = last_merge (s_q s)) as (Jq & Jr & Je & Jh & Jn & Jx & Jl).
  { subst q1. unfold account_completed. destruct (blk_account_rq _); [|done].
    unfold add_in_flight. by destruct (rq_is_sync _). }
  clearbody q1. rewrite Jq. cbn [Z.eqb mbind option_bind].
  rewrite bool_decide_false by (unfold queued in *; by rewrite Jh, Je).
  rewrite (on_hash_eq (s_q s) q1) by done.
  destruct (on_hash (s_q s) i) eqn:Eh; [exfalso; apply Hic, Kh; by left|]. cbn [orb].
  eexists. split; [reflexivity|].
  assert (∀ k, k ≠ i → rq_of (set_rqs (delete i (rqs q1)) q1) k = rq_of (s_q s) k) as Hk.
  { intros k Hne. unfold rq_of. cbn. by rewrite Jr, lookup_delete_ne. }
  assert (queued (set_rqs (delete i (rqs q1)) q1) = queued (s_q s)) as Hqq
    by (unfold queued; cbn; by rewrite Jh, Je).
  split_and!; [|done|done]. split.
  - eapply inv_pos; [exact Ki|done|]. intros k Hc. rewrite Hk; [done|]. by intros ->.
  - unfold sorted_ok in *. cbn. by rewrite Jn, Je.
  - by rewrite Hqq.
  - intros j. cbn [last_merge set_rqs edata]. rewrite Jl, Je, (on_hash_eq (s_q s)) by done. apply Kh.
  - done.
  - intros k. destruct (decide (k = i)) as [->|Hne]; [|by rewrite Hk].
    unfold rq_of. cbn. by rewrite lookup_delete_eq.
Qed.
End queue.
