(* ===== verification/SubmitInv.v ===== *)
(** * The invariant of the submitted bios

    Every request of the queue and of the driver describes the chain of its
    bios, and no bio is in two chains.  The operations of [Submit] that merge
    a bio or two requests preserve it, whatever the scheduler; none of them
    hits a BUG or follows a pointer to a bio that does not exist. *)
From stdpp Require Import gmap list.
From S2P Require Import Prelude Elevator Noop Deadline BlkQueue Segments Submit RequestData.
From S2P Require Import MergeData MergeSched MergeQueue.

(** ** The chains of a list of requests *)

Definition chains (ids : list nat) (ch : nat → list nat) : list nat := ids ≫= ch.

Definition put (i : nat) (l : list nat) (ch : nat → list nat) (j : nat) : list nat :=
  if decide (j = i) then l else ch j.

Lemma put_eq i l ch : put i l ch i = l.
Proof. unfold put. by rewrite decide_True. Qed.

Lemma put_ne i l ch j : j ≠ i → put i l ch j = ch j.
Proof. intros. unfold put. by rewrite decide_False. Qed.

Lemma chains_perm ids ids' ch : ids ≡ₚ ids' → chains ids ch ≡ₚ chains ids' ch.
Proof. unfold chains. by intros ->. Qed.

Lemma chains_app ids ids' ch : chains (ids ++ ids') ch = chains ids ch ++ chains ids' ch.
Proof. apply bind_app. Qed.

Lemma chains_put r i l ch : i ∉ r → chains r (put i l ch) = chains r ch.
Proof.
  unfold chains. induction r as [|j r IH]; [done|]. intros Hi. cbn.
  apply not_elem_of_cons in Hi as [? ?]. by rewrite put_ne, IH.
Qed.

Lemma chains_elem ids ch i k : i ∈ ids → k ∈ ch i → k ∈ chains ids ch.
Proof. intros. apply list_elem_of_bind. eauto. Qed.

Lemma chain_nodup ids ch i : NoDup (chains ids ch) → i ∈ ids → NoDup (ch i).
Proof.
  intros Hn [r Hp]%elem_of_Permutation. rewrite (chains_perm _ _ ch Hp) in Hn.
  by apply NoDup_app in Hn as [? _].
Qed.

Lemma chains_disjoint ids ch i j :
  NoDup (chains ids ch) → i ∈ ids → j ∈ ids → i ≠ j → NoDup (ch i ++ ch j).
Proof.
  intros Hn [r Hp]%elem_of_Permutation Hj Hne. rewrite Hp in Hj.
  apply elem_of_cons in Hj as [?|[r' Hp']%elem_of_Permutation]; [done|].
  rewrite Hp' in Hp. rewrite (chains_perm _ _ ch Hp) in Hn. cbn in Hn.
  rewrite (assoc_L (++)) in Hn. by apply NoDup_app in Hn as [? _].
Qed.

Section inv.
Context {D : Type} `{SchedMerge D} (L : limits) (HL : limits_ok L).

(** ** What the requests have to do with the bios *)

Record data_ok (s : subq D) (ids : list nat) (ch : nat → list nat) : Prop := {
  do_store : store_ok L (s_bios s);
  do_rq i : i ∈ ids → ∃ d, s_data s !! i = Some d ∧
    request_ok L (s_bios s) (rq_of (s_q s) i) d (ch i);
  do_nodup : NoDup (chains ids ch);
}.

Definition requests (s : subq D) (drv : list nat) : list nat := queued (s_q s) ++ drv.

Definition sub_ok (s : subq D) (drv : list nat) (ch : nat → list nat) : Prop :=
  elv_ok (s_q s) drv ∧ data_ok s (requests s drv) ch.

Lemma other_chain s ids ch i j k :
  data_ok s ids ch → i ∈ ids → j ∈ ids → i ≠ j → k ∈ ch j → k ∉ ch i.
Proof.
  intros Hd Hi Hj Hne Hk Hk'.
  pose proof (chains_disjoint ids ch i j (do_nodup _ _ _ Hd) Hi Hj Hne) as Hn.
  apply NoDup_app in Hn as (_ & Hx & _). by apply (Hx k).
Qed.

Lemma data_ok_perm s ids ids' ch : ids ≡ₚ ids' → data_ok s ids ch → data_ok s ids' ch.
Proof.
  intros Hp [Ho Hr Hn]. split; [done| |].
  - intros i Hi. apply Hr. by rewrite Hp.
  - by rewrite <- (chains_perm _ _ ch Hp).
Qed.

(** The requests stay as they are while bios are counted or marked. *)
Lemma data_ok_grown s s' ids l ch :
  data_ok s ids ch → grown L l (s_bios s) (s_bios s') → s_data s' = s_data s →
  (∀ j, view (rq_of (s_q s') j) = view (rq_of (s_q s) j)) → data_ok s' ids ch.
Proof.
  intros [Ho Hr Hn] Hg Ed Hv. split; [by eapply grown_store| |done].
  intros i Hi. destruct (Hr i Hi) as (d & Hd & Hok). exists d. rewrite Ed. split; [done|].
  eapply request_ok_view; [apply Hv|]. by eapply request_ok_grown.
Qed.

(** One request takes over the chain [l], which consists of the bios [ext],
    of its own and of those of the requests [gone]. *)
Lemma data_ok_one s s' ids ids' i gone r ext l d' ch :
  data_ok s ids ch → ids ≡ₚ i :: gone ++ r → ids' ≡ₚ i :: r → NoDup ids →
  l ≡ₚ ext ++ ch i ++ chains gone ch → NoDup ext → (∀ k, k ∈ ext → k ∉ chains ids ch) →
  store_ok L (s_bios s') → (∀ k, k ∉ l → s_bios s' !! k = s_bios s !! k) →
  (∀ j, j ∈ r → view (rq_of (s_q s') j) = view (rq_of (s_q s) j) ∧
     s_data s' !! j = s_data s !! j) →
  s_data s' !! i = Some d' → request_ok L (s_bios s') (rq_of (s_q s') i) d' l →
  data_ok s' ids' (put i l ch) ∧ chains ids' (put i l ch) ≡ₚ ext ++ chains ids ch.
Proof.
  intros [Ho Hr Hn] Hp Hp' Hnd Hl Hne Hext Ho' Hb Hsame Hd' Hok.
  assert (NoDup (i :: gone ++ r)) as Hnd' by (by rewrite <- Hp).
  apply NoDup_cons in Hnd' as [Hi Hnd']. apply not_elem_of_app in Hi as [_ Hi].
  assert (chains ids ch ≡ₚ ch i ++ chains gone ch ++ chains r ch) as Hc.
  { rewrite (chains_perm _ _ ch Hp). cbn. by rewrite <- chains_app. }
  assert (chains ids' (put i l ch) ≡ₚ ext ++ chains ids ch) as Hc'.
  { rewrite (chains_perm _ _ _ Hp'), Hc. cbn. rewrite put_eq. fold (chains r (put i l ch)).
    rewrite chains_put, Hl by done. by rewrite <- !(assoc_L (++)). }
  split; [|done]. split; [done| |].
  - intros j Hj. rewrite Hp' in Hj. apply elem_of_cons in Hj as [->|Hj].
    { exists d'. by rewrite put_eq. }
    assert (j ≠ i) as Hji by (by intros ->). rewrite put_ne by done.
    destruct (Hr j) as (d & Hd & Hokj); [by rewrite Hp, elem_of_cons, elem_of_app; auto|]. destruct (Hsame j Hj) as [Hv Es].
    exists d. rewrite Es. split; [done|]. eapply request_ok_view; [exact Hv|].
    eapply request_ok_same; [|exact Hokj]. intros k Hk. apply Hb. rewrite Hl.
    assert (NoDup (ext ++ chains ids ch)) as Hn'.
    { apply NoDup_app. split_and!; [done|exact Hext|done]. }
    rewrite Hc, !(assoc_L (++)) in Hn'. apply NoDup_app in Hn' as (_ & Hx & _).
    rewrite (assoc_L (++)). intros Hk'. by eapply Hx, chains_elem.
  - rewrite Hc'. apply NoDup_app. split_and!; [done|exact Hext|done].
Qed.

Lemma store_ok_next bs i x n :
  store_ok L bs → bs !! i = Some x → store_ok L (<[i := set_bi_next n x]> bs).
Proof.
  intros Ho Hx j y Hy. destruct (decide (j = i)) as [->|Hne].
  - rewrite lookup_insert_eq in Hy. simplify_eq. exact (Ho i x Hx).
  - rewrite lookup_insert_ne in Hy by done. by apply (Ho j).
Qed.

Lemma dom_next (bs : bio_store) i x n :
  bs !! i = Some x → dom (<[i := set_bi_next n x]> bs) = dom bs.
Proof. intros Hx%elem_of_dom_2. by rewrite dom_insert_L, (subseteq_union_1_L {[i]}); [|apply singleton_subseteq_l]. Qed.

(** ** Coalescing two requests *)

Lemma same_data_trans d1 d2 d3 : same_data d1 d2 → same_data d2 d3 → same_data d1 d3.
Proof. unfold same_data. intuition congruence. Qed.

Lemma same_data_refl d : ff_ok (r_failfast d) → same_data d d.
Proof. by unfold same_data. Qed.

Lemma linked_grown l k bs bs' :
  store_ok L bs → linked bs k → grown L l bs bs' → linked bs' k.
Proof.
  intros Ho Hl (_ & _ & K). eapply linked_frame; [exact Hl|]. intros i x _ Hx.
  destruct (K i x Hx (Ho i x Hx)) as (y & Hy & (_ & ? & _) & _). eauto.
Qed.

Lemma eager_grown l k ff bs bs' :
  store_ok L bs → linked bs k → grown L l bs bs' → head_eager bs k ff → head_eager bs' k ff.
Proof.
  intros Ho Hl (_ & _ & K) He i y Hi Hy.
  destruct (linked_elem bs k i) as [x Hx]; [done|by apply head_Some_elem_of|].
  destruct (K i x Hx (Ho i x Hx)) as (y' & Hy' & (Hst & _) & _). simplify_eq.
  apply Hst. by eapply He.
Qed.

(** The attributes of one or of both requests are distributed, or of none. *)
Lemma mixed_one (c : bool) req l d (s : subq D) :
  s_data s !! req = Some d → linked (s_bios s) l → r_bio d = head l → ff_ok (r_failfast d) →
  (r_mixed d = true → head_eager (s_bios s) l (r_failfast d)) → NoDup l →
  ∃ s' d', (if c then Some s else blk_rq_set_mixed_merge req s) = Some s' ∧ s_q s' = s_q s ∧
    grown L l (s_bios s) (s_bios s') ∧ s_data s' = <[req := d']> (s_data s) ∧ same_data d d' ∧
    (r_mixed d' = true → head_eager (s_bios s') l (r_failfast d')).
Proof.
  intros Hd Hl Hh Hff Hmix Hn. destruct c.
  - exists s, d. split_and!; [done|done|apply grown_refl|by rewrite insert_id|by apply same_data_refl|done].
  - destruct (mixed_spec L HL req l d s) as (s' & d' & ? & ? & ? & ? & ? & ?); try done.
    exists s', d'. by split_and!.
Qed.

Lemma mixed_front (c : bool) ff req l d (s : subq D) :
  s_data s !! req = Some d → linked (s_bios s) l → r_bio d = head l → ff_ok (r_failfast d) →
  (r_mixed d = true → head_eager (s_bios s) l (r_failfast d)) →
  ff_ok ff → (c = true → r_failfast d = ff) → NoDup l →
  ∃ s' d', (if c then Some s
            else s ← blk_rq_set_mixed_merge req s;
                 d ← s_data s !! req;
                 Some (set_data req (set_failfast ff (r_mixed d) d) s)) = Some s' ∧
    s_q s' = s_q s ∧ grown L l (s_bios s) (s_bios s') ∧
    s_data s' = <[req := d']> (s_data s) ∧ same_data d d' ∧ r_failfast d' = ff.
Proof.
  intros Hd Hl Hh Hff Hmix Hff' Hc Hn. destruct c.
  { destruct (mixed_one true req l d s) as (s' & d' & [= <-] & ? & ? & Hd' & ? & _); try done.
    exists s, d. split_and!; [done|done|apply grown_refl|by rewrite insert_id|by apply same_data_refl|auto]. }
  destruct (mixed_spec L HL req l d s) as (s1 & d1 & -> & Q & G & D1 & S1 & _); try done.
  cbn [mbind option_bind]. rewrite D1, lookup_insert_eq. cbn [mbind option_bind].
  exists (set_data req (set_failfast ff (r_mixed d1) d1) s1), (set_failfast ff (r_mixed d1) d1).
  split; [reflexivity|]. split_and!; try done.
  - cbn [s_data set_data]. by rewrite D1, insert_insert_eq.
  - unfold same_data in *. cbn. by destruct S1 as (? & ? & ? & ? & ? & _).
Qed.

Lemma mixed_both (c : bool) req next l1 l2 d1 d2 (s : subq D) :
  store_ok L (s_bios s) → req ≠ next → s_data s !! req = Some d1 → s_data s !! next = Some d2 →
  linked (s_bios s) l1 → linked (s_bios s) l2 → r_bio d1 = head l1 → r_bio d2 = head l2 →
  ff_ok (r_failfast d1) → ff_ok (r_failfast d2) →
  (r_mixed d1 = true → head_eager (s_bios s) l1 (r_failfast d1)) →
  (r_mixed d2 = true → head_eager (s_bios s) l2 (r_failfast d2)) → NoDup (l1 ++ l2) →
  ∃ s' d1' d2', (if c then s ← blk_rq_set_mixed_merge req s; blk_rq_set_mixed_merge next s
                 else Some s) = Some s' ∧ s_q s' = s_q s ∧
    grown L (l1 ++ l2) (s_bios s) (s_bios s') ∧
    s_data s' = <[next := d2']> (<[req := d1']> (s_data s)) ∧ same_data d1 d1' ∧ same_data d2 d2' ∧
    (r_mixed d1' = true → head_eager (s_bios s') l1 (r_failfast d1')) ∧
    (r_mixed d2' = true → head_eager (s_bios s') l2 (r_failfast d2')).
Proof.
  intros Ho Hne E1 E2 K1 K2 B1 B2 F1 F2 M1 M2 Hn. apply NoDup_app in Hn as (N1 & _ & N2). destruct c.
  - destruct (mixed_spec L HL req l1 d1 s) as (s1 & d1' & -> & Q1 & G1 & D1 & S1 & A1); try done.
    cbn [mbind option_bind].
    destruct (mixed_spec L HL next l2 d2 s1) as (s2 & d2' & -> & Q2 & G2 & D2 & S2 & A2); try done.
    { by rewrite D1, lookup_insert_ne. }
    { by eapply linked_grown. }
    { intros Hm. eapply eager_grown; [exact Ho|exact K2|exact G1|by apply M2]. }
    exists s2, d1', d2'. split_and!; try done; [congruence| |by rewrite D2, D1|].
    + eapply grown_trans; (eapply grown_weaken; [|done]); intros i Hi; apply elem_of_app; auto.
    + intros _. eapply eager_grown; [by eapply grown_store|by eapply linked_grown|exact G2|exact A1].
  - exists s, d1, d2. split_and!; [done|done|apply grown_refl| |by apply same_data_refl..|done|done].
    by rewrite (insert_id (s_data s)), insert_id.
Qed.

Lemma segmented_grown l k n bs bs' :
  store_ok L bs → linked bs k → grown L l bs bs' → segmented L bs k n → segmented L bs' k n.
Proof.
  intros Ho Hl Hg. apply segmented_kept.
  - eapply grown_kept; [done| |done]. intros i. by apply linked_elem.
  - intros i x y _ Hx Hy. destruct Hg as (_ & _ & K).
    destruct (K i x Hx (Ho i x Hx)) as (y' & ? & (_ & _ & ?) & _). by simplify_eq.
Qed.

(** What an attempt to coalesce leaves.  The order of the scheduler need only
    be right when the requests are contiguous. *)
Definition coalesced (drv ids : list nat) (ch : nat → list nat) (s : subq D) (ok : bool)
    (s' : subq D) : Prop :=
  dom (s_bios s') = dom (s_bios s) ∧
  (∀ k, k ∉ chains ids ch → s_bios s' !! k = s_bios s !! k) ∧
  if ok then ∃ ch', sub_ok s' drv ch' ∧ chains (requests s' drv) ch' ≡ₚ chains ids ch
  else s_q s' = s_q s ∧ data_ok s' ids ch.

Lemma coalesced_same drv ids ch s : data_ok s ids ch → coalesced drv ids ch s false s.
Proof. done. Qed.

Lemma pair_refused drv ids ch req next d1 d2 s s' :
  data_ok s ids ch → req ∈ ids → next ∈ ids →
  s_data s !! req = Some d1 → s_data s !! next = Some d2 →
  pair_test L req (ch req) (ch next) (rq_of (s_q s) req) (rq_of (s_q s) next) d1 d2 s false s' →
  coalesced drv ids ch s false s'.
Proof.
  intros Hd Hi Hj E1 E2 (Eq & Ed & Hn & Ho & R1 & R2 & Es). split_and!; try done.
  - intros k Hk. apply Hn. intros [Hx|Hx]%elem_of_app; apply Hk; (eapply chains_elem; [|exact Hx]); done.
  - split; [done| |by destruct Hd]. intros j Hj'. rewrite Es, Eq.
    destruct (decide (j = req)) as [->|Hjr]; [eauto|].
    destruct (decide (j = next)) as [->|Hjn]; [eauto|].
    destruct (do_rq _ _ _ Hd j Hj') as (d & E & R). exists d. split; [done|].
    eapply request_ok_same; [|exact R]. intros k Hk. apply Hn.
    intros [Hk'|Hk']%elem_of_app; revert Hk'; by eapply other_chain.
Qed.

Lemma request_sectors bs r d l :
  store_ok L bs → request_ok L bs r d l → rq_mergeable r = true →
  rq_end_sector r = er_pos r + sectors bs l ∧ 0 < sectors bs l.
Proof.
  intros Ho Hr Hm. destruct (ro_data _ _ _ _ _ Hr Hm) as (_ & _ & Hpos).
  destruct (ro_ends _ _ _ _ _ Hr) as (_ & _ & Hne).
  destruct (placed_range L bs (er_pos r) l Ho (ro_placed _ _ _ _ _ Hr) Hne) as (? & ? & ?).
  split; [|done]. unfold rq_end_sector.
  destruct (rq_sectors L bs r d l Hr) as [_ ->]. apply u64_small. unfold in_u64. lia.
Qed.

(** [next] has left the queue and its bios are linked behind those of [req]. *)
Lemma pair_coalesced drv ch req next d1 d' t xt m n s q2 :
  elv_ok (s_q s) drv → elv_ok q2 drv → req ≠ next →
  req ∈ sched_contents (edata (s_q s)) → next ∈ requests s drv →
  data_ok (set_data req d1 s) (requests s drv) ch →
  last (ch req) = Some t → s_bios s !! t = Some xt →
  let bs' := <[t := set_bi_next m xt]> (s_bios s) in
  let q := upd_rq req (grow_front (er_pos (rq_of (s_q s) req)) n) (s_q s) in
  request_ok L bs' (rq_of q req) d' (ch req ++ ch next) →
  queued (s_q s) ≡ₚ next :: queued q2 →
  (∀ k, k ≠ next → view (rq_of q2 k) = view (rq_of q k)) →
  coalesced drv (requests s drv) ch (set_data req d1 s) true
    (mk_subq q2 bs' (delete next (<[req := d']> (s_data s)))).
Proof.
  intros Hq Hq2 Hne Hi Hj' Hd Ht Hxt bs' q Hok Hp Hv.
  assert (req ∈ requests s drv) as Hi' by (apply elem_of_app; left; by apply contents_queued).
  assert (∃ r, requests s drv ≡ₚ req :: [next] ++ r ∧ queued q2 ++ drv ≡ₚ req :: r) as (r & Hr1 & Hr2).
  { assert (req ∈ queued q2) as Hrq.
    { apply contents_queued in Hi. rewrite Hp in Hi. by apply elem_of_cons in Hi as [?|?]. }
    apply elem_of_Permutation in Hrq as [r Hr]. exists (r ++ drv). unfold requests.
    rewrite Hp, Hr. split; [|done]. by rewrite Permutation_swap. }
  split_and!.
  - apply dom_next. exact Hxt.
  - intros k Hk'. cbn. unfold bs'. rewrite lookup_insert_ne; [done|]. intros ->.
    apply Hk'. eapply chains_elem; [exact Hi'|]. by apply last_Some_elem_of.
  - exists (put req (ch req ++ ch next) ch). unfold sub_ok.
    destruct (data_ok_one (set_data req d1 s) (mk_subq q2 bs' (delete next (<[req := d']> (s_data s))))
      (requests s drv) (queued q2 ++ drv) req [next] r [] (ch req ++ ch next) d' ch)
      as [Hdo Hch]; try done.
    + apply (eo_nodup _ _ Hq).
    + cbn. by rewrite app_nil_r.
    + constructor.
    + intros k Hk'. by apply not_elem_of_nil in Hk'.
    + apply store_ok_next; [exact (do_store _ _ _ Hd)|done].
    + intros k Hk'. cbn. unfold bs'. rewrite lookup_insert_ne; [done|]. intros ->.
      apply Hk', elem_of_app. left. by apply last_Some_elem_of.
    + intros j Hjr. cbn. pose proof (eo_nodup _ _ Hq) as Hnd. fold (requests s drv) in Hnd.
      rewrite Hr1 in Hnd. apply NoDup_cons in Hnd as [Hn1 Hnd]. apply NoDup_cons in Hnd as [Hn2 _].
      assert (j ≠ next) by (by intros ->). assert (j ≠ req) by (intros ->; by apply Hn1; right).
      rewrite Hv, lookup_delete_ne, !lookup_insert_ne by done. split; [|done]. by apply grow_view.
    + cbn. by rewrite lookup_delete_ne, lookup_insert_eq.
    + cbn. eapply request_ok_view; [|exact Hok]. by rewrite Hv by done.
Qed.

(** The chains of two requests become one: [d1] is the data of the first
    before the segments of both were counted. *)
Lemma take_over_spec drv ch req next d1 d n s :
  elv_ok (s_q s) drv → req ≠ next →
  req ∈ sched_contents (edata (s_q s)) → next ∈ sched_contents (edata (s_q s)) →
  data_ok (set_data req d1 s) (requests s drv) ch →
  s_data s !! req = Some d → same_data (set_nr_phys n d1) d →
  rq_mergeable (rq_of (s_q s) req) = true → rq_mergeable (rq_of (s_q s) next) = true →
  rq_end_sector (rq_of (s_q s) req) = er_pos (rq_of (s_q s) next) →
  er_write (rq_of (s_q s) req) = er_write (rq_of (s_q s) next) →
  er_disk (rq_of (s_q s) req) = er_disk (rq_of (s_q s) next) →
  segmented L (s_bios s) (ch req ++ ch next) n → 0 ≤ n ≤ max_segments L →
  sectors (s_bios s) (ch req) + sectors (s_bios s) (ch next) ≤ max_sectors L →
  (r_mixed d = true → head_eager (s_bios s) (ch req) (r_failfast d)) →
  ∃ s', take_over req next s = Some s' ∧
    coalesced drv (requests s drv) ch (set_data req d1 s) true s'.
Proof.
  intros Hq Hne Hi Hj Hd Ed Sd M1 M2 Hc Hw Hk Hseg Hn Hsec Hmix.
  assert (req ∈ requests s drv ∧ next ∈ requests s drv) as [Hi' Hj']
    by (split; apply elem_of_app; left; by apply contents_queued).
  pose proof (chains_disjoint _ ch req next (do_nodup _ _ _ Hd) Hi' Hj' Hne) as Hn12.
  destruct (do_rq _ _ _ Hd req Hi') as (d1' & E1 & R1), (do_rq _ _ _ Hd next Hj') as (d2 & E2 & R2).
  cbn [s_data s_bios s_q set_data] in E1, E2, R1, R2.
  rewrite lookup_insert_eq in E1. rewrite lookup_insert_ne in E2 by done. apply (inj Some) in E1 as <-.
  pose proof (do_store _ _ _ Hd) as Ho. cbn [s_bios set_data] in Ho.
  destruct (request_sectors _ _ _ _ Ho R1 M1) as [Hend Hs1], (request_sectors _ _ _ _ Ho R2 M2) as [_ Hs2].
  destruct (ro_ends _ _ _ _ _ R1) as (B1 & T1 & Ne1).
  destruct Sd as (Sb & St & Sl & Sn & Sc & Sf). cbn in Sb, St, Sl, Sn, Sc.
  assert (∃ t xt, last (ch req) = Some t ∧ s_bios s !! t = Some xt) as (t & xt & Ht & Hxt).
  { destruct (last (ch req)) as [t|] eqn:Ht; [|by apply last_None in Ht].
    destruct (ro_dom L _ _ _ _ t R1) as [xt ?]; [by apply last_Some_elem_of|eauto]. }
  unfold take_over. rewrite Ed, E2. cbn [mbind option_bind].
  rewrite St, T1, Ht. cbn [mbind option_bind]. rewrite (upd_bio_some _ _ _ _ Hxt).
  cbn [mbind option_bind]. set (d' := mk_rd _ _ _ _ _ _ _ _ _ _ _).
  set (bs' := <[t := _]> _).
  assert (request_ok L bs' (grow_front (er_pos (rq_of (s_q s) req)) (blk_rq_sectors d')
    (rq_of (s_q s) req)) d' (ch req ++ ch next)) as Hok.
  { apply (link_pair L HL (s_bios s) _ (rq_of (s_q s) next) d1 d2 _ _ t xt n); try done;
      first [exact Hmix|cbn; congruence]. }
  destruct (coalesce_ok (set_data req d' (set_s_bios bs' s)) drv req next (blk_rq_sectors d'))
    as (q1 & q2 & Hm & Hput & Hq2 & Hp & Hv); try done.
  { unfold rq_mergeable in M2. cbn [s_q set_data set_s_bios].
    destruct (er_started (rq_of (s_q s) next)); [|done]. by rewrite orb_true_r in M2. }
  change (blk_rq_sectors d') with (Z.shiftr (u32 (r_data_len d + r_data_len d2)) 9) in Hm.
  cbn [s_bios s_q s_data set_s_bios set_data] in *. rewrite Hm.
  cbn [mbind option_bind]. rewrite Hput. eexists. split; [reflexivity|].
  eapply (pair_coalesced drv ch req next d1 d' t xt); try done.
  by rewrite rq_of_upd, decide_True.
Qed.

(** The state in which the first of two requests has already counted the
    segments of both, seen with its own count. *)
Lemma pair_data ids ch req next d1 d2 d2' dx dy s bs s2 :
  data_ok s ids ch → req ∈ ids → next ∈ ids → req ≠ next →
  s_q s2 = s_q s → (∀ i, i ∉ ch req ++ ch next → bs !! i = s_bios s !! i) →
  store_ok L bs → request_ok L bs (rq_of (s_q s) req) d1 (ch req) →
  request_ok L bs (rq_of (s_q s) next) d2 (ch next) →
  grown L (ch req ++ ch next) bs (s_bios s2) →
  s_data s2 = <[next := d2']> (<[req := dx]> (<[req := dy]> (s_data s))) → same_data d2 d2' →
  (r_mixed d2' = true → head_eager (s_bios s2) (ch next) (r_failfast d2')) →
  data_ok (set_data req d1 s2) ids ch.
Proof.
  intros Hd Hi Hj Hne Eq Hn Ho R1 R2 Hg Ed Sd Hmix. split; [by eapply grown_store| |by destruct Hd].
  intros j Hj'. cbn [s_data s_bios s_q set_data]. rewrite Ed, Eq.
  destruct (decide (j = req)) as [->|Hjr].
  { exists d1. rewrite lookup_insert_eq. split; [done|]. by eapply request_ok_grown. }
  rewrite lookup_insert_ne by done. destruct (decide (j = next)) as [->|Hjn].
  { exists d2'. rewrite lookup_insert_eq. split; [done|]. eapply request_ok_data; [done|done|].
    by eapply request_ok_grown. }
  rewrite !lookup_insert_ne by done. destruct (do_rq _ _ _ Hd j Hj') as (d & E & R).
  exists d. split; [done|]. eapply request_ok_same; [|exact R]. intros k Hk.
  assert (k ∉ ch req ++ ch next) as Hk'
    by (intros [Hx|Hx]%elem_of_app; revert Hx; by eapply other_chain).
  destruct Hg as (_ & -> & _); auto.
Qed.

Lemma attempt_merge_spec drv ch req next s :
  data_ok s (requests s drv) ch → req ≠ next →
  req ∈ sched_contents (edata (s_q s)) → next ∈ sched_contents (edata (s_q s)) →
  (rq_mergeable (rq_of (s_q s) req) = true → rq_mergeable (rq_of (s_q s) next) = true →
   rq_end_sector (rq_of (s_q s) req) = er_pos (rq_of (s_q s) next) → elv_ok (s_q s) drv) →
  ∃ ok s', attempt_merge L req next s = Some (ok, s') ∧
    coalesced drv (requests s drv) ch s ok s'.
Proof.
  intros Hd Hne Hi Hj Hq.
  assert (req ∈ requests s drv ∧ next ∈ requests s drv) as [Hi' Hj']
    by (split; apply elem_of_app; left; by apply contents_queued).
  pose proof (chains_disjoint _ ch req next (do_nodup _ _ _ Hd) Hi' Hj' Hne) as Hn12.
  destruct (do_rq _ _ _ Hd req Hi') as (d1 & E1 & R1), (do_rq _ _ _ Hd next Hj') as (d2 & E2 & R2).
  unfold attempt_merge.
  destruct (negb (rq_mergeable _) || _) eqn:Em; [by exists false, s|].
  apply orb_false_iff in Em as [Em1%negb_false_iff Em2%negb_false_iff].
  destruct (negb (rq_end_sector _ =? _)) eqn:Ep; [by exists false, s|].
  apply negb_false_iff, Z.eqb_eq in Ep.
  destruct (negb (eqb (er_write _) _) || _ || _) eqn:Ew; [by exists false, s|].
  apply orb_false_iff in Ew as [[Ew%negb_false_iff Ek%negb_false_iff]%orb_false_iff Esp].
  apply eqb_prop in Ew. apply Nat.eqb_eq in Ek.
  destruct (negb (eqb (er_integrity _) _)); [by exists false, s|].
  destruct (ll_merge_spec L HL req next (ch req) (ch next) (rq_of (s_q s) req)
    (rq_of (s_q s) next) d1 d2 s) as (ok & s1 & -> & Hpt); try done; [by destruct Hd|].
  cbn [mbind option_bind].
  destruct ok; cbn [negb]; [|exists false, s1; split; [done|eapply (pair_refused drv _ ch req next d1 d2); done]].
  destruct Hpt as (Q1 & Dm1 & N1 & O1 & P1 & P2 & n & Ed & Hseg & Hn & Hsec).
  destruct (ro_ends _ _ _ _ _ P1) as (B1 & T1 & Ne1), (ro_ends _ _ _ _ _ P2) as (B2 & T2 & Ne2).
  destruct (ro_flags _ _ _ _ _ P1) as (_ & _ & _ & Hcu & F1), (ro_flags _ _ _ _ _ P2) as (_ & _ & _ & _ & F2).
  assert (s_data s1 !! next = Some d2) as E2' by (by rewrite Ed, lookup_insert_ne).
  assert (s_data s1 !! req = Some (set_nr_phys n d1)) as E1' by (by rewrite Ed, lookup_insert_eq).
  rewrite E2', E1'. cbn [mbind option_bind].
  destruct (mixed_both (r_mixed (set_nr_phys n d1) || r_mixed d2 ||
      negb (r_failfast (set_nr_phys n d1) =? r_failfast d2)) req next (ch req) (ch next)
      (set_nr_phys n d1) d2 s1) as (s2 & d1' & d2' & -> & Q2 & G & D2 & S1 & S2 & A1 & A2); try done;
    [by eapply ro_linked..|exact (ro_mixed _ _ _ _ _ P1)|exact (ro_mixed _ _ _ _ _ P2)|].
  cbn [mbind option_bind]. rewrite Ed in D2.
  assert (kept (ch req ++ ch next) (s_bios s1) (s_bios s2)) as Hk.
  { eapply grown_kept; [done| |done]. intros k [Hx|Hx]%elem_of_app; [exact (ro_dom L _ _ _ _ _ P1 Hx)|exact (ro_dom L _ _ _ _ _ P2 Hx)]. }
  assert (s_q s2 = s_q s) as Q by congruence.
  destruct (take_over_spec drv ch req next d1 d1' n s2) as (s' & -> & Hdm & Hb & Hco);
    rewrite ?Q; auto.
  - unfold requests. rewrite Q. by eapply pair_data.
  - by rewrite D2, lookup_insert_ne, lookup_insert_eq.
  - eapply segmented_kept; [exact Hk| |exact Hseg]. intros i x y _ Hx Hy.
    destruct G as (_ & _ & K). destruct (K i x Hx (O1 i x Hx)) as (y' & Hy' & (_ & _ & ?) & _).
    by simplify_eq.
  - rewrite <- sectors_app, (sectors_kept _ _ _ Hk), sectors_app. exact Hsec.
  - exists true, s'. split; [done|]. cbn [s_bios set_data] in Hdm, Hb. split_and!.
    + rewrite Hdm, <- Dm1. by destruct G.
    + intros k Hk'. unfold requests in Hb. rewrite Hb by (by rewrite Q).
      assert (k ∉ ch req ++ ch next) as Hkk
        by (intros [Hx|Hx]%elem_of_app; apply Hk'; (eapply chains_elem; [|exact Hx]); done).
      destruct G as (_ & -> & _); auto.
    + unfold requests in Hco at 2. by rewrite Q in Hco.
Qed.

(** ** A bio joins a request *)

(** What an attempt to merge the bio [b] leaves: it is in the chain of a
    request, or as it was. *)
Definition absorbed (drv : list nat) (ch : nat → list nat) (b : nat) (s : subq D) (ok : bool)
    (s' : subq D) : Prop :=
  dom (s_bios s') = dom (s_bios s) ∧
  (∀ k, k ∉ b :: chains (requests s drv) ch → s_bios s' !! k = s_bios s !! k) ∧
  if ok then
    ∃ ch', sub_ok s' drv ch' ∧
      chains (requests s' drv) ch' ≡ₚ b :: chains (requests s drv) ch
  else
    sub_ok s' drv ch ∧ requests s' drv = requests s drv ∧
    ∀ x, s_bios s !! b = Some x → ∃ y, s_bios s' !! b = Some y ∧ same_static x y ∧ fresh_bio L y.

Lemma bio_refused drv ch req b d x s s' :
  sub_ok s drv ch → req ∈ requests s drv → s_bios s !! b = Some x →
  bio_test L req b (ch req) d x s false s' → absorbed drv ch b s false s'.
Proof.
  intros [Hq Hd] Hi Hx (Hg & y & Hy & Hst & Hfr & Eq & Ed).
  destruct (stop_merging_ok req s drv Hq) as (Hq' & Hqq & Hv). rewrite <- Eq in *.
  split_and!; [by destruct Hg| |split|by unfold requests; rewrite Hqq|].
  - intros k Hk. destruct Hg as (_ & -> & _); [done|].
    intros [->|Hin]%elem_of_cons; apply Hk; [by left|right]. by eapply chains_elem.
  - done.
  - unfold requests. rewrite Hqq. by eapply data_ok_grown.
  - intros x' Hx'. simplify_eq. eauto.
Qed.

Lemma test_passed req b l d r x (s s1 s2 : subq D) :
  store_ok L (s_bios s) → request_ok L (s_bios s) r d l → b ∉ l →
  s_bios s !! b = Some x → bio_segs x ≠ [] →
  bio_test L req b l d x s true s1 → grown L l (s_bios s1) (s_bios s2) →
  ∃ y, s_bios s2 !! b = Some y ∧ same_static x y ∧ bi_next y = None ∧ bio_segs y ≠ [] ∧
    counted_bio L y ∧ store_ok L (s_bios s2) ∧ request_ok L (s_bios s2) r d l ∧
    grown L (b :: l) (s_bios s) (s_bios s2) ∧ s_q s1 = s_q s ∧
    s_data s1 = <[req := set_nr_phys (r_nr_phys_segments d + bi_phys_segments y) d]> (s_data s) ∧
    r_nr_phys_segments d + bi_phys_segments y ≤ max_segments L ∧
    sectors (s_bios s2) l + bio_sectors y ≤ max_sectors L.
Proof.
  intros Ho Hr Hb Hx Hne (Hg & y & Hy & Hst & Hfr & Eq & Hc & Ed & Hnr & Hsec) Hg2.
  assert (grown L (b :: l) (s_bios s) (s_bios s2)) as Hg'.
  { eapply grown_trans; [done|]. eapply grown_weaken; [|done]. intros k Hk. by right. }
  exists y. split_and!; try done.
  - destruct Hg2 as (_ & -> & _); done.
  - by destruct Hfr.
  - by rewrite (same_static_segs _ _ Hst).
  - by eapply grown_store.
  - by eapply request_ok_grown.
  - rewrite (same_static_sectors _ _ Hst).
    rewrite (sectors_kept l (s_bios s) (s_bios s2)); [done|].
    eapply grown_kept; [done| |done]. intros k. by eapply ro_dom.
Qed.

(** The request with its longer chain, where only [q] has to be seen to. *)
Lemma bio_installed drv ch req b l d s s' pos n :
  sub_ok s drv ch → req ∈ requests s drv → b ∉ chains (requests s drv) ch →
  l ≡ₚ b :: ch req → s_q s' = upd_rq req (grow_front pos n) (s_q s) →
  store_ok L (s_bios s') → (∀ k, k ∉ l → s_bios s' !! k = s_bios s !! k) →
  (∀ j, j ≠ req → s_data s' !! j = s_data s !! j) → s_data s' !! req = Some d →
  request_ok L (s_bios s') (grow_front pos n (rq_of (s_q s) req)) d l →
  data_ok s' (requests s' drv) (put req l ch) ∧ requests s' drv = requests s drv ∧
  chains (requests s' drv) (put req l ch) ≡ₚ b :: chains (requests s drv) ch.
Proof.
  intros [Hq Hd] Hi Hb Hl Eq Ho Hk Hj Ed Hr.
  assert (requests s' drv = requests s drv) as Er by (unfold requests; by rewrite Eq).
  rewrite Er. pose proof (eo_nodup _ _ Hq) as Hnd. fold (requests s drv) in Hnd.
  apply elem_of_Permutation in Hi as [r Hp].
  assert (req ∉ r) as Hnr by (rewrite Hp in Hnd; by apply NoDup_cons in Hnd as [? _]).
  destruct (data_ok_one s s' (requests s drv) (requests s drv) req [] r [b] l d ch)
    as [Hdo Hch]; try done.
  - cbn. by rewrite app_nil_r.
  - apply NoDup_singleton.
  - by intros k ->%list_elem_of_singleton.
  - intros j Hjr. assert (j ≠ req) by (by intros ->). rewrite Eq. split; [by apply grow_view|auto].
  - by rewrite Eq, rq_of_upd, decide_True.
Qed.

Lemma back_finished drv ch req s :
  sub_ok s drv ch → req ∈ sched_contents (edata (s_q s)) →
  ∃ s', ('(c, s) ← attempt_back_merge L req s;
         if (c : bool) then Some (true, s)
         else q ← elv_merged_request req BACK_MERGE (s_q s); Some (true, set_s_q q s)) =
      Some (true, s') ∧ coalesced drv (requests s drv) ch s true s'.
Proof.
  intros [Hq Hd] Hi.
  assert (∃ c s1, attempt_back_merge L req s = Some (c, s1) ∧
    coalesced drv (requests s drv) ch s c s1) as (c & s1 & -> & Hdm & Hk & Hc).
  { unfold attempt_back_merge. destruct (sched_latter (s_q s) req) as [next|] eqn:El.
    - destruct (latter_in (s_q s) req next) as [? ?]; eauto using eo_inv, eo_contents.
      by apply attempt_merge_spec.
    - by exists false, s. }
  cbn [mbind option_bind]. destruct c; [by exists s1|]. destruct Hc as [Eq Hd1].
  destruct (merged_back_ok (s_q s1) drv req) as (q' & -> & Hq' & Hqq & Hv); [by rewrite Eq..|].
  cbn [mbind option_bind]. eexists. split; [reflexivity|]. split_and!; [done|done|].
  exists ch. unfold sub_ok, requests in *. cbn [s_q set_s_q]. rewrite Hqq, Eq.
  split; [split; [done|]|done]. eapply data_ok_grown; [exact Hd1|apply (grown_refl L [])|done..].
Qed.

(** At the front the place of the request in the order changes; it is put
    right unless the request disappears in the one before it. *)
Lemma front_finished drv ch req pos n s s3 :
  elv_ok (s_q s) drv → req ∈ sched_contents (edata (s_q s)) → in_u64 pos →
  pos ≤ er_pos (rq_of (s_q s) req) → s_q s3 = upd_rq req (grow_front pos n) (s_q s) →
  data_ok s3 (requests s3 drv) ch →
  ∃ s', ('(c, s) ← attempt_front_merge L req s3;
         if (c : bool) then Some (true, s)
         else q ← elv_merged_request req FRONT_MERGE (s_q s); Some (true, set_s_q q s)) =
      Some (true, s') ∧ coalesced drv (requests s3 drv) ch s3 true s'.
Proof.
  intros Hq Hi Hpos Hle Eq3 Hd.
  assert (∃ c s4, attempt_front_merge L req s3 = Some (c, s4) ∧
    coalesced drv (requests s3 drv) ch s3 c s4) as (c & s4 & -> & Hdm & Hk & Hc).
  { unfold attempt_front_merge. rewrite Eq3, former_front.
    destruct (sched_former (s_q s) req) as [prev|] eqn:El; [|by exists false, s3].
    destruct (former_in (s_q s) req prev) as [Hp Hne]; eauto using eo_inv, eo_contents.
    apply attempt_merge_spec; rewrite ?Eq3; try done. intros Hm _ Hend.
    eapply elv_ok_front; try done. split; [|done].
    destruct (do_rq _ _ _ Hd prev) as (dp & _ & Hr).
    { apply elem_of_app. left. apply contents_queued. by rewrite Eq3. }
    rewrite Eq3 in Hr. destruct (request_sectors _ _ _ _ (do_store _ _ _ Hd) Hr Hm) as [E ?].
    rewrite E in Hend. clear E Hr. rewrite !rq_of_upd in Hend.
    repeat case_decide; try congruence. cbn in Hend. lia. }
  cbn [mbind option_bind]. destruct c; [by exists s4|]. destruct Hc as [Eq4 Hd4].
  rewrite Eq4, Eq3.
  destruct (merged_front_ok (s_q s) drv req pos n) as (q' & -> & Hq' & Hqq & Hv); try done.
  cbn [mbind option_bind]. eexists. split; [reflexivity|]. split_and!; [done|done|].
  assert (requests (set_s_q q' s4) drv ≡ₚ requests s3 drv) as Hrq.
  { unfold requests. cbn [s_q set_s_q]. rewrite Hqq, Eq3. done. }
  exists ch. split; [split; [done|]|by apply chains_perm].
  eapply data_ok_perm; [symmetry; exact Hrq|].
  eapply data_ok_grown; [exact Hd4|apply (grown_refl L [])|done|].
  intros j. cbn [s_q set_s_q]. by rewrite Hv, Eq4, Eq3.
Qed.

(** A bio that has joined a request stays in a chain when the request is
    coalesced. *)
Lemma absorbed_then drv ch ch1 b s s1 s2 :
  dom (s_bios s1) = dom (s_bios s) →
  (∀ k, k ∉ b :: chains (requests s drv) ch → s_bios s1 !! k = s_bios s !! k) →
  chains (requests s drv) ch1 ≡ₚ b :: chains (requests s drv) ch →
  coalesced drv (requests s drv) ch1 s1 true s2 → absorbed drv ch b s true s2.
Proof.
  intros Hdm Hk Hc (Hdm2 & Hk2 & ch2 & Hs & Hc2). split_and!; [congruence| |].
  - intros k Hin. rewrite Hk2, Hk; [done..|]. by rewrite Hc.
  - exists ch2. split; [done|]. by rewrite Hc2.
Qed.

Lemma last_in_chain bs r d l :
  request_ok L bs r d l → ∃ t xt, last l = Some t ∧ t ∈ l ∧ bs !! t = Some xt.
Proof.
  intros Hr. destruct (ro_ends _ _ _ _ _ Hr) as (_ & _ & Hne).
  destruct (last l) as [t|] eqn:Ht; [|by apply last_None in Ht].
  assert (t ∈ l) by (by apply last_Some_elem_of).
  destruct (ro_dom L _ _ _ _ t Hr) as [xt ?]; eauto 10.
Qed.

Section one_bio.
Context (drv : list nat) (ch : nat → list nat) (req b : nat) (x : bio) (s : subq D).
Context (Hs : sub_ok s drv ch) (Hi : req ∈ sched_contents (edata (s_q s))).
Context (Hb : b ∉ chains (requests s drv) ch) (Hx : s_bios s !! b = Some x).
Context (Hfr : fresh_bio L x) (Hne : bio_segs x ≠ []).
Context (Hm : rq_mergeable (rq_of (s_q s) req) = true).
Context (Hw : bio_data_dir x = er_write (rq_of (s_q s) req)).
Context (Hk : bi_disk x = er_disk (rq_of (s_q s) req)).

Lemma one_request :
  req ∈ requests s drv ∧ (b ∉ ch req) ∧ NoDup (ch req) ∧ store_ok L (s_bios s) ∧
  ∃ d, s_data s !! req = Some d ∧ request_ok L (s_bios s) (rq_of (s_q s) req) d (ch req).
Proof.
  destruct Hs as [Hq Hd]. assert (req ∈ requests s drv) as Hi'
    by (apply elem_of_app; left; by apply contents_queued).
  split_and!; [done| |by eapply chain_nodup, Hi'; destruct Hd|by destruct Hd|by apply Hd].
  intros Hin. by eapply Hb, chains_elem.
Qed.

(** The bio may join: [d] is the data of the request as it was, [d2] with the
    new number of segments, [y] the bio with its segments counted. *)
Definition ready (d d2 : rq_data) (y : bio) (s2 : subq D) : Prop :=
  s_q s2 = s_q s ∧ s_data s2 !! req = Some d2 ∧
  (∀ j, j ≠ req → s_data s2 !! j = s_data s !! j) ∧
  store_ok L (s_bios s2) ∧ grown L (b :: ch req) (s_bios s) (s_bios s2) ∧
  request_ok L (s_bios s2) (rq_of (s_q s) req) d (ch req) ∧
  s_bios s2 !! b = Some y ∧ same_static x y ∧ bi_next y = None ∧ bio_segs y ≠ [] ∧
  counted_bio L y ∧ r_nr_phys_segments d + bi_phys_segments y ≤ max_segments L ∧
  sectors (s_bios s2) (ch req) + bio_sectors y ≤ max_sectors L ∧
  same_data (set_nr_phys (r_nr_phys_segments d + bi_phys_segments y) d) d2.

Lemma ready_intro d d1 d2 s1 s2 :
  request_ok L (s_bios s) (rq_of (s_q s) req) d (ch req) →
  bio_test L req b (ch req) d x s true s1 → s_data s1 !! req = Some d1 →
  s_q s2 = s_q s1 → grown L (ch req) (s_bios s1) (s_bios s2) →
  s_data s2 = <[req := d2]> (s_data s1) → same_data d1 d2 → ∃ y, ready d d2 y s2.
Proof.
  intros Hr Ht E1 Q2 G2 D2 S2. destruct one_request as (Hi' & Hb' & Hnd & Ho & _).
  destruct (test_passed req b (ch req) d (rq_of (s_q s) req) x s s1 s2)
    as (y & Hy & Hst & Hny & Hney & Hcy & Ho2 & Hr2 & Hg & Q1 & Ed1 & Hnr & Hsec); try done.
  exists y. rewrite Ed1, lookup_insert_eq in E1. simplify_eq. split_and!; try done.
  - congruence.
  - by rewrite D2, lookup_insert_eq.
  - intros j Hj. by rewrite D2, Ed1, !lookup_insert_ne.
Qed.

Lemma ready_absorb d d2 y s2 first last :
  ready d d2 y s2 →
  r_data_len (absorb x first last d2) = u32 (r_data_len d + bi_size y) ∧
  r_nr_phys_segments (absorb x first last d2) = r_nr_phys_segments d + bi_phys_segments y ∧
  r_copy_user (absorb x first last d2) = r_copy_user d ∧
  ff_ok (r_failfast (absorb x first last d2)) ∧
  bio_data_dir y = er_write (rq_of (s_q s) req) ∧ bi_disk y = er_disk (rq_of (s_q s) req) ∧
  r_bio d2 = r_bio d ∧ r_biotail d2 = r_biotail d.
Proof.
  intros (_ & _ & _ & _ & _ & _ & _ & Hst & _ & _ & _ & _ & _ & (Sb & St & Sl & Sn & Sc & Sf)).
  destruct Hst as (_ & Es & _ & _ & Ek & Ew & _). cbn in *. rewrite Es, Sl. split_and!; congruence.
Qed.

(** The link is made: the chain [l] of the request is described by [d']. *)
Lemma ready_linked d d2 y s2 s3 l i z next pos d' :
  ready d d2 y s2 → l ≡ₚ b :: ch req → i ∈ l → s_bios s2 !! i = Some z →
  s3 = set_data req d' (mk_subq (upd_rq req (grow_front pos (blk_rq_sectors d')) (s_q s))
         (<[i := set_bi_next next z]> (s_bios s2)) (s_data s2)) →
  request_ok L (s_bios s3) (grow_front pos (blk_rq_sectors d') (rq_of (s_q s) req)) d' l →
  dom (s_bios s3) = dom (s_bios s) ∧
  (∀ k, k ∉ b :: chains (requests s drv) ch → s_bios s3 !! k = s_bios s !! k) ∧
  s_q s3 = upd_rq req (grow_front pos (blk_rq_sectors d')) (s_q s) ∧
  requests s3 drv = requests s drv ∧ data_ok s3 (requests s3 drv) (put req l ch) ∧
  chains (requests s3 drv) (put req l ch) ≡ₚ b :: chains (requests s drv) ch.
Proof.
  intros (Q2 & E2 & Ej & Ho & Hg & _) Hl Hil Hz -> Hr.
  destruct one_request as (Hi' & _).
  assert (∀ k, k ∉ l → <[i:=set_bi_next next z]> (s_bios s2) !! k = s_bios s !! k) as Hkl.
  { intros k Hkl. rewrite lookup_insert_ne by (by intros ->).
    destruct Hg as (_ & -> & _); [done|]. by rewrite <- Hl. }
  cbn [s_bios s_q s_data set_data] in *.
  destruct (bio_installed drv ch req b l d' s (set_data req d'
      (mk_subq (upd_rq req (grow_front pos (blk_rq_sectors d')) (s_q s))
         (<[i := set_bi_next next z]> (s_bios s2)) (s_data s2))) pos (blk_rq_sectors d'))
    as (Hd3 & Er & Hc); try done.
  - by apply store_ok_next.
  - intros j Hj. cbn. rewrite lookup_insert_ne by done. auto.
  - cbn. by rewrite lookup_insert_eq.
  - split_and!; try done.
    + rewrite dom_next by done. by destruct Hg.
    + intros k Hkc. apply Hkl. rewrite Hl. intros [->|Hin]%elem_of_cons; apply Hkc; [by left|right].
      by eapply chains_elem.
Qed.

Lemma back_merged :
  rq_end_sector (rq_of (s_q s) req) = bi_sector x →
  ∃ ok s', back_merge L req b s = Some (ok, s') ∧ absorbed drv ch b s ok s'.
Proof.
  intros Hpos. destruct one_request as (Hi' & Hb' & Hnd & Ho & d & Ed & Hr).
  unfold back_merge. rewrite Hm, Hx. cbn [negb mbind option_bind].
  destruct (ll_back_spec L HL req b (ch req) d (rq_of (s_q s) req) x s)
    as (ok & s1 & -> & Ht); try done. cbn [mbind option_bind].
  destruct ok; cbn [negb]; [|exists false, s1; split; [done|by eapply bio_refused]].
  destruct (ro_ends _ _ _ _ _ Hr) as (B1 & T1 & Ne1), (ro_flags _ _ _ _ _ Hr) as (_ & _ & _ & _ & F1).
  pose proof Ht as (Hg1 & y1 & _ & _ & _ & _ & _ & Ed1 & _ & _).
  assert (s_data s1 !! req = Some (set_nr_phys (r_nr_phys_segments d + bi_phys_segments y1) d))
    as E1 by (by rewrite Ed1, lookup_insert_eq).
  rewrite E1. cbn [mbind option_bind].
  destruct (mixed_one (r_failfast (set_nr_phys (r_nr_phys_segments d + bi_phys_segments y1) d) =?
      Z.land (bi_rw x) REQ_FAILFAST_MASK) req (ch req)
      (set_nr_phys (r_nr_phys_segments d + bi_phys_segments y1) d) s1)
    as (s2 & d2 & -> & Q2 & G2 & D2 & S2 & A2); try done.
  { eapply linked_grown; [exact Ho|by eapply ro_linked|exact Hg1]. }
  { intros Hmix. eapply eager_grown; [exact Ho|by eapply ro_linked|exact Hg1|].
    exact (ro_mixed _ _ _ _ _ Hr Hmix). }
  destruct (ready_intro d _ d2 s1 s2 Hr Ht E1) as [y Hy]; try done.
  pose proof Hy as (Q & E2 & _ & Ho2 & _ & Hr2 & Hyb & Hst & Hny & Hney & Hcy & Hnr & Hsec & _).
  destruct (ready_absorb d d2 y s2 (r_bio d2) (Some b) Hy) as (Al & An & Ac & Af & Aw & Ak & Ab & At).
  destruct (last_in_chain _ _ _ _ Hr2) as (t & xt & Hlt & Htl & Hxt).
  cbn [mbind option_bind]. rewrite E2. cbn [mbind option_bind].
  rewrite At, T1, Hlt. cbn [mbind option_bind]. rewrite (upd_bio_some _ _ _ _ Hxt).
  cbn [mbind option_bind]. rewrite Q.
  match goal with |- context [attempt_back_merge L req ?s3'] => set (s3 := s3') end.
  destruct (ready_linked d d2 y s2 s3 (ch req ++ [b]) t xt (Some b) (er_pos (rq_of (s_q s) req))
    (absorb x (r_bio d2) (Some b) d2) Hy) as (Hdm & Hkk & Eq3 & Er & Hd3 & Hc3); try done.
  { by rewrite <- Permutation_cons_append. }
  { apply elem_of_app. by left. }
  { apply (link_back L HL (s_bios s2) (rq_of (s_q s) req) d _ (ch req) b y); try done.
    destruct (request_sectors _ _ _ _ Ho2 Hr2 Hm) as [<- _]. destruct Hst as [-> _]. done. }
  destruct (back_finished drv (put req (ch req ++ [b]) ch) req s3) as (s' & Hf & Hco).
  { split; [|done]. rewrite Eq3. apply elv_ok_back, Hs. }
  { by rewrite Eq3. }
  exists true, s'. split; [exact Hf|]. rewrite Er in Hc3, Hco. by eapply absorbed_then.
Qed.

Lemma failfast_ok : ff_ok (Z.land (bi_rw x) REQ_FAILFAST_MASK).
Proof. unfold ff_ok. by rewrite <- Z.land_assoc, Z.land_diag. Qed.

Lemma front_merged :
  bio_ok L x → er_pos (rq_of (s_q s) req) = u64 (bi_sector x + bio_sectors x) →
  ∃ ok s', front_merge L req b s = Some (ok, s') ∧ absorbed drv ch b s ok s'.
Proof.
  intros Hox Hpos. destruct one_request as (Hi' & Hb' & Hnd & Ho & d & Ed & Hr).
  assert (0 ≤ bi_sector x ∧ 0 ≤ bio_sectors x ∧ bi_sector x + bio_sectors x < 2 ^ 64) as (? & ? & ?).
  { destruct Hox as ([? ?] & [? ?] & _). lia. }
  rewrite u64_small in Hpos by (unfold in_u64; lia).
  unfold front_merge. rewrite Hm, Hx. cbn [negb mbind option_bind].
  destruct (ll_front_spec L HL req b (ch req) d (rq_of (s_q s) req) x s)
    as (ok & s1 & -> & Ht); try done. cbn [mbind option_bind].
  destruct ok; cbn [negb]; [|exists false, s1; split; [done|by eapply bio_refused]].
  destruct (ro_ends _ _ _ _ _ Hr) as (B1 & T1 & Ne1), (ro_flags _ _ _ _ _ Hr) as (_ & _ & _ & _ & F1).
  pose proof Ht as (Hg1 & y1 & _ & _ & _ & _ & _ & Ed1 & _ & _).
  assert (s_data s1 !! req = Some (set_nr_phys (r_nr_phys_segments d + bi_phys_segments y1) d))
    as E1 by (by rewrite Ed1, lookup_insert_eq).
  rewrite E1. cbn [mbind option_bind].
  destruct (mixed_front (r_failfast (set_nr_phys (r_nr_phys_segments d + bi_phys_segments y1) d) =?
      Z.land (bi_rw x) REQ_FAILFAST_MASK) (Z.land (bi_rw x) REQ_FAILFAST_MASK) req (ch req)
      (set_nr_phys (r_nr_phys_segments d + bi_phys_segments y1) d) s1)
    as (s2 & d2 & -> & Q2 & G2 & D2 & S2 & A2); try done.
  { eapply linked_grown; [exact Ho|by eapply ro_linked|exact Hg1]. }
  { intros Hmix. eapply eager_grown; [exact Ho|by eapply ro_linked|exact Hg1|].
    exact (ro_mixed _ _ _ _ _ Hr Hmix). }
  { apply failfast_ok. }
  { apply Z.eqb_eq. }
  destruct (ready_intro d _ d2 s1 s2 Hr Ht E1) as [y Hy]; try done.
  pose proof Hy as (Q & E2 & _ & Ho2 & _ & Hr2 & Hyb & Hst & Hny & Hney & Hcy & Hnr & Hsec & _).
  destruct (ready_absorb d d2 y s2 (Some b) (r_biotail d2) Hy) as (Al & An & Ac & Af & Aw & Ak & Ab & At).
  pose proof Hst as (Est & _). pose proof (same_static_sectors _ _ Hst) as Esc.
  cbn [mbind option_bind]. rewrite E2. cbn [mbind option_bind].
  rewrite (upd_bio_some _ _ _ _ Hyb). cbn [mbind option_bind]. rewrite Q.
  match goal with |- context [attempt_front_merge L req ?s3'] => set (s3 := s3') end.
  destruct (ready_linked d d2 y s2 s3 ([b] ++ ch req) b y (r_bio d2) (bi_sector x)
    (absorb x (Some b) (r_biotail d2) d2) Hy) as (Hdm & Hkk & Eq3 & Er & Hd3 & Hc3); try done.
  { by left. }
  { cbn [s_bios s3 set_data]. rewrite Ab, <- Est.
    apply (link_front L HL (s_bios s2) (rq_of (s_q s) req) d _ (ch req) b y); try done.
    - by rewrite Est, Esc.
    - intros _. cbn. rewrite A2. apply Hst. by rewrite Z.land_assoc, Z.land_diag. }
  destruct (front_finished drv (put req ([b] ++ ch req) ch) req (bi_sector x)
    (blk_rq_sectors (absorb x (Some b) (r_biotail d2) d2)) s s3) as (s' & Hf & Hco); try done.
  { apply Hs. }
  { unfold in_u64. lia. }
  { lia. }
  exists true, s'. split; [exact Hf|]. rewrite Er in Hc3, Hco. by eapply absorbed_then.
Qed.
End one_bio.

(** ** Submission *)

(** A bio that no request has yet; without data only for a barrier. *)
Definition acceptable (x : bio) : Prop :=
  bio_ok L x ∧ fresh_bio L x ∧ (bio_segs x = [] → bio_rw_flagged x BIO_RW_BARRIER = true).

Lemma absorbed_same drv ch b s :
  sub_ok s drv ch → (∀ x, s_bios s !! b = Some x → fresh_bio L x) → absorbed drv ch b s false s.
Proof.
  intros Hs Hf. split_and!; try done. intros x Hx. exists x. by split_and!; [|done|apply Hf].
Qed.

Lemma merge_ok_same r b :
  elv_rq_merge_ok r b = true →
  rq_mergeable r = true ∧ eb_write b = er_write r ∧ eb_disk b = er_disk r.
Proof.
  unfold elv_rq_merge_ok. destruct (rq_mergeable r); [|done]. cbn.
  destruct (eb_discard b), (er_discard r), (eb_write b), (er_write r); try done; cbn;
    destruct (Nat.eqb_spec (er_disk r) (eb_disk b)) as [->|]; done.
Qed.

Lemma make_request_merge_spec drv ch b x s :
  sub_ok s drv ch → b ∉ chains (requests s drv) ch → s_bios s !! b = Some x → acceptable x →
  ∃ k s', make_request_merge L b s = Some (k, s') ∧
    absorbed drv ch b s (match k with Merged => true | _ => false end) s' ∧
    (k = Refused → s' = s).
Proof.
  intros Hs Hb Hx (Hox & Hfr & Hda). unfold make_request_merge. rewrite Hx. cbn [mbind option_bind].
  assert (absorbed drv ch b s false s) as Hsame.
  { apply absorbed_same; [done|]. intros y Hy. by simplify_eq. }
  destruct (bio_rw_flagged x BIO_RW_BARRIER) eqn:Ebar; cbn [andb orb].
  { destruct (_ =? _); [by exists Refused, s|by exists Needs_request, s]. }
  destruct (elv_queue_empty (s_q s)); [by exists Needs_request, s|].
  assert (bio_segs x ≠ []) as Hne by (intros E; by specialize (Hda E)).
  destruct (elv_merge (ebio_of x) (s_q s)) as [[k o] q'] eqn:Em.
  destruct Hs as [Hq Hd]. destruct (merge_found _ _ _ _ _ _ Hq Em) as (Hq' & Hqq & He & Hr & Hin).
  set (s' := set_s_q q' s).
  assert (requests s' drv = requests s drv) as Erq by (unfold requests; cbn; by rewrite Hqq).
  assert (sub_ok s' drv ch) as Hs'.
  { split; [done|]. rewrite Erq. eapply data_ok_grown; [exact Hd|apply (grown_refl L [])|done|].
    intros j. cbn. by rewrite (rq_of_eq (s_q s) q'). }
  assert (∀ ok t, absorbed drv ch b s' ok t → absorbed drv ch b s ok t) as Hback.
  { intros ok t. unfold absorbed. by rewrite Erq. }
  assert (absorbed drv ch b s' false s') as Hsame'.
  { apply absorbed_same; [done|]. intros y Hy. cbn in Hy. by simplify_eq. }
  assert (b ∉ chains (requests s' drv) ch) as Hb' by (by rewrite Erq).
  destruct o as [i|]; cycle 1.
  { exists Needs_request, s'. split_and!; [by destruct k|by apply Hback|done]. }
  destruct (merge_target _ _ _ _ _ (eo_pos _ _ Hq) Em) as [Hok Hk].
  destruct (merge_ok_same _ _ Hok) as (Hm & Hw & Hdk). rewrite <- (rq_of_eq (s_q s) q' i Hr) in *.
  assert (i ∈ sched_contents (edata (s_q s'))) as Hi by (cbn; rewrite He; by apply Hin).
  destruct Hk as [[-> Hpos]|[-> Hpos]].
  - destruct (back_merged drv ch i b x s') as (ok & t & -> & Hab); try done.
    cbn [mbind option_bind]. exists (if ok then Merged else Needs_request), t.
    split_and!; [done|apply Hback; by destruct ok|by destruct ok].
  - destruct (front_merged drv ch i b x s') as (ok & t & -> & Hab); try done.
    cbn [mbind option_bind]. exists (if ok then Merged else Needs_request), t.
    split_and!; [done|apply Hback; by destruct ok|by destruct ok].
Qed.

(** A request of its own describes the bio. *)
Lemma request_one bs r d b x y n :
  store_ok L bs → bs !! b = Some y → same_static x y → bi_next y = None →
  bio_ok L x →
  (n = 0 ∧ bio_segs x = [] ∧ bio_rw_flagged x BIO_RW_BARRIER = true ∨
   n = bi_phys_segments y ∧ bio_segs x ≠ [] ∧ counted_bio L y) →
  r_bio d = Some b → r_biotail d = Some b → r_data_len d = bi_size x →
  r_nr_phys_segments d = u16 n → r_copy_user d = false → ff_ok (r_failfast d) → r_mixed d = false →
  view r = (bi_sector x, bio_sectors x, bio_data_dir x, bi_disk x,
            (true, false, false, bio_rw_flagged x BIO_RW_BARRIER)) →
  request_ok L bs r d [b].
Proof.
  intros Ho Hy Hst Hny Hox Hn Eb Et El En Ec Hff Hm Hv.
  destruct (one_bio bs b y Hy Hny) as (K & Hsec & P & U). injection Hv as V1 V2 V3 V4 V5 V6 V7 V8.
  pose proof (same_static_sectors _ _ Hst) as Esc. pose proof (same_static_segs _ _ Hst) as Esg.
  pose proof Hst as (E1 & E2 & _ & _ & E5 & E6 & _).
  pose proof Hox as (_ & [Hsz Hsz'] & _ & _ & _ & _ & Hpos).
  assert (0 ≤ r_nr_phys_segments d < 2 ^ 16 - 1 ∧ (n = r_nr_phys_segments d)) as [Hnr En'].
  { rewrite En. destruct Hn as [(-> & _)|(-> & _ & Hc)]; [done|].
    pose proof (counted_range L y (Ho b y Hy) Hc). rewrite u16_small by lia. lia. }
  split; rewrite ?Hsec, ?Esc; try done.
  - split_and!; try done; lia.
  - by rewrite V1, <- E1.
  - by rewrite V3, V4, <- E5, <- E6.
  - destruct Hn as [(-> & Hno & Hbar)|(-> & Hne & Hc)].
    + left. rewrite vecs_cons, Hy. cbn. rewrite Esg, Hno. split_and!; try done. rewrite V8. exact Hbar.
    + right. rewrite <- En'. split; [by apply counted_segmented; [|rewrite Esg|]|].
      specialize (Hpos Hne). lia.
  - by left.
  - by rewrite Hm.
Qed.

Lemma prep_spec b x now bs :
  store_ok L bs → bs !! b = Some x → acceptable x →
  ∃ d bs' y n, blk_rq_bio_prep L b now bs = Some (d, bs') ∧ grown L [b] bs bs' ∧
    bs' !! b = Some y ∧ same_static x y ∧ bi_next y = None ∧
    (n = 0 ∧ bio_segs x = [] ∧ bio_rw_flagged x BIO_RW_BARRIER = true ∨
     n = bi_phys_segments y ∧ bio_segs x ≠ [] ∧ counted_bio L y) ∧
    r_bio d = Some b ∧ r_biotail d = Some b ∧ r_data_len d = bi_size x ∧
    r_nr_phys_segments d = u16 n ∧ r_copy_user d = false ∧ ff_ok (r_failfast d) ∧ r_mixed d = false.
Proof.
  intros Ho Hx (Hox & [Hnx Hfc] & Hda). unfold blk_rq_bio_prep. rewrite Hx. cbn [mbind option_bind].
  set (ff := if bio_rw_flagged x BIO_RW_AHEAD then _ else _).
  assert (ff_ok ff) as Hff by (unfold ff; destruct (bio_rw_flagged x BIO_RW_AHEAD); [done|apply failfast_ok]).
  destruct (decide (bio_segs x = [])) as [Hno|Hne].
  - assert (bio_has_data x = false) as ->.
    { destruct Hox as (_ & _ & _ & _ & _ & Hnone & _). unfold bio_has_data. by rewrite (Hnone Hno). }
    cbn [mbind option_bind]. eexists _, bs, x, 0. split; [reflexivity|]. split_and!; try done; [apply grown_refl|].
    left. auto.
  - assert (bio_has_data x = true) as ->.
    { unfold bio_has_data. apply bool_decide_true. unfold bio_segs, io_vec in Hne.
      destruct (bi_io_vec x); [done|]. exfalso. apply Hne, drop_nil. }
    destruct (ensure_counted_spec L (lo_size L HL) b bs x) as (bs' & y & E & Hg & Hy & Hle & Hoy & Hv & Hc);
      try done.
    unfold bio_phys_segments. rewrite E. cbn [mbind option_bind]. rewrite Hy. cbn [mbind option_bind].
    destruct Hle as (Hst & Hny & _).
    eexists _, bs', y, (bi_phys_segments y). split; [reflexivity|]. split_and!; try done; [congruence|].
    right. split_and!; try done. apply Hc. auto.
Qed.

Lemma make_request_new_spec drv ch b i priv same_comp now group x s :
  sub_ok s drv ch → b ∉ chains (requests s drv) ch → s_bios s !! b = Some x → acceptable x →
  i ∉ requests s drv →
  ∃ s', make_request_new L b i priv same_comp now group s = Some s' ∧
    dom (s_bios s') = dom (s_bios s) ∧ (∀ k, k ≠ b → s_bios s' !! k = s_bios s !! k) ∧
    requests s' drv ≡ₚ i :: requests s drv ∧ sub_ok s' drv (put i [b] ch).
Proof.
  intros [Hq Hd] Hb Hx Ha Hi. unfold make_request_new. rewrite Hx. cbn [mbind option_bind].
  pose proof (do_store _ _ _ Hd) as Ho.
  destruct (prep_spec b x now (s_bios s)) as (d & bs' & y & n & -> & Hg & Hy & Hst & Hny & Hn & P);
    try done. cbn [mbind option_bind].
  set (d' := if _ || _ then _ else d).
  set (r := init_request_from_bio x _). set (q := upd_rq i (λ _, r) (s_q s)).
  assert (request_ok L bs' r d' [b]) as Hr.
  { destruct Ha as (Hox & _). destruct P as (P1 & P2 & P3 & P4 & P5 & P6 & P7).
    assert (view r = (bi_sector x, bio_sectors x, bio_data_dir x, bi_disk x,
      (true, false, false, bio_rw_flagged x BIO_RW_BARRIER))) as Hvr
      by (unfold r, view; cbn -[bio_rw_flagged]; by rewrite orb_diag).
    apply (request_one bs' r d' b x y n); try done; [by eapply grown_store|..];
      subst d'; by destruct (same_comp || bi_cpu_affine x). }
  assert (elv_ok q drv) as Hq1.
  { apply elv_ok_upd; [done| |].
    - intros Hin. apply Hi, elem_of_app. by left.
    - cbn. destruct Ha as ((? & [? ?] & _) & _). unfold in_u64. lia. }
  destruct (add_request_ok i q drv) as (q' & E & Hq' & Hqq & Hv); try done.
  { unfold q. by rewrite rq_of_upd, decide_True. }
  rewrite E. cbn [mbind option_bind]. eexists. split; [reflexivity|].
  assert (queued q' ++ drv ≡ₚ i :: requests s drv) as Hrq by (unfold requests; by rewrite Hqq).
  split_and!; [by destruct Hg| |done|].
  - intros k Hk. destruct Hg as (_ & -> & _); [done|]. by intros ->%list_elem_of_singleton.
  - split; [done|]. unfold requests. cbn [s_q]. eapply data_ok_perm; [symmetry; exact Hrq|].
    split; cbn [s_bios s_data s_q].
    + by eapply grown_store.
    + intros j [->|Hj]%elem_of_cons.
      * exists d'. rewrite lookup_insert_eq, put_eq. split; [done|]. eapply request_ok_view; [|exact Hr].
        rewrite Hv. unfold q. by rewrite rq_of_upd, decide_True.
      * assert (j ≠ i) by (by intros ->). rewrite lookup_insert_ne, put_ne by done.
        destruct (do_rq _ _ _ Hd j Hj) as (dj & Ej & Rj). exists dj. split; [done|].
        eapply request_ok_view; [|eapply request_ok_grown; [exact Ho|exact Hg|exact Rj]].
        rewrite Hv. unfold q. by rewrite rq_of_upd, decide_False.
    + cbn. rewrite put_eq. fold (chains (requests s drv) (put i [b] ch)). rewrite chains_put by done.
      cbn. apply NoDup_cons. split; [done|]. by destruct Hd.
Qed.
End inv.
