(* ===== verification/EndIo.v ===== *)
(** * The end of the data of a request

    block/blk-core.c: [blk_update_request] ends the I/O on a number of bytes
    of a request, with [req_bio_endio] and [bio_endio] (fs/bio.c); a driver
    may report any number of bytes at a time.  [blk_rq_err_bytes] says how many
    may fail at once.  The theorems say which bytes are left and which bios
    have been ended. *)
From stdpp Require Import gmap list.
From S2P Require Import Prelude Elevator Deadline Segments Submit RequestData.

(** The bios, those that have lost [BIO_UPTODATE], the calls of [bi_end_io]
    with their errors in order, and [q->orderr]. *)
Record ending := mk_ending {
  e_bios : bio_store;
  e_stale : gset nat;
  e_ended : list (nat * Z);
  e_orderr : Z;
}.

Definition set_e_bios (v : bio_store) (e : ending) : ending :=
  mk_ending v (e_stale e) (e_ended e) (e_orderr e).

(** The lines that [bio_endio] and [req_bio_endio] have in common: the error
    to report, after noting it. *)
Definition note_error (b : nat) (err : Z) (e : ending) : Z * ending :=
  if truthy err then (err, mk_ending (e_bios e) ({[b]} ∪ e_stale e) (e_ended e) (e_orderr e))
  else (if bool_decide (b ∈ e_stale e) then - EIO else 0, e).

Definition bio_endio (b : nat) (err : Z) (e : ending) : ending :=
  let '(err, e) := note_error b err e in
  mk_ending (e_bios e) (e_stale e) (e_ended e ++ [(b, err)]) (e_orderr e).

Definition advance_bio (nbytes : Z) (x : bio) : bio :=
  mk_bio (u64 (bi_sector x + Z.shiftr nbytes 9)) (bi_next x) (bi_disk x) (bi_seg_valid x)
    (bi_cpu_affine x) (bi_rw x) (bi_idx x) (bi_phys_segments x) (u32 (bi_size x - nbytes))
    (bi_seg_front_size x) (bi_seg_back_size x) (bi_comp_cpu x) (bi_io_vec x) (bi_integrity x).

(** [bar] says that the request is the barrier request in progress. *)
Definition req_bio_endio (bar : bool) (b : nat) (nbytes err : Z) (e : ending) : option ending :=
  if bar then
    Some (if truthy err && negb (truthy (e_orderr e))
          then mk_ending (e_bios e) (e_stale e) (e_ended e) err else e)
  else
    x ← e_bios e !! b;
    let '(err, e) := note_error b err e in
    let nbytes := if bi_size x <? nbytes then bi_size x else nbytes in
    let x := advance_bio nbytes x in
    let e := set_e_bios (<[b := x]> (e_bios e)) e in
    Some (if bi_size x =? 0 then bio_endio b err e else e).

(** ** The loop over the bios *)

Record progress := mk_pr {
  p_bio : option nat;     (** [req->bio] *)
  p_nr : Z;               (** [nr_bytes] *)
  p_total : Z;            (** [total_bytes] *)
  p_nbytes : Z;           (** [bio_nbytes] *)
  p_idx : nat;            (** [next_idx] *)
  p_e : ending;
}.

(** The end of the body: [end more in this run, or just return 'not-done']. *)
Definition more (p : progress) : bool :=
  match p_bio p with None => true | Some _ => 0 <? p_nr p end.

Fixpoint update_loop (fuel : nat) (bar : bool) (err : Z) (p : progress) : option progress :=
  match p_bio p with
  | None => Some p
  | Some b =>
      match fuel with
      | O => None
      | S fuel =>
          x ← e_bios (p_e p) !! b;
          if bi_size x <=? p_nr p then
            e ← req_bio_endio bar b (bi_size x) err (p_e p);
            let p := mk_pr (bi_next x) (u32 (p_nr p - bi_size x)) (s32 (p_total p + bi_size x))
                       0 0 e in
            if more p then update_loop fuel bar err p else Some p
          else
            match io_vec x !! (bi_idx x + p_idx p)%nat with
            | None => Some p
            | Some v =>
                if bi_size x <? bv_len v then None
                else if p_nr p <? bv_len v then
                  Some (mk_pr (Some b) (p_nr p) (s32 (p_total p + p_nr p))
                          (s32 (p_nbytes p + p_nr p)) (p_idx p) (p_e p))
                else
                  let p := mk_pr (Some b) (u32 (p_nr p - bv_len v)) (s32 (p_total p + bv_len v))
                             (s32 (p_nbytes p + bv_len v)) (S (p_idx p)) (p_e p) in
                  if more p then update_loop fuel bar err p else Some p
            end
      end
  end.

(** Every round ends a bio or a fragment. *)
Definition rounds (bs : bio_store) : nat :=
  map_fold (λ _ x n, (S (length (io_vec x)) + n)%nat) 1%nat bs.

(** [bio->bi_idx += next_idx] and the fragment there that is partly done. *)
Definition cut_vec (k : Z) (v : bio_vec) : bio_vec :=
  mk_bv (bv_page v) (u32 (bv_len v - k)) (u32 (bv_offset v + k)).

Definition skip_vecs (idx : nat) (k : Z) (x : bio) : option bio :=
  let i := (bi_idx x + idx)%nat in
  vs ← bi_io_vec x;
  v ← vs !! i;
  Some (mk_bio (bi_sector x) (bi_next x) (bi_disk x) (bi_seg_valid x) (bi_cpu_affine x) (bi_rw x)
          i (bi_phys_segments x) (bi_size x) (bi_seg_front_size x) (bi_seg_back_size x)
          (bi_comp_cpu x) (Some (<[i := cut_vec k v]> vs)) (bi_integrity x)).

Definition bio_cur_bytes (x : bio) : option Z :=
  match io_vec x with
  | [] => Some (bi_size x)
  | vs => bv_len <$> vs !! bi_idx x
  end.

Section update.
Context (L : limits).

(** What is left of a request whose first bio is now [b] and of which [total]
    bytes are done. *)
Definition leftover (b : nat) (total : Z) (r : erq) (d : rq_data) (bs : bio_store)
    : option (erq * rq_data * bio_store) :=
  x ← bs !! b;
  cur ← bio_cur_bytes x;
  let len := u32 (r_data_len d - total) in
  let len := if len <? cur then cur else len in
  let pos := if er_fs r || er_discard r then u64 (er_pos r + Z.shiftr total 9) else er_pos r in
  let ff := if r_mixed d then Z.land (bi_rw x) REQ_FAILFAST_MASK else r_failfast d in
  '(n, bs) ← __blk_recalc_rq_segments L (Some b) bs;
  Some (grow_front pos (Z.shiftr len 9) r,
        mk_rd (Some b) (r_biotail d) len (u16 n) ff (r_mixed d) (r_copy_user d) (r_extra_len d)
          (r_ioprio d) (r_cpu d) (r_start_time d), bs).

(** The result says whether bytes are left. *)
Definition blk_update_request (bar : bool) (err nr_bytes : Z) (r : erq) (d : rq_data) (e : ending)
    : option (bool * erq * rq_data * ending) :=
  match r_bio d with
  | None => Some (false, r, d, e)
  | Some _ =>
      p ← update_loop (rounds (e_bios e)) bar err (mk_pr (r_bio d) nr_bytes 0 0 0 e);
      match p_bio p with
      | None =>
          Some (false, grow_front (er_pos r) 0 r,
                mk_rd None (r_biotail d) 0 (r_nr_phys_segments d) (r_failfast d) (r_mixed d)
                  (r_copy_user d) (r_extra_len d) (r_ioprio d) (r_cpu d) (r_start_time d), p_e p)
      | Some b =>
          e ← (if truthy (p_nbytes p) then
                 e ← req_bio_endio bar b (p_nbytes p) err (p_e p);
                 x ← e_bios e !! b;
                 x ← skip_vecs (p_idx p) (p_nr p) x;
                 Some (set_e_bios (<[b := x]> (e_bios e)) e)
               else Some (p_e p));
          '(r, d, bs) ← leftover b (p_total p) r d (e_bios e);
          Some (true, r, d, set_e_bios bs e)
      end
  end.
End update.

(** The bytes up to the first bio that must be retried further. *)
Fixpoint err_bytes (ff acc : Z) (xs : list bio) : Z :=
  match xs with
  | [] => acc
  | x :: xs =>
      if Z.land (bi_rw x) ff =? ff then err_bytes ff (u32 (acc + bi_size x)) xs else acc
  end.

Definition blk_rq_err_bytes (d : rq_data) (bs : bio_store) : option Z :=
  if negb (r_mixed d) then Some (r_data_len d)
  else
    l ← for_each_bio bs (r_bio d);
    xs ← mapM (bs !!.) l;
    let bytes := err_bytes (r_failfast d) 0 xs in
    if truthy (r_data_len d) && (bytes =? 0) then None else Some bytes.

(** ** What is left *)

(** A byte is named by its page and its offset. *)
Definition frag (v : bio_vec) : list (Z * Z) :=
  (λ o, (bv_page v, o)) <$> seqZ (bv_offset v) (bv_len v).
Definition bytes (bs : bio_store) (l : list nat) : list (Z * Z) := vecs bs l ≫= frag.

Definition tot (vs : list bio_vec) : Z := foldr (λ v n, bv_len v + n) 0 vs.
Definition left_in (bs : bio_store) (l : list nat) : Z :=
  foldr (λ i n, from_option bi_size 0 (bs !! i) + n) 0 l.

Definition frag_ok (v : bio_vec) : Prop :=
  0 < bv_len v ∧ 0 ≤ bv_offset v ∧ bv_offset v + bv_len v < 2 ^ 32.

(** A bio with data whose size is that of its fragments. *)
Definition full (x : bio) : Prop :=
  bi_size x = tot (bio_segs x) ∧ Forall frag_ok (bio_segs x) ∧ bio_segs x ≠ [].

Record carried (bs : bio_store) (l : list nat) : Prop := {
  ca_linked : linked bs l;
  ca_nodup : NoDup l;
  ca_full i x : i ∈ l → bs !! i = Some x → full x;
}.

(** The ends of whole bios, as a function. *)
Definition end_code (err : Z) (stale : gset nat) (b : nat) : Z :=
  if truthy err then err else if bool_decide (b ∈ stale) then - EIO else 0.
Definition finish1 (err : Z) (e : ending) (b : nat) : ending :=
  mk_ending (alter (λ x, advance_bio (bi_size x) x) b (e_bios e))
    (if truthy err then {[b]} ∪ e_stale e else e_stale e)
    (e_ended e ++ [(b, end_code err (e_stale e) b)]) (e_orderr e).
Definition finish (err : Z) (l : list nat) (e : ending) : ending := foldl (finish1 err) e l.

Lemma tot_app vs ws : tot (vs ++ ws) = tot vs + tot ws.
Proof. induction vs as [|v vs IH]; cbn; [done|]. fold (tot (vs ++ ws)). fold (tot vs). lia. Qed.

Lemma tot_nonneg vs : Forall frag_ok vs → 0 ≤ tot vs.
Proof. induction 1 as [|v vs [? _] _ IH]; cbn; [done|]. fold (tot vs). lia. Qed.

Lemma full_size x : full x → 0 < bi_size x.
Proof.
  intros (-> & Hf & Hne). destruct (bio_segs x) as [|v vs]; [done|].
  apply Forall_cons in Hf as [[? _] Hf]. apply tot_nonneg in Hf. cbn. fold (tot vs). lia.
Qed.

Lemma finish_other err l e i : i ∉ l → e_bios (finish err l e) !! i = e_bios e !! i.
Proof.
  revert e. induction l as [|b l IH]; intros e; [done|]. intros [Hb Hl]%not_elem_of_cons.
  cbn. fold (finish err l (finish1 err e b)). rewrite IH by done. cbn. by rewrite lookup_alter_ne.
Qed.

Lemma finish_ended err l e :
  NoDup l → e_ended (finish err l e) = e_ended e ++ ((λ b, (b, end_code err (e_stale e) b)) <$> l).
Proof.
  revert e. induction l as [|b l IH]; intros e Hn; [cbn; by rewrite app_nil_r|].
  apply NoDup_cons in Hn as [Hb Hn]. cbn. fold (finish err l (finish1 err e b)).
  rewrite IH by done. cbn [e_ended finish1]. rewrite <- (assoc_L (++)). f_equal. cbn. f_equal.
  apply list_fmap_ext. intros k i Hi. f_equal. cbn. unfold end_code.
  destruct (truthy err); done.
Qed.

(** Ending a whole bio. *)
Lemma end_whole b err e x :
  e_bios e !! b = Some x → 0 ≤ bi_size x < 2 ^ 32 →
  req_bio_endio false b (bi_size x) err e = Some (finish1 err e b).
Proof.
  intros Hx Hs. unfold req_bio_endio, note_error, bio_endio, finish1, end_code. rewrite Hx.
  cbn [mbind option_bind]. rewrite Z.ltb_irrefl.
  assert (alter (λ x, advance_bio (bi_size x) x) b (e_bios e) =
    <[b := advance_bio (bi_size x) x]> (e_bios e)) as ->.
  { apply map_eq. intros i. destruct (decide (i = b)) as [->|Hne].
    - by rewrite lookup_alter_eq, Hx, lookup_insert_eq.
    - by rewrite lookup_alter_ne, lookup_insert_ne. }
  assert ((bi_size (advance_bio (bi_size x) x) =? 0) = true) as Hz by (cbn; by rewrite Z.sub_diag).
  destruct (truthy err) eqn:Ee; cbn -[advance_bio]; rewrite Hz; unfold note_error; cbn -[advance_bio].
  - rewrite Ee. cbn. f_equal. f_equal. set_solver.
  - destruct (bool_decide (b ∈ e_stale e)) eqn:Eb; cbn.
    + f_equal. apply bool_decide_eq_true in Eb. f_equal. set_solver.
    + done.
Qed.

(** *** The loop *)

Lemma segs_io_vec x i : bio_segs x !! i = io_vec x !! (bi_idx x + i)%nat.
Proof. unfold bio_segs. apply lookup_drop. Qed.

(** Within a bio that is not done as a whole: [dn] has been passed. *)
Lemma loop_bio bar err b x e rest : ∀ fuel dn n total,
  e_bios e !! b = Some x → full x → bio_segs x = dn ++ rest →
  0 ≤ n → n + tot dn < bi_size x < 2 ^ 31 → 0 ≤ total → total + n < 2 ^ 31 →
  (length rest < fuel)%nat →
  ∃ dn' v rest' k,
    update_loop fuel bar err (mk_pr (Some b) n total (tot dn) (length dn) e) =
      Some (mk_pr (Some b) k (total + n) (tot dn + n) (length dn') e) ∧
    bio_segs x = dn' ++ v :: rest' ∧ 0 ≤ k < bv_len v ∧ tot dn' + k = tot dn + n.
Proof.
  induction rest as [|v rest IH]; intros fuel dn n total Hx Hfull Es Hn Hlt Ht Htn Hf.
  { destruct Hfull as [Hs _]. rewrite Es, app_nil_r in Hs. lia. }
  destruct fuel as [|fuel]; [cbn in Hf; lia|]. cbn [length] in Hf.
  pose proof Hfull as (Hs & Hok & _). rewrite Es in Hs, Hok. rewrite tot_app in Hs.
  apply Forall_app in Hok as [Hdn Hok]. apply Forall_cons in Hok as [[Hl _] Hok].
  pose proof (tot_nonneg _ Hdn). pose proof (tot_nonneg _ Hok).
  cbn [tot foldr] in Hs. fold (tot rest) in Hs.
  cbn [update_loop p_bio p_e p_nr p_idx p_total p_nbytes]. rewrite Hx. cbn [mbind option_bind].
  destruct (bi_size x <=? n) eqn:E1; [apply Z.leb_le in E1; lia|].
  rewrite <- segs_io_vec, Es, (list_lookup_middle dn rest v (length dn) eq_refl).
  destruct (bi_size x <? bv_len v) eqn:E2; [apply Z.ltb_lt in E2; lia|].
  destruct (n <? bv_len v) eqn:E3; [apply Z.ltb_lt in E3|apply Z.ltb_ge in E3].
  { exists dn, v, rest, n. rewrite !s32_small by (unfold in_s32; lia). split_and!; done || lia. }
  rewrite !s32_small by (unfold in_s32; lia). rewrite u32_small by (unfold in_u32; lia).
  assert (tot dn + bv_len v = tot (dn ++ [v])) as Et by (rewrite tot_app; cbn; lia).
  assert (S (length dn) = length (dn ++ [v])) as El by (rewrite length_app; cbn; lia).
  assert (bio_segs x = (dn ++ [v]) ++ rest) as Es' by (rewrite <- (assoc_L (++)); exact Es).
  rewrite Et, El. unfold more. cbn [p_bio p_nr].
  destruct (0 <? n - bv_len v) eqn:E4; [apply Z.ltb_lt in E4|apply Z.ltb_ge in E4].
  - destruct (IH fuel (dn ++ [v]) (n - bv_len v) (total + bv_len v))
      as (dn' & v' & rest' & k & -> & Es2 & Hk & Ek); try done; try lia.
    exists dn', v', rest', k. split_and!; [f_equal; f_equal; lia|by rewrite <- Es|lia..].
  - assert (n = bv_len v) as -> by lia. rewrite Z.sub_diag. destruct rest as [|v' rest].
    { cbn in Hs. lia. }
    exists (dn ++ [v]), v', rest, 0. apply Forall_cons in Hok as [[? _] _].
    split_and!; [f_equal; f_equal; lia|by rewrite <- (assoc_L (++))|lia..].
Qed.

Definition needed (bs : bio_store) (l : list nat) : nat :=
  foldr (λ i n, from_option (λ x, S (length (io_vec x))) 0%nat (bs !! i) + n)%nat 0%nat l.

Lemma needed_other bs bs' l :
  (∀ i, i ∈ l → bs' !! i = bs !! i) → needed bs' l = needed bs l.
Proof.
  induction l as [|i l IH]; intros Hl; [done|]. cbn. rewrite Hl by (by left).
  unfold needed in IH. rewrite IH; [done|]. intros j Hj. apply Hl. by right.
Qed.

Lemma left_other bs bs' l :
  (∀ i, i ∈ l → bs' !! i = bs !! i) → left_in bs' l = left_in bs l.
Proof.
  induction l as [|i l IH]; intros Hl; [done|]. cbn. rewrite Hl by (by left).
  unfold left_in in IH. rewrite IH; [done|]. intros j Hj. apply Hl. by right.
Qed.

Lemma rounds_enough bs l :
  NoDup l → (∀ i, i ∈ l → is_Some (bs !! i)) → (needed bs l < rounds bs)%nat.
Proof.
  revert bs. induction l as [|i l IH]; intros bs Hn Hl.
  - unfold rounds. cbn. induction bs as [|i x bs Hi Hfi IHm] using map_first_key_ind.
    + rewrite map_fold_empty. lia.
    + rewrite map_fold_insert_first_key by done. lia.
  - apply NoDup_cons in Hn as [Hi Hn]. destruct (Hl i) as [x Hx]; [by left|].
    assert (rounds bs = S (length (io_vec x)) + rounds (delete i bs))%nat as ->.
    { unfold rounds. apply (map_fold_delete_L (λ _ x n, (S (length (io_vec x)) + n)%nat)); [|done].
      intros. lia. }
    cbn [needed foldr]. rewrite Hx. cbn [from_option]. fold (needed bs l).
    assert (∀ j, j ∈ l → delete i bs !! j = bs !! j) as Hd.
    { intros j Hj. rewrite lookup_delete_ne; [done|]. by intros ->. }
    specialize (IH (delete i bs) Hn). rewrite (needed_other bs _ l Hd) in IH.
    assert (needed bs l < rounds (delete i bs))%nat; [|lia].
    apply IH. intros j Hj. rewrite Hd by done. apply Hl. by right.
Qed.

Lemma linked_other bs bs' l :
  linked bs l → (∀ i, i ∈ l → bs' !! i = bs !! i) → linked bs' l.
Proof.
  intros Hl Hs. eapply linked_frame; [exact Hl|]. intros i x Hi Hx. exists x. by rewrite Hs.
Qed.

Lemma left_nonneg bs l :
  (∀ i x, i ∈ l → bs !! i = Some x → 0 ≤ bi_size x) → 0 ≤ left_in bs l.
Proof.
  induction l as [|i l IH]; intros Hp; [done|]. cbn. fold (left_in bs l).
  assert (0 ≤ left_in bs l) by (apply IH; intros j x Hj; apply Hp; by right).
  destruct (bs !! i) as [x|] eqn:Ex; cbn; [|lia].
  assert (0 ≤ bi_size x) by (eapply Hp; [by left|done]). lia.
Qed.

(** What a round that ends a whole bio leaves to do. *)
Lemma after_first err e b l :
  b ∉ l → linked (e_bios e) l →
  linked (e_bios (finish1 err e b)) l ∧
  left_in (e_bios (finish1 err e b)) l = left_in (e_bios e) l ∧
  needed (e_bios (finish1 err e b)) l = needed (e_bios e) l ∧
  (∀ i, i ∈ l → e_bios (finish1 err e b) !! i = e_bios e !! i).
Proof.
  intros Hb Hl.
  assert (∀ i, i ∈ l → e_bios (finish1 err e b) !! i = e_bios e !! i) as Hs.
  { intros i Hi. cbn. rewrite lookup_alter_ne; [done|]. by intros ->. }
  split_and!; [by eapply linked_other|by apply left_other|by apply needed_other|done].
Qed.

Lemma loop_all err l : ∀ fuel n total e,
  linked (e_bios e) l → NoDup l →
  (∀ i x, i ∈ l → e_bios e !! i = Some x → 0 ≤ bi_size x < 2 ^ 32) →
  (∀ i x, i ∈ tail l → e_bios e !! i = Some x → 0 < bi_size x) →
  left_in (e_bios e) l ≤ n < 2 ^ 32 → (length l ≤ fuel)%nat →
  ∃ p, update_loop fuel false err (mk_pr (head l) n total 0 0 e) = Some p ∧
    p_bio p = None ∧ p_e p = finish err l e.
Proof.
  induction l as [|b l IH]; intros fuel n total e Hl Hn Hs Ht Hle Hf.
  { destruct fuel; by eexists. }
  destruct fuel as [|fuel]; [cbn in Hf; lia|]. destruct Hl as [(x & Hx & Hnx) Hl].
  apply NoDup_cons in Hn as [Hb Hn]. destruct (after_first err e b l Hb Hl) as (Hl' & El & _ & Hsame).
  assert (0 ≤ bi_size x < 2 ^ 32) as Hsz by (eapply Hs; [by left|done]).
  assert (0 ≤ left_in (e_bios e) l) as Hnn.
  { apply left_nonneg. intros i y Hi Hy. eapply Hs; [by right|done]. }
  cbn [left_in foldr] in Hle. rewrite Hx in Hle. cbn [from_option] in Hle. fold (left_in (e_bios e) l) in Hle.
  cbn [update_loop p_bio p_e p_nr p_idx p_total p_nbytes head]. rewrite Hx. cbn [mbind option_bind].
  destruct (bi_size x <=? n) eqn:E1; [|apply Z.leb_gt in E1; lia].
  rewrite (end_whole b err e x Hx Hsz). cbn [mbind option_bind].
  rewrite u32_small by (unfold in_u32; lia). rewrite Hnx.
  assert (more (mk_pr (head l) (n - bi_size x) (s32 (total + bi_size x)) 0 0 (finish1 err e b)) = true) as ->.
  { destruct l as [|b' l]; [done|]. cbn. destruct Hl as [(x' & Hx' & _) _]. cbn in Hle.
    rewrite Hx' in Hle. cbn in Hle. fold (left_in (e_bios e) l) in Hle.
    assert (0 < bi_size x') by (eapply Ht; [by left|done]).
    assert (0 ≤ left_in (e_bios e) l).
    { apply left_nonneg. intros i y Hi Hy. eapply Hs; [by do 2 right|done]. }
    apply Z.ltb_lt. lia. }
  apply IH; try done; try lia.
  - intros i y Hi. rewrite Hsame by done. apply Hs. by right.
  - intros i y Hi. assert (i ∈ l) by (by destruct l; [|right]). rewrite Hsame by done. by apply Ht.
  - cbn in Hf. lia.
Qed.

Lemma carried_cons bs b l : carried bs (b :: l) → carried bs l.
Proof.
  intros [[_ Hl] Hn Hf]. apply NoDup_cons in Hn as [_ Hn]. split; [done..|].
  intros i x Hi. apply Hf. by right.
Qed.

Lemma carried_other bs bs' l :
  carried bs l → (∀ i, i ∈ l → bs' !! i = bs !! i) → carried bs' l.
Proof.
  intros [Hl Hn Hf] Hs. split; [by eapply linked_other|done|].
  intros i x Hi. rewrite Hs by done. by apply Hf.
Qed.

Lemma carried_left bs l : carried bs l → 0 ≤ left_in bs l.
Proof. intros [_ _ Hf]. apply left_nonneg. intros i x Hi Hx. by eapply Z.lt_le_incl, full_size, Hf. Qed.

Lemma loop_some err l : ∀ fuel n total e,
  carried (e_bios e) l → 0 ≤ n < left_in (e_bios e) l → left_in (e_bios e) l < 2 ^ 31 →
  0 ≤ total → total + n < 2 ^ 31 → (needed (e_bios e) l < fuel)%nat →
  ∃ l1 b l2 x dn v rest k, l = l1 ++ b :: l2 ∧ e_bios e !! b = Some x ∧
    bio_segs x = dn ++ v :: rest ∧ 0 ≤ k < bv_len v ∧ left_in (e_bios e) l1 + tot dn + k = n ∧
    update_loop fuel false err (mk_pr (head l) n total 0 0 e) =
      Some (mk_pr (Some b) k (total + n) (tot dn + k) (length dn) (finish err l1 e)).
Proof.
  induction l as [|b l IH]; intros fuel n total e Hc Hn Hlt Ht Htn Hf; [cbn in Hn; lia|].
  pose proof (carried_cons _ _ _ Hc) as Hc'. pose proof (carried_left _ _ Hc') as Hnn.
  destruct Hc as [[(x & Hx & Hnx) Hl] [Hb _]%NoDup_cons Hfull].
  destruct (after_first err e b l Hb Hl) as (_ & El & En & Hsame).
  assert (full x) as Hfx by (eapply Hfull; [by left|done]).
  pose proof (full_size _ Hfx) as Hpos.
  cbn [left_in foldr] in Hn, Hlt. cbn [needed foldr] in Hf. rewrite Hx in Hn, Hlt, Hf.
  cbn [from_option] in Hn, Hlt, Hf. fold (left_in (e_bios e) l) in Hn, Hlt. fold (needed (e_bios e) l) in Hf.
  destruct (decide (n < bi_size x)) as [Hlt'|Hge].
  { destruct (loop_bio false err b x e (bio_segs x) fuel [] n total)
      as (dn & v & rest & k & Eq & Es & Hk & Ek); try done; try (cbn; lia).
    { unfold bio_segs. rewrite length_drop. lia. }
    exists [], b, l, x, dn, v, rest, k. cbn in Ek, Eq |- *. split_and!; try done; [lia..|].
    rewrite Eq. do 2 f_equal; lia. }
  destruct fuel as [|fuel]; [lia|].
  cbn [update_loop p_bio p_e p_nr p_idx p_total p_nbytes head]. rewrite Hx. cbn [mbind option_bind].
  destruct (bi_size x <=? n) eqn:E1; [|apply Z.leb_gt in E1; lia].
  rewrite (end_whole b err e x Hx) by lia. cbn [mbind option_bind].
  rewrite u32_small by (unfold in_u32; lia). rewrite s32_small by (unfold in_s32; lia). rewrite Hnx.
  destruct l as [|b' l]; [cbn in Hn; lia|]. unfold more. cbn [p_bio p_nr head].
  destruct (0 <? n - bi_size x) eqn:E2; [apply Z.ltb_lt in E2|apply Z.ltb_ge in E2].
  - destruct (IH fuel (n - bi_size x) (total + bi_size x) (finish1 err e b))
      as (l1 & b2 & l2 & x2 & dn & v & rest & k & Hl2 & Hx2 & Es & Hk & Ek & Eq); rewrite ?El, ?En; try lia.
    { by eapply carried_other. }
    exists (b :: l1), b2, l2, x2, dn, v, rest, k. cbn [app]. rewrite Hl2 in Hsame, Hb |- *.
    assert (left_in (e_bios e) (b :: l1) = bi_size x + left_in (e_bios (finish1 err e b)) l1) as ->.
    { cbn [left_in foldr]. rewrite Hx. cbn [from_option]. f_equal.
      symmetry. apply left_other. intros i Hi. apply Hsame, elem_of_app. by left. }
    split_and!; try done; try lia.
    + by rewrite <- Hsame by (apply elem_of_app; right; left).
    + cbn [head] in Eq. rewrite Eq. f_equal. f_equal. lia.
  - destruct (ca_linked _ _ Hc') as [(x' & Hx' & _) _].
    destruct (ca_full _ _ Hc' b' x') as (_ & Hok & Hne); [by left|done|].
    destruct (bio_segs x') as [|v rest] eqn:Es; [done|]. apply Forall_cons in Hok as [[? _] _].
    exists [b], b', l, x', [], v, rest, 0. cbn. rewrite Hx. cbn. split_and!; try done; try lia.
    do 2 f_equal; lia.
Qed.

(** *** After the loop *)

(** Counting the segments anew leaves the data alone. *)
Definition same_bio (x y : bio) : Prop :=
  bi_next y = bi_next x ∧ bi_size y = bi_size x ∧ bio_segs y = bio_segs x ∧
  bi_sector y = bi_sector x.
Definition same_bios (l : list nat) (bs bs' : bio_store) : Prop :=
  ∀ i, i ∈ l → ∃ x y, bs !! i = Some x ∧ bs' !! i = Some y ∧ same_bio x y.

Lemma same_bios_cons i l bs bs' : same_bios (i :: l) bs bs' → same_bios l bs bs'.
Proof. intros Hs j Hj. apply Hs. by right. Qed.

Lemma same_size l bs bs' i : same_bios l bs bs' → i ∈ l → bi_size <$> bs' !! i = bi_size <$> bs !! i.
Proof. intros Hs Hi. destruct (Hs i Hi) as (x & y & -> & -> & _ & E & _). cbn. by rewrite E. Qed.

Lemma same_linked l bs bs' : same_bios l bs bs' → linked bs l → linked bs' l.
Proof.
  intros Hs Hl. eapply linked_frame; [exact Hl|]. intros i x Hi Hx.
  destruct (Hs i Hi) as (x' & y & Hx' & Hy & (? & _)). simplify_eq. eauto.
Qed.

Lemma same_carried l bs bs' : same_bios l bs bs' → carried bs l → carried bs' l.
Proof.
  intros Hs [Hl Hn Hf]. split; [by eapply same_linked|done|]. intros i y Hi Hy.
  destruct (Hs i Hi) as (x & y' & Hx & Hy' & (_ & E1 & E2 & _)). simplify_eq.
  unfold full. rewrite E1, E2. by apply (Hf i).
Qed.

Lemma same_left l bs bs' : same_bios l bs bs' → left_in bs' l = left_in bs l.
Proof.
  induction l as [|i l IH]; intros Hs; [done|].
  destruct (Hs i) as (x & y & Hx & Hy & (_ & E & _)); [by left|]. cbn. rewrite Hx, Hy. cbn. rewrite E.
  f_equal. by eapply IH, same_bios_cons.
Qed.

Lemma same_bytes l bs bs' : same_bios l bs bs' → bytes bs' l = bytes bs l.
Proof.
  unfold bytes. intros Hs. f_equal.
  induction l as [|i l IH]; [done|]. rewrite !vecs_cons.
  destruct (Hs i) as (x & y & Hx & Hy & (_ & _ & E & _)); [by left|]. rewrite Hx, Hy. cbn. rewrite E.
  f_equal. by eapply IH, same_bios_cons.
Qed.

Lemma recalc_same L bs b l :
  linked bs (b :: l) → NoDup (b :: l) →
  ∃ n bs', __blk_recalc_rq_segments L (Some b) bs = Some (n, bs') ∧ same_bios (b :: l) bs bs'.
Proof.
  intros Hl Hn. unfold __blk_recalc_rq_segments.
  change (Some b) with (head (b :: l)) at 1. rewrite (for_each_linked bs (b :: l)) by done.
  destruct (linked_elem bs (b :: l) b) as [x Hx]; [done|by left|]. rewrite Hx.
  cbn [mbind option_bind].
  assert (∃ t, last (b :: l) = Some t ∧ t ∈ b :: l) as (t & Et & Ht).
  { destruct (last (b :: l)) as [t|] eqn:Et; [|by apply last_None in Et].
    exists t. split; [done|]. by apply last_Some_elem_of. }
  rewrite Et. cbn [mbind option_bind]. rewrite (upd_bio_some _ _ _ _ Hx). cbn [mbind option_bind].
  set (bs1 := <[b := _]> bs).
  assert (same_bios (b :: l) bs bs1) as H1.
  { intros i Hi. destruct (linked_elem bs (b :: l) i Hl Hi) as [y Hy]. unfold bs1.
    destruct (decide (i = b)) as [->|Hne].
    - simplify_eq. rewrite lookup_insert_eq. by eexists _, _.
    - rewrite lookup_insert_ne by done. by exists y, y. }
  destruct (H1 t Ht) as (_ & y & _ & Hy & _). rewrite (upd_bio_some _ _ _ _ Hy).
  cbn [mbind option_bind]. eexists _, _. split; [reflexivity|]. intros i Hi.
  destruct (H1 i Hi) as (x1 & y1 & Hx1 & Hy1 & Hs1). destruct (decide (i = t)) as [->|Hne].
  - rewrite lookup_insert_eq. simplify_eq. by eexists _, _.
  - rewrite lookup_insert_ne by done. eauto.
Qed.

(** *** Bytes *)

Lemma frag_length v : 0 ≤ bv_len v → Z.of_nat (length (frag v)) = bv_len v.
Proof. intros. unfold frag. rewrite length_fmap, length_seqZ. lia. Qed.

Lemma frags_length vs : Forall frag_ok vs → Z.of_nat (length (vs ≫= frag)) = tot vs.
Proof.
  induction 1 as [|v vs [Hv _] _ IH]; [done|]. cbn. fold (tot vs).
  rewrite length_app, Nat2Z.inj_add, IH, frag_length; lia.
Qed.

Lemma bytes_app bs l1 l2 : bytes bs (l1 ++ l2) = bytes bs l1 ++ bytes bs l2.
Proof. unfold bytes. by rewrite vecs_app, bind_app. Qed.

Lemma bytes_cons bs i l x : bs !! i = Some x → bytes bs (i :: l) = (bio_segs x ≫= frag) ++ bytes bs l.
Proof. intros Hx. unfold bytes. by rewrite vecs_cons, Hx, bind_app. Qed.

Lemma bytes_other bs bs' l : (∀ i, i ∈ l → bs' !! i = bs !! i) → bytes bs' l = bytes bs l.
Proof.
  unfold bytes. intros Hs. f_equal. induction l as [|i l IH]; [done|].
  rewrite !vecs_cons, Hs by (by left). f_equal. apply IH. intros j Hj. apply Hs. by right.
Qed.

Lemma bytes_length bs l :
  (∀ i, i ∈ l → ∃ x, bs !! i = Some x ∧ full x) → Z.of_nat (length (bytes bs l)) = left_in bs l.
Proof.
  induction l as [|i l IH]; intros Hf; [done|].
  destruct (Hf i) as (x & Hx & (Es & Hok & _)); [by left|]. rewrite (bytes_cons _ _ _ x) by done.
  cbn. rewrite Hx. cbn. rewrite length_app, Nat2Z.inj_add, frags_length, IH by (done || set_solver).
  by rewrite Es.
Qed.

Lemma carried_all bs l i : carried bs l → i ∈ l → ∃ x, bs !! i = Some x ∧ full x.
Proof.
  intros [Hl _ Hf] Hi. destruct (linked_elem _ _ _ Hl Hi) as [x Hx]. eauto.
Qed.

Lemma cut_vec_frag v k : frag_ok v → 0 ≤ k < bv_len v →
  frag (cut_vec k v) = drop (Z.to_nat k) (frag v) ∧ frag_ok (cut_vec k v) ∧
  bv_len (cut_vec k v) = bv_len v - k.
Proof.
  intros (Hl & Ho & Hlo) Hk. unfold cut_vec, frag_ok, frag. cbn.
  rewrite !u32_small by (unfold in_u32; lia). split_and!; try lia.
  rewrite <- fmap_drop. f_equal. apply list_eq. intros i. rewrite lookup_drop.
  destruct (decide (Z.of_nat i < bv_len v - k)) as [Hi|Hi].
  - rewrite !lookup_seqZ_lt by lia. f_equal. lia.
  - rewrite !lookup_seqZ_ge by lia. done.
Qed.

(** *** The first bio that is not done *)

Lemma cur_bytes_head x v rest : bio_segs x = v :: rest → bio_cur_bytes x = Some (bv_len v).
Proof.
  intros Es. assert (io_vec x !! bi_idx x = Some v) as Hv.
  { rewrite <- (Nat.add_0_r (bi_idx x)), <- segs_io_vec, Es. done. }
  unfold bio_cur_bytes. destruct (io_vec x) as [|w ws] eqn:Ev; [done|]. by rewrite Hv.
Qed.

Lemma skip_spec x dn v rest k nb :
  bio_segs x = dn ++ v :: rest → nb = tot dn + k → 0 ≤ bi_size x - nb < 2 ^ 32 →
  ∃ y, skip_vecs (length dn) k (advance_bio nb x) = Some y ∧ bi_next y = bi_next x ∧
    bio_segs y = cut_vec k v :: rest ∧ bi_size y = bi_size x - nb.
Proof.
  intros Es En Hs. assert (io_vec x !! (bi_idx x + length dn)%nat = Some v) as Hv.
  { rewrite <- segs_io_vec, Es. by apply list_lookup_middle. }
  unfold io_vec in Hv. destruct (bi_io_vec x) as [vs|] eqn:Ev; [|done]. cbn in Hv.
  unfold skip_vecs. cbn [advance_bio bi_idx bi_io_vec]. rewrite Ev. cbn [mbind option_bind].
  rewrite Hv. cbn [mbind option_bind]. eexists. split; [reflexivity|]. split_and!; [done| |].
  - unfold bio_segs at 1. cbn. unfold io_vec. cbn. set (i := (bi_idx x + length dn)%nat) in *.
    assert (i < length vs)%nat by (by eapply lookup_lt_Some).
    rewrite (drop_S _ (cut_vec k v)) by (by apply list_lookup_insert_eq).
    rewrite drop_insert_lt by lia. f_equal. unfold bio_segs, io_vec in Es. rewrite Ev in Es. cbn in Es.
    replace (S i) with (bi_idx x + S (length dn))%nat by (unfold i; lia).
    rewrite <- drop_drop, Es, drop_app_ge by lia. by rewrite Nat.sub_succ_l, Nat.sub_diag by lia.
  - cbn. by rewrite u32_small by (unfold in_u32; lia).
Qed.

Lemma end_part b nb err e x :
  e_bios e !! b = Some x → 0 ≤ nb < bi_size x → bi_size x < 2 ^ 32 →
  req_bio_endio false b nb err e =
    Some (mk_ending (<[b := advance_bio nb x]> (e_bios e))
            (if truthy err then {[b]} ∪ e_stale e else e_stale e) (e_ended e) (e_orderr e)).
Proof.
  intros Hx Hnb Hs. unfold req_bio_endio. rewrite Hx. cbn [mbind option_bind].
  destruct (bi_size x <? nb) eqn:E1; [apply Z.ltb_lt in E1; lia|].
  assert ((bi_size (advance_bio nb x) =? 0) = false) as Hz.
  { cbn. rewrite u32_small by (unfold in_u32; lia). apply Z.eqb_neq. lia. }
  unfold note_error. destruct (truthy err); cbn -[advance_bio]; by rewrite Hz.
Qed.

(** The state after the loop when the bio [b] is not done. *)
Lemma part_spec err b x dn v rest k e :
  e_bios e !! b = Some x → full x → bi_size x < 2 ^ 31 → bio_segs x = dn ++ v :: rest →
  0 ≤ k < bv_len v →
  ∃ e' y,
    (if truthy (tot dn + k) then
       e ← req_bio_endio false b (tot dn + k) err e;
       x ← e_bios e !! b;
       x ← skip_vecs (length dn) k x;
       Some (set_e_bios (<[b := x]> (e_bios e)) e)
     else Some e) = Some e' ∧
    e_bios e' = <[b := y]> (e_bios e) ∧ e_ended e' = e_ended e ∧
    e_stale e' = (if truthy err && truthy (tot dn + k) then {[b]} ∪ e_stale e else e_stale e) ∧
    bi_next y = bi_next x ∧ bi_size y = bi_size x - (tot dn + k) ∧
    bio_segs y = cut_vec k v :: rest ∧ full y.
Proof.
  intros Hx Hfx Hs Es Hk. pose proof Hfx as (Esz & Hok & _).
  rewrite Es in Esz, Hok. apply Forall_app in Hok as [Hdn [Hv Hrest]%Forall_cons].
  rewrite tot_app in Esz. cbn in Esz. fold (tot rest) in Esz.
  pose proof (tot_nonneg _ Hdn). pose proof (tot_nonneg _ Hrest).
  destruct (cut_vec_frag v k Hv Hk) as (_ & Hcok & Hcl).
  assert (∀ y, bio_segs y = cut_vec k v :: rest → bi_size y = bi_size x - (tot dn + k) → full y) as Hfy.
  { intros y Ey Ez. unfold full. rewrite Ey, Ez. split_and!; [|by apply Forall_cons|done].
    change (tot (cut_vec k v :: rest)) with (bv_len (cut_vec k v) + tot rest). lia. }
  rewrite andb_comm. destruct (truthy (tot dn + k)) eqn:Ez; unfold truthy in Ez;
    [apply negb_true_iff, Z.eqb_neq in Ez|apply negb_false_iff, Z.eqb_eq in Ez]; [|].
  2: { assert (dn = []) as ->.
    { destruct dn as [|w dn]; [done|]. apply Forall_cons in Hdn as [[? _] Hdn].
      apply tot_nonneg in Hdn. cbn in Ez. fold (tot dn) in Ez. lia. }
    assert (k = 0) as -> by exact Ez. exists e, x. rewrite insert_id by done. cbn.
    assert (cut_vec 0 v = v) as Ec.
    { destruct v as [pg ln off], Hv as (? & ? & ?). unfold cut_vec. cbn in *.
      by rewrite Z.sub_0_r, Z.add_0_r, !u32_small by (unfold in_u32; lia). }
    rewrite Ec. split_and!; try done; lia. }
  rewrite (end_part b (tot dn + k) err e x) by (done || lia).
  cbn [mbind option_bind e_bios]. rewrite lookup_insert_eq. cbn [mbind option_bind].
  destruct (skip_spec x dn v rest k (tot dn + k)) as (y & -> & Hn & Ey & Esy); try done; try lia.
  cbn [mbind option_bind]. eexists _, y. split; [reflexivity|]. cbn.
  rewrite insert_insert_eq. by destruct (truthy err); split_and!; auto.
Qed.

(** ** One report of the driver *)

Lemma length_needed bs l : linked bs l → (length l ≤ needed bs l)%nat.
Proof.
  induction l as [|i l IH]; [done|]. intros [(x & Hx & _) Hl]. cbn. rewrite Hx. cbn.
  fold (needed bs l). specialize (IH Hl). lia.
Qed.

Lemma update_all L err n r d e l :
  linked (e_bios e) l → NoDup l → l ≠ [] → r_bio d = head l →
  (∀ i x, i ∈ l → e_bios e !! i = Some x → 0 ≤ bi_size x < 2 ^ 32) →
  (∀ i x, i ∈ tail l → e_bios e !! i = Some x → 0 < bi_size x) →
  left_in (e_bios e) l ≤ n < 2 ^ 32 →
  ∃ r' d', blk_update_request L false err n r d e = Some (false, r', d', finish err l e) ∧
    r_bio d' = None ∧ r_data_len d' = 0 ∧ er_pos r' = er_pos r.
Proof.
  intros Hl Hn Hne Hb Hs Ht Hle. unfold blk_update_request. rewrite Hb.
  destruct (head l) as [b|] eqn:Eh; [|by destruct l]. rewrite <- Eh.
  destruct (loop_all err l (rounds (e_bios e)) n 0 e) as (p & -> & Ep & Ee); try done.
  { pose proof (length_needed _ _ Hl). pose proof (rounds_enough (e_bios e) l Hn) as Hr.
    assert (needed (e_bios e) l < rounds (e_bios e))%nat; [|lia].
    apply Hr. intros i. by apply linked_elem. }
  cbn [mbind option_bind]. rewrite Ep, Ee. by eexists _, _.
Qed.

Lemma leftover_spec L b l x total r d bs :
  carried bs (b :: l) → bs !! b = Some x → r_data_len d - total = left_in bs (b :: l) →
  left_in bs (b :: l) < 2 ^ 31 →
  ∃ r' d' bs', leftover L b total r d bs = Some (r', d', bs') ∧ same_bios (b :: l) bs bs' ∧
    r_bio d' = Some b ∧ r_data_len d' = left_in bs (b :: l) ∧
    er_pos r' = (if er_fs r || er_discard r then u64 (er_pos r + Z.shiftr total 9) else er_pos r) ∧
    (er_fs r' = er_fs r ∧ er_discard r' = er_discard r).
Proof.
  intros Hc Hx Hd Hlt. pose proof (carried_left _ _ (carried_cons _ _ _ Hc)) as Hnn.
  destruct (ca_full _ _ Hc b x) as (Es & Hok & Hne); [by left|done|].
  destruct (bio_segs x) as [|v rest] eqn:Ev; [done|].
  apply Forall_cons in Hok as [[Hv _] Hok]. apply tot_nonneg in Hok.
  cbn [tot foldr] in Es. fold (tot rest) in Es.
  assert (left_in bs (b :: l) = bi_size x + left_in bs l) as El by (cbn; by rewrite Hx).
  unfold leftover. rewrite Hx. cbn [mbind option_bind]. rewrite (cur_bytes_head x v rest) by done.
  cbn [mbind option_bind]. rewrite Hd, u32_small by (unfold in_u32; lia).
  destruct (left_in bs (b :: l) <? bv_len v) eqn:E1; [apply Z.ltb_lt in E1; lia|].
  destruct (recalc_same L bs b l) as (n & bs' & -> & Hs); [apply Hc|apply Hc|].
  cbn [mbind option_bind]. eexists _, _, _. split; [reflexivity|]. done.
Qed.

(** The bios that a report of bytes is about: those that are done and, when it
    does not end with a bio, the next one. *)
Definition touched (bs : bio_store) (n : Z) (l1 l2 : list nat) : list nat :=
  if left_in bs l1 <? n then l1 ++ take 1 l2 else l1.

Lemma drop_bytes bs l1 b l2 x dn v rest k :
  carried bs (l1 ++ b :: l2) → bs !! b = Some x → bio_segs x = dn ++ v :: rest →
  0 ≤ k < bv_len v →
  drop (Z.to_nat (left_in bs l1 + tot dn + k)) (bytes bs (l1 ++ b :: l2)) =
    ((cut_vec k v :: rest) ≫= frag) ++ bytes bs l2.
Proof.
  intros Hc Hx Es Hk. rewrite bytes_app, (bytes_cons _ _ _ x Hx), Es, bind_app.
  change ((v :: rest) ≫= frag) with (frag v ++ (rest ≫= frag)).
  change ((cut_vec k v :: rest) ≫= frag) with (frag (cut_vec k v) ++ (rest ≫= frag)).
  destruct (ca_full _ _ Hc b x) as (_ & Hok & _); [apply elem_of_app; right; by left|done|].
  rewrite Es in Hok. apply Forall_app in Hok as [Hdn [Hv _]%Forall_cons].
  assert (Z.of_nat (length (bytes bs l1)) = left_in bs l1) as E1.
  { apply bytes_length. intros i Hi. eapply carried_all; [exact Hc|]. apply elem_of_app. by left. }
  pose proof (frags_length _ Hdn) as E2. destruct (cut_vec_frag v k Hv Hk) as (-> & _ & _).
  rewrite drop_app_ge, <- !(assoc_L (++)), drop_app_ge by lia.
  rewrite drop_app_le by (pose proof (frag_length v); destruct Hv; lia).
  do 2 f_equal. lia.
Qed.

Lemma carried_rest bs l1 l2 : carried bs (l1 ++ l2) → carried bs l2.
Proof. induction l1 as [|i l1 IH]; [done|]. intros Hc. apply IH. by eapply carried_cons. Qed.

Lemma left_app bs l1 l2 : left_in bs (l1 ++ l2) = left_in bs l1 + left_in bs l2.
Proof.
  induction l1 as [|i l1 IH]; [done|]. cbn. unfold left_in in IH |- *. rewrite IH. lia.
Qed.

Lemma finish_stale err l e :
  e_stale (finish err l e) = if truthy err then list_to_set l ∪ e_stale e else e_stale e.
Proof.
  revert e. induction l as [|b l IH]; intros e; cbn; [by destruct (truthy err); set_solver|].
  fold (finish err l (finish1 err e b)). rewrite IH. cbn. destruct (truthy err); set_solver.
Qed.

(** The first bio of the rest has been replaced by its own rest. *)
Lemma carried_part bs bs' b l x y :
  carried bs (b :: l) → bs !! b = Some x → bs' !! b = Some y → bi_next y = bi_next x → full y →
  (∀ i, i ∈ l → bs' !! i = bs !! i) → carried bs' (b :: l).
Proof.
  intros [[(x' & Hx' & Hn) Hl] Hnd Hf] Hx Hy Hny Hfy Hs. split; [|done|].
  - split; [|by eapply linked_other]. exists y. split; [done|]. congruence.
  - intros i z [->|Hi]%elem_of_cons Hz; [by simplify_eq|]. rewrite Hs in Hz by done.
    eapply Hf; [by right|done].
Qed.

(** A report of fewer bytes than are left. *)
Lemma update_some L err n r d e l :
  carried (e_bios e) l → r_bio d = head l → r_data_len d = left_in (e_bios e) l →
  0 ≤ n < left_in (e_bios e) l → left_in (e_bios e) l < 2 ^ 31 →
  ∃ l1 l2 r' d' e', l = l1 ++ l2 ∧ l2 ≠ [] ∧
    blk_update_request L false err n r d e = Some (true, r', d', e') ∧
    carried (e_bios e') l2 ∧ r_bio d' = head l2 ∧ r_data_len d' = left_in (e_bios e') l2 ∧
    left_in (e_bios e') l2 = left_in (e_bios e) l - n ∧
    bytes (e_bios e') l2 = drop (Z.to_nat n) (bytes (e_bios e) l) ∧
    (er_pos r' = (if er_fs r || er_discard r then u64 (er_pos r + Z.shiftr n 9) else er_pos r) ∧
     er_fs r' = er_fs r ∧ er_discard r' = er_discard r) ∧
    e_ended e' = e_ended e ++ ((λ b, (b, end_code err (e_stale e) b)) <$> l1) ∧
    e_stale e' = (if truthy err then list_to_set (touched (e_bios e) n l1 l2) ∪ e_stale e
                  else e_stale e) ∧
    left_in (e_bios e) l1 ≤ n ∧
    (∀ i x, head l2 = Some i → e_bios e !! i = Some x → n < left_in (e_bios e) l1 + bi_size x) ∧
    (∀ i, i ∈ tail l2 → bi_size <$> e_bios e' !! i = bi_size <$> e_bios e !! i).
Proof.
  intros Hc Hb Hd Hn Hlt. unfold blk_update_request. rewrite Hb.
  destruct (head l) as [h|] eqn:Eh; [|destruct l; [cbn in Hn; lia|done]]. rewrite <- Eh.
  destruct (loop_some err l (rounds (e_bios e)) n 0 e)
    as (l1 & b & l2 & x & dn & v & rest & k & -> & Hx & Es & Hk & Ek & ->); try done; try lia.
  { apply rounds_enough; [apply Hc|]. intros i. apply linked_elem, Hc. }
  cbn [mbind option_bind p_bio p_e p_nbytes p_idx p_nr p_total]. rewrite Z.add_0_l.
  assert ((b ∉ l1) ∧ (b ∉ l2) ∧ NoDup l1) as (Hbl1 & Hbl2 & Hn1).
  { destruct Hc as [_ Hn' _]. apply NoDup_app in Hn' as (? & Hx' & [? _]%NoDup_cons). split_and!; try done.
    intros Hin. apply (Hx' b Hin). by left. }
  pose proof (carried_rest _ _ _ Hc) as Hc2. rewrite left_app in *.
  assert (full x) as Hfx by (eapply (ca_full _ _ Hc2 b); [by left|done]).
  assert (left_in (e_bios e) (b :: l2) = bi_size x + left_in (e_bios e) l2) as El2
    by (cbn; by rewrite Hx).
  destruct (part_spec err b x dn v rest k (finish err l1 e))
    as (e2 & y & -> & Eb & Ee & Est & Hny & Hsy & Esy & Hfy); try done.
  { by rewrite finish_other. }
  { pose proof (carried_left _ _ (carried_cons _ _ _ Hc2)).
    assert (0 ≤ left_in (e_bios e) l1); [|lia].
    apply left_nonneg. intros i z Hi Hz. eapply Z.lt_le_incl, full_size, Hc; [|exact Hz].
    apply elem_of_app. by left. }
  cbn [mbind option_bind].
  assert (∀ i, i ∈ l2 → e_bios e2 !! i = e_bios e !! i) as Hsame.
  { intros i Hi. rewrite Eb, lookup_insert_ne by (by intros ->). apply finish_other. intros Hi1.
    destruct Hc as [_ Hn' _]. apply NoDup_app in Hn' as (_ & Hx' & _). apply (Hx' i Hi1). by right. }
  assert (e_bios e2 !! b = Some y) as Hy by (by rewrite Eb, lookup_insert_eq).
  assert (carried (e_bios e2) (b :: l2)) as Hc'
    by (eapply (carried_part (e_bios e) _ b l2 x y); done).
  assert (left_in (e_bios e2) (b :: l2) = left_in (e_bios e) l1 + left_in (e_bios e) (b :: l2) - n) as El.
  { cbn [left_in foldr] in *. rewrite Hx, Hy in *. cbn [from_option]. fold (left_in (e_bios e2) l2).
    fold (left_in (e_bios e) l2). rewrite (left_other _ _ _ Hsame). lia. }
  destruct (leftover_spec L b l2 y n r d (e_bios e2)) as (r' & d' & bs' & -> & Hsb & Hb' & Hd' & Hp' & Hfl);
    try done; try lia.
  exists l1, (b :: l2), r', d', (set_e_bios bs' e2). cbn [mbind option_bind e_bios set_e_bios e_ended e_stale].
  rewrite (same_left _ _ _ Hsb), (same_bytes _ _ _ Hsb), Ee, finish_ended by done.
  assert (0 ≤ tot dn ∧ tot dn + k < bi_size x) as [Hdn0 Hdnk].
  { destruct Hfx as (Esz & Hok & _). rewrite Es in Esz, Hok. rewrite tot_app in Esz. cbn in Esz.
    apply Forall_app in Hok as [Hdn%tot_nonneg [_ Hr%tot_nonneg]%Forall_cons]. fold (tot rest) in Esz. lia. }
  destruct Hfl as [Hf1 Hf2]. split_and!; try done; try lia.
  - by eapply same_carried.
  - rewrite (bytes_cons _ _ _ y Hy), Esy, (bytes_other (e_bios e) _ l2) by done. symmetry.
    rewrite <- Ek. by apply (drop_bytes _ l1 b l2 x dn).
  - rewrite Est, finish_stale. unfold touched. replace (truthy (tot dn + k)) with (left_in (e_bios e) l1 <? n).
    + destruct (truthy err); [|done]. cbn. destruct (left_in (e_bios e) l1 <? n); set_solver.
    + unfold truthy. destruct (Z.ltb_spec (left_in (e_bios e) l1) n), (Z.eqb_spec (tot dn + k) 0);
        cbn; done || lia.
  - intros i z [= <-] Hz. simplify_eq. lia.
  - intros i Hi. rewrite <- (Hsame i Hi). eapply same_size, list_elem_of_further, Hi. exact Hsb.
Qed.

(** ** A whole sequence of reports *)

(** The reports of a driver on one request, each a number of bytes and an
    error, until no bytes are left. *)
Fixpoint reports (L : limits) (cs : list (Z * Z)) (r : erq) (d : rq_data) (e : ending)
    : option (bool * erq * rq_data * ending) :=
  match cs with
  | [] => Some (true, r, d, e)
  | (n, err) :: cs =>
      '(pending, r, d, e) ← blk_update_request L false err n r d e;
      if (pending : bool) then reports L cs r d e else Some (false, r, d, e)
  end.

Definition reported (cs : list (Z * Z)) : Z := foldr (λ c n, c.1 + n) 0 cs.

(** The bytes of the bio [b] are those from [lo] up to [hi] of the bios [l]. *)
Definition span (bs : bio_store) (l : list nat) (b : nat) (lo hi : Z) : Prop :=
  ∃ l1 l2 x, l = l1 ++ b :: l2 ∧ bs !! b = Some x ∧ lo = left_in bs l1 ∧ hi = lo + bi_size x.

(** One of the reports [cs] is an error and has one of these bytes. *)
Definition blamed (cs : list (Z * Z)) (lo hi : Z) : Prop :=
  ∃ c1 n err c2, cs = c1 ++ (n, err) :: c2 ∧ err ≠ 0 ∧
    Z.max lo (reported c1) < Z.min hi (reported c1 + n).

Definition failed (bs : bio_store) (l : list nat) (cs : list (Z * Z)) (b : nat) : Prop :=
  ∃ lo hi, span bs l b lo hi ∧ blamed cs lo hi.

Lemma blamed_cons n err cs lo hi :
  blamed ((n, err) :: cs) lo hi ↔
    (err ≠ 0 ∧ Z.max lo 0 < Z.min hi n) ∨ blamed cs (lo - n) (hi - n).
Proof.
  split.
  - intros ([|[m er] c1] & n' & err' & c2 & E & He & Hm); simplify_eq/=; [by left|right].
    fold (reported c1) in Hm. exists c1, n', err', c2. split_and!; [done..|lia].
  - intros [[He Hm]|(c1 & n' & err' & c2 & -> & He & Hm)].
    + exists [], n, err, cs. cbn. split_and!; done || lia.
    + exists ((n, err) :: c1), n', err', c2. cbn. fold (reported c1). split_and!; done || lia.
Qed.

Lemma reported_nonneg cs : Forall (λ c, 0 ≤ c.1 < 2 ^ 32) cs → 0 ≤ reported cs.
Proof. induction 1 as [|c cs Hc _ IH]; [done|]. cbn. fold (reported cs). lia. Qed.

(** Only the part behind the start of the reports matters. *)
Lemma blamed_clip cs lo hi :
  Forall (λ c, 0 ≤ c.1 < 2 ^ 32) cs → blamed cs lo hi ↔ blamed cs (Z.max lo 0) hi.
Proof.
  intros Hcs. split; intros (c1 & n & err & c2 & -> & He & Hm); exists c1, n, err, c2;
    apply Forall_app in Hcs as [Hc%reported_nonneg _]; split_and!; done || lia.
Qed.

Lemma blamed_empty cs lo hi : Forall (λ c, 0 ≤ c.1 < 2 ^ 32) cs → hi ≤ 0 → ¬ blamed cs lo hi.
Proof.
  intros Hcs Hh (c1 & n & err & c2 & -> & _ & Hm).
  apply Forall_app in Hcs as [Hc%reported_nonneg _]. lia.
Qed.

Lemma span_app bs l1 l2 b lo hi :
  span bs (l1 ++ l2) b lo hi ↔
    span bs l1 b lo hi ∨ span bs l2 b (lo - left_in bs l1) (hi - left_in bs l1).
Proof.
  split.
  - intros (k1 & k2 & x & E & Hx & Hlo & Hhi). apply app_eq_app in E as (k & [[-> Ek]|[-> Ek]]).
    + destruct k as [|b' k]; simplify_eq/=.
      * right. exists [], k2, x. rewrite app_nil_r in *. cbn. split_and!; done || lia.
      * left. by exists k1, k, x.
    + right. exists k, k2, x. rewrite left_app in Hlo. split_and!; done || lia.
  - intros [(k1 & k2 & x & -> & Hx & Hlo & Hhi)|(k1 & k2 & x & -> & Hx & Hlo & Hhi)].
    + exists k1, (k2 ++ l2), x. by rewrite <- (assoc_L (++)).
    + exists (l1 ++ k1), k2, x. rewrite <- (assoc_L (++)), left_app. split_and!; done || lia.
Qed.

Lemma span_cons bs h x t b lo hi :
  bs !! h = Some x →
  span bs (h :: t) b lo hi ↔
    (b = h ∧ lo = 0 ∧ hi = bi_size x) ∨ span bs t b (lo - bi_size x) (hi - bi_size x).
Proof.
  intros Hx. change (h :: t) with ([h] ++ t). rewrite span_app.
  assert (left_in bs [h] = bi_size x) as -> by (cbn; rewrite Hx; cbn; lia).
  split; (intros [Hs|Hs]; [left|by right]).
  - destruct Hs as ([|? k1] & k2 & y & E & Hy & -> & ->); simplify_eq/=; [done|].
    by destruct k1.
  - destruct Hs as (-> & -> & ->). by exists [], [], x.
Qed.

Lemma left_sizes bs bs' l :
  (∀ i, i ∈ l → bi_size <$> bs' !! i = bi_size <$> bs !! i) → left_in bs' l = left_in bs l.
Proof.
  intros Hs. induction l as [|i l IH]; [done|]. cbn. fold (left_in bs l) (left_in bs' l).
  rewrite IH by (intros j Hj; apply Hs; by right). f_equal.
  pose proof (Hs i ltac:(by left)) as E. destruct (bs !! i), (bs' !! i); by simplify_eq/=.
Qed.

Lemma span_sizes bs bs' l b lo hi :
  (∀ i, i ∈ l → bi_size <$> bs' !! i = bi_size <$> bs !! i) → span bs l b lo hi → span bs' l b lo hi.
Proof.
  intros Hs (l1 & l2 & x & -> & Hx & -> & ->).
  pose proof (Hs b ltac:(apply elem_of_app; right; by left)) as E. rewrite Hx in E. cbn in E.
  apply fmap_Some in E as (y & Hy & E). exists l1, l2, y. split_and!; try done; [|lia].
  symmetry. apply left_sizes. intros i Hi. apply Hs, elem_of_app. by left.
Qed.

Definition sized (bs : bio_store) (l : list nat) : Prop :=
  ∀ i, i ∈ l → ∃ x, bs !! i = Some x ∧ 0 < bi_size x.

Lemma carried_sized bs l : carried bs l → sized bs l.
Proof.
  intros Hc i Hi. destruct (carried_all _ _ i Hc Hi) as (x & Hx & Hf%full_size). eauto.
Qed.

Lemma sized_app bs l1 l2 : sized bs (l1 ++ l2) → sized bs l1 ∧ sized bs l2.
Proof. intros Hs. split; intros i Hi; apply Hs, elem_of_app; auto. Qed.

Lemma sized_left bs l : sized bs l → 0 ≤ left_in bs l.
Proof.
  intros Hs. apply left_nonneg. intros i x Hi Hx. destruct (Hs i Hi) as (y & Hy & ?).
  simplify_eq. lia.
Qed.

Lemma span_bounds bs l b lo hi :
  sized bs l → span bs l b lo hi → b ∈ l ∧ 0 ≤ lo < hi ∧ hi ≤ left_in bs l.
Proof.
  intros Hs (l1 & l2 & x & -> & Hx & -> & ->).
  pose proof Hs as [H1%sized_left H2]%sized_app. pose proof (sized_app _ [b] l2 H2) as [_ H3%sized_left].
  destruct (H2 b) as (y & Hy & ?); [by left|]. simplify_eq. rewrite left_app. cbn.
  fold (left_in bs l2). rewrite Hx. cbn. split_and!; try lia. apply elem_of_app. right. by left.
Qed.

Lemma span_exists bs l b : sized bs l → b ∈ l → ∃ lo hi, span bs l b lo hi.
Proof.
  intros Hs Hb. destruct (Hs b Hb) as (x & Hx & _).
  apply list_elem_of_split in Hb as (l1 & l2 & ->). do 2 eexists. by exists l1, l2, x.
Qed.

(** One report: the bios it is about, and those that later ones are about. *)
Lemma failed_all bs n err cs l b :
  sized bs l → Forall (λ c, 0 ≤ c.1 < 2 ^ 32) cs → left_in bs l ≤ n →
  failed bs l ((n, err) :: cs) b ↔ err ≠ 0 ∧ b ∈ l.
Proof.
  intros Hs Hcs Hn. split.
  - intros (lo & hi & Hsp & Hbl). destruct (span_bounds _ _ _ _ _ Hs Hsp) as (Hb & Hlo & Hhi).
    apply blamed_cons in Hbl as [[He _]|Hbl]; [done|]. by apply blamed_empty in Hbl; [|done|lia].
  - intros [He Hb]. destruct (span_exists _ _ _ Hs Hb) as (lo & hi & Hsp).
    destruct (span_bounds _ _ _ _ _ Hs Hsp) as (_ & Hlo & Hhi).
    exists lo, hi. split; [done|]. apply blamed_cons. left. split; [done|lia].
Qed.

Lemma blamed_shift k n err cs lo hi :
  0 ≤ k ≤ lo → blamed ((n, err) :: cs) lo hi ↔ blamed ((n - k, err) :: cs) (lo - k) (hi - k).
Proof.
  intros Hk. rewrite !blamed_cons.
  replace (lo - k - (n - k)) with (lo - n) by lia. replace (hi - k - (n - k)) with (hi - n) by lia.
  assert (Z.max lo 0 < Z.min hi n ↔ Z.max (lo - k) 0 < Z.min (hi - k) (n - k)) as -> by lia. done.
Qed.

Lemma failed_app bs l1 l2 n err cs b :
  sized bs (l1 ++ l2) → Forall (λ c, 0 ≤ c.1 < 2 ^ 32) cs → left_in bs l1 ≤ n →
  failed bs (l1 ++ l2) ((n, err) :: cs) b ↔
    (err ≠ 0 ∧ b ∈ l1) ∨ failed bs l2 ((n - left_in bs l1, err) :: cs) b.
Proof.
  intros [H1 H2]%sized_app Hcs Hn. pose proof (sized_left _ _ H1) as Hnn.
  rewrite <- (failed_all bs n err cs l1 b) by done. split.
  - intros (lo & hi & [Hsp|Hsp]%span_app & Hbl); [left; by exists lo, hi|right].
    destruct (span_bounds _ _ _ _ _ H2 Hsp) as (_ & ? & _).
    do 2 eexists. split; [exact Hsp|]. apply blamed_shift; [lia|done].
  - intros [(lo & hi & Hsp & Hbl)|(lo & hi & Hsp & Hbl)].
    + exists lo, hi. split; [apply span_app; by left|done].
    + destruct (span_bounds _ _ _ _ _ H2 Hsp) as (_ & ? & _).
      exists (lo + left_in bs l1), (hi + left_in bs l1). split.
      * apply span_app. right. by rewrite !Z.add_simpl_r.
      * apply (blamed_shift (left_in bs l1)); [lia|]. by rewrite !Z.add_simpl_r.
Qed.

(** A report that ends within the first bio, of which [y] is left. *)
Lemma failed_part bs bs' h t x y n err cs b :
  bs !! h = Some x → bs' !! h = Some y → bi_size y = bi_size x - n → 0 ≤ n < bi_size x →
  (∀ i, i ∈ t → bi_size <$> bs' !! i = bi_size <$> bs !! i) →
  Forall (λ c, 0 ≤ c.1 < 2 ^ 32) cs → sized bs t →
  failed bs (h :: t) ((n, err) :: cs) b ↔ (err ≠ 0 ∧ b ∈ (if 0 <? n then [h] else [])) ∨ failed bs' (h :: t) cs b.
Proof.
  intros Hx Hy Hsz Hn Ht Hcs Hst. unfold failed.
  assert (∀ lo hi, span bs' t b lo hi ↔ span bs t b lo hi) as Hsp.
  { intros lo hi. split; apply span_sizes; [|done]. intros i Hi. symmetry. by apply Ht. }
  setoid_rewrite (span_cons bs h x t b); [|done]. setoid_rewrite (span_cons bs' h y t b); [|done].
  setoid_rewrite Hsp. setoid_rewrite blamed_cons. split.
  - intros (lo & hi & [(-> & -> & ->)|Hs] & Hbl).
    + destruct Hbl as [[He Hm]|Hbl].
      * left. split; [done|]. destruct (Z.ltb_spec 0 n); [by left|lia].
      * right. exists 0, (bi_size y). split; [by left|]. apply blamed_clip in Hbl; [|done].
        rewrite Hsz. by replace (Z.max (0 - n) 0) with 0 in Hbl by lia.
    + destruct (span_bounds _ _ _ _ _ Hst Hs) as (_ & ? & _).
      destruct Hbl as [[_ Hm]|Hbl]; [lia|]. right. exists (lo - n), (hi - n). split; [|done]. right.
      by replace (lo - n - bi_size y) with (lo - bi_size x) by lia;
        replace (hi - n - bi_size y) with (hi - bi_size x) by lia.
  - intros [[He Hb]|(lo & hi & [(-> & -> & ->)|Hs] & Hbl)].
    + destruct (Z.ltb_spec 0 n); [|by apply elem_of_nil in Hb]. apply list_elem_of_singleton in Hb as ->.
      exists 0, (bi_size x). split; [by left|]. left. split; [done|lia].
    + exists 0, (bi_size x). split; [by left|]. right. rewrite <- Hsz. apply blamed_clip; [done|].
      by replace (Z.max (0 - n) 0) with 0 by lia.
    + exists (lo + n), (hi + n). split; [right|right; by rewrite !Z.add_simpl_r].
      by replace (lo + n - bi_size x) with (lo - bi_size y) by lia;
        replace (hi + n - bi_size x) with (hi - bi_size y) by lia.
Qed.

Lemma failed_step bs bs' l1 l2 n err cs b :
  carried bs (l1 ++ l2) → carried bs' l2 → Forall (λ c, 0 ≤ c.1 < 2 ^ 32) cs →
  left_in bs l1 ≤ n → left_in bs' l2 = left_in bs (l1 ++ l2) - n →
  (∀ i x, head l2 = Some i → bs !! i = Some x → n < left_in bs l1 + bi_size x) →
  (∀ i, i ∈ tail l2 → bi_size <$> bs' !! i = bi_size <$> bs !! i) →
  failed bs (l1 ++ l2) ((n, err) :: cs) b ↔
    (err ≠ 0 ∧ b ∈ touched bs n l1 l2) ∨ failed bs' l2 cs b.
Proof.
  intros Hc Hc' Hcs Hn El Hh Ht. pose proof (carried_sized _ _ Hc) as Hs.
  rewrite failed_app by done. apply sized_app in Hs as [H1 H2].
  destruct l2 as [|h t].
  { rewrite failed_all by (done || cbn; lia). unfold touched. rewrite app_nil_r.
    assert (¬ failed bs' [] cs b) by (intros (? & ? & ([] & ? & ? & ? & _) & _); done).
    destruct (_ <? _); rewrite elem_of_nil; tauto. }
  destruct (H2 h) as (x & Hx & Hpx); [by left|].
  destruct (carried_all _ _ h Hc') as (y & Hy & _); [by left|].
  pose proof (left_sizes bs bs' t Ht) as Et. specialize (Hh h x eq_refl Hx).
  rewrite left_app in El. cbn in El. fold (left_in bs t) (left_in bs' t) in El.
  rewrite Hx, Hy in El. cbn in El.
  rewrite (failed_part bs bs' h t x y) by (done || lia || by apply (sized_app bs [h] t)).
  unfold touched. cbn [take]. rewrite (take_0 t).
  destruct (Z.ltb_spec 0 (n - left_in bs l1)), (Z.ltb_spec (left_in bs l1) n); try lia;
    rewrite ?elem_of_app, ?elem_of_nil; tauto.
Qed.

Lemma stale_step err (ts : list nat) (stale : gset nat) b :
  b ∈ (if truthy err then list_to_set ts ∪ stale else stale) ↔ (err ≠ 0 ∧ b ∈ ts) ∨ b ∈ stale.
Proof.
  unfold truthy. destruct (Z.eqb_spec err 0) as [->|He]; cbn; [tauto|].
  rewrite elem_of_union, elem_of_list_to_set. tauto.
Qed.

(** A bio has ended with an error just when it has lost [BIO_UPTODATE]. *)
Definition errors_kept (e : ending) : Prop :=
  ∀ b c, (b, c) ∈ e_ended e → (c ≠ 0 ↔ b ∈ e_stale e).

Lemma end_code_kept err stale b (s : gset nat) :
  b ∈ s ∨ truthy err = false → (b ∈ stale → b ∈ s) → (truthy err = false → s = stale) →
  end_code err stale b ≠ 0 ↔ b ∈ s.
Proof.
  unfold end_code, truthy, EIO. intros Hb Hs He. destruct (Z.eqb_spec err 0) as [->|Hne]; cbn in *.
  - rewrite He by done. case_bool_decide; [split; done || lia|]. by split.
  - destruct Hb as [?|?]; [|done]. by split.
Qed.

Lemma kept_step err e e' ls ts :
  errors_kept e → (∀ b c, (b, c) ∈ e_ended e → b ∉ ts) → ls ⊆ ts →
  e_ended e' = e_ended e ++ ((λ b, (b, end_code err (e_stale e) b)) <$> ls) →
  e_stale e' = (if truthy err then list_to_set ts ∪ e_stale e else e_stale e) → errors_kept e'.
Proof.
  intros Hk Hd Hsub Ee Es b c. rewrite Ee, elem_of_app, list_elem_of_fmap, Es.
  intros [Hin|(b' & [= -> ->] & Hb)].
  - rewrite (Hk b c Hin). specialize (Hd b c Hin). destruct (truthy err); [|done].
    rewrite elem_of_union, elem_of_list_to_set. naive_solver.
  - apply end_code_kept; destruct (truthy err); try done; rewrite ?elem_of_union, ?elem_of_list_to_set;
      auto. 
Qed.

Lemma ended_ids (f : nat → Z) l : ((λ b, (b, f b)) <$> l).*1 = l.
Proof. induction l as [|b l IH]; [done|]. cbn. by f_equal. Qed.

Definition unended (e : ending) (l : list nat) : Prop := ∀ b c, (b, c) ∈ e_ended e → b ∉ l.

Lemma touched_in bs n l1 l2 b : b ∈ touched bs n l1 l2 → b ∈ l1 ++ l2.
Proof.
  unfold touched. rewrite elem_of_app. destruct (left_in bs l1 <? n); [|by left].
  rewrite elem_of_app. intros [?|Hb]; [by left|right]. apply elem_of_take in Hb as (j & Hj & _).
  by eapply list_elem_of_lookup_2.
Qed.

Lemma unended_rest e e' f l1 l2 :
  NoDup (l1 ++ l2) → unended e (l1 ++ l2) → e_ended e' = e_ended e ++ ((λ b, (b, f b)) <$> l1) →
  unended e' l2.
Proof.
  intros Hn Hu Ee b c. rewrite Ee, elem_of_app, list_elem_of_fmap.
  intros [Hin|(b' & [= -> ->] & Hb)] Hb2.
  - apply (Hu b c Hin), elem_of_app. by right.
  - apply NoDup_app in Hn as (_ & Hx & _). by apply (Hx b').
Qed.

Lemma carried_sizes bs l i x :
  carried bs l → left_in bs l < 2 ^ 31 → i ∈ l → bs !! i = Some x → 0 < bi_size x < 2 ^ 31.
Proof.
  intros Hc Hlt Hi Hx. split; [by eapply full_size, Hc|].
  apply list_elem_of_split in Hi as (l1 & l2 & ->). rewrite left_app in Hlt. cbn in Hlt.
  fold (left_in bs l2) in Hlt. rewrite Hx in Hlt. cbn in Hlt.
  assert (∀ l', (∀ j, j ∈ l' → j ∈ l1 ++ i :: l2) → 0 ≤ left_in bs l') as Hnn.
  { intros l' Hl'. apply left_nonneg. intros j y Hj Hy. by eapply Z.lt_le_incl, full_size, Hc; [apply Hl'|]. }
  assert (0 ≤ left_in bs l1) by (apply Hnn; intros j Hj; apply elem_of_app; by left).
  assert (0 ≤ left_in bs l2) by (apply Hnn; intros j Hj; apply elem_of_app; right; by right).
  lia.
Qed.

Lemma pos_step pos a b : u64 (u64 (pos + a) + b) = u64 (pos + (a + b)).
Proof. unfold u64. rewrite Zplus_mod_idemp_l. f_equal. lia. Qed.

Lemma carried_pos bs l : carried bs l → l ≠ [] → 0 < left_in bs l.
Proof.
  intros Hc Hne. destruct l as [|b l]; [done|].
  pose proof (carried_left _ _ (carried_cons _ _ _ Hc)).
  destruct (carried_all _ _ b Hc) as (x & Hx & Hf); [by left|]. cbn. rewrite Hx. cbn.
  fold (left_in bs l). apply full_size in Hf. lia.
Qed.

Lemma div_step m n : m `mod` 512 = 0 → Z.shiftr m 9 + n / 512 = (m + n) / 512.
Proof.
  intros Hm. rewrite Z.shiftr_div_pow2 by lia. change (2 ^ 9) with 512.
  rewrite (Z.div_mod m 512) at 2 by lia. rewrite Hm, Z.add_0_r, Z.mul_comm, Z.div_add_l by lia. done.
Qed.

(** C15: whatever numbers of bytes a driver reports on a request, and with
    whatever errors, the reports never hit a BUG, the request is pending just
    as long as fewer bytes are reported than it has, and what is left of it
    are its bytes without those reported: its length and, for whole sectors,
    its position fit. The bios are ended once each, in order, and a bio ends
    with an error just when a report that has some of its bytes was an error
    (or it had failed before). *)
Theorem reports_exact L cs : ∀ r d e l,
  carried (e_bios e) l → l ≠ [] → r_bio d = head l → r_data_len d = left_in (e_bios e) l →
  left_in (e_bios e) l < 2 ^ 31 → Forall (λ c, 0 ≤ c.1 < 2 ^ 32) cs →
  er_fs r = true → in_u64 (er_pos r) → errors_kept e → unended e l →
  ∃ pending r' d' e' l1 l2, reports L cs r d e = Some (pending, r', d', e') ∧
    pending = bool_decide (reported cs < left_in (e_bios e) l) ∧
    l = l1 ++ l2 ∧ (e_ended e').*1 = (e_ended e).*1 ++ l1 ∧ errors_kept e' ∧
    (∀ b, b ∈ e_stale e' ↔ b ∈ e_stale e ∨ failed (e_bios e) l cs b) ∧
    bytes (e_bios e') l2 = drop (Z.to_nat (reported cs)) (bytes (e_bios e) l) ∧
    if pending then
      l2 ≠ [] ∧ r_bio d' = head l2 ∧ r_data_len d' = left_in (e_bios e) l - reported cs ∧
      (Forall (λ c, c.1 `mod` 512 = 0) cs → er_pos r' = u64 (er_pos r + reported cs / 512))
    else l2 = [].
Proof.
  induction cs as [|[n err] cs IH]; intros r d e l Hc Hne Hb Hd Hlt Hcs Hfs Hpos Hk Hu.
  { exists true, r, d, e, [], l. pose proof (carried_pos _ _ Hc Hne). cbn.
    rewrite app_nil_r, bool_decide_true by done. split_and!; try done; [|lia|].
    - intros b. split; [by left|]. intros [?|(? & ? & _ & [] & ? & ? & ? & ? & _)]; done.
    - by rewrite Z.add_0_r, u64_small. }
  apply Forall_cons in Hcs as [Hn Hcs]. cbn in Hn.
  pose proof (reported_nonneg _ Hcs) as Hrep.
  cbn [reports]. change (reported ((n, err) :: cs)) with (n + reported cs).
  destruct (decide (n < left_in (e_bios e) l)) as [Hlt'|Hge].
  - destruct (update_some L err n r d e l) as (l1 & l2 & r1 & d1 & e1 & -> & Hne2 & -> & Hc1 & Hb1 & Hd1
      & El & Eb & (Ep & Ef & _) & Ee & Es & Hl1 & Hh2 & Hs2); try done; try lia. cbn [mbind option_bind].
    pose proof (ca_nodup _ _ Hc) as Hnd.
    destruct (IH r1 d1 e1 l2) as (pending & r' & d' & e' & l3 & l4 & -> & Epd & -> & Een & Hk' & Hst & Eby & Hp);
      try done; try lia.
    { congruence. }
    { rewrite Ep, Hfs. apply u64_range. }
    { eapply (kept_step err e e1 l1); [done| | |exact Ee|exact Es].
      - intros b c Hin Ht. apply (Hu b c Hin). by apply touched_in in Ht.
      - unfold touched. intros b Hb'. destruct (_ <? _); [apply elem_of_app; by left|done]. }
    { by eapply unended_rest. }
    exists pending, r', d', e', (l1 ++ l3), l4. split_and!; try done.
    + rewrite Epd, El. apply bool_decide_ext. lia.
    + by rewrite (assoc_L (++)).
    + rewrite Een, Ee, fmap_app, ended_ids. by rewrite (assoc_L (++)).
    + intros b. rewrite (failed_step _ (e_bios e1)) by done.
      rewrite Hst, Es, (stale_step err). tauto.
    + rewrite Eby, Eb, drop_drop. f_equal. lia.
    + destruct pending; [|done]. destruct Hp as (? & ? & Hd' & Hp). split_and!; try done; [lia|].
      intros [Hm Ha]%Forall_cons. cbn in Hm. rewrite Hp, Ep, Hfs by done. cbn [orb].
      rewrite pos_step, div_step by done. done.
  - destruct (update_all L err n r d e l) as (r' & d' & -> & _); try done; try lia; [apply Hc..| | |].
    { intros i x Hi Hx. pose proof (carried_sizes _ _ i x Hc Hlt Hi Hx). lia. }
    { intros i x Hi Hx. assert (i ∈ l) as Hi' by (by destruct l; [|right]).
      pose proof (carried_sizes _ _ i x Hc Hlt Hi' Hx). lia. }
    cbn [mbind option_bind]. exists false, r', d', (finish err l e), l, [].
    rewrite bool_decide_false by lia. split_and!; try done.
    + by rewrite app_nil_r.
    + rewrite finish_ended by apply Hc. by rewrite fmap_app, ended_ids.
    + eapply (kept_step err e _ l l); [done|exact Hu|done|by apply finish_ended, Hc|apply finish_stale].
    + intros b. rewrite finish_stale, (stale_step err), failed_all; [tauto|by apply carried_sized|done|lia].
    + symmetry. apply drop_ge. assert (Z.of_nat (length (bytes (e_bios e) l)) = left_in (e_bios e) l); [|lia].
      apply bytes_length. intros i. by apply carried_all.
Qed.

(** *** The boundary of failures *)

Lemma mapM_linked bs l :
  linked bs l → ∃ xs, mapM (bs !!.) l = Some xs ∧ Forall2 (λ i x, bs !! i = Some x) l xs.
Proof.
  intros Hl. destruct (mapM (bs !!.) l) as [xs|] eqn:Em.
  - exists xs. split; [done|]. by apply mapM_Some.
  - apply mapM_None in Em. apply Exists_exists in Em as (i & Hi & Hn).
    destruct (linked_elem _ _ _ Hl Hi) as [x Hx]. congruence.
Qed.

(** The bios at the front that are as eager to fail as [ff]. *)
Definition eager (bs : bio_store) (ff : Z) (i : nat) : Prop :=
  ∃ x, bs !! i = Some x ∧ Z.land (bi_rw x) ff = ff.

Lemma err_bytes_spec bs ff l xs acc :
  Forall2 (λ i x, bs !! i = Some x) l xs → (∀ i x, i ∈ l → bs !! i = Some x → 0 < bi_size x) →
  0 ≤ acc → acc + left_in bs l < 2 ^ 32 →
  ∃ l1 l2, l = l1 ++ l2 ∧ err_bytes ff acc xs = acc + left_in bs l1 ∧ Forall (eager bs ff) l1 ∧
    (∀ i, head l2 = Some i → ¬ eager bs ff i).
Proof.
  intros Hf. revert acc. induction Hf as [|i x l xs Hx Hf IH]; intros acc Hs Ha Hlt.
  { exists [], []. cbn. split_and!; try done. lia. }
  assert (0 < bi_size x) as Hsx by (eapply Hs; [by left|done]).
  assert (∀ j y, j ∈ l → bs !! j = Some y → 0 < bi_size y) as Hs' by (intros j y Hj; apply Hs; by right).
  assert (0 ≤ left_in bs l) by (apply left_nonneg; intros j y Hj Hy; apply Z.lt_le_incl; eauto).
  cbn in Hlt. rewrite Hx in Hlt. cbn in Hlt. fold (left_in bs l) in Hlt. cbn [err_bytes].
  destruct (Z.eqb_spec (Z.land (bi_rw x) ff) ff) as [He|He].
  - rewrite u32_small by (unfold in_u32; lia).
    destruct (IH (acc + bi_size x)) as (l1 & l2 & -> & -> & Hl1 & Hl2); try done; try lia.
    exists (i :: l1), l2. cbn. rewrite Hx. cbn. split_and!; try done.
    + fold (left_in bs l1). lia.
    + apply Forall_cons. split; [by exists x|done].
  - exists [], (i :: l). cbn. split_and!; try done; [lia|].
    intros j [= <-] (y & Hy & Hey). by simplify_eq.
Qed.

Lemma prefix_unique bs l1 l2 m1 m2 :
  l1 ++ l2 = m1 ++ m2 → (∀ i, i ∈ l1 ++ l2 → ∃ x, bs !! i = Some x ∧ 0 < bi_size x) →
  left_in bs m1 ≤ left_in bs l1 →
  (∀ i x, head m2 = Some i → bs !! i = Some x → left_in bs l1 < left_in bs m1 + bi_size x) →
  l1 = m1 ∧ l2 = m2.
Proof.
  revert m1. induction l1 as [|i l1 IH]; intros [|j m1] E Hs Hle Hlt; cbn in E.
  - done.
  - subst l2. destruct (Hs j) as (x & Hx & Hpos); [by left|]. cbn in Hle. rewrite Hx in Hle. cbn in Hle.
    assert (0 ≤ left_in bs m1); [|unfold left_in in *; lia]. apply left_nonneg. intros k y Hk Hy.
    destruct (Hs k) as (y' & Hy' & ?); [right; apply elem_of_app; by left|]. simplify_eq. lia.
  - subst m2. destruct (Hs i) as (x & Hx & Hpos); [by left|]. specialize (Hlt i x eq_refl Hx).
    cbn in Hlt. rewrite Hx in Hlt. cbn in Hlt. fold (left_in bs l1) in Hlt.
    assert (0 ≤ left_in bs l1); [|lia]. apply left_nonneg. intros k y Hk Hy.
    destruct (Hs k) as (y' & Hy' & ?); [right; apply elem_of_app; by left|]. simplify_eq. lia.
  - injection E as <- E. cbn in Hle, Hlt. fold (left_in bs l1) in Hle, Hlt. fold (left_in bs m1) in Hle, Hlt.
    destruct (IH m1 E) as [-> ->]; [intros k Hk; apply Hs; by right|lia| |done].
    intros k x Hk Hx. specialize (Hlt k x Hk Hx). lia.
Qed.

Lemma carried_prefix bs l1 l2 :
  carried bs (l1 ++ l2) → 0 ≤ left_in bs l1 ∧ (l1 ≠ [] → 0 < left_in bs l1) ∧
  Z.of_nat (length (bytes bs l1)) = left_in bs l1.
Proof.
  intros Hc.
  assert (∀ i, i ∈ l1 → ∃ x, bs !! i = Some x ∧ full x) as Hf.
  { intros i Hi. eapply carried_all; [exact Hc|]. apply elem_of_app. by left. }
  pose proof (bytes_length bs l1 Hf) as El. split_and!; [lia| |done]. intros Hne.
  destruct l1 as [|i l1]; [done|]. destruct (Hf i) as (x & Hx & Hpos%full_size); [by left|].
  cbn. rewrite Hx. cbn. fold (left_in bs l1). assert (0 ≤ left_in bs l1); [|lia].
  apply left_nonneg. intros j y Hj Hy. destruct (Hf j) as (y' & Hy' & ?%full_size); [by right|].
  simplify_eq. lia.
Qed.

(** A report that ends with a bio. *)
Lemma update_boundary L err r d e l1 l2 :
  carried (e_bios e) (l1 ++ l2) → l1 ≠ [] → r_bio d = head (l1 ++ l2) →
  r_data_len d = left_in (e_bios e) (l1 ++ l2) → left_in (e_bios e) (l1 ++ l2) < 2 ^ 31 →
  ∃ pending r' d' e',
    blk_update_request L false err (left_in (e_bios e) l1) r d e = Some (pending, r', d', e') ∧
    pending = bool_decide (l2 ≠ []) ∧
    e_ended e' = e_ended e ++ ((λ b, (b, end_code err (e_stale e) b)) <$> l1) ∧
    bytes (e_bios e') l2 = bytes (e_bios e) l2.
Proof.
  intros Hc Hne Hb Hd Hlt. destruct (carried_prefix _ _ _ Hc) as (Hnn & Hp & Hlen).
  specialize (Hp Hne). pose proof (carried_rest _ _ _ Hc) as Hc2. pose proof (left_app (e_bios e) l1 l2) as El.
  destruct (decide (l2 = [])) as [->|Hne2].
  - rewrite app_nil_r in *. destruct (update_all L err (left_in (e_bios e) l1) r d e l1)
      as (r' & d' & E & _); try done; try lia; [apply Hc..| | |].
    { intros i x Hi Hx. destruct (carried_sizes _ _ i x Hc Hlt Hi Hx). lia. }
    { intros i x Hi Hx. assert (i ∈ l1) as Hi' by (by destruct l1; [|right]).
      by destruct (carried_sizes _ _ i x Hc Hlt Hi' Hx). }
    exists false, r', d', (finish err l1 e). rewrite bool_decide_false by auto.
    split_and!; try done. apply finish_ended, Hc.
  - pose proof (carried_pos _ _ Hc2 Hne2).
    destruct (update_some L err (left_in (e_bios e) l1) r d e (l1 ++ l2))
      as (m1 & m2 & r' & d' & e' & Em & _ & E & _ & _ & _ & _ & Eby & _ & Ee & _ & Hm1 & Hm2 & _); try done; try lia.
    destruct (prefix_unique (e_bios e) l1 l2 m1 m2) as [<- <-]; try done.
    { intros i Hi. destruct (carried_all _ _ i Hc Hi) as (x & Hx & ?%full_size). eauto. }
    exists true, r', d', e'. rewrite bool_decide_true by done. split_and!; try done.
    rewrite Eby, bytes_app, drop_app_ge by lia.
    replace (Z.to_nat _ - _)%nat with 0%nat by lia. done.
Qed.

Lemma left_pos bs l1 l2 :
  linked bs (l1 ++ l2) → (∀ i x, i ∈ l1 ++ l2 → bs !! i = Some x → 0 < bi_size x) → l1 ≠ [] →
  0 < left_in bs l1 ≤ left_in bs (l1 ++ l2).
Proof.
  intros Hl Hs Hne. rewrite left_app. destruct l1 as [|i l1]; [done|].
  destruct (linked_elem _ _ i Hl) as [x Hx]; [by left|].
  assert (0 < bi_size x) by (eapply Hs; [by left|done]).
  assert (∀ l, (∀ j, j ∈ l → j ∈ (i :: l1) ++ l2) → 0 ≤ left_in bs l) as Hnn.
  { intros l Hsub. apply left_nonneg. intros j y Hj Hy. by eapply Z.lt_le_incl, Hs; [apply Hsub|]. }
  assert (0 ≤ left_in bs l1) by (apply Hnn; intros j Hj; right; apply elem_of_app; by left).
  assert (0 ≤ left_in bs l2) by (apply Hnn; intros j Hj; apply elem_of_app; by right).
  cbn. rewrite Hx. cbn. fold (left_in bs l1). lia.
Qed.

Lemma err_boundary d bs l :
  linked bs l → NoDup l → (∀ i x, i ∈ l → bs !! i = Some x → 0 < bi_size x) →
  r_bio d = head l → left_in bs l < 2 ^ 32 → r_mixed d = true →
  (∀ i, head l = Some i → eager bs (r_failfast d) i) → l ≠ [] →
  ∃ l1 l2, l = l1 ++ l2 ∧ l1 ≠ [] ∧ blk_rq_err_bytes d bs = Some (left_in bs l1) ∧
    Forall (eager bs (r_failfast d)) l1 ∧
    (∀ i, head l2 = Some i → ¬ eager bs (r_failfast d) i).
Proof.
  intros Hl Hnd Hs Hb Hlt Hm Hhead Hne.
  destruct (mapM_linked bs l Hl) as (xs & Exs & Hf2).
  destruct (err_bytes_spec bs (r_failfast d) l xs 0)
    as (l1 & l2 & El & Eb & He1 & He2); try done; try lia.
  assert (l1 ≠ []) as Hne1.
  { intros ->. cbn in El. subst l2. destruct l as [|i l]; [done|]. by apply (He2 i eq_refl), Hhead. }
  exists l1, l2. split_and!; try done. subst l. destruct (left_pos _ _ _ Hl Hs Hne1) as [Hp _].
  unfold blk_rq_err_bytes. rewrite Hm, Hb, (for_each_linked bs (l1 ++ l2)) by done.
  cbn [negb mbind option_bind]. rewrite Exs. cbn [mbind option_bind]. rewrite Eb, Z.add_0_l.
  destruct (Z.eqb_spec (left_in bs l1) 0); [lia|]. by rewrite andb_false_r.
Qed.

(** a failed command of a request whose bios want different handling of
    failures never hits the BUG on a report of no bytes, as long as the first
    bio is as eager to fail as the request; it ends just the bios at the front
    that are at least as eager, each with the error, and leaves the others. *)
Theorem failure_boundary L err r d e l :
  carried (e_bios e) l → r_bio d = head l → r_data_len d = left_in (e_bios e) l →
  left_in (e_bios e) l < 2 ^ 31 → r_mixed d = true → err ≠ 0 →
  (∀ i, head l = Some i → eager (e_bios e) (r_failfast d) i) → l ≠ [] →
  ∃ n l1 l2 pending r' d' e', blk_rq_err_bytes d (e_bios e) = Some n ∧ l = l1 ++ l2 ∧ l1 ≠ [] ∧
    Forall (eager (e_bios e) (r_failfast d)) l1 ∧
    (∀ i, head l2 = Some i → ¬ eager (e_bios e) (r_failfast d) i) ∧
    blk_update_request L false err n r d e = Some (pending, r', d', e') ∧
    pending = bool_decide (l2 ≠ []) ∧ e_ended e' = e_ended e ++ ((λ b, (b, err)) <$> l1) ∧
    bytes (e_bios e') l2 = bytes (e_bios e) l2.
Proof.
  intros Hc Hb Hd Hlt Hm Herr Hhead Hne.
  destruct (err_boundary d (e_bios e) l) as (l1 & l2 & -> & Hne1 & En & He1 & He2);
    try done; try lia; [apply Hc..| |].
  { intros i x Hi Hx. by destruct (carried_sizes _ _ i x Hc Hlt Hi Hx). }
  destruct (update_boundary L err r d e l1 l2) as (pending & r' & d' & e' & E & Ep & Ee & Eby); try done.
  exists (left_in (e_bios e) l1), l1, l2, pending, r', d', e'. split_and!; try done.
  rewrite Ee. f_equal. apply list_fmap_ext. intros _ b _. unfold end_code, truthy.
  by destruct (Z.eqb_spec err 0).
Qed.

(** ** A concrete request

    Two bios of two fragments each; the first is read-ahead. *)
Definition end_limits : limits := mk_limits true (2 ^ 40) (2 ^ 32 - 1) 65536 128 1024 1024 0 0 0.

Definition two_pages (sector page rw : Z) (next : option nat) : bio :=
  mk_bio sector next 0 false false rw 0 0 8192 0 0 (2 ^ 32 - 1)
    (Some [mk_bv page 4096 0; mk_bv (page + 5) 4096 0]) false.

Definition end_bios : ending :=
  mk_ending {[ 0%nat := two_pages 0 10 14 (Some 1%nat); 1%nat := two_pages 16 30 0 None ]} ∅ [] 0.

Definition end_rq : erq :=
  mk_erq 0 32 false false true false false false false false true false true false 0 false false 0.
Definition end_data : rq_data := mk_rd (Some 0%nat) (Some 1%nat) 16384 4 14 true false 0 0 (-1) 0.

Lemma two_pages_full sector page rw next : full (two_pages sector page rw next).
Proof. split_and!; [done| |done]. repeat apply Forall_cons_2; done. Qed.

Lemma end_lookup i x :
  i ∈ [0; 1]%nat → e_bios end_bios !! i = Some x → ∃ sector page rw next, x = two_pages sector page rw next.
Proof.
  intros [->|[->|[]%elem_of_nil]%elem_of_cons]%elem_of_cons E; vm_compute in E; injection E as <-;
    [by exists 0, 10, 14, (Some 1%nat)|by exists 16, 30, 0, None].
Qed.

Lemma end_carried : carried (e_bios end_bios) [0; 1]%nat.
Proof.
  split.
  - split; [|split; [|done]]; eexists; split; [by vm_compute| |by vm_compute|]; done.
  - apply (bool_decide_unpack _). by vm_compute.
  - intros i x Hi Hx. destruct (end_lookup i x Hi Hx) as (? & ? & ? & ? & ->). apply two_pages_full.
Qed.

Lemma end_left : left_in (e_bios end_bios) [0; 1]%nat = 16384.
Proof. by vm_compute. Qed.

(** One sector, then a failure of sixteen that ends in the third fragment,
    then the rest. *)
Lemma reports_exact_witness :
  ∃ r' d' e', reports end_limits [(512, 0); (8192, -5); (7680, 0)] end_rq end_data end_bios =
      Some (false, r', d', e') ∧ (e_ended e').*1 = [0; 1]%nat ∧ errors_kept e' ∧
    ∀ b, b ∈ e_stale e' ↔ b ∈ e_stale end_bios ∨
           failed (e_bios end_bios) [0; 1]%nat [(512, 0); (8192, -5); (7680, 0)] b.
Proof.
  destruct (reports_exact end_limits [(512, 0); (8192, -5); (7680, 0)] end_rq end_data end_bios [0; 1]%nat)
    as (pending & r' & d' & e' & l1 & l2 & E & Ep & El & Ee & Hk & Hf & _ & Hp); rewrite ?end_left in *.
  - exact end_carried.
  - discriminate.
  - reflexivity.
  - reflexivity.
  - lia.
  - repeat apply Forall_cons_2; cbn; lia || apply Forall_nil_2.
  - reflexivity.
  - unfold in_u64. cbn. lia.
  - by intros b c ?%elem_of_nil.
  - by intros b c ?%elem_of_nil.
  - assert (pending = false) as -> by (rewrite Ep; reflexivity). subst l2.
    rewrite app_nil_r in El. subst l1. exists r', d', e'. split_and!; assumption.
Defined.

Lemma failure_boundary_witness :
  ∃ n l1 l2, blk_rq_err_bytes end_data (e_bios end_bios) = Some n ∧ [0; 1]%nat = l1 ++ l2 ∧ l1 ≠ [] ∧
    Forall (eager (e_bios end_bios) 14) l1.
Proof.
  destruct (failure_boundary end_limits (-5) end_rq end_data end_bios [0; 1]%nat)
    as (n & l1 & l2 & pending & r' & d' & e' & En & El & Hne & He & _); rewrite ?end_left in *.
  - exact end_carried.
  - reflexivity.
  - reflexivity.
  - lia.
  - reflexivity.
  - discriminate.
  - intros i [= <-]. eexists. split; vm_compute; reflexivity.
  - discriminate.
  - exists n, l1, l2. split_and!; assumption.
Defined.
