(* ===== verification/SubmitWorld.v ===== *)
(** * Bios from submission to completion

    The queue as submitters, the scheduler and the driver use it together:
    bios are submitted, wait for a free request, are merged, dispatched,
    started and ended, in any order and any number at a time.  The state adds
    to [subq] the bios whose submitters sleep in [get_request_wait], the
    requests the driver has, and the history of submissions and of the calls of
    [bi_end_io].  A bio that has ended belongs to its owner again, so it leaves
    the store, and any later use of it would be a fault. *)
From stdpp Require Import gmap list.
From S2P Require Import Prelude Elevator Noop Deadline BlkQueue Segments Submit RequestData.
From S2P Require Import MergeData MergeSched MergeQueue SubmitInv EndIo.

Record world (D : Type) := mk_world {
  w_s : subq D;
  w_wait : list nat;
  w_drv : list nat;
  w_ended : list (nat * Z);
  w_submitted : list nat;
}.
Arguments mk_world {D} _ _ _ _ _.
Arguments w_s {D} _.
Arguments w_wait {D} _.
Arguments w_drv {D} _.
Arguments w_ended {D} _.
Arguments w_submitted {D} _.

Inductive action :=
| Submit (b : nat) (x : bio)
| Grant (b i : nat) (priv same_comp : bool) (now group : Z)
| Dispatch
| Start
| End_all (i : nat) (err : Z).

Section world.
Context {D : Type} `{Sched D, Neighbours D} (L : limits).

(** [__blk_end_request_all] and, as the requests here have no [end_io],
    [blk_finish_request] with [__blk_put_request]. *)
Definition __blk_end_request_all (i : nat) (err : Z) (log : list (nat * Z)) (s : subq D)
    : option (subq D * list (nat * Z)) :=
  d ← s_data s !! i;
  '(pending, r, d, e) ← blk_update_request L false err (r_data_len d) (rq_of (s_q s) i) d
                          (mk_ending (s_bios s) ∅ log 0);
  if (pending : bool) || bool_decide (i ∈ queued (s_q s)) then None
  else
    s ← __blk_put_request i
          (set_data i d (mk_subq (upd_rq i (λ _, r) (s_q s)) (e_bios e) (s_data s)));
    Some (s, e_ended e).

(** The bios go back to their owners. *)
Definition give_back (l : list nat) (s : subq D) : subq D :=
  set_s_bios (foldr delete (s_bios s) l) s.

Definition w_step (a : action) (w : world D) : option (world D) :=
  let s := w_s w in
  match a with
  | Submit b x =>
      '(k, s) ← make_request_merge L b (set_s_bios (<[b := x]> (s_bios s)) s);
      let subs := w_submitted w ++ [b] in
      Some match k with
           | Merged => mk_world s (w_wait w) (w_drv w) (w_ended w) subs
           | Needs_request => mk_world s (w_wait w ++ [b]) (w_drv w) (w_ended w) subs
           | Refused => mk_world (give_back [b] s) (w_wait w) (w_drv w)
                          (w_ended w ++ [(b, - EOPNOTSUPP)]) subs
           end
  | Grant b i priv same_comp now group =>
      s ← make_request_new L b i priv same_comp now group s;
      Some (mk_world s (without b (w_wait w)) (w_drv w) (w_ended w) (w_submitted w))
  | Dispatch =>
      '(_, q) ← sched_dispatch (s_q s);
      Some (mk_world (set_s_q q s) (w_wait w) (w_drv w) (w_ended w) (w_submitted w))
  | Start =>
      match queue_head (s_q s) with
      | [] => Some w
      | i :: _ =>
          q ← blk_start_request i (see_request i (s_q s));
          Some (mk_world (set_s_q q s) (w_wait w) (i :: w_drv w) (w_ended w) (w_submitted w))
      end
  | End_all i err =>
      '(s, log) ← __blk_end_request_all i err (w_ended w) s;
      Some (mk_world (give_back (drop (length (w_ended w)) log).*1 s) (w_wait w)
              (without i (w_drv w)) log (w_submitted w))
  end.

(** What may happen: a submitter hands in a bio that is not in use, a waiting
    one gets a request that is not in use, the driver ends what it has. *)
Definition enabled (a : action) (w : world D) : Prop :=
  match a with
  | Submit b x => s_bios (w_s w) !! b = None ∧ acceptable L x
  | Grant b i _ _ _ _ => b ∈ w_wait w ∧ i ∉ requests (w_s w) (w_drv w)
  | Dispatch | Start => True
  | End_all i _ => i ∈ w_drv w
  end.

Inductive w_reach (w : world D) : world D → Prop :=
| w_here : w_reach w w
| w_next w1 w2 a : w_reach w w1 → enabled a w1 → w_step a w1 = Some w2 → w_reach w w2.
End world.

(** ** The invariant *)

Section invariant.
Context {D : Type} `{SchedMerge D} (L : limits) (HL : limits_ok L).

Record w_inv (w : world D) (ch : nat → list nat) : Prop := {
  wi_sub : sub_ok L (w_s w) (w_drv w) ch;
  wi_nodup : NoDup (chains (requests (w_s w) (w_drv w)) ch ++ w_wait w);
  wi_dom k : k ∈ chains (requests (w_s w) (w_drv w)) ch ++ w_wait w ↔ is_Some (s_bios (w_s w) !! k);
  wi_wait b x : b ∈ w_wait w → s_bios (w_s w) !! b = Some x → acceptable L x;
  wi_history : w_submitted w ≡ₚ
    (chains (requests (w_s w) (w_drv w)) ch ++ w_wait w) ++ (w_ended w).*1;
}.

Lemma flagged_keener x y k :
  same_static x y → 0 ≤ k → bio_rw_flagged x k = true → bio_rw_flagged y k = true.
Proof.
  unfold bio_rw_flagged. intros (_ & _ & _ & _ & _ & _ & Hst) Hk Hx.
  assert (∀ w, Z.testbit w k = true ↔ Z.land w (2 ^ k) = 2 ^ k) as Hb.
  { intros w. split.
    - intros Hw. apply Z.bits_inj'. intros n Hn. rewrite Z.land_spec, Z.pow2_bits_eqb by done.
      destruct (Z.eqb_spec k n) as [->|]; [by rewrite Hw|by rewrite andb_false_r].
    - intros E. assert (Z.testbit (Z.land w (2 ^ k)) k = true) as Ht by (rewrite E; by apply Z.pow2_bits_true).
      rewrite Z.land_spec in Ht. by apply andb_prop in Ht as [? _]. }
  apply Hb, Hst. by apply Hb.
Qed.

Lemma acceptable_same x y :
  acceptable L x → same_static x y → fresh_bio L y → bio_ok L y → acceptable L y.
Proof.
  intros (_ & _ & Ha) Hst Hf Ho. split_and!; [done|done|]. intros E.
  rewrite (same_static_segs _ _ Hst) in E. eapply flagged_keener; [done|done|by apply Ha].
Qed.

(** A bio that is not in use joins the store. *)
Lemma sub_ok_fresh s drv ch b x :
  sub_ok L s drv ch → s_bios s !! b = None → bio_ok L x →
  sub_ok L (set_s_bios (<[b := x]> (s_bios s)) s) drv ch ∧ b ∉ chains (requests s drv) ch.
Proof.
  intros [Hq [Ho Hr Hn]] Hb Hx.
  assert (∀ i k, i ∈ requests s drv → k ∈ ch i → k ≠ b) as Hne.
  { intros i k Hi Hk ->. destruct (Hr i Hi) as (d & _ & Hok).
    destruct (ro_dom L _ _ _ _ b Hok Hk) as [y Hy]. congruence. }
  split; cycle 1.
  { intros (i & Hbi & Hi)%list_elem_of_bind. by apply (Hne i b). }
  split; [done|]. split; [|intros i Hi|done]; cbn.
  - intros j y. destruct (decide (j = b)) as [->|Hjb].
    + rewrite lookup_insert_eq. by intros [= <-].
    + rewrite lookup_insert_ne by done. apply Ho.
  - destruct (Hr i Hi) as (d & Ed & Hok). exists d. split; [done|].
    eapply request_ok_same; [|exact Hok]. intros k Hk. apply lookup_insert_ne.
    intros ->. by apply (Hne i k).
Qed.

Lemma submit_step w ch b x :
  w_inv w ch → enabled L (Submit b x) w →
  ∃ w' ch', w_step L (Submit b x) w = Some w' ∧ w_inv w' ch'.
Proof.
  intros [Hs Hn Hd Hw Hh] [Hb Ha]. destruct w as [s wait drv log subs]. cbn in *.
  destruct (sub_ok_fresh s drv ch b x Hs Hb) as [Hs1 Hbc]; [apply Ha|].
  set (s1 := set_s_bios _ s) in *.
  assert (b ∉ wait) as Hbw.
  { intros Hin. assert (is_Some (s_bios s !! b)) as [y Hy]; [|congruence].
    apply Hd, elem_of_app. by right. }
  assert (s_bios s1 !! b = Some x) as Hx by (cbn; by rewrite lookup_insert_eq).
  destruct (make_request_merge_spec L HL drv ch b x s1) as (k & s' & -> & (Hdm & Hk & Hab) & Href);
    try done. cbn [mbind option_bind].
  assert (∀ j, is_Some (s_bios s' !! j) ↔ j = b ∨ is_Some (s_bios s !! j)) as Hdom.
  { intros j. rewrite <- !elem_of_dom, Hdm. cbn. rewrite dom_insert_L. set_solver. }
  assert (∀ j y, j ∈ wait → s_bios s' !! j = Some y → acceptable L y) as Hwait.
  { intros j y Hj Hy. apply (Hw j y Hj). rewrite <- Hy, Hk.
    - cbn. rewrite lookup_insert_ne; [done|]. by intros ->.
    - intros [->|Hin]%elem_of_cons; [done|]. apply NoDup_app in Hn as (_ & Hx' & _). by apply (Hx' j). }
  assert (∀ live, live ≡ₚ b :: chains (requests s drv) ch ++ wait →
    NoDup live ∧ (∀ j, j ∈ live ↔ is_Some (s_bios s' !! j)) ∧ subs ++ [b] ≡ₚ live ++ log.*1) as Hlive.
  { intros live Hl. split_and!.
    - rewrite Hl. apply NoDup_cons. split; [|done]. by intros [?|?]%elem_of_app.
    - intros j. by rewrite Hl, Hdom, elem_of_cons, Hd.
    - rewrite Hl, Hh. by rewrite <- Permutation_cons_append. }
  destruct k.
  - destruct Hab as (ch' & Hs' & Hc'). destruct (Hlive (chains (requests s' drv) ch' ++ wait)) as (? & ? & ?).
    { by rewrite Hc'. }
    eexists _, ch'. split; [reflexivity|]. by split.
  - destruct Hab as (Hs' & Erq & Hy).
    destruct (Hlive (chains (requests s' drv) ch ++ wait ++ [b])) as (? & ? & ?).
    { rewrite Erq, (assoc_L (++)). by rewrite <- Permutation_cons_append. }
    eexists _, ch. split; [reflexivity|]. split; try done. cbn.
    intros j y [Hj| ->%list_elem_of_singleton]%elem_of_app Hjy; [by apply (Hwait j)|].
    destruct (Hy x Hx) as (y' & Hy' & Hst & Hf). simplify_eq.
    eapply acceptable_same; [exact Ha|done|done|]. by apply (do_store _ _ _ _ (proj2 Hs') b).
  - rewrite (Href eq_refl). exists (mk_world s wait drv (log ++ [(b, - EOPNOTSUPP)]) (subs ++ [b])), ch. split.
    { do 2 f_equal. unfold give_back. cbn. rewrite delete_insert_id by done. by destruct s. }
    split; try done. cbn. rewrite Hh, fmap_app. cbn. by rewrite (assoc_L (++)).
Qed.

Lemma grant_step w ch b i priv same_comp now group :
  w_inv w ch → enabled L (Grant b i priv same_comp now group) w →
  ∃ w' ch', w_step L (Grant b i priv same_comp now group) w = Some w' ∧ w_inv w' ch'.
Proof.
  intros [Hs Hn Hd Hw Hh] [Hb Hi]. destruct w as [s wait drv log subs]. cbn in *.
  assert (is_Some (s_bios s !! b)) as [x Hx] by (apply Hd, elem_of_app; by right).
  pose proof Hn as (_ & Hdis & Hnw)%NoDup_app.
  assert (b ∉ chains (requests s drv) ch) as Hbc by (intros Hin; by apply (Hdis b)).
  destruct (make_request_new_spec L HL drv ch b i priv same_comp now group x s)
    as (s' & -> & Hdm & Hk & Hrq & Hs'); try done; [by eapply Hw|].
  cbn [mbind option_bind]. eexists _, (put i [b] ch). split; [reflexivity|].
  assert (chains (requests s' drv) (put i [b] ch) ++ without b wait ≡ₚ chains (requests s drv) ch ++ wait) as Hp.
  { rewrite (without_perm b wait) at 2 by done. rewrite (chains_perm _ _ _ Hrq). cbn.
    rewrite put_eq. fold (chains (requests s drv) (put i [b] ch)). rewrite chains_put by done.
    cbn. by rewrite Permutation_middle. }
  split; cbn; try done.
  - by rewrite Hp.
  - intros k. by rewrite Hp, Hd, <- !elem_of_dom, Hdm.
  - intros j y [Hne Hj]%elem_of_without. rewrite Hk by done. by apply Hw.
  - by rewrite Hp.
Qed.

(** The requests move, and what they describe does not change. *)
Lemma moved_w_inv s s' wait drv drv' log subs ch :
  w_inv (mk_world s wait drv log subs) ch → elv_ok (s_q s') drv' →
  requests s' drv' ≡ₚ requests s drv → s_bios s' = s_bios s → s_data s' = s_data s →
  (∀ j, view (rq_of (s_q s') j) = view (rq_of (s_q s) j)) →
  w_inv (mk_world s' wait drv' log subs) ch.
Proof.
  intros [[Hq Hdo] Hn Hd Hw Hh] Hq' Hrq Eb Ed Hv. cbn in *.
  pose proof (chains_perm _ _ ch Hrq) as Hc.
  split; cbn; rewrite ?Eb; try done.
  - split; [done|]. eapply data_ok_perm; [symmetry; exact Hrq|].
    eapply data_ok_grown; [exact Hdo|rewrite Eb; apply (grown_refl L [])|done|done].
  - by rewrite Hc.
  - intros k. by rewrite Hc.
  - by rewrite Hc.
Qed.

Lemma dispatch_step w ch :
  w_inv w ch → ∃ w' ch', w_step L Dispatch w = Some w' ∧ w_inv w' ch'.
Proof.
  intros Hw. destruct w as [s wait drv log subs]. pose proof (proj1 (wi_sub _ _ Hw)) as Hq. cbn in *.
  destruct (dispatch_ok (s_q s) drv Hq) as (c & q' & -> & Hq' & Hqq & Hv & _).
  cbn [mbind option_bind]. eexists _, ch. split; [reflexivity|].
  eapply moved_w_inv; [exact Hw|done| |done..]. unfold requests. cbn. by rewrite Hqq.
Qed.

Lemma start_step w ch :
  w_inv w ch → ∃ w' ch', w_step L Start w = Some w' ∧ w_inv w' ch'.
Proof.
  intros Hw. destruct w as [s wait drv log subs]. pose proof (proj1 (wi_sub _ _ Hw)) as Hq. cbn in *.
  destruct (queue_head (s_q s)) as [|i rest] eqn:Eh; [by eexists _, ch|].
  destruct (start_ok i rest (s_q s) drv Hq Eh) as (q' & -> & Hq' & Hqq & Hv).
  cbn [mbind option_bind]. eexists _, ch. split; [reflexivity|].
  eapply moved_w_inv; [exact Hw|done| |done..]. unfold requests. cbn.
  by rewrite Hqq, <- Permutation_middle.
Qed.

Lemma left_sectors bs l :
  store_ok L bs → (∀ i, i ∈ l → is_Some (bs !! i)) → left_in bs l = 512 * sectors bs l.
Proof.
  intros Ho. induction l as [|i l IH]; intros Hl; [done|].
  destruct (Hl i) as [x Hx]; [by left|]. cbn. rewrite Hx. cbn. fold (left_in bs l). fold (sectors bs l).
  rewrite IH by (intros j Hj; apply Hl; by right). destruct (Ho i x Hx) as (_ & [_ E] & _). lia.
Qed.

(** Ending all of a request ends each of its bios. *)
Lemma update_request_all bs r d l err log :
  store_ok L bs → request_ok L bs r d l → NoDup l →
  ∃ r' d', blk_update_request L false err (r_data_len d) r d (mk_ending bs ∅ log 0) =
      Some (false, r', d', finish err l (mk_ending bs ∅ log 0)) ∧ er_pos r' = er_pos r.
Proof.
  intros Ho Hr Hn. destruct (ro_ends _ _ _ _ _ Hr) as (Hb & _ & Hne), (ro_len _ _ _ _ _ Hr) as (Hl & _ & Hlt).
  assert (left_in bs l = r_data_len d) as El
    by (rewrite Hl; apply left_sectors; [done|]; intros i; by eapply ro_dom).
  destruct (placed_range L _ _ _ Ho (ro_placed _ _ _ _ _ Hr) Hne) as (_ & _ & Hs0).
  destruct (update_all L err (r_data_len d) r d (mk_ending bs ∅ log 0) l)
    as (r' & d' & E & _ & _ & Ep); cbn [e_bios]; try done; [by eapply ro_linked|..|rewrite El; lia|by exists r', d'].
  - intros i x _ Hx. destruct (Ho i x Hx) as (_ & [? _] & _). done.
  - intros i x Hi Hx. destruct (ro_segs _ _ _ _ _ Hr) as [(_ & _ & _ & H1')|[[Hsg _] _]].
    + destruct l as [|? [|? ?]]; try done. by apply not_elem_of_nil in Hi.
    + destruct (Ho i x Hx) as (_ & _ & _ & _ & _ & _ & Hpos). apply Hpos.
      eapply Hsg; [|exact Hx]. by destruct l; [|right].
Qed.

Lemma end_spec s drv ch i err log :
  sub_ok L s drv ch → i ∈ drv →
  ∃ s', __blk_end_request_all L i err log s =
      Some (s', log ++ ((λ b, (b, end_code err ∅ b)) <$> ch i)) ∧
    elv_ok (s_q s') (without i drv) ∧ queued (s_q s') = queued (s_q s) ∧
    (∀ k, k ≠ i → rq_of (s_q s') k = rq_of (s_q s) k ∧ s_data s' !! k = s_data s !! k) ∧
    (∀ k, k ∉ ch i → s_bios s' !! k = s_bios s !! k).
Proof.
  intros [Hq Hd] Hi. assert (i ∈ requests s drv) as Hir by (apply elem_of_app; by right).
  destruct (do_rq _ _ _ _ Hd i Hir) as (d & Ed & Hr).
  pose proof (chain_nodup _ _ _ (do_nodup _ _ _ _ Hd) Hir) as Hnd.
  destruct (update_request_all (s_bios s) (rq_of (s_q s) i) d (ch i) err log) as (r' & d' & E & Ep);
    [by destruct Hd|done|done|].
  pose proof (eo_nodup _ _ Hq) as (_ & Hdis & Hnd')%NoDup_app.
  assert (i ∉ queued (s_q s)) as Hiq by (intros Hin; by apply (Hdis i)).
  unfold __blk_end_request_all. rewrite Ed. cbn [mbind option_bind]. rewrite E. cbn [mbind option_bind orb].
  rewrite bool_decide_false by done.
  set (s1 := set_data i d' _).
  destruct (put_done_ok s1 drv (without i drv) i) as (q' & -> & Hq' & Hqq & Hk).
  { apply elv_ok_upd; [done|done|]. rewrite Ep. apply (eo_pos _ _ Hq). }
  { by apply without_perm. }
  cbn [mbind option_bind]. eexists. split; [by rewrite finish_ended|]. cbn [s_q s_data s_bios].
  split_and!; try done.
  - intros k Hne. rewrite Hk by done. cbn. rewrite rq_of_upd, decide_False by done.
    by rewrite lookup_delete_ne, lookup_insert_ne.
  - intros k Hkc. cbn. by rewrite finish_other.
Qed.

Lemma lookup_given l (bs : bio_store) k :
  foldr delete bs l !! k = if decide (k ∈ l) then None else bs !! k.
Proof.
  induction l as [|i l IH]; [by rewrite decide_False by apply not_elem_of_nil|]. cbn.
  destruct (decide (k = i)) as [->|Hne].
  - rewrite lookup_delete_eq, decide_True; [done|by left].
  - rewrite lookup_delete_ne, IH by done.
    destruct (decide (k ∈ l)); [rewrite decide_True; [done|by right]|].
    rewrite decide_False; [done|]. by intros [?|?]%elem_of_cons.
Qed.

Lemma end_step w ch i err :
  w_inv w ch → enabled L (End_all i err) w →
  ∃ w' ch', w_step L (End_all i err) w = Some w' ∧ w_inv w' ch'.
Proof.
  intros [Hs Hn Hd Hw Hh] Hi. destruct w as [s wait drv log subs]. cbn in *.
  destruct (end_spec s drv ch i err log Hs Hi) as (s' & -> & Hq' & Hqq & Hk & Hb).
  cbn [mbind option_bind]. destruct Hs as [Hq Hdo].
  pose proof (eo_nodup _ _ Hq) as Hnd. pose proof Hnd as (_ & _ & Hnd')%NoDup_app.
  rewrite drop_app_length, ended_ids. set (s2 := give_back (ch i) s').
  assert (requests s drv ≡ₚ i :: requests s2 (without i drv)) as Hrq.
  { unfold requests. cbn. rewrite Hqq, (without_perm i drv) at 1 by done. by rewrite Permutation_middle. }
  assert (chains (requests s drv) ch ≡ₚ ch i ++ chains (requests s2 (without i drv)) ch) as Hc
    by (by rewrite (chains_perm _ _ ch Hrq)).
  assert (∀ k, k ∉ ch i → s_bios s2 !! k = s_bios s !! k) as Hb2.
  { intros k Hkc. cbn. rewrite lookup_given, decide_False by done. by apply Hb. }
  rewrite Hc, <- (assoc_L (++)) in Hn. apply NoDup_app in Hn as (_ & Hdis & Hn).
  eexists _, ch. split; [reflexivity|]. split; cbn [w_s w_wait w_drv w_ended w_submitted].
  - split; [done|]. split.
    + intros k x Hx. cbn in Hx. rewrite lookup_given in Hx. case_decide; [done|].
      rewrite Hb in Hx by done. by eapply Hdo.
    + intros j Hj. assert (j ≠ i) as Hji.
      { intros ->. rewrite Hrq in Hnd. by apply NoDup_cons in Hnd as [? _]. }
      destruct (do_rq _ _ _ _ Hdo j) as (d & Ed & Hr); [rewrite Hrq; by right|].
      destruct (Hk j Hji) as [Er Edj]. exists d. cbn. rewrite Er, Edj. split; [done|].
      eapply request_ok_same; [|exact Hr]. intros k Hkj. apply Hb2. intros Hki.
      apply (Hdis k Hki), elem_of_app. left. by eapply chains_elem.
    + by apply NoDup_app in Hn as [? _].
  - done.
  - intros k. destruct (decide (k ∈ ch i)) as [Hki|Hki].
    + cbn. rewrite lookup_given, decide_True by done. split; [|by intros [? ?]].
      intros Hin. by apply (Hdis k) in Hin.
    + rewrite Hb2 by done. rewrite <- Hd, Hc, <- (assoc_L (++)). rewrite (elem_of_app (ch i)). tauto.
  - intros b x Hbw. rewrite Hb2; [by apply Hw|]. intros Hbi.
    apply (Hdis b Hbi), elem_of_app. by right.
  - rewrite Hh, Hc, fmap_app, ended_ids. rewrite <- !(assoc_L (++)).
    rewrite (Permutation_app_comm log.*1), !(assoc_L (++)). f_equiv.
    rewrite <- !(assoc_L (++)). rewrite Permutation_app_comm, <- !(assoc_L (++)). done.
Qed.

(** How much of a request may fail at once. *)
Definition may_fail (bs : bio_store) (d : rq_data) (n : Z) (l1 l2 : list nat) : Prop :=
  n = left_in bs l1 ∧ (0 < r_data_len d → 0 < n ≤ r_data_len d) ∧
  if r_mixed d then
    Forall (eager bs (r_failfast d)) l1 ∧ (∀ i, head l2 = Some i → ¬ eager bs (r_failfast d) i)
  else l2 = [].

Lemma err_progress bs r d l :
  store_ok L bs → request_ok L bs r d l → NoDup l →
  ∃ n l1 l2, l = l1 ++ l2 ∧ blk_rq_err_bytes d bs = Some n ∧ may_fail bs d n l1 l2.
Proof.
  intros Ho Hr Hn. destruct (ro_ends _ _ _ _ _ Hr) as (Hb & _ & Hne), (ro_len _ _ _ _ _ Hr) as (Hl & _ & Hlt).
  pose proof (ro_linked _ _ _ _ _ Hr) as Hlk.
  assert (left_in bs l = r_data_len d) as El
    by (rewrite Hl; apply left_sectors; [done|]; intros i; by apply linked_elem).
  unfold may_fail. destruct (r_mixed d) eqn:Em; cycle 1.
  { exists (r_data_len d), l, []. rewrite app_nil_r. unfold blk_rq_err_bytes. rewrite Em.
    split_and!; done || lia. }
  pose proof (ro_mixed _ _ _ _ _ Hr Em) as Hmix.
  assert (∀ i, head l = Some i → eager bs (r_failfast d) i) as Hhead.
  { intros i Hi. destruct (linked_elem bs l i) as [x Hx]; [done|by apply head_Some_elem_of|].
    exists x. split; [done|]. by eapply Hmix. }
  destruct (ro_segs _ _ _ _ _ Hr) as [(_ & _ & _ & H1')|[[Hsg _] _]].
  - destruct l as [|b [|? ?]]; try done. destruct (Hhead b eq_refl) as (x & Hx & He).
    destruct (Ho b x Hx) as (_ & [Hsz _] & _).
    exists (left_in bs [b]), [b], []. rewrite El. cbn in El. rewrite Hx in El. cbn in El.
    unfold blk_rq_err_bytes. rewrite Em, Hb, (for_each_linked bs [b]) by done. cbn -[truthy u32].
    rewrite Hx. cbn -[truthy u32]. rewrite He, Z.eqb_refl, Z.add_0_l, u32_small by done.
    assert ((truthy (r_data_len d) && (bi_size x =? 0)) = false) as ->.
    { unfold truthy. destruct (Z.eqb_spec (r_data_len d) 0), (Z.eqb_spec (bi_size x) 0); try done. lia. }
    split_and!; try done; try lia; [f_equal; lia|]. apply Forall_singleton. by apply Hhead.
  - assert (∀ i x, i ∈ l → bs !! i = Some x → 0 < bi_size x) as Hpos.
    { intros i x Hi Hx. destruct (Ho i x Hx) as (_ & _ & _ & _ & _ & _ & Hp). by apply Hp, (Hsg i). }
    destruct (err_boundary d bs l) as (l1 & l2 & -> & Hne1 & E & He1 & He2); try done; [lia|].
    destruct (left_pos bs l1 l2 Hlk Hpos Hne1). exists (left_in bs l1), l1, l2. split_and!; done || lia.
Qed.

Lemma w_step_inv w ch a :
  w_inv w ch → enabled L a w → ∃ w' ch', w_step L a w = Some w' ∧ w_inv w' ch'.
Proof.
  intros Hw He. destruct a as [b x|b i priv same_comp now group| | |i err].
  - by eapply submit_step.
  - by eapply grant_step.
  - by eapply dispatch_step.
  - by eapply start_step.
  - by eapply end_step.
Qed.

(** A queue as [blk_init_queue] and [elevator_init] leave it. *)
Definition booted (q : rqueue D) : Prop :=
  sched_inv q ∧ queued q = [] ∧ nr_sorted q = 0 ∧ hash q = ∅ ∧ last_merge q = None ∧
  rqs q = ∅ ∧ q_ordseq q = 0.

Definition boot (q : rqueue D) : world D := mk_world (mk_subq q ∅ ∅) [] [] [] [].

Lemma boot_inv q : booted q → w_inv (boot q) (λ _, []).
Proof.
  intros (Hi & Hq & Hn & Hh & Hl & Hr & Ho).
  assert (sched_contents (edata q) = [] ∧ queue_head q = []) as [Hc Hqh].
  { unfold queued in Hq. by apply app_eq_nil in Hq as [? ?]. }
  assert (requests (mk_subq q ∅ ∅) [] = []) as Er.
  { unfold requests. cbn. by rewrite Hq. }
  split; cbn [w_s w_drv w_wait w_ended w_submitted boot s_bios]; rewrite ?Er; try done.
  - split.
    + split; try done.
      * unfold sorted_ok. cbn. by rewrite Hn, Hc.
      * cbn. rewrite Hq. constructor.
      * intros j. cbn. rewrite Hl. unfold on_hash. rewrite Hh. intros [E|E]; [|done].
        exfalso. revert E. by vm_compute.
      * intros j. cbn. unfold rq_of. by rewrite Hr.
    + rewrite Er. split; [intros i x; cbn; by rewrite lookup_empty|by intros i ?%elem_of_nil|constructor].
  - constructor.
  - intros k. rewrite lookup_empty. split; [by intros ?%elem_of_nil|by intros [? ?]].
Qed.

Lemma reach_inv q w : booted q → w_reach L (boot q) w → ∃ ch, w_inv w ch.
Proof.
  intros Hb. induction 1 as [|w1 w2 a _ [ch IH] He Es]; [eexists; by apply boot_inv|].
  destruct (w_step_inv w1 ch a IH He) as (w' & ch' & E & Hw'). rewrite E in Es.
  apply (inj Some) in Es as <-. eauto.
Qed.
End invariant.

(** ** A concrete queue *)

(** The part of [enabled] that can be computed. *)
Definition fits {D} `{Sched D} (a : action) (w : world D) : bool :=
  match a with
  | Submit b x => match s_bios (w_s w) !! b with None => true | Some _ => false end
  | Grant b i _ _ _ _ => bool_decide (b ∈ w_wait w) && negb (bool_decide (i ∈ requests (w_s w) (w_drv w)))
  | Dispatch | Start => true
  | End_all i _ => bool_decide (i ∈ w_drv w)
  end.

Fixpoint w_run {D} `{Sched D, Neighbours D} (L : limits) (acts : list action) (w : world D)
    : option (world D) :=
  match acts with
  | [] => Some w
  | a :: acts => if fits a w then w ← w_step L a w; w_run L acts w else None
  end.

Definition accepted (L : limits) (a : action) : Prop :=
  match a with Submit _ x => acceptable L x | _ => True end.

Lemma fits_enabled {D} `{Sched D} L a (w : world D) :
  fits a w = true → accepted L a → enabled L a w.
Proof.
  destruct a as [b x|b i priv same_comp now group| | |i err]; cbn; try done.
  - by destruct (s_bios (w_s w) !! b).
  - intros [Hb Hi]%andb_prop _. apply bool_decide_eq_true in Hb.
    by apply negb_true_iff, bool_decide_eq_false in Hi.
  - intros Hi _. by apply bool_decide_eq_true in Hi.
Qed.

Lemma run_reach {D} `{Sched D, Neighbours D} L acts : ∀ (w0 w w' : world D),
  w_reach L w0 w → Forall (accepted L) acts → w_run L acts w = Some w' → w_reach L w0 w'.
Proof.
  induction acts as [|a acts IH]; intros w0 w w' Hr He E; [by simplify_eq/=|].
  apply Forall_cons in He as [Ha He]. cbn in E. destruct (fits a w) eqn:Ef; [|done].
  destruct (w_step L a w) as [w1|] eqn:Es; [|done].
  eapply IH; [|exact He|exact E]. eapply w_next; [exact Hr|by apply fits_enabled|exact Es].
Qed.

Definition demo_limits : limits := mk_limits true (2 ^ 40) (2 ^ 32 - 1) 65536 128 1024 1024 0 0 0.

(** A bio of one page, and a discard of eight sectors with its payload of one. *)
Definition page_bio (sector page rw : Z) : bio :=
  mk_bio sector None 0 false false rw 0 0 4096 0 0 (2 ^ 32 - 1) (Some [mk_bv page 4096 0]) false.
Definition discard_bio (sector page : Z) : bio :=
  mk_bio sector None 0 false false 513 0 0 4096 0 0 (2 ^ 32 - 1) (Some [mk_bv page 512 0]) false.

Definition new_queue : rqueue deadline_data :=
  mk_rqueue ∅ [] 0 0 None None ∅ false idle_ord false false
    (default (mk_dd (mk_two [] []) (mk_two [] []) (mk_two None None) 0 0 0 (mk_two 0 0) 0 0 0 0)
       (deadline_init_queue true 1000)).

Lemma demo_limits_ok : limits_ok demo_limits.
Proof. by split; vm_compute. Qed.

Lemma new_queue_booted : booted new_queue.
Proof.
  split_and!; try done. apply (dl_reach_inv new_queue). by apply dl_start with 1000.
Qed.

Lemma one_vec_ok L sector rw size page len :
  0 ≤ sector → sector + Z.shiftr size 9 < 2 ^ 64 → 0 < size < 2 ^ 32 →
  size = 512 * Z.shiftr size 9 → vec_ok L (mk_bv page len 0) →
  acceptable L (mk_bio sector None 0 false false rw 0 0 size 0 0 (2 ^ 32 - 1)
                  (Some [mk_bv page len 0]) false).
Proof.
  intros H1 H2 H3 H4 H5. split_and!; [|done|done]. unfold bio_ok. cbn.
  split_and!; try done; try lia. by apply Forall_singleton.
Qed.

(** Four reads, the second and the fourth of which are merged; the last one
    joins the two requests, and its driver starts the result. *)
Definition demo_actions : list action :=
  [Submit 0 (page_bio 0 10 0); Grant 0 7 true false 0 0; Submit 1 (page_bio 8 11 0);
   Submit 2 (page_bio 24 20 2); Grant 2 8 true false 0 0; Submit 3 (page_bio 16 12 0);
   Dispatch; Start].

Definition demo_world : world deadline_data :=
  default (boot new_queue) (w_run demo_limits demo_actions (boot new_queue)).

Lemma demo_accepted : Forall (accepted demo_limits) demo_actions.
Proof. repeat apply Forall_cons_2; try done; apply one_vec_ok; split_and?; by vm_compute. Qed.

Lemma demo_reach : w_reach demo_limits (boot new_queue) demo_world.
Proof.
  apply (run_reach demo_limits demo_actions _ (boot new_queue));
    [constructor|apply demo_accepted|by vm_compute].
Qed.

(** ** Theorems *)





(** C14: a request with data that the driver has started can be mapped: the
    table of the size that its number of segments gives (with the entry for
    the drain) is not overrun, and its entries cover exactly the bytes of its
    bios in order, each within the limits of the queue on the size of a
    segment and its boundary. *)
Theorem requests_mapped {D} `{SchedMerge D} L (q : rqueue D) w i d needed :
  limits_ok L → booted q → w_reach L (boot q) w → i ∈ w_drv w →
  s_data (w_s w) !! i = Some d → r_nr_phys_segments d ≠ 0 →
  ∃ l n sgl d',
    for_each_bio (s_bios (w_s w)) (r_bio d) = Some l ∧
    scsi_init_sgtable L true needed (s_bios (w_s w)) (reserve_drain L d) =
      Some (Some (sgl, r_data_len d), d') ∧
    describes L (drained L needed) (vecs (s_bios (w_s w)) l) n sgl ∧
    Z.of_nat n ≤ r_nr_phys_segments d ∧ (length l = 1%nat ∨ Z.of_nat n ≤ max_segments L).
Proof.
  intros HL Hb Hr Hi Ed Hnr. destruct (reach_inv L HL q w Hb Hr) as [ch [[_ Hd] _ _ _ _]].
  assert (i ∈ requests (w_s w) (w_drv w)) as Hir by (apply elem_of_app; by right).
  destruct (do_rq _ _ _ _ Hd i Hir) as (d0 & Ed0 & Hok). rewrite Ed in Ed0. apply (inj Some) in Ed0 as <-.
  assert (for_each_bio (s_bios (w_s w)) (r_bio d) = Some (ch i)) as Hf.
  { destruct (ro_ends _ _ _ _ _ Hok) as (-> & _). apply for_each_linked; [by eapply ro_linked|].
    by eapply chain_nodup, Hir; destruct Hd. }
  destruct (ro_segs _ _ _ _ _ Hok) as [(_ & _ & ? & _)|[(_ & f & sz & Hc & _) Hpos]]; [done|].
  destruct (ro_len _ _ _ _ _ Hok) as (El & _), (ro_flags _ _ _ _ _ Hok) as (_ & _ & _ & Hcu & _).
  destruct (scatter_list_fits L needed (s_bios (w_s w)) d (ch i) (vecs (s_bios (w_s w)) (ch i)) f sz)
    as (n & sgl & d' & E & Hdes & Hn & _); try done.
  - by apply lo_size.
  - split_and!; try done. apply vecs_ok. by destruct Hd.
  - by apply (ro_nr _ _ _ _ _ Hok).
  - lia.
  - exists (ch i), n, sgl, d'. split_and!; try done.
    destruct (ro_max _ _ _ _ _ Hok) as [?|[? _]]; [by left|right; lia].
Qed.

Lemma requests_mapped_witness :
  ∃ d l n sgl d', s_data (w_s demo_world) !! 7%nat = Some d ∧ r_data_len d = 16384 ∧
    scsi_init_sgtable demo_limits true true (s_bios (w_s demo_world)) (reserve_drain demo_limits d) =
      Some (Some (sgl, r_data_len d), d') ∧
    describes demo_limits (drained demo_limits true) (vecs (s_bios (w_s demo_world)) l) n sgl.
Proof.
  set (d := default (mk_rd None None 0 0 0 false false 0 0 0 0) (s_data (w_s demo_world) !! 7%nat)).
  destruct (requests_mapped demo_limits new_queue demo_world 7 d true)
    as (l & n & sgl & d' & _ & E & Hd & _);
    [exact demo_limits_ok|exact new_queue_booted|exact demo_reach|..].
  - apply (bool_decide_unpack _). by vm_compute.
  - by vm_compute.
  - by vm_compute.
  - exists d, l, n, sgl, d'. split_and!; [by vm_compute|by vm_compute|exact E|exact Hd].
Defined.

(** C16: when the driver fails a started request, whatever merges of different
    failure attributes it consists of, the number of bytes to fail at once is
    computed without hitting the BUG on no progress: it is the size of the
    bios at the front that are as eager to fail as the request, up to the
    first that is to be retried further, or that of the whole request if
    nothing was mixed. *)
Theorem failures_progress {D} `{SchedMerge D} L (q : rqueue D) w i d :
  limits_ok L → booted q → w_reach L (boot q) w → i ∈ w_drv w →
  s_data (w_s w) !! i = Some d →
  ∃ n l1 l2, for_each_bio (s_bios (w_s w)) (r_bio d) = Some (l1 ++ l2) ∧
    blk_rq_err_bytes d (s_bios (w_s w)) = Some n ∧ may_fail (s_bios (w_s w)) d n l1 l2.
Proof.
  intros HL Hb Hr Hi Ed. destruct (reach_inv L HL q w Hb Hr) as [ch [[_ Hd] _ _ _ _]].
  assert (i ∈ requests (w_s w) (w_drv w)) as Hir by (apply elem_of_app; by right).
  destruct (do_rq _ _ _ _ Hd i Hir) as (d0 & Ed0 & Hok). rewrite Ed in Ed0. apply (inj Some) in Ed0 as <-.
  assert (NoDup (ch i)) as Hn by (by eapply chain_nodup, Hir; destruct Hd).
  destruct (err_progress L _ _ _ _ (do_store _ _ _ _ Hd) Hok Hn) as (n & l1 & l2 & El & E & Hm).
  exists n, l1, l2. split_and!; [|done|done]. rewrite <- El.
  destruct (ro_ends _ _ _ _ _ Hok) as (-> & _). apply for_each_linked; [by eapply ro_linked|done].
Qed.

Lemma failures_progress_witness :
  ∃ d n l1 l2, s_data (w_s demo_world) !! 7%nat = Some d ∧ r_mixed d = true ∧
    blk_rq_err_bytes d (s_bios (w_s demo_world)) = Some n ∧
    may_fail (s_bios (w_s demo_world)) d n l1 l2.
Proof.
  set (d := default (mk_rd None None 0 0 0 false false 0 0 0 0) (s_data (w_s demo_world) !! 7%nat)).
  destruct (failures_progress demo_limits new_queue demo_world 7 d) as (n & l1 & l2 & _ & E & Hm);
    [exact demo_limits_ok|exact new_queue_booted|exact demo_reach|..].
  - apply (bool_decide_unpack _). by vm_compute.
  - by vm_compute.
  - exists d, n, l1, l2. split_and!; [by vm_compute|by vm_compute|exact E|exact Hm].
Defined.

(** A discard of the sectors 0 to 7, a write of 16 to 23 and a write of 8 to 15. *)
Definition discard_actions : list action :=
  [Submit 0 (discard_bio 0 10); Grant 0 7 true false 0 0; Submit 1 (page_bio 16 11 1);
   Grant 1 8 true false 0 0; Submit 2 (page_bio 8 12 1); Dispatch; Start].

Definition discard_world : world deadline_data :=
  default (boot new_queue) (w_run demo_limits discard_actions (boot new_queue)).

Lemma discard_reach : w_reach demo_limits (boot new_queue) discard_world.
Proof.
  apply (run_reach demo_limits discard_actions _ (boot new_queue)); [constructor| |by vm_compute].
  repeat apply Forall_cons_2; try done; apply one_vec_ok; split_and?; by vm_compute.
Qed.

